(** * Env.js: namespace resolution, shortcut verification, includes and
      reachability

    A shallow embedding of [src/js/modules/Env.js].

    Conventions of the embedding.
    - A JavaScript string is the list of its UTF-16 code units, so that
      [length] is the source's [.length] and the regular expression of
      [verifyShortcuts] sees exactly the code units the engine sees.
    - A JavaScript value is a tree.  Objects and arrays are ordered lists of
      own properties, kept in the order in which [for ... in],
      [Object.values] and [Object.assign] enumerate them (array-index keys
      first, ascending, then the other keys in insertion order).  Of the
      properties an object inherits from [Object.prototype] the embedding
      keeps the names ([inherited]): the test of [getShortcutFromNamespace]
      and the [in] of [addReachable] succeed on them.  Reading one yields a
      function or, for [__proto__], the prototype: a value without own
      enumerable properties and without [shortcuts]; where it is only
      merged, it is read as [undefined].  Numbers are integers in the range in which
      [String] prints a number by its decimal digits.
    - The documents returned by the YAML parser are trees: no two places of a
      parsed document hold the same object.
    - [fetchShortcuts], [addIncludes] and [getShortcutFromNamespace] are
      [async] functions whose callers await them: each is modelled by what
      it computes when awaited to completion.  [getNamespaceInfos] starts
      callbacks that it does not await; its model follows the order in which
      the job queue runs them, an [await] of a settled promise taking one
      turn; the rounds of the queue that follow its return are
      [getNamespaceInfosAfter], and [populate] ends after the first of
      them.  A rejected promise and a thrown [TypeError] are both the
      outcome [Throw].
    - [this] is an explicit record threaded through the methods that read or
      write it; [Helper.log] appends to the record's log.
    - The methods that merge the settings ([getParams], [populate] up to the
      call of [getNamespaceInfos], [setWithUserConfigFromGithub],
      [setDefaults] and the methods these call) read and write arbitrary
      properties of [this]: for them [this] is the list of its own
      properties, with the logged messages beside it, and the collaborators
      outside the file are the fields of a record.
    - The functions of the script of the call page ([getSearchParameters],
      [transformToAssocArray], [splitOnce], [buildFetchUrl]) follow the
      settings; they take and return strings. *)

From Stdlib Require Import List ZArith NArith Lia Bool String Ascii Arith.
From Stdlib Require Import DecimalString Permutation Sorted.
Import ListNotations.

#[local] Set Warnings "-register-all".
#[local] Set Default Proof Using "Type".
Local Open Scope Z_scope.

(** ** Strings *)

Definition jsstring := list N.

Definition js (s : string) : jsstring :=
  map N_of_ascii (list_ascii_of_string s).

Fixpoint eqb_js (a b : jsstring) : bool :=
  match a, b with
  | [], [] => true
  | x :: a', y :: b' => N.eqb x y && eqb_js a' b'
  | _, _ => false
  end.

(** Decimal image of an array index, as [String(i)] gives it. *)
Definition indexKey (i : nat) : jsstring :=
  js (NilEmpty.string_of_uint (Nat.to_uint i)).

Definition isDigit (c : N) : bool := (N.leb 48 c && N.leb c 57)%bool.

(** [\s] of an ECMAScript regular expression without the [u] flag:
    WhiteSpace and LineTerminator code units. *)
Definition isWhiteSpace (c : N) : bool :=
  (N.leb 9 c && N.leb c 13
   || N.eqb c 32 || N.eqb c 160 || N.eqb c 5760
   || N.leb 8192 c && N.leb c 8202
   || N.eqb c 8232 || N.eqb c 8233 || N.eqb c 8239 || N.eqb c 8287
   || N.eqb c 12288 || N.eqb c 65279)%bool.

Fixpoint digitsValue (acc : N) (s : jsstring) : option N :=
  match s with
  | [] => Some acc
  | c :: s' => if isDigit c then digitsValue (acc * 10 + (c - 48))%N s' else None
  end.

(** An array index is a canonical numeric string below 2^32 - 1. *)
Definition arrayIndex (k : jsstring) : option N :=
  match k with
  | [] => None
  | c :: rest =>
      if (N.eqb c 48 && negb (Nat.eqb (List.length rest) 0))%bool then None
      else match digitsValue 0%N k with
           | Some n => if N.ltb n 4294967295 then Some n else None
           | None => None
           end
  end.

(** [String.prototype.split] with a one-unit separator. *)
Fixpoint splitAux (sep : N) (cur : jsstring) (s : jsstring) : list jsstring :=
  match s with
  | [] => [rev cur]
  | c :: s' => if N.eqb c sep then rev cur :: splitAux sep [] s'
               else splitAux sep (c :: cur) s'
  end.

Definition split (sep : N) (s : jsstring) : list jsstring := splitAux sep [] s.

(** ** Values *)

Inductive kind := Plain | Array.

Inductive value :=
| VUndef
| VNull
| VBool (b : bool)
| VNum (z : Z)
| VStr (s : jsstring)
| VObj (k : kind) (props : list (jsstring * value)).

Definition props := list (jsstring * value).

Definition truthy (v : value) : bool :=
  match v with
  | VUndef | VNull => false
  | VBool b => b
  | VNum z => negb (Z.eqb z 0)
  | VStr s => negb (Nat.eqb (List.length s) 0)
  | VObj _ _ => true
  end.

Definition isString (v : value) : bool :=
  match v with VStr _ => true | _ => false end.

(** Outcome of a computation that may throw. *)
Inductive result (A : Type) :=
| Ok (a : A)
| Throw.
Arguments Ok {A} a.
Arguments Throw {A}.

Definition bind {A B} (r : result A) (f : A -> result B) : result B :=
  match r with Ok a => f a | Throw => Throw end.

Notation "'let*' x ':=' r 'in' k" := (bind r (fun x => k))
  (at level 10, x pattern, r at level 100, k at level 200).

(** ** Own properties *)

Fixpoint lookup {A} (k : jsstring) (ps : list (jsstring * A)) : option A :=
  match ps with
  | [] => None
  | (k', v) :: ps' => if eqb_js k k' then Some v else lookup k ps'
  end.

Definition hasKey {A} (k : jsstring) (ps : list (jsstring * A)) : bool :=
  match lookup k ps with Some _ => true | None => false end.

(** The names of the properties of [Object.prototype], which every object
    literal and every object built by [Object.fromEntries] inherits. *)
Definition inheritedNames : list jsstring :=
  map js ["constructor"; "__defineGetter__"; "__defineSetter__";
          "hasOwnProperty"; "__lookupGetter__"; "__lookupSetter__";
          "isPrototypeOf"; "propertyIsEnumerable"; "toString"; "valueOf";
          "__proto__"; "toLocaleString"]%string.

Definition inherited (k : jsstring) : bool :=
  existsb (eqb_js k) inheritedNames.

Fixpoint replaceProp {A} (k : jsstring) (v : A) (ps : list (jsstring * A)) :=
  match ps with
  | [] => []
  | (k', v') :: ps' =>
      if eqb_js k k' then (k', v) :: ps' else (k', v') :: replaceProp k v ps'
  end.

(** A new array-index key goes before the first key that is no array index
    or a larger one; any other new key goes last. *)
Fixpoint insertIndex {A} (i : N) (k : jsstring) (v : A)
    (ps : list (jsstring * A)) :=
  match ps with
  | [] => [(k, v)]
  | (k', v') :: ps' =>
      match arrayIndex k' with
      | Some j => if N.ltb j i then (k', v') :: insertIndex i k v ps'
                  else (k, v) :: ps
      | None => (k, v) :: ps
      end
  end.

(** [o[k] = v] on the own properties of an object. *)
Definition setOwn {A} (k : jsstring) (v : A) (ps : list (jsstring * A)) :=
  if hasKey k ps then replaceProp k v ps
  else match arrayIndex k with
       | Some i => insertIndex i k v ps
       | None => ps ++ [(k, v)]
       end.

Fixpoint arrayLength (ps : props) : Z :=
  match ps with
  | [] => 0
  | (k, _) :: ps' =>
      match arrayIndex k with
      | Some i => Z.max (Z.of_N i + 1) (arrayLength ps')
      | None => arrayLength ps'
      end
  end.

Definition lengthKey : jsstring := js "length".

(** [v[k]]: reading a property of [undefined] or [null] throws. *)
Definition getProp (v : value) (k : jsstring) : result value :=
  match v with
  | VUndef | VNull => Throw
  | VBool _ | VNum _ => Ok VUndef
  | VStr s =>
      if eqb_js k lengthKey then Ok (VNum (Z.of_nat (List.length s)))
      else match arrayIndex k with
           | Some i => match nth_error s (N.to_nat i) with
                       | Some c => Ok (VStr [c])
                       | None => Ok VUndef
                       end
           | None => Ok VUndef
           end
  | VObj kd ps =>
      match lookup k ps with
      | Some x => Ok x
      | None =>
          match kd with
          | Array => if eqb_js k lengthKey then Ok (VNum (arrayLength ps))
                     else Ok VUndef
          | Plain => Ok VUndef
          end
      end
  end.

(** [v[k] = x] in strict mode (the file is an ES module): assigning to a
    property of a primitive throws. *)
Definition setProp (v : value) (k : jsstring) (x : value) : result value :=
  match v with
  | VObj kd ps => Ok (VObj kd (setOwn k x ps))
  | _ => Throw
  end.

Fixpoint charProps (i : nat) (s : jsstring) : props :=
  match s with
  | [] => []
  | c :: s' => (indexKey i, VStr [c]) :: charProps (S i) s'
  end.

(** Own enumerable properties, in enumeration order. *)
Definition ownEnumerable (v : value) : props :=
  match v with
  | VObj _ ps => ps
  | VStr s => charProps 0 s
  | _ => []
  end.

Definition forInKeys (v : value) : list jsstring := map fst (ownEnumerable v).

Definition assignProps (target source : props) : props :=
  fold_left (fun t kv => setOwn (fst kv) (snd kv) t) source target.

(** [Object.assign(target, source)] as it acts on the store: an object target
    is updated in place; [undefined] and [null] throw; any other primitive is
    boxed into a temporary, so the stored value stays as it is. *)
Definition objectAssign (target source : value) : result value :=
  match target with
  | VObj kd ps => Ok (VObj kd (assignProps ps (ownEnumerable source)))
  | VUndef | VNull => Throw
  | _ => Ok target
  end.

(** ** Sparse arrays indexed by number

    [promises] and [responses] of [fetchShortcuts] are arrays written and
    read at [namespaceInfo.priority]; a hole reads as [undefined]. *)

Fixpoint arraySet {A} (i : nat) (x : A) (l : list (option A)) : list (option A) :=
  match i, l with
  | O, [] => [Some x]
  | O, _ :: l' => Some x :: l'
  | S i', [] => None :: arraySet i' x []
  | S i', y :: l' => y :: arraySet i' x l'
  end.

Definition arrayGet {A} (i : nat) (l : list (option A)) : option A :=
  match nth_error l i with
  | Some o => o
  | None => None
  end.

(** ** The environment and the namespace descriptors *)

(** An absent property of a descriptor is [None]; a present one is a
    string. *)
Record namespaceInfo := mkInfo {
  name : option jsstring;
  type : option jsstring;
  url : option jsstring;
  github : option jsstring;
  priority : option Z;
  shortcuts : value
}.

(** A namespace spec of the caller's list: a string or an object. *)
Inductive namespace :=
| NsString (s : jsstring)
| NsObject (o : namespaceInfo).

Definition infos := list (jsstring * namespaceInfo).

(** The fields of [this] that the modelled methods read or write. *)
Record env := mkEnv {
  this_github : option jsstring;
  this_reload : bool;
  this_debug : bool;
  this_error : bool;
  this_log : list jsstring
}.

Definition log (msg : jsstring) (e : env) : env :=
  mkEnv (this_github e) (this_reload e) (this_debug e) (this_error e)
        (this_log e ++ [msg]).

Definition setError (e : env) : env :=
  mkEnv (this_github e) (this_reload e) (this_debug e) true (this_log e).

Definition truthyStr (o : option jsstring) : bool :=
  match o with
  | Some (_ :: _) => true
  | _ => false
  end.

(** String image of a possibly absent string, as concatenation and property
    keys take it. *)
Definition toStr (o : option jsstring) : jsstring :=
  match o with
  | Some s => s
  | None => js "undefined"
  end.

Definition addFetchUrlToSiteNamespace (nm : jsstring) : namespaceInfo :=
  mkInfo (Some nm) (Some (js "site"))
         (Some (js "https://data.trovu.net/data/shortcuts/" ++ nm ++ js ".yml"))
         None None VUndef.

Definition addFetchUrlToGithubNamespace (e : env) (ns : namespaceInfo)
  : namespaceInfo :=
  let gh := match github ns with
            | Some g => if eqb_js g (js ".") then this_github e else Some g
            | None => None
            end in
  let nm := if truthyStr (name ns) then name ns else gh in
  mkInfo nm (Some (js "user"))
         (Some (js "https://raw.githubusercontent.com/" ++ toStr gh
                ++ js "/trovu-data-user/master/shortcuts.yml"))
         gh (priority ns) (shortcuts ns).

Definition getInitalNamespaceInfo (e : env) (ns : namespace) : namespaceInfo :=
  match ns with
  | NsString s =>
      if Nat.ltb (List.length s) 4 then addFetchUrlToSiteNamespace s
      else addFetchUrlToGithubNamespace e
             (mkInfo None None None (Some s) None VUndef)
  | NsObject o =>
      if (truthyStr (url o) && truthyStr (name o))%bool
      then mkInfo (name o) (Some (js "user")) (url o) (github o)
                  (priority o) (shortcuts o)
      else addFetchUrlToGithubNamespace e o
  end.

Fixpoint initialEntries (e : env) (index : nat) (namespaces : list namespace)
  : list (jsstring * namespaceInfo) :=
  match namespaces with
  | [] => []
  | ns :: rest =>
      let i := getInitalNamespaceInfo e ns in
      let i' := mkInfo (name i) (type i) (url i) (github i)
                       (Some (Z.of_nat index + 1)) (shortcuts i) in
      (toStr (name i'), i') :: initialEntries e (S index) rest
  end.

Definition fromEntries {A} (entries : list (jsstring * A)) : list (jsstring * A) :=
  fold_left (fun o kv => setOwn (fst kv) (snd kv) o) entries [].

Definition getInitialNamespaceInfos (e : env) (namespaces : list namespace)
  : infos :=
  fromEntries (initialEntries e 0 namespaces).

Definition isSubscribed (i : namespaceInfo) : bool :=
  match priority i with
  | Some p => (negb (Z.eqb p 0) && Z.ltb 0 p)%bool
  | None => false
  end.

(** ** Shortcut Verifier *)

(** [key.match(/\S+ \d/)]: the expression is not anchored, so a key matches
    when some non-whitespace unit is directly followed by a space and a
    digit. *)
Fixpoint matchKey (s : jsstring) : bool :=
  match s with
  | [] => false
  | c :: s' =>
      match s' with
      | sp :: d :: _ =>
          (negb (isWhiteSpace c) && N.eqb sp 32 && isDigit d) || matchKey s'
      | _ => false
      end
  end.

Fixpoint join (sep : jsstring) (l : list jsstring) : jsstring :=
  match l with
  | [] => []
  | [x] => x
  | x :: rest => x ++ sep ++ join sep rest
  end.

Definition newline : jsstring := [10%N].

Fixpoint verifyLoop (keys : list jsstring) (incorrectKeys : list jsstring)
    (sc : value) : result (list jsstring * value) :=
  match keys with
  | [] => Ok (incorrectKeys, sc)
  | key :: rest =>
      let incorrectKeys' :=
        if matchKey key then incorrectKeys else incorrectKeys ++ [key] in
      let* v := getProp sc key in
      if isString v
      then let* sc' := setProp sc key (VObj Plain [(js "url", v)]) in
           verifyLoop rest incorrectKeys' sc'
      else verifyLoop rest incorrectKeys' sc
  end.

Definition incorrectKeysMessage (namespaceName : option jsstring)
    (incorrectKeys : list jsstring) : jsstring :=
  js "Incorrect keys found in namespace '" ++ toStr namespaceName
  ++ js "'. Keys must have the form 'KEYWORD ARGCOUNT', e.g.: 'foo 0'"
  ++ newline ++ newline ++ join newline incorrectKeys.

Definition verifyShortcuts (e : env) (sc : value)
    (namespaceName : option jsstring) : result (env * value) :=
  let* (incorrectKeys, sc') := verifyLoop (forInKeys sc) [] sc in
  match incorrectKeys with
  | [] => Ok (e, sc')
  | _ => Ok (setError (log (incorrectKeysMessage namespaceName incorrectKeys) e),
             sc')
  end.

(** ** Collection Fetcher *)

Record response := mkResponse {
  status : Z;
  response_url : jsstring;
  text : jsstring
}.

(** What [jsyaml.load] does on a text: a value, or an exception with its
    message. *)
Inductive parsed :=
| Parsed (v : value)
| ParseError (message : jsstring).

Definition emptyArray : value := VObj Array [].

Section Fetching.

(** The external collaborators: [fetch url reload] is the settled outcome of
    the request ([None] when the promise is rejected), [jsyaml_load] the
    parser. *)
Variable fetch : jsstring -> bool -> option response.
Variable jsyaml_load : jsstring -> parsed.

(** A started request: the outcome its promise settles to. *)
Definition promise := option response.

(** The callback of the [forEach] of [startFetches]. *)
Definition startFetch (reload : bool) (promises : list (option promise))
    (kv : jsstring * namespaceInfo) : list (option promise) :=
  let i := snd kv in
  if negb (truthyStr (url i)) then promises
  else match priority i with
       | Some p =>
           if (Z.leb 0 p && Z.ltb p 4294967295)%bool
           then arraySet (Z.to_nat p) (fetch (toStr (url i)) reload) promises
           else promises
       | None => promises
       end.

Definition startFetches (m : infos) (reload : bool) : list (option promise) :=
  fold_left (startFetch reload) m [].

(** [Promise.all] when the requests complete in the order [order]: each
    value is stored at the index of its promise; a rejection rejects the
    whole.  A hole of the array resolves to [undefined]. *)
Fixpoint collect (order : list nat) (promises : list (option promise))
    (values : list (option response)) : result (list (option response)) :=
  match order with
  | [] => Ok values
  | i :: rest =>
      match nth_error promises i with
      | Some (Some (Some r)) => collect rest promises (arraySet i r values)
      | Some (Some None) => Throw
      | _ => collect rest promises values
      end
  end.

Definition promiseAll (order : list nat) (promises : list (option promise))
  : result (list (option response)) :=
  collect order promises (repeat None (List.length promises)).

Definition responseOf (responses : list (option response)) (i : namespaceInfo)
  : option response :=
  match priority i with
  | Some p => if Z.leb 0 p then arrayGet (Z.to_nat p) responses else None
  | None => None
  end.

Definition cacheWord (reload : bool) : jsstring :=
  if reload then js "reload " else js "cache  ".

Definition parseShortcutsFromYml (e : env) (txt : jsstring)
    (u : option jsstring) : env * value :=
  match jsyaml_load txt with
  | Parsed v => (e, v)
  | ParseError message =>
      (setError (log (js "Error parsing " ++ toStr u ++ js ":" ++ newline
                      ++ newline ++ message) e),
       emptyArray)
  end.

Definition logSuccess (e : env) (debug reload : bool) (r : response) : env :=
  if debug then log (cacheWord reload ++ js "Success: " ++ response_url r) e
  else log (js ".") e.

Definition setShortcuts (i : namespaceInfo) (sc : value) : namespaceInfo :=
  mkInfo (name i) (type i) (url i) (github i) (priority i) sc.


(** One turn of the loop of [fetchShortcuts]. *)
Definition fetchOne (responses : list (option response)) (reload debug : bool)
    (e : env) (m : infos) (namespaceName : jsstring) : result (env * infos) :=
  match lookup namespaceName m with
  | None => Throw
  | Some i =>
      let failed :=
        let e' := if debug
                  then log (cacheWord reload ++ js "Fail:    " ++ toStr (url i)) e
                  else e in
        Ok (e', setOwn namespaceName (setShortcuts i emptyArray) m) in
      match responseOf responses i with
      | None => failed
      | Some r =>
          if negb (Z.eqb (status r) 200) then failed
          else
            let e1 := logSuccess e debug reload r in
            let '(e2, sc) := parseShortcutsFromYml e1 (text r) (url i) in
            let* (e3, sc') := verifyShortcuts e2 sc (name i) in
            Ok (e3, setOwn namespaceName (setShortcuts i sc') m)
      end
  end.

Fixpoint fetchLoop (keys : list jsstring) (responses : list (option response))
    (reload debug : bool) (e : env) (m : infos) : result (env * infos) :=
  match keys with
  | [] => Ok (e, m)
  | namespaceName :: rest =>
      let* (e', m') := fetchOne responses reload debug e m namespaceName in
      fetchLoop rest responses reload debug e' m'
  end.

(** [fetchShortcuts] when the requests complete in the order [order]. *)
Definition fetchShortcutsIn (order : list nat) (e : env)
    (namespaces : list namespace) (reload debug : bool)
  : result (env * infos) :=
  let namespaceInfos := getInitialNamespaceInfos e namespaces in
  let promises := startFetches namespaceInfos reload in
  let* responses := promiseAll order promises in
  fetchLoop (map fst namespaceInfos) responses reload debug e namespaceInfos.

(** The order of the array: the first request completes first. *)
Definition fetchShortcuts (e : env) (namespaces : list namespace)
    (reload debug : bool) : result (env * infos) :=
  let n := List.length
             (startFetches (getInitialNamespaceInfos e namespaces) reload) in
  fetchShortcutsIn (seq 0 n) e namespaces reload debug.

(** ** Include Resolver *)

(** [String(z)] for an integer [z] of a magnitude below 2^53: its decimal
    digits.  Beyond that range not every integer is a number, and from
    10^21 on [String] writes an exponent. *)
Definition numString (z : Z) : jsstring :=
  js (NilEmpty.string_of_int (Z.to_int z)).

(** The values whose text [toString] gives as [String] does: the
    primitives, a number within the range of [numString]. *)
Definition exactText (v : value) : bool :=
  match v with
  | VObj _ _ => false
  | VNum z => Z.ltb (- 9007199254740992) z && Z.ltb z 9007199254740992
  | _ => true
  end.

Definition isIndexKey (k : jsstring) : bool :=
  match arrayIndex k with Some _ => true | None => false end.

(** [String(v)], as a computed property key takes it. *)
Fixpoint toString (v : value) : jsstring :=
  match v with
  | VUndef => js "undefined"
  | VNull => js "null"
  | VBool true => js "true"
  | VBool false => js "false"
  | VNum z => numString z
  | VStr s => s
  | VObj Plain _ => js "[object Object]"
  | VObj Array ps =>
      join (js ",")
        ((fix elements (l : list (jsstring * value)) : list jsstring :=
            match l with
            | [] => []
            | (k, x) :: l' =>
                if isIndexKey k
                then match x with
                     | VUndef | VNull => []
                     | _ => toString x
                     end :: elements l'
                else elements l'
            end) ps)
  end.

(** The entry object stored under [key] is mutated in place: its new state
    replaces the old one, the key keeps its position. *)
Definition updateEntry (sc : value) (key : jsstring) (x : value) : value :=
  match sc with
  | VObj kd ps => VObj kd (replaceProp key x ps)
  | _ => sc
  end.

Definition assignInfos (target source : infos) : infos :=
  fold_left (fun t kv => setOwn (fst kv) (snd kv) t) source target.

(** [getShortcutFromNamespace].  [namespaceInfos[namespaceName]] reads the
    map under the string image [s] of [namespaceName].  The test of line 469
    finds a truthy value when the map has a descriptor under [s] and also
    when [s] is a name the map inherits; in the second case nothing is
    requested and line 477 reads [shortcuts] of a function, which is
    [undefined], and throws.  Otherwise the namespace is requested: a
    number or a boolean makes [addFetchUrlToGithubNamespace] assign to a
    property of a primitive, [undefined] and [null] make
    [getInitalNamespaceInfo] read a property of them, and both throw.  The
    namespace of an include is a name; an include that gives a mapping or a
    sequence instead is taken by the source for a descriptor, which it
    completes, requests and then fails to find under [s], unless it is
    named [s]: the model stops with [Throw] there. *)
Definition getShortcutFromNamespace (e : env) (key namespaceName : value)
    (m : infos) : result (env * infos * value) :=
  let s := toString namespaceName in
  let* (e', m') :=
    match lookup s m with
    | Some _ => Ok (e, m)
    | None =>
        if inherited s then Ok (e, m)
        else
          match namespaceName with
          | VStr _ =>
              let* (e1, newNamespaceInfos) :=
                fetchShortcuts e [NsString s] (this_reload e) (this_debug e) in
              Ok (e1, assignInfos m newNamespaceInfos)
          | _ => Throw
          end
    end in
  match lookup s m' with
  | None => Throw
  | Some i =>
      let* shortcut := getProp (shortcuts i) (toString key) in
      Ok (e', m', shortcut)
  end.

Definition includeKey : jsstring := js "include".
Definition keyKey : jsstring := js "key".
Definition namespaceKey : jsstring := js "namespace".

(** What the tests at the head of the loop body of [addIncludes] find in an
    entry. *)
Inductive directive :=
| NoInclude
| Malformed
| Local (key : value)
| Remote (key namespaceName : value).

Definition classify (shortcut : value) : result directive :=
  let* include := getProp shortcut includeKey in
  if truthy include then
    let* ikey := getProp include keyKey in
    if truthy ikey then
      let* ins := getProp include namespaceKey in
      if truthy ins then Ok (Remote ikey ins) else Ok (Local ikey)
    else Ok Malformed
  else Ok NoInclude.

(** [shortcut = Object.assign(shortcut, shortcutToInclude)] for the entry
    under [key] of the descriptor stored under [owner]. *)
Definition mergeInto (owner key : jsstring) (shortcutToInclude : value)
    (m : infos) : result infos :=
  match lookup owner m with
  | None => Throw
  | Some oi =>
      let* shortcut := getProp (shortcuts oi) key in
      let* merged := objectAssign shortcut shortcutToInclude in
      Ok (setOwn owner
            (setShortcuts oi (updateEntry (shortcuts oi) key merged)) m)
  end.

(** One turn of the loop of [addIncludes], for the shortcuts of the
    descriptor stored under [owner]: [getNamespaceInfos] passes
    [namespaceInfo.shortcuts], so the mapping the loop walks is the one held
    by the shared namespace map. *)
Definition includeStep (e : env) (owner : jsstring) (m : infos)
    (key : jsstring) : result (env * infos) :=
  match lookup owner m with
  | None => Throw
  | Some oi =>
      let* shortcut := getProp (shortcuts oi) key in
      let* d := classify shortcut in
      match d with
      | NoInclude => Ok (e, m)
      | Malformed =>
          Ok (setError (log (js "Incorrect include found at " ++ key) e), m)
      | Local ikey =>
          let* shortcutToInclude := getProp (shortcuts oi) (toString ikey) in
          let* m' := mergeInto owner key shortcutToInclude m in
          Ok (e, m')
      | Remote ikey ins =>
          let* (em, shortcutToInclude) :=
            getShortcutFromNamespace e ikey ins m in
          let* m' := mergeInto owner key shortcutToInclude (snd em) in
          Ok (fst em, m')
      end
  end.

Fixpoint includeLoop (keys : list jsstring) (e : env) (owner : jsstring)
    (m : infos) : result (env * infos) :=
  match keys with
  | [] => Ok (e, m)
  | key :: rest =>
      let* (e', m') := includeStep e owner m key in
      includeLoop rest e' owner m'
  end.

(** [addIncludes], awaited to completion. *)
Definition addIncludes (e : env) (owner : jsstring) (m : infos)
  : result (env * infos) :=
  match lookup owner m with
  | None => Throw
  | Some oi => includeLoop (forInKeys (shortcuts oi)) e owner m
  end.

(** ** Reachability Annotator *)

(** [UrlProcessor.getArgumentsFromString] is not part of the modelled file;
    it is taken as it comes. *)
Variable getArgumentsFromString : value -> result value.

Definition optStr (o : option jsstring) : value :=
  match o with
  | Some s => VStr s
  | None => VUndef
  end.

Definition addInfoToShortcut (shortcut : value) (key : jsstring)
    (i : namespaceInfo) : result value :=
  let* s1 := setProp shortcut (js "key") (VStr key) in
  let parts := split 32 key in
  let* s2 := setProp s1 (js "keyword") (optStr (nth_error parts 0)) in
  let* s3 := setProp s2 (js "argumentCount") (optStr (nth_error parts 1)) in
  let* s4 := setProp s3 (js "namespace") (optStr (name i)) in
  let* u := getProp s4 (js "url") in
  let* args := getArgumentsFromString u in
  let* s5 := setProp s4 (js "arguments") args in
  let* t := getProp s5 (js "title") in
  setProp s5 (js "title") (if truthy t then t else VStr []).

Definition reachableKey : jsstring := js "reachable".

Definition mem (k : jsstring) (l : list jsstring) : bool :=
  existsb (eqb_js k) l.

(** No key occurs twice. *)
Fixpoint distinctKeys (l : list jsstring) : bool :=
  match l with
  | [] => true
  | k :: l' => negb (mem k l') && distinctKeys l'
  end.

(** The inner loop of [addReachable]; [found] holds the keys that are [in]
    [foundShortcuts]: those the object inherits and those the loop has
    set. *)
Fixpoint reachLoop (keys : list jsstring) (i : namespaceInfo) (sc : value)
    (found : list jsstring) : result (value * list jsstring) :=
  match keys with
  | [] => Ok (sc, found)
  | key :: rest =>
      let* shortcut := getProp sc key in
      let* s1 := addInfoToShortcut shortcut key i in
      let* s2 := setProp s1 reachableKey (VBool (negb (mem key found))) in
      let* sc' := setProp sc key s2 in
      reachLoop rest i sc' (key :: found)
  end.

(** The comparator [(a, b) => b.priority - a.priority]; a difference with an
    absent priority is [NaN], which [sort] takes as [+0]. *)
Definition comparePriority (a b : namespaceInfo) : Z :=
  match priority a, priority b with
  | Some pa, Some pb => pb - pa
  | _, _ => 0
  end.

(** [Array.prototype.sort] is stable: an element is put before the first
    of the later elements that the comparator does not order before it, so
    equal elements keep their order.  When a priority is absent the
    comparator is not consistent and the order an engine produces is its
    own; the statements that depend on the order take every descriptor to
    have a priority. *)
Fixpoint insertSorted (x : jsstring * namespaceInfo)
    (l : list (jsstring * namespaceInfo)) :=
  match l with
  | [] => [x]
  | y :: l' =>
      if Z.leb (comparePriority (snd x) (snd y)) 0 then x :: l
      else y :: insertSorted x l'
  end.

Definition sortByPriority (m : infos) : infos :=
  fold_right insertSorted [] m.

Fixpoint reachNamespaces (sorted : infos) (m : infos) (found : list jsstring)
  : result infos :=
  match sorted with
  | [] => Ok m
  | (nm, i) :: rest =>
      if negb (isSubscribed i) then reachNamespaces rest m found
      else
        let* (sc', found') :=
          reachLoop (forInKeys (shortcuts i)) i (shortcuts i) found in
        reachNamespaces rest (setOwn nm (setShortcuts i sc') m) found'
  end.

(** [foundShortcuts] starts as [{}]. *)
Definition addReachable (m : infos) : result infos :=
  reachNamespaces (sortByPriority m) m inheritedNames.

(** ** Environment

    [getNamespaceInfos] starts one [async] callback per descriptor with
    [forEach] and awaits the value of [forEach], which is [undefined]: the
    callbacks are started, not awaited.  Each callback runs [addIncludes]
    up to its first [await], the call of [getShortcutFromNamespace]; an
    exception in a callback rejects the callback's own promise and nothing
    else.  The continuation of [getNamespaceInfos] is queued behind the
    continuations of the callbacks that wait for a namespace already in the
    map (their promise is fulfilled when they await it); each of these then
    runs up to its next [await].  A callback that waits for a namespace
    fetched on demand needs the network and resumes after [addReachable] has
    run and [getNamespaceInfos] has returned. *)

Inductive progress :=
| Finished (e : env) (m : infos)
| Rejected (e : env) (m : infos)
| Awaiting (e : env) (m : infos) (key : jsstring) (rest : list jsstring)
    (namespaceName : value).

(** [addIncludes] up to its first [await]. *)
Fixpoint runUntilAwait (keys : list jsstring) (e : env) (owner : jsstring)
    (m : infos) : progress :=
  match keys with
  | [] => Finished e m
  | key :: rest =>
      match lookup owner m with
      | None => Rejected e m
      | Some oi =>
          match (let* shortcut := getProp (shortcuts oi) key in
                 classify shortcut) with
          | Throw => Rejected e m
          | Ok (Remote _ ins) => Awaiting e m key rest ins
          | Ok _ =>
              match includeStep e owner m key with
              | Ok (e', m') => runUntilAwait rest e' owner m'
              | Throw => Rejected e m
              end
          end
      end
  end.

Definition stateOf (p : progress) : env * infos :=
  match p with
  | Finished e m | Rejected e m | Awaiting e m _ _ _ => (e, m)
  end.

(** The synchronous part of the [forEach]: every callback up to its first
    [await]; the suspended callbacks are kept in order. *)
Fixpoint startCallbacks (owners : list jsstring) (e : env) (m : infos)
  : env * infos * list (jsstring * progress) :=
  match owners with
  | [] => (e, m, [])
  | owner :: rest =>
      let p := match lookup owner m with
               | Some oi => runUntilAwait (forInKeys (shortcuts oi)) e owner m
               | None => Rejected e m
               end in
      let '(e', m') := stateOf p in
      let '(e'', m'', ps) := startCallbacks rest e' m' in
      (e'', m'', (owner, p) :: ps)
  end.

(** The map has a descriptor under the string image of [namespaceName]:
    [getShortcutFromNamespace] returns without a request. *)
Definition isPresent (namespaceName : value) (m : infos) : bool :=
  hasKey (toString namespaceName) m.

(** The continuations that run before the one of [getNamespaceInfos]: a
    callback whose include names a namespace of the map merges it and goes
    on to its next [await]. *)
Fixpoint resumeCallbacks (tasks : list (jsstring * progress)) (e : env)
    (m : infos) : env * infos :=
  match tasks with
  | [] => (e, m)
  | (owner, Awaiting _ _ key rest ins) :: tasks' =>
      if isPresent ins m then
        match includeStep e owner m key with
        | Ok (e', m') =>
            let '(e'', m'') := stateOf (runUntilAwait rest e' owner m') in
            resumeCallbacks tasks' e'' m''
        | Throw => resumeCallbacks tasks' e m
        end
      else resumeCallbacks tasks' e m
  | _ :: tasks' => resumeCallbacks tasks' e m
  end.

(** [getNamespaceInfos]: the value its promise resolves to, and [this] at
    that moment.  The map is shared with the callbacks that are still
    suspended then; what they make of it afterwards is
    [getNamespaceInfosAfter], below. *)
Definition getNamespaceInfos (e : env) (namespaces : list namespace)
    (reload debug : bool) : result (env * infos) :=
  let* (e1, m1) := fetchShortcuts e namespaces reload debug in
  let '(e2, m2, tasks) := startCallbacks (map fst m1) e1 m1 in
  let '(e3, m3) := resumeCallbacks tasks e2 m2 in
  let* m4 := addReachable m3 in
  Ok (e3, m4).

(** The job queue after [getNamespaceInfos] has returned.  A callback that
    waits for a namespace of the map is resumed one turn of the job queue
    after its call of [getShortcutFromNamespace]: it merges and runs up to
    its next [await].  [getNamespaceInfos] lets one such
    round pass before [addReachable].  The callbacks that are then
    suspended again at a namespace of the map run in the rounds that
    follow, the first of them before the continuation of the caller of
    [getNamespaceInfos], each of the others before the continuation of the
    next caller up.  A callback that waits for a namespace requested on
    demand is resumed when the response arrives, after all of these. *)

(** One round: the state it leaves and the callbacks it has resumed, in
    order, each with the point it has reached. *)
Fixpoint resumeRound (tasks : list (jsstring * progress)) (e : env)
    (m : infos) : env * infos * list (jsstring * progress) :=
  match tasks with
  | [] => (e, m, [])
  | (owner, Awaiting _ _ key rest ins) :: tasks' =>
      if isPresent ins m then
        match includeStep e owner m key with
        | Ok (e', m') =>
            let p := runUntilAwait rest e' owner m' in
            let '(e'', m'') := stateOf p in
            let '(e3, m3, later) := resumeRound tasks' e'' m'' in
            (e3, m3, (owner, p) :: later)
        | Throw => resumeRound tasks' e m
        end
      else resumeRound tasks' e m
  | _ :: tasks' => resumeRound tasks' e m
  end.

Fixpoint resumeRounds (n : nat) (tasks : list (jsstring * progress))
    (e : env) (m : infos) : env * infos :=
  match n with
  | O => (e, m)
  | S n' =>
      let '(e', m', tasks') := resumeRound tasks e m in
      resumeRounds n' tasks' e' m'
  end.

(** [this] and the map [getNamespaceInfos] has returned, [n] rounds
    later. *)
Definition getNamespaceInfosAfter (n : nat) (e : env)
    (namespaces : list namespace) (reload debug : bool)
  : result (env * infos) :=
  let* (e1, m1) := fetchShortcuts e namespaces reload debug in
  let '(e2, m2, tasks) := startCallbacks (map fst m1) e1 m1 in
  let '(e3, m3, suspended) := resumeRound tasks e2 m2 in
  let* m4 := addReachable m3 in
  Ok (resumeRounds n suspended e3 m4).

(** [populate], lines 85 to 93: from the point where the parameters are
    merged into [this] and the defaults are set.  [e] is [this] at that
    point, [namespaces] is [this.namespaces], [extraNamespaceName] what the
    query parser found.  The continuation that stores the map in
    [this.namespaceInfos] and ends [populate] runs one round of the job
    queue after [getNamespaceInfos] has returned; the result is [this] and
    the map at that moment.  Lines 73 to 83, which merge the settings, are
    [populateSettings], below. *)
Definition populate (e : env) (namespaces : list namespace)
    (extraNamespaceName : option jsstring) : result (env * infos) :=
  let namespaces' :=
    if truthyStr extraNamespaceName
    then namespaces ++ [NsString (toStr extraNamespaceName)]
    else namespaces in
  getNamespaceInfosAfter 1 e namespaces' (this_reload e) (this_debug e).

(** ** Vocabulary of the statements *)

Definition githubTemplate (gh : option jsstring) : jsstring :=
  js "https://raw.githubusercontent.com/" ++ toStr gh
  ++ js "/trovu-data-user/master/shortcuts.yml".

(** The account a Github spec resolves to: the marker ['.'] stands for the
    caller's own account. *)
Definition resolvedAccount (e : env) (gh : option jsstring) : option jsstring :=
  match gh with
  | Some g => if eqb_js g (js ".") then this_github e else Some g
  | None => None
  end.

(** What [verifyShortcuts] makes of an entry: a bare string becomes an
    entry with only a [url]. *)
Definition normalize (v : value) : value :=
  if isString v then VObj Plain [(js "url", v)] else v.

Definition incorrect (keys : list jsstring) : list jsstring :=
  filter (fun k => negb (matchKey k)) keys.

(** The values the promises of an array settle to, index by index, and
    whether one of them is rejected. *)
Definition settled (promises : list (option promise)) : list (option response) :=
  map (fun o => match o with Some (Some r) => Some r | _ => None end) promises.

Definition rejectedAt (promises : list (option promise)) (i : nat) : bool :=
  match nth_error promises i with
  | Some (Some None) => true
  | _ => false
  end.

Definition anyRejected (promises : list (option promise)) : bool :=
  existsb (rejectedAt promises) (seq 0 (List.length promises)).

Definition store (promises : list (option promise))
    (values : list (option response)) (i : nat) : list (option response) :=
  match nth_error promises i with
  | Some (Some (Some r)) => arraySet i r values
  | _ => values
  end.

(** A descriptor for which [startFetches] stores a promise in the array. *)
Definition issues (kv : jsstring * namespaceInfo) : Prop :=
  truthyStr (url (snd kv)) = true
  /\ exists z, priority (snd kv) = Some z /\ 0 <= z < 4294967295.

(** The shortcut set that one turn of the loop of [fetchShortcuts] gives a
    descriptor whose response is [r]. *)
Definition fetchedShortcuts (r : option response) : result value :=
  match r with
  | None => Ok emptyArray
  | Some r =>
      if negb (Z.eqb (status r) 200) then Ok emptyArray
      else match jsyaml_load (text r) with
           | Parsed v =>
               let* (_, sc) := verifyLoop (forInKeys v) [] v in Ok sc
           | ParseError _ => Ok emptyArray
           end
  end.

Definition resolved (responses : list (option response)) (i : namespaceInfo)
  : namespaceInfo :=
  match fetchedShortcuts (responseOf responses i) with
  | Ok sc => setShortcuts i sc
  | Throw => i
  end.

(** A response that makes [fetchShortcuts] raise the error flag: it is
    delivered with status 200 and its text does not parse, or parses to a
    document with a key that [verifyShortcuts] reports. *)
Definition reported (r : response) : bool :=
  Z.eqb (status r) 200
  && match jsyaml_load (text r) with
     | ParseError _ => true
     | Parsed v => existsb (fun k => negb (matchKey k)) (forInKeys v)
     end.

(** The descriptor [getShortcutFromNamespace] builds for a namespace it
    fetches on demand: the one [getInitialNamespaceInfos] gives the sole
    element of a list. *)
Definition onDemand (e : env) (s : jsstring) : namespaceInfo :=
  let i := getInitalNamespaceInfo e (NsString s) in
  mkInfo (name i) (type i) (url i) (github i) (Some 1) (shortcuts i).

(** The directive names a target key. *)
Definition hasTarget (d : directive) : bool :=
  match d with
  | Local _ | Remote _ _ => true
  | _ => false
  end.

(** The entry stored under [key] in the namespace [owner] of a map, and one
    of its fields. *)
Definition entryIn (sc : value) (key : jsstring) : option value :=
  match sc with
  | VObj _ ps => lookup key ps
  | _ => None
  end.

Definition entryOf (m : infos) (owner key : jsstring) : option value :=
  match lookup owner m with
  | Some i => entryIn (shortcuts i) key
  | None => None
  end.

Definition fieldOf (m : infos) (owner key f : jsstring) : option value :=
  match entryOf m owner key with
  | Some (VObj _ fields) => lookup f fields
  | _ => None
  end.

(** The entry is marked [reachable = true]. *)
Definition markedReachable (entry : option value) : Prop :=
  exists kd fields,
    entry = Some (VObj kd fields)
    /\ lookup reachableKey fields = Some (VBool true).

(** What a run of the outer loop of [addReachable] over [l] leaves in the
    final map [m'], namespace by namespace: a namespace that is not
    subscribed keeps its descriptor; in a subscribed one every entry carries
    the flag [reachable], true exactly for the keys not found before. *)
Fixpoint annotated (l : infos) (found : list jsstring) (m' : infos) : Prop :=
  match l with
  | [] => True
  | (nm, i) :: rest =>
      if isSubscribed i then
        (exists i', lookup nm m' = Some i'
           /\ priority i' = priority i
           /\ forInKeys (shortcuts i') = forInKeys (shortcuts i)
           /\ forall key, In key (forInKeys (shortcuts i)) ->
                exists kd fields,
                  entryIn (shortcuts i') key = Some (VObj kd fields)
                  /\ lookup reachableKey fields
                     = Some (VBool (negb (mem key found))))
        /\ annotated rest (rev (forInKeys (shortcuts i)) ++ found) m'
      else lookup nm m' = Some i /\ annotated rest found m'
  end.

(** A list of descriptors in which no priority is below a later one. *)
Definition notBelow (a b : jsstring * namespaceInfo) : Prop :=
  forall pa pb,
    priority (snd a) = Some pa -> priority (snd b) = Some pb -> pb <= pa.

Definition descending (l : infos) : Prop := StronglySorted notBelow l.

(** The tests of [classify] on the value of the property [include]. *)
Definition classifyInclude (include : value) : result directive :=
  if truthy include then
    let* ikey := getProp include keyKey in
    if truthy ikey then
      let* ins := getProp include namespaceKey in
      if truthy ins then Ok (Remote ikey ins) else Ok (Local ikey)
    else Ok Malformed
  else Ok NoInclude.

(** The value carries an include directive with a target key. *)
Definition carriesInclude (v : value) : bool :=
  match classify v with
  | Ok d => hasTarget d
  | Throw => false
  end.

(** An include source that carries no include directive of its own. *)
Definition plainSource (v : value) : bool :=
  (negb (carriesInclude v) && distinctKeys (map fst (ownEnumerable v)))%bool.

(** The include source that one turn of the loop of [addIncludes] merges
    into the entry under [key], when it merges one. *)
Definition stepSource (e : env) (owner : jsstring) (m : infos)
    (key : jsstring) : option value :=
  match lookup owner m with
  | None => None
  | Some oi =>
      match (let* shortcut := getProp (shortcuts oi) key in classify shortcut) with
      | Ok (Local ikey) =>
          match getProp (shortcuts oi) (toString ikey) with
          | Ok source => Some source
          | Throw => None
          end
      | Ok (Remote ikey ins) =>
          match getShortcutFromNamespace e ikey ins m with
          | Ok (_, source) => Some source
          | Throw => None
          end
      | _ => None
      end
  end.

(** Every include source met by a run of the loop is plain. *)
Fixpoint sourcesPlain (keys : list jsstring) (e : env) (owner : jsstring)
    (m : infos) : bool :=
  match keys with
  | [] => true
  | key :: rest =>
      (match stepSource e owner m key with
       | Some source => plainSource source
       | None => true
       end
       && match includeStep e owner m key with
          | Ok (e', m') => sourcesPlain rest e' owner m'
          | Throw => true
          end)%bool
  end.

(** ** Sample sessions

    Concrete collaborators and documents on which the statements below are
    evaluated. *)

Definition sampleEnv : env := mkEnv (Some (js "me")) false false false [].

Definition siteUrl (nm : string) : jsstring :=
  js "https://data.trovu.net/data/shortcuts/" ++ js nm ++ js ".yml".

Definition githubUrl (nm : string) : jsstring :=
  js "https://raw.githubusercontent.com/" ++ js nm
  ++ js "/trovu-data-user/master/shortcuts.yml".

Definition field (k : string) (v : value) : jsstring * value := (js k, v).

Definition entry (fields : props) : value := VObj Plain fields.

Definition str (s : string) : value := VStr (js s).

(** A parser that reads the text ["O"] as [docO], ["A"] as [docA] and fails
    on anything else. *)
Definition sampleParser (docO docA : value) (t : jsstring) : parsed :=
  if eqb_js t (js "O") then Parsed docO
  else if eqb_js t (js "A") then Parsed docA
  else ParseError (js "bad document").

(** Every request is answered; the site collection [o] and the account
    [abcd] with status 200, anything else with 404. *)
Definition sampleFetch (u : jsstring) (reload : bool) : option response :=
  if eqb_js u (siteUrl "o") then Some (mkResponse 200 u (js "O"))
  else if eqb_js u (githubUrl "abcd") then Some (mkResponse 200 u (js "A"))
  else Some (mkResponse 404 u []).

Definition noArguments (u : value) : result value := Ok (VObj Plain []).

(** A descriptor of the site collection [nm] with the given priority and
    shortcuts, and a map of such descriptors. *)
Definition siteInfo (nm : string) (p : Z) (sc : value) : namespaceInfo :=
  mkInfo (Some (js nm)) (Some (js "site")) (Some (siteUrl nm)) None (Some p) sc.

Definition site (nm : string) (p : Z) (sc : value) : jsstring * namespaceInfo :=
  (js nm, siteInfo nm p sc).

(** [y 0] includes [x 0] of its own namespace; both have a title. *)
Definition docTitles : value :=
  entry [field "y 0" (entry [field "include" (entry [field "key" (str "x 0")]);
                        field "title" (str "Y")]);
         field "x 0" (entry [field "url" (str "http://x"); field "title" (str "X")])].

(** [y 0] includes [x 0], which itself includes [z 0]. *)
Definition docChain : value :=
  entry [field "y 0" (entry [field "include" (entry [field "key" (str "x 0")])]);
         field "x 0" (entry [field "include" (entry [field "key" (str "z 0")]);
                        field "url" (str "http://x")]);
         field "z 0" (entry [field "title" (str "Z")])].

(** [y 0] includes a key that its namespace does not hold. *)
Definition docDangling : value :=
  entry [field "y 0" (entry [field "include" (entry [field "key" (str "x 0")]);
                        field "title" (str "Y")])].

(** [y 0] includes [x 0] of the namespace [abcd]. *)
Definition docRemote : value :=
  entry [field "y 0" (entry [field "include" (entry [field "key" (str "x 0");
                                            field "namespace" (str "abcd")]);
                        field "title" (str "Y")])].

(** [y 0] includes [x 0] of the site namespace [xyz], and of a namespace
    called [constructor]. *)
Definition docUnreachable : value :=
  entry [field "y 0" (entry [field "include" (entry [field "key" (str "x 0");
                                            field "namespace" (str "xyz")]);
                        field "title" (str "Y")])].

Definition docInherited : value :=
  entry [field "y 0" (entry [field "include"
                               (entry [field "key" (str "x 0");
                                       field "namespace" (str "constructor")]);
                        field "title" (str "Y")])].

(** [y 0] and [z 0] both include [x 0] of the namespace [abcd]. *)
Definition docTwice : value :=
  entry [field "y 0" (entry [field "include" (entry [field "key" (str "x 0");
                                            field "namespace" (str "abcd")])]);
         field "z 0" (entry [field "include" (entry [field "key" (str "x 0");
                                            field "namespace" (str "abcd")])])].

Definition docAccount : value :=
  entry [field "x 0" (entry [field "url" (str "http://ax"); field "title" (str "AX")])].

(** A freshly parsed collection with a well-formed key, a key without
    argument count and a key with the wildcard marker. *)
Definition docKeys : value :=
  entry [field "x 0" (str "http://x"); field "bad" (str "http://bad");
         field "w *" (str "http://w")].

(** Every request is answered with status 404. *)
Definition fetchNotFound (u : jsstring) (reload : bool) : option response :=
  Some (mkResponse 404 u []).

(** The request for the site collection [xyz] is rejected; the others are
    answered as by [sampleFetch]. *)
Definition fetchRejecting (u : jsstring) (reload : bool) : option response :=
  if eqb_js u (siteUrl "xyz") then None else sampleFetch u reload.

(** Two subscribed namespaces that both define [x 0], and one that is not
    subscribed. *)
Definition sampleStack : infos :=
  [site "o" 1 (entry [field "x 0" (entry [field "url" (str "http://o")]);
                      field "y 0" (entry [field "url" (str "http://y")])]);
   site "p" 2 (entry [field "x 0" (entry [field "url" (str "http://p")])]);
   site "q" 0 (entry [field "x 0" (entry [field "url" (str "http://q");
                                          field "reachable" (VBool true)])])].

Definition okOr {A} (default : A) (r : result A) : A :=
  match r with
  | Ok a => a
  | Throw => default
  end.

Definition sampleAccounts : list namespace :=
  [NsString (js "o"); NsString (js "abcd")].

(** The descriptor [getInitialNamespaceInfos] makes of the spec at the
    0-based position [pos] of the caller's list, and the key it is stored
    under. *)
Definition withPriority (p : Z) (i : namespaceInfo) : namespaceInfo :=
  mkInfo (name i) (type i) (url i) (github i) (Some p) (shortcuts i).

Definition descriptorAt (e : env) (pos : nat) (ns : namespace) : namespaceInfo :=
  withPriority (Z.of_nat pos + 1) (getInitalNamespaceInfo e ns).

Definition nameOf (e : env) (ns : namespace) : jsstring :=
  toStr (name (getInitalNamespaceInfo e ns)).

(** [e'] is [e] after some diagnostics: the settings are the same, the log
    is the old one with messages appended, and a raised error flag stays
    raised. *)
Definition extends (e e' : env) : Prop :=
  this_github e' = this_github e
  /\ this_reload e' = this_reload e
  /\ this_debug e' = this_debug e
  /\ (this_error e = true -> this_error e' = true)
  /\ exists added, this_log e' = this_log e ++ added.

(** Two descriptors that differ at most in their shortcuts. *)
Definition sameButShortcuts (i i' : namespaceInfo) : Prop :=
  i' = setShortcuts i (shortcuts i').


(** The value of a field of an entry, [undefined] when the entry has no
    such field. *)
Definition fieldValue (fields : props) (f : string) : value :=
  match lookup (js f) fields with
  | Some x => x
  | None => VUndef
  end.

(** The fields that [addInfoToShortcut] and [addReachable] write. *)
Definition infoFields : list jsstring :=
  [js "key"; js "keyword"; js "argumentCount"; js "namespace";
   js "arguments"; js "title"; js "reachable"].


(** A key in which some unit that is no white space is directly followed by
    a space and a digit: what [/\S+ \d/] finds. *)
Definition keyShape (k : jsstring) : Prop :=
  exists a c d b,
    k = a ++ c :: 32%N :: d :: b
    /\ isWhiteSpace c = false /\ isDigit d = true.

(** ** Settings

    The first part of [populate] and the methods it calls read and write
    the properties of [this].  Here [this] is the list of its own
    properties, and the messages that the file logs are kept beside it. *)

Record session := mkSession {
  this : props;
  messages : list jsstring
}.

(** The collaborators outside the file, taken as they come: [Helper]'s
    [getUrlParams] and [fetchAsync] (the text, or [null], here [None]),
    [QueryParser.parse], [navigator.language] ([None] when it is
    [undefined]), [JSON.parse] and [String.prototype.toLowerCase]. *)
Record collaborators := mkCollaborators {
  Helper_getUrlParams : result value;
  Helper_fetchAsync : jsstring -> value -> value -> result (option jsstring);
  QueryParser_parse : value -> result value;
  navigator_language : option jsstring;
  JSON_parse : option jsstring -> result value;
  toLowerCase : jsstring -> jsstring
}.

(** [if (this.f) params[f] = v]. *)
Definition setIf (c : bool) (f : string) (v : value) (params : props) : props :=
  if c then setOwn (js f) v params else params.

Definition getParams (this : props) : props :=
  let params := [] in
  let params :=
    if truthy (fieldValue this "github")
    then setOwn (js "github") (fieldValue this "github") params
    else setOwn (js "country") (fieldValue this "country")
           (setOwn (js "language") (fieldValue this "language") params) in
  let params := setIf (truthy (fieldValue this "debug")) "debug" (VNum 1) params in
  let params :=
    setIf (truthy (fieldValue this "defaultKeyword")
           && negb (truthy (fieldValue this "github")))
      "defaultKeyword" (fieldValue this "defaultKeyword") params in
  let params :=
    setIf (truthy (fieldValue this "status")) "status"
      (fieldValue this "status") params in
  let params :=
    setIf (truthy (fieldValue this "query")) "query"
      (fieldValue this "query") params in
  let params :=
    setIf (truthy (fieldValue this "alternative")) "alternative"
      (fieldValue this "alternative") params in
  setIf (truthy (fieldValue this "key")) "key" (fieldValue this "key") params.

(** [String.prototype.replace] with a string pattern: the first occurrence
    is replaced, and in the replacement [$$], [$&], [$`] and [$'] stand for
    a dollar sign, the match, and the text before and after it. *)
Fixpoint isPrefix (p s : jsstring) : bool :=
  match p, s with
  | [], _ => true
  | x :: p', y :: s' => N.eqb x y && isPrefix p' s'
  | _ :: _, [] => false
  end.

Fixpoint indexOf (pattern before s : jsstring) : option (jsstring * jsstring) :=
  if isPrefix pattern s
  then Some (rev before, skipn (List.length pattern) s)
  else match s with
       | [] => None
       | c :: s' => indexOf pattern (c :: before) s'
       end.

Fixpoint getSubstitution (matched before after replacement : jsstring)
  : jsstring :=
  match replacement with
  | [] => []
  | c :: r =>
      if N.eqb c 36 then
        match r with
        | [] => [c]
        | d :: r' =>
            if N.eqb d 36 then 36%N :: getSubstitution matched before after r'
            else if N.eqb d 38
            then matched ++ getSubstitution matched before after r'
            else if N.eqb d 96
            then before ++ getSubstitution matched before after r'
            else if N.eqb d 39
            then after ++ getSubstitution matched before after r'
            else c :: getSubstitution matched before after r
        end
      else c :: getSubstitution matched before after r
  end.

Definition stringReplace (s pattern replacement : jsstring) : jsstring :=
  match indexOf pattern [] s with
  | Some (before, after) =>
      before ++ getSubstitution pattern before after replacement ++ after
  | None => s
  end.

Definition configUrlTemplate : jsstring :=
  js "https://raw.githubusercontent.com/{%github}/trovu-data-user/master/config.yml".

(** [this] as the constructor leaves it. *)
Definition construct : props :=
  [(js "configUrlTemplate", VStr configUrlTemplate)].

(** [Helper.log(msg); this.error = true]. *)
Definition report (msg : jsstring) (st : session) : session :=
  mkSession (setOwn (js "error") (VBool true) (this st)) (messages st ++ [msg]).

Definition getUserConfigFromGithub (c : collaborators) (st : session)
    (params : value) : result (session * value) :=
  match fieldValue (this st) "configUrlTemplate" with
  | VStr template =>
      let* github := getProp params (js "github") in
      let configUrl := stringReplace template (js "{%github}") (toString github) in
      let* reload := getProp params (js "reload") in
      let* debug := getProp params (js "debug") in
      let* configYml := Helper_fetchAsync c configUrl reload debug in
      if truthyStr configYml then
        match jsyaml_load (toStr configYml) with
        | Parsed config => Ok (st, config)
        | ParseError message =>
            Ok (report (js "Error parsing " ++ configUrl ++ js ":" ++ newline
                        ++ newline ++ message) st,
                VBool false)
        end
      else Ok (report (js "Failed to read Github config from " ++ configUrl) st,
               VBool false)
  | _ => Throw
  end.

Definition setWithUserConfigFromGithub (c : collaborators) (st : session)
    (params : value) : result session :=
  let* (st', config) := getUserConfigFromGithub c st params in
  if truthy config
  then Ok (mkSession (assignProps (this st') (ownEnumerable config))
                     (messages st'))
  else Ok st'.

(** [typeof v] is ['object'], ['boolean']. *)
Definition typeofObject (v : value) : bool :=
  match v with VNull | VObj _ _ => true | _ => false end.

Definition typeofBoolean (v : value) : bool :=
  match v with VBool _ => true | _ => false end.

Definition getNavigatorLanguage (c : collaborators) : option jsstring :=
  navigator_language c.

(** The pair [{ language, country }]. *)
Definition getLanguageAndCountryFromBrowser (c : collaborators)
  : value * value :=
  let languageStr := getNavigatorLanguage c in
  if truthyStr languageStr
  then let parts := split 45 (toStr languageStr) in
       (optStr (nth_error parts 0), optStr (nth_error parts 1))
  else (VUndef, VUndef).

Definition ipInfoUrl : jsstring := js "https://api.db-ip.com/v2/free/self".

Definition getCountryFromIP (c : collaborators) : result value :=
  let* ipInfoText := Helper_fetchAsync c ipInfoUrl (VBool false) VUndef in
  let* ipInfo := JSON_parse c ipInfoText in
  getProp ipInfo (js "countryCode").

(** [v.toLowerCase()]: only a string has the method. *)
Definition lowerCase (c : collaborators) (v : value) : result value :=
  match v with
  | VStr s => Ok (VStr (toLowerCase c s))
  | _ => Throw
  end.

Definition getDefaultLanguageAndCountry (c : collaborators)
  : result (value * value) :=
  let '(language, country) := getLanguageAndCountryFromBrowser c in
  let* country :=
    if negb (truthy country) then getCountryFromIP c else Ok country in
  let language := if truthy language then language else VStr (js "en") in
  let country := if truthy country then country else VStr (js "us") in
  let* language := lowerCase c language in
  let* country := lowerCase c country in
  Ok (language, country).

Definition defaultNamespaces (this : props) : value :=
  VObj Array
    [(js "0", VStr (js "o"));
     (js "1", fieldValue this "language");
     (js "2", VStr (js "." ++ toString (fieldValue this "country")))].

Definition setDefaults (c : collaborators) (this : props) : result props :=
  let* (language, country) :=
    if negb (isString (fieldValue this "language"))
       || negb (isString (fieldValue this "country"))
    then getDefaultLanguageAndCountry c
    else Ok (VUndef, VUndef) in
  let this :=
    if negb (isString (fieldValue this "language"))
    then setOwn (js "language") language this else this in
  let this :=
    if negb (isString (fieldValue this "country"))
    then setOwn (js "country") country this else this in
  let this :=
    if negb (typeofObject (fieldValue this "namespaces"))
    then setOwn (js "namespaces") (defaultNamespaces this) this else this in
  let this :=
    if negb (typeofBoolean (fieldValue this "debug"))
    then setOwn (js "debug") (VBool (truthy (fieldValue this "debug"))) this
    else this in
  Ok this.

(** [array.push(x)]: only an array has the method. *)
Definition push (array x : value) : result value :=
  match array with
  | VObj Array ps => Ok (VObj Array (setOwn (numString (arrayLength ps)) x ps))
  | _ => Throw
  end.

(** [populate] up to the call of [getNamespaceInfos]: the parameters, the
    user's configuration, what the query parser finds and the defaults are
    merged into [this]. *)
Definition populateSettings (c : collaborators) (st : session)
    (params : value) : result session :=
  let* params :=
    if negb (truthy params) then Helper_getUrlParams c else Ok params in
  let* github := getProp params (js "github") in
  let* st1 :=
    match github with
    | VStr (_ :: _) => setWithUserConfigFromGithub c st params
    | _ => Ok st
    end in
  let this1 := assignProps (this st1) (ownEnumerable params) in
  let* parsedQuery := QueryParser_parse c (fieldValue this1 "query") in
  let this2 := assignProps this1 (ownEnumerable parsedQuery) in
  let* this3 := setDefaults c this2 in
  let* this4 :=
    if truthy (fieldValue this3 "extraNamespaceName")
    then let* namespaces :=
           push (fieldValue this3 "namespaces")
                (fieldValue this3 "extraNamespaceName") in
         Ok (setOwn (js "namespaces") namespaces this3)
    else Ok this3 in
  Ok (mkSession this4 (messages st1)).


(** The settings that [setDefaults] completes. *)
Definition settingsFields : list jsstring :=
  [js "language"; js "country"; js "namespaces"; js "debug"].

(** The language of the browser names no country. *)
Definition unqualified (o : option jsstring) : Prop :=
  match o with
  | Some l => ~ In 45%N l
  | None => True
  end.

(** The language that [getDefaultLanguageAndCountry] returns: the one of
    the browser or, for want of one, ['en'], in lower case. *)
Definition browserLanguage (c : collaborators) : jsstring :=
  toLowerCase c (if truthyStr (navigator_language c)
                 then toStr (navigator_language c) else js "en").

(** The caller's list that an array of names stands for. *)
Fixpoint namesFrom (i : nat) (ps : props) : option (list namespace) :=
  match ps with
  | [] => Some []
  | (k, VStr s) :: ps' =>
      if eqb_js k (indexKey i)
      then option_map (cons (NsString s)) (namesFrom (S i) ps')
      else None
  | _ => None
  end.

Definition namespaceNames (v : value) : option (list namespace) :=
  match v with
  | VObj Array ps => namesFrom 0 ps
  | _ => None
  end.

(** ** The call page

    The functions of the script of the call page.  [str.split(delim)] with
    a separator of any length: after a match the units of the separator are
    skipped; the empty separator splits between all units. *)

Fixpoint splitByAux (sep : jsstring) (skip : nat) (cur s : jsstring)
  : list jsstring :=
  match s with
  | [] => [rev cur]
  | c :: s' =>
      match skip with
      | S n => splitByAux sep n cur s'
      | O =>
          if isPrefix sep s
          then rev cur :: splitByAux sep (List.length sep - 1) [] s'
          else splitByAux sep O (c :: cur) s'
      end
  end.

Definition splitBy (sep s : jsstring) : list jsstring :=
  match sep with
  | [] => map (fun c => [c]) s
  | _ :: _ => splitByAux sep 0 [] s
  end.

(** [transformToAssocArray]: an assignment to [__proto__] of a string or of
    [undefined] does nothing. *)
Definition transformToAssocArray (prmstr : jsstring) : props :=
  fold_left
    (fun params pair =>
       let tmparr := split 61 pair in
       let key := toString (optStr (nth_error tmparr 0)) in
       if eqb_js key (js "__proto__") then params
       else setOwn key (optStr (nth_error tmparr 1)) params)
    (split 38 prmstr) [].

(** [getSearchParameters], for [window.location.search] as it is given. *)
Definition getSearchParameters (search : jsstring) : props :=
  let prmstr := skipn 1 search in
  match prmstr with
  | [] => []
  | _ :: _ => transformToAssocArray prmstr
  end.

(** [splitOnce]; the elements of an array of strings are joined with
    [undefined] read as the empty string. *)
Definition splitOnce (str delim : jsstring) : list value :=
  match splitBy delim str with
  | [] => [VUndef]
  | first :: components =>
      match components with
      | [] => [VStr first]
      | _ :: _ => [VStr first; VStr (join delim components)]
      end
  end.

Definition fetchUrlTemplate : jsstring :=
  js "https://raw.githubusercontent.com/trovu/trovu/master/shortcuts/o/{%keyword}/{%argumentCount}.call.json".

Definition buildFetchUrl (keyword argumentCount : value) : jsstring :=
  let replacements :=
    [(js "{%keyword}", keyword); (js "{%argumentCount}", argumentCount)] in
  fold_left
    (fun fetchUrl kv => stringReplace fetchUrl (fst kv) (toString (snd kv)))
    replacements fetchUrlTemplate.


(** [array.join(delim)]: [undefined] and [null] read as the empty
    string. *)
Definition joinArray (delim : jsstring) (l : list value) : jsstring :=
  join delim
    (map (fun v => match v with
                   | VUndef | VNull => []
                   | _ => toString v
                   end) l).

(** The text of a parameter: the key alone, or the key, an equals sign and
    the value. *)
Definition parameterText (kv : jsstring * option jsstring) : jsstring :=
  match snd kv with
  | Some v => fst kv ++ js "=" ++ v
  | None => fst kv
  end.

(** No key and no value holds an ampersand or an equals sign. *)
Definition plainParameter (kv : jsstring * option jsstring) : Prop :=
  ~ In 38%N (fst kv) /\ ~ In 61%N (fst kv)
  /\ forall v, snd kv = Some v -> ~ In 38%N v /\ ~ In 61%N v.


(** An entry that is an object and whose include directive, if it has one,
    names no other namespace; a collection of such entries. *)
Definition localEntry (x : value) : bool :=
  match x with
  | VObj _ _ =>
      match classify x with
      | Ok (Remote _ _) => false
      | Ok _ => true
      | Throw => false
      end
  | _ => false
  end.

Definition localOnly (sc : value) : bool :=
  negb (isString sc)
  && forallb (fun kv => localEntry (snd kv)) (ownEnumerable sc).

(** Include resolution for one namespace after the other, each awaited. *)
Fixpoint includeAll (owners : list jsstring) (e : env) (m : infos)
  : result (env * infos) :=
  match owners with
  | [] => Ok (e, m)
  | owner :: rest =>
      let* (e', m') := addIncludes e owner m in
      includeAll rest e' m'
  end.


(** Collaborators of the settings: a browser set to Austrian German, an
    address lookup that fails, no configuration delivered, a query parser
    that finds nothing. *)
Definition lowerAscii (s : jsstring) : jsstring :=
  map (fun c => if (N.leb 65 c && N.leb c 90)%bool then (c + 32)%N else c) s.

Definition sampleCollaborators : collaborators :=
  mkCollaborators (Ok (VObj Plain [])) (fun _ _ _ => Ok None)
    (fun _ => Ok VUndef) (Some (js "de-AT")) (fun _ => Throw) lowerAscii.

(** The same with a browser that names no country and an address lookup
    that answers Switzerland. *)
Definition sampleLookup : collaborators :=
  mkCollaborators (Ok (VObj Plain [])) (fun _ _ _ => Ok (Some (js "ip")))
    (fun _ => Ok VUndef) (Some (js "de"))
    (fun _ => Ok (VObj Plain [(js "countryCode", VStr (js "CH"))])) lowerAscii.

(** An environment as the constructor leaves it, with nothing logged. *)
Definition sampleSession : session := mkSession construct [].

(** A namespace with a key that has no value, and a map of two
    namespaces. *)
Definition sampleNull : infos := [site "o" 1 (entry [field "x 0" VNull])].

Definition samplePair : infos := [site "o" 1 docTitles; site "p" 2 docAccount].

(** An environment with a language and a country, and the parameters of a
    caller. *)
Definition sampleLocale : props :=
  [field "language" (str "en"); field "country" (str "us")].

Definition sampleParams : value :=
  VObj Plain [field "language" (str "en"); field "country" (str "us");
              field "query" (str "g foo")].


(** [m'] holds the namespaces of [m], in the same order, each with the
    descriptor it has in [m] but for the shortcuts, which hold the same
    keys. *)
Definition sameShape (m m' : infos) : Prop :=
  map fst m' = map fst m
  /\ forall k i,
       lookup k m = Some i ->
       exists i', lookup k m' = Some i'
                  /\ sameButShortcuts i i'
                  /\ forInKeys (shortcuts i') = forInKeys (shortcuts i).

(** A suspended callback waits at an entry that, in the map, still names
    the namespace it waits for. *)
Definition pending (m : infos) (task : jsstring * progress) : Prop :=
  match snd task with
  | Awaiting _ _ key _ ins =>
      exists oi x ikey,
        lookup (fst task) m = Some oi
        /\ getProp (shortcuts oi) key = Ok x
        /\ classify x = Ok (Remote ikey ins)
  | _ => True
  end.

(** A callback that is not suspended. *)
Definition settledTask (task : jsstring * progress) : Prop :=
  match snd task with
  | Awaiting _ _ _ _ _ => False
  | _ => True
  end.

(** * Properties *)

(** ** Strings and own properties *)

Lemma eqb_js_refl (a : jsstring) : eqb_js a a = true.
Proof.
  induction a as [|x a IH]; simpl; [reflexivity|].
  now rewrite N.eqb_refl, IH.
Qed.

Lemma eqb_js_eq (a b : jsstring) : eqb_js a b = true <-> a = b.
Proof.
  split; [|intros ->; apply eqb_js_refl].
  revert b; induction a as [|x a IH]; intros [|y b]; simpl; try easy.
  rewrite andb_true_iff, N.eqb_eq. intros [-> H]. f_equal. now apply IH.
Qed.

Lemma eqb_js_neq (a b : jsstring) : eqb_js a b = false <-> a <> b.
Proof.
  rewrite <- eqb_js_eq. destruct (eqb_js a b); split; congruence.
Qed.

Lemma eqb_js_sym (a b : jsstring) : eqb_js a b = eqb_js b a.
Proof.
  destruct (eqb_js a b) eqn:E.
  - apply eqb_js_eq in E. subst. symmetry. apply eqb_js_refl.
  - symmetry. apply eqb_js_neq. apply eqb_js_neq in E. congruence.
Qed.

Ltac js_eq :=
  repeat match goal with
  | H : eqb_js _ _ = true |- _ => apply eqb_js_eq in H; subst
  | H : eqb_js _ _ = false |- _ => apply eqb_js_neq in H
  end.

Section OwnProperties.
Context {A : Type}.
Implicit Types (ps : list (jsstring * A)) (k : jsstring) (v : A).

Lemma lookup_In k v ps : lookup k ps = Some v -> In (k, v) ps.
Proof.
  induction ps as [|[k' v'] ps IH]; simpl; [discriminate|].
  destruct (eqb_js k k') eqn:E.
  - intros [= ->]. js_eq. now left.
  - intros H. right. now apply IH.
Qed.

Lemma lookup_None k ps : lookup k ps = None <-> ~ In k (map fst ps).
Proof.
  clear jsyaml_load fetch.
  induction ps as [|[k' v'] ps IH]; simpl; [tauto|].
  destruct (eqb_js k k') eqn:E; js_eq.
  - split; [discriminate|]. intros H. exfalso. apply H. now left.
  - rewrite IH. split; [intros H [H1|H1]; congruence | tauto].
Qed.

Lemma lookup_replaceProp_same k v ps :
  lookup k (replaceProp k v ps) = match lookup k ps with
                                  | Some _ => Some v
                                  | None => None
                                  end.
Proof.
  induction ps as [|[k' v'] ps IH]; simpl; [reflexivity|].
  destruct (eqb_js k k') eqn:E; simpl; rewrite E; [reflexivity|exact IH].
Qed.

Lemma lookup_replaceProp_other k k' v ps :
  k <> k' -> lookup k' (replaceProp k v ps) = lookup k' ps.
Proof.
  intros Hn. induction ps as [|[k2 v2] ps IH]; simpl; [reflexivity|].
  destruct (eqb_js k k2) eqn:E; simpl.
  - js_eq. destruct (eqb_js k' k2) eqn:E2; [js_eq; congruence|reflexivity].
  - destruct (eqb_js k' k2); [reflexivity|exact IH].
Qed.

Lemma keys_replaceProp k v ps : map fst (replaceProp k v ps) = map fst ps.
Proof.
  induction ps as [|[k' v'] ps IH]; simpl; [reflexivity|].
  destruct (eqb_js k k'); simpl; [reflexivity|now rewrite IH].
Qed.

Lemma replaceProp_same k v ps : lookup k ps = Some v -> replaceProp k v ps = ps.
Proof.
  induction ps as [|[k' v'] ps IH]; simpl; [reflexivity|].
  destruct (eqb_js k k') eqn:E.
  - now intros [= ->].
  - intros H. now rewrite IH.
Qed.

Lemma lookup_insertIndex i k k' v ps :
  lookup k ps = None ->
  lookup k' (insertIndex i k v ps)
  = if eqb_js k' k then Some v else lookup k' ps.
Proof.
  induction ps as [|[k2 v2] ps IH]; simpl; [reflexivity|].
  destruct (eqb_js k k2) eqn:Ek; [discriminate|]. intros Hk.
  destruct (arrayIndex k2) as [j|]; [destruct (N.ltb j i)|]; simpl;
    try reflexivity.
  rewrite (IH Hk).
  destruct (eqb_js k' k) eqn:E, (eqb_js k' k2) eqn:E2; try reflexivity.
  js_eq. congruence.
Qed.

Lemma lookup_app k ps qs :
  lookup k (ps ++ qs) = match lookup k ps with
                        | Some v => Some v
                        | None => lookup k qs
                        end.
Proof.
  induction ps as [|[k' v'] ps IH]; simpl; [reflexivity|].
  destruct (eqb_js k k'); [reflexivity|exact IH].
Qed.

Lemma lookup_setOwn k k' v ps :
  lookup k' (setOwn k v ps) = if eqb_js k' k then Some v else lookup k' ps.
Proof.
  unfold setOwn, hasKey. destruct (lookup k ps) as [x|] eqn:Hk.
  - destruct (eqb_js k' k) eqn:E; js_eq.
    + now rewrite lookup_replaceProp_same, Hk.
    + apply lookup_replaceProp_other. congruence.
  - destruct (arrayIndex k) as [i|].
    + now apply lookup_insertIndex.
    + rewrite lookup_app. simpl. destruct (lookup k' ps) eqn:H'.
      * destruct (eqb_js k' k) eqn:E; js_eq; congruence.
      * reflexivity.
Qed.

Lemma lookup_setOwn_same k v ps : lookup k (setOwn k v ps) = Some v.
Proof. now rewrite lookup_setOwn, eqb_js_refl. Qed.

Lemma lookup_setOwn_other k k' v ps :
  k' <> k -> lookup k' (setOwn k v ps) = lookup k' ps.
Proof.
  intros H. rewrite lookup_setOwn.
  apply eqb_js_neq in H. now rewrite H.
Qed.

Lemma keys_setOwn_present k v ps :
  hasKey k ps = true -> map fst (setOwn k v ps) = map fst ps.
Proof.
  unfold setOwn. intros ->. apply keys_replaceProp.
Qed.

Lemma setOwn_same k v ps : lookup k ps = Some v -> setOwn k v ps = ps.
Proof.
  intros H. unfold setOwn, hasKey. rewrite H. now apply replaceProp_same.
Qed.

Lemma In_replaceProp k v kv ps :
  In kv (replaceProp k v ps) -> kv = (k, v) \/ In kv ps.
Proof.
  clear jsyaml_load fetch.
  induction ps as [|[k' v'] ps IH]; simpl; [tauto|].
  destruct (eqb_js k k') eqn:E; simpl; js_eq; intuition.
Qed.

Lemma In_insertIndex i k v kv ps :
  In kv (insertIndex i k v ps) <-> kv = (k, v) \/ In kv ps.
Proof.
  clear jsyaml_load fetch.
  induction ps as [|[k' v'] ps IH]; simpl; [intuition|].
  destruct (arrayIndex k') as [j|]; [destruct (N.ltb j i)|]; simpl;
    rewrite ?IH; intuition.
Qed.

Lemma In_setOwn k v kv ps :
  In kv (setOwn k v ps) -> kv = (k, v) \/ In kv ps.
Proof.
  clear jsyaml_load fetch.
  unfold setOwn. destruct (hasKey k ps).
  - apply In_replaceProp.
  - destruct (arrayIndex k).
    + apply In_insertIndex.
    + rewrite in_app_iff. simpl. intuition.
Qed.

Lemma lookup_Some_iff k ps :
  (exists v, lookup k ps = Some v) <-> In k (map fst ps).
Proof.
  destruct (lookup k ps) as [v|] eqn:H.
  - split; [intros _|intros _; now exists v].
    apply lookup_In in H. now apply (in_map fst) in H.
  - split; [intros [v Hv]; discriminate|].
    intros Hin. now apply lookup_None in H.
Qed.

Lemma In_keys_setOwn k v k' ps :
  In k' (map fst (setOwn k v ps)) <-> k' = k \/ In k' (map fst ps).
Proof.
  rewrite <- !lookup_Some_iff. rewrite lookup_setOwn.
  destruct (eqb_js k' k) eqn:E; js_eq.
  - split; [now left|intros _; now exists v].
  - split; [now right|]. intros [?|?]; [congruence|assumption].
Qed.

Lemma NoDup_keys_insertIndex i k v ps :
  ~ In k (map fst ps) -> NoDup (map fst ps) ->
  NoDup (map fst (insertIndex i k v ps)).
Proof.
  clear jsyaml_load fetch.
  induction ps as [|[k' v'] ps IH]; simpl; intros Hk Hnd.
  - constructor; [tauto|constructor].
  - assert (Hgo : NoDup (k :: k' :: map fst ps)) by (constructor; simpl; tauto).
    destruct (arrayIndex k') as [j|]; [destruct (N.ltb j i)|]; simpl;
      try exact Hgo.
    inversion Hnd as [|? ? Hn Hnd']; subst. constructor.
    + intros Hin. apply in_map_iff in Hin. destruct Hin as [kv [Hf Hin]].
      apply In_insertIndex in Hin. destruct Hin as [->|Hin].
      * simpl in Hf. subst. apply Hk. now left.
      * apply Hn. rewrite <- Hf. now apply in_map.
    + apply IH; [tauto|assumption].
Qed.

Lemma NoDup_keys_setOwn k v ps :
  NoDup (map fst ps) -> NoDup (map fst (setOwn k v ps)).
Proof.
  clear jsyaml_load fetch.
  intros Hnd. unfold setOwn, hasKey.
  destruct (lookup k ps) eqn:H.
  - now rewrite keys_replaceProp.
  - apply lookup_None in H. destruct (arrayIndex k).
    + now apply NoDup_keys_insertIndex.
    + rewrite map_app. simpl. apply NoDup_app; [assumption | repeat constructor; simpl; tauto |].
      intros x Hx [<-|[]]. contradiction.
Qed.

Lemma In_lookup k v ps :
  NoDup (map fst ps) -> In (k, v) ps -> lookup k ps = Some v.
Proof.
  clear jsyaml_load fetch.
  induction ps as [|[k' v'] ps IH]; simpl; [tauto|].
  intros Hnd [[= -> ->]|Hin].
  - now rewrite eqb_js_refl.
  - inversion Hnd as [|? ? Hn Hnd']; subst.
    destruct (eqb_js k k') eqn:E; js_eq.
    + exfalso. apply Hn. now apply (in_map fst) in Hin.
    + now apply IH.
Qed.

End OwnProperties.

Lemma mem_In (k : jsstring) (l : list jsstring) : mem k l = true <-> In k l.
Proof.
  unfold mem. rewrite existsb_exists. split.
  - intros [x [Hin Hx]]. js_eq. assumption.
  - intros Hin. exists k. split; [assumption|apply eqb_js_refl].
Qed.

Lemma distinctKeys_NoDup (l : list jsstring) :
  distinctKeys l = true <-> NoDup l.
Proof.
  induction l as [|k l IH]; simpl.
  - split; [constructor|reflexivity].
  - rewrite andb_true_iff, negb_true_iff, IH. split.
    + intros [Hm Hnd]. constructor; [|assumption].
      rewrite <- mem_In. congruence.
    + intros Hnd. inversion Hnd as [|? ? Hn Hnd']; subst. split; [|assumption].
      destruct (mem k l) eqn:E; [|reflexivity]. apply mem_In in E. contradiction.
Qed.

(** ** Namespace Resolver *)

(** C6 (amended): classification follows first-match precedence.  A string
    shorter than 4 units yields a descriptor of type [site] whose url is the
    identifier templated into the site base URL.  An object carrying both a
    url and a name is used as it is and tagged [user].  Any other spec, a
    longer string or an object lacking a url or a name, is a Github
    collection, also tagged [user]: the marker ['.'] is replaced by the
    caller's account, the name defaults to the account, and the url is the
    account templated into the per-account URL. *)
Theorem getInitalNamespaceInfo_classification (e : env) :
  (forall s, (List.length s < 4)%nat ->
     getInitalNamespaceInfo e (NsString s)
     = mkInfo (Some s) (Some (js "site"))
         (Some (js "https://data.trovu.net/data/shortcuts/" ++ s ++ js ".yml"))
         None None VUndef)
  /\ (forall o, truthyStr (url o) = true -> truthyStr (name o) = true ->
      getInitalNamespaceInfo e (NsObject o)
      = mkInfo (name o) (Some (js "user")) (url o) (github o) (priority o)
          (shortcuts o))
  /\ (forall s, (4 <= List.length s)%nat ->
      getInitalNamespaceInfo e (NsString s)
      = mkInfo (Some s) (Some (js "user")) (Some (githubTemplate (Some s)))
          (Some s) None VUndef)
  /\ (forall o, (truthyStr (url o) && truthyStr (name o))%bool = false ->
      getInitalNamespaceInfo e (NsObject o)
      = mkInfo (if truthyStr (name o) then name o
                else resolvedAccount e (github o))
          (Some (js "user"))
          (Some (githubTemplate (resolvedAccount e (github o))))
          (resolvedAccount e (github o)) (priority o) (shortcuts o)).
Proof.
  repeat split.
  - intros s Hs. simpl. apply Nat.ltb_lt in Hs. now rewrite Hs.
  - intros o Hu Hn. simpl. now rewrite Hu, Hn.
  - intros s Hs. simpl.
    assert (Hlt : Nat.ltb (List.length s) 4 = false) by (apply Nat.ltb_ge; lia).
    assert (Hdot : eqb_js s (js ".") = false).
    { destruct s as [|a [|b s]]; simpl in *; lia. }
    rewrite Hlt. unfold addFetchUrlToGithubNamespace. cbn [github name truthyStr].
    rewrite Hdot. reflexivity.
  - intros o H. simpl. rewrite H. reflexivity.
Qed.

(** ** Shortcut Verifier *)

Lemma normalize_idem (v : value) : normalize (normalize v) = normalize v.
Proof. unfold normalize. destruct v; reflexivity. Qed.

Lemma verifyLoop_object (kd : kind) (ks : list jsstring) :
  forall inc ps,
    (forall k, In k ks -> hasKey k ps = true) ->
    exists ps',
      verifyLoop ks inc (VObj kd ps) = Ok (inc ++ incorrect ks, VObj kd ps')
      /\ map fst ps' = map fst ps
      /\ forall k, lookup k ps'
                   = if mem k ks then option_map normalize (lookup k ps)
                     else lookup k ps.
Proof.
  induction ks as [|key ks IH]; intros inc ps Hks.
  - exists ps. simpl. rewrite app_nil_r. auto.
  - assert (Hkey : hasKey key ps = true) by (apply Hks; now left).
    unfold hasKey in Hkey. destruct (lookup key ps) as [v|] eqn:Hv; [|discriminate].
    set (ps1 := if isString v then setOwn key (normalize v) ps else ps).
    assert (Hkeys1 : map fst ps1 = map fst ps).
    { unfold ps1. destruct (isString v); [|reflexivity].
      apply keys_setOwn_present. unfold hasKey. now rewrite Hv. }
    assert (Hl1 : forall k, lookup k ps1
                = if eqb_js k key then Some (normalize v) else lookup k ps).
    { intros k. unfold ps1. destruct (isString v) eqn:Es.
      - apply lookup_setOwn.
      - destruct (eqb_js k key) eqn:E; [|reflexivity]. js_eq.
        rewrite Hv. unfold normalize. now rewrite Es. }
    destruct (IH (if matchKey key then inc else inc ++ [key]) ps1)
      as [ps' [Hrun [Hkeys Hl]]].
    { intros k Hk. unfold hasKey. rewrite Hl1.
      destruct (eqb_js k key); [reflexivity|]. apply Hks. now right. }
    exists ps'. split; [|split].
    + cbn [verifyLoop]. simpl getProp. rewrite Hv. cbn [bind].
      unfold ps1 in Hrun. unfold incorrect. cbn [filter].
      destruct (isString v) eqn:Es.
      * cbn [setProp bind]. unfold normalize in Hrun. rewrite Es in Hrun.
        rewrite Hrun. destruct (matchKey key); simpl; [reflexivity|].
        now rewrite <- app_assoc.
      * rewrite Hrun. destruct (matchKey key); simpl; [reflexivity|].
        now rewrite <- app_assoc.
    + congruence.
    + intros k. rewrite Hl, Hl1. simpl mem.
      destruct (eqb_js k key) eqn:E; simpl.
      * js_eq. rewrite Hv. simpl. rewrite normalize_idem.
        destruct (mem key ks); reflexivity.
      * reflexivity.
Qed.

Lemma matchKey_wildcard (kw : jsstring) :
  forallb (fun c => negb (isWhiteSpace c)) kw = true ->
  matchKey (kw ++ js " *") = false.
Proof.
  induction kw as [|c kw IH]; [reflexivity|].
  intros H. simpl in H. apply andb_true_iff in H. destruct H as [Hc Hkw].
  specialize (IH Hkw). destruct kw as [|c2 kw].
  - simpl. now rewrite !andb_false_r.
  - change ((c :: c2 :: kw) ++ js " *") with (c :: (c2 :: kw) ++ js " *").
    cbn [matchKey]. rewrite IH.
    simpl in Hkw. apply andb_true_iff in Hkw. destruct Hkw as [Hc2 _].
    assert (H32 : N.eqb c2 32 = false).
    { destruct (N.eqb c2 32) eqn:E; [|reflexivity].
      apply N.eqb_eq in E. subst. discriminate. }
    change ((c2 :: kw) ++ js " *") with (c2 :: (kw ++ js " *")).
    destruct (kw ++ js " *") eqn:Ek.
    + destruct kw; discriminate.
    + now rewrite H32, andb_false_r.
Qed.

Lemma verifyLoop_mapping (kd : kind) (ps : props) :
  exists ps',
    verifyLoop (map fst ps) [] (VObj kd ps)
    = Ok (incorrect (map fst ps), VObj kd ps')
    /\ map fst ps' = map fst ps
    /\ forall k, lookup k ps' = option_map normalize (lookup k ps).
Proof.
  destruct (verifyLoop_object kd (map fst ps) [] ps) as [ps' [Hrun [Hkeys Hl]]].
  { intros k Hk. apply lookup_Some_iff in Hk. destruct Hk as [v Hv].
    unfold hasKey. now rewrite Hv. }
  exists ps'. repeat split; try assumption.
  intros k. rewrite Hl. destruct (mem k (map fst ps)) eqn:E; [reflexivity|].
  destruct (lookup k ps) as [v|] eqn:Hv; [|reflexivity].
  assert (Hin : In k (map fst ps)) by (apply lookup_Some_iff; now exists v).
  apply mem_In in Hin. congruence.
Qed.

(** C4 (amended): on a freshly parsed mapping [verifyShortcuts] excludes
    nothing.  It returns the same keys in the same order, each bare string
    entry turned into an entry with only a [url] and every other entry as it
    was.  The keys in which no non-whitespace unit is followed by a space
    and a digit are listed, in order, in one diagnostic that names the
    namespace, and the error flag is set; without such a key nothing is
    logged.  A key whose argument count is the wildcard marker is among the
    keys reported. *)
Theorem verifyShortcuts_reports_and_keeps
    (e : env) (kd : kind) (ps : props) (namespaceName : option jsstring) :
  exists ps',
    verifyShortcuts e (VObj kd ps) namespaceName
    = Ok (match incorrect (map fst ps) with
          | [] => e
          | bad => setError (log (incorrectKeysMessage namespaceName bad) e)
          end, VObj kd ps')
    /\ map fst ps' = map fst ps
    /\ (forall k, lookup k ps' = option_map normalize (lookup k ps))
    /\ (forall kw, forallb (fun c => negb (isWhiteSpace c)) kw = true ->
        In (kw ++ js " *") (map fst ps) ->
        In (kw ++ js " *") (incorrect (map fst ps))).
Proof.
  destruct (verifyLoop_mapping kd ps) as [ps' [Hrun [Hkeys Hl]]].
  exists ps'. repeat split; try assumption.
  - unfold verifyShortcuts, forInKeys. cbn [ownEnumerable]. rewrite Hrun.
    cbn [bind]. destruct (incorrect (map fst ps)); reflexivity.
  - intros kw Hkw Hin. unfold incorrect. apply filter_In. split; [assumption|].
    now rewrite matchKey_wildcard.
Qed.

(** ** Sparse arrays *)

Section Arrays.
Context {A : Type}.
Implicit Types (l : list (option A)) (x : A).

Lemma arrayGet_arraySet i j x l :
  arrayGet j (arraySet i x l) = if Nat.eqb j i then Some x else arrayGet j l.
Proof.
  unfold arrayGet. revert j l. induction i as [|i IH]; intros [|j] [|y l]; simpl;
    try reflexivity.
  - now destruct j.
  - rewrite IH. destruct (Nat.eqb j i); [reflexivity|]. now destruct j.
  - apply IH.
Qed.

Lemma length_arraySet i x l :
  List.length (arraySet i x l) = Nat.max (S i) (List.length l).
Proof.
  revert l. induction i as [|i IH]; intros [|y l]; cbn [arraySet List.length].
  - reflexivity.
  - lia.
  - rewrite IH. cbn [List.length]. lia.
  - rewrite IH. lia.
Qed.

Lemma array_ext l l' :
  List.length l = List.length l' ->
  (forall j, arrayGet j l = arrayGet j l') -> l = l'.
Proof.
  revert l'. induction l as [|y l IH]; intros [|y' l'] Hlen Hget;
    try discriminate; [reflexivity|].
  f_equal.
  - exact (Hget 0%nat).
  - apply IH; [simpl in Hlen; lia|]. intros j. exact (Hget (S j)).
Qed.

Lemma arrayGet_repeat_None j n : arrayGet j (repeat (@None A) n) = None.
Proof.
  unfold arrayGet. revert j. induction n as [|n IH]; intros [|j]; simpl;
    try reflexivity. apply IH.
Qed.

Lemma arrayGet_beyond j l : (List.length l <= j)%nat -> arrayGet j l = None.
Proof.
  intros H. unfold arrayGet. apply nth_error_None in H. now rewrite H.
Qed.

End Arrays.

(** ** Collection Fetcher: [Promise.all] *)

Lemma collect_fold (promises : list (option promise)) (order : list nat) :
  forall values,
    collect order promises values
    = if existsb (rejectedAt promises) order then Throw
      else Ok (fold_left (store promises) order values).
Proof.
  induction order as [|i order IH]; intros values; [reflexivity|].
  cbn [collect existsb fold_left]. unfold rejectedAt at 1, store at 2.
  destruct (nth_error promises i) as [[[r|]|]|]; cbn [orb]; auto.
Qed.

Lemma store_fold_length (promises : list (option promise)) (order : list nat) :
  forall values,
    List.length promises = List.length values ->
    List.length (fold_left (store promises) order values) = List.length values.
Proof.
  induction order as [|i order IH]; intros values Hlen; [reflexivity|].
  cbn [fold_left].
  assert (Hs : List.length (store promises values i) = List.length values).
  { unfold store. destruct (nth_error promises i) as [[[r|]|]|] eqn:E; try reflexivity.
    rewrite length_arraySet.
    assert (i < List.length promises)%nat by (apply nth_error_Some; congruence).
    lia. }
  rewrite IH; congruence.
Qed.

Lemma store_fold_get (promises : list (option promise)) (order : list nat) :
  forall values j,
    arrayGet j (fold_left (store promises) order values)
    = match nth_error promises j with
      | Some (Some (Some r)) =>
          if existsb (Nat.eqb j) order then Some r else arrayGet j values
      | _ => arrayGet j values
      end.
Proof.
  induction order as [|i order IH]; intros values j.
  - simpl. destruct (nth_error promises j) as [[[r|]|]|]; reflexivity.
  - cbn [fold_left existsb]. rewrite IH.
    destruct (nth_error promises j) as [[[r|]|]|] eqn:Ej;
      try (unfold store; destruct (nth_error promises i) as [[[r'|]|]|] eqn:Ei;
           try reflexivity; rewrite arrayGet_arraySet;
           destruct (Nat.eqb j i) eqn:E; [apply Nat.eqb_eq in E; congruence|reflexivity]).
    destruct (existsb (Nat.eqb j) order); [now rewrite orb_true_r|].
    rewrite orb_false_r. unfold store.
    destruct (Nat.eqb j i) eqn:E.
    + apply Nat.eqb_eq in E. subst. rewrite Ej. rewrite arrayGet_arraySet.
      now rewrite Nat.eqb_refl.
    + destruct (nth_error promises i) as [[[r'|]|]|]; try reflexivity.
      rewrite arrayGet_arraySet. now rewrite E.
Qed.

Lemma arrayGet_settled (promises : list (option promise)) (j : nat) :
  arrayGet j (settled promises)
  = match nth_error promises j with
    | Some (Some (Some r)) => Some r
    | _ => None
    end.
Proof.
  unfold arrayGet, settled, promise in *. rewrite nth_error_map.
  destruct (nth_error promises j) as [[[r|]|]|]; reflexivity.
Qed.

Lemma promiseAll_permutation (promises : list (option promise))
    (order : list nat) :
  Permutation order (seq 0 (List.length promises)) ->
  promiseAll order promises
  = if anyRejected promises then Throw else Ok (settled promises).
Proof.
  intros Hperm. unfold promiseAll. rewrite collect_fold.
  assert (Hex : existsb (rejectedAt promises) order = anyRejected promises).
  { unfold anyRejected. apply eq_true_iff_eq. rewrite !existsb_exists.
    split; intros [i [Hin Hi]]; exists i; split; try assumption.
    - eapply Permutation_in; eassumption.
    - eapply Permutation_in; [apply Permutation_sym|]; eassumption. }
  rewrite Hex. destruct (anyRejected promises); [reflexivity|]. f_equal.
  apply array_ext.
  - rewrite store_fold_length; rewrite repeat_length; [|reflexivity].
    unfold settled. now rewrite length_map.
  - intros j. rewrite store_fold_get, arrayGet_settled, arrayGet_repeat_None.
    destruct (nth_error promises j) as [[[r|]|]|] eqn:Ej; try reflexivity.
    assert (Hj : In j order).
    { eapply Permutation_in; [apply Permutation_sym; eassumption|].
      apply in_seq. assert (j < List.length promises)%nat
        by (apply nth_error_Some; congruence). lia. }
    assert (Hx : existsb (Nat.eqb j) order = true).
    { apply existsb_exists. exists j. split; [assumption|apply Nat.eqb_refl]. }
    now rewrite Hx.
Qed.

(** ** Namespace Resolver: the initial descriptors *)

Lemma url_truthy (e : env) (ns : namespace) :
  truthyStr (url (getInitalNamespaceInfo e ns)) = true.
Proof.
  destruct ns as [s|o]; simpl.
  - destruct (Nat.ltb (List.length s) 4); reflexivity.
  - destruct (truthyStr (url o)) eqn:Hu; simpl.
    + destruct (truthyStr (name o)); [assumption|reflexivity].
    + reflexivity.
Qed.

Lemma initialEntries_nth (e : env) (nss : list namespace) :
  forall idx n k i,
    nth_error (initialEntries e idx nss) n = Some (k, i) ->
    priority i = Some (Z.of_nat (idx + n) + 1)
    /\ k = toStr (name i)
    /\ truthyStr (url i) = true
    /\ (n < List.length nss)%nat.
Proof.
  induction nss as [|ns nss IH]; intros idx n k i H.
  - destruct n; discriminate.
  - destruct n as [|n]; cbn [initialEntries nth_error] in H.
    + injection H as <- <-. cbn [priority name url]. rewrite Nat.add_0_r.
      repeat split; [apply url_truthy|simpl; lia].
    + apply IH in H. destruct H as [Hp [Hk [Hu Hn]]].
      repeat split; try assumption; [|simpl; lia].
      rewrite Hp. do 2 f_equal. lia.
Qed.

Lemma initialEntries_priority_unique (e : env) (nss : list namespace)
    (kv kv' : jsstring * namespaceInfo) :
  In kv (initialEntries e 0 nss) -> In kv' (initialEntries e 0 nss) ->
  priority (snd kv) = priority (snd kv') -> kv = kv'.
Proof.
  intros H H' Hp. apply In_nth_error in H, H'.
  destruct H as [n Hn], H' as [n' Hn']. destruct kv as [k i], kv' as [k' i'].
  pose proof (initialEntries_nth e nss 0 n k i Hn) as [P _].
  pose proof (initialEntries_nth e nss 0 n' k' i' Hn') as [P' _].
  simpl in Hp. rewrite P, P' in Hp.
  assert (n = n') by (injection Hp; lia). subst. congruence.
Qed.

Lemma In_fold_setOwn {A} (es : list (jsstring * A)) :
  forall acc kv,
    In kv (fold_left (fun o x => setOwn (fst x) (snd x) o) es acc) ->
    In kv es \/ In kv acc.
Proof.
  clear jsyaml_load fetch.
  induction es as [|[k v] es IH]; intros acc kv H; simpl in *; [now right|].
  apply IH in H. destruct H as [H|H]; [tauto|].
  apply In_setOwn in H. destruct H as [->|H]; tauto.
Qed.

Lemma In_fromEntries {A} (es : list (jsstring * A)) (kv : jsstring * A) :
  In kv (fromEntries es) -> In kv es.
Proof.
  intros H. apply In_fold_setOwn in H. destruct H as [H|[]]. exact H.
Qed.

Lemma NoDup_fold_setOwn {A} (es : list (jsstring * A)) :
  forall acc,
    NoDup (map fst acc) ->
    NoDup (map fst (fold_left (fun o x => setOwn (fst x) (snd x) o) es acc)).
Proof.
  induction es as [|[k v] es IH]; intros acc H; simpl; [assumption|].
  apply IH. now apply NoDup_keys_setOwn.
Qed.

Lemma NoDup_initial (e : env) (nss : list namespace) :
  NoDup (map fst (getInitialNamespaceInfos e nss)).
Proof. apply NoDup_fold_setOwn. constructor. Qed.

(** Every initial descriptor has a url, a priority that is its 1-based
    position in the caller's list, and is stored under its name. *)
Lemma initial_descriptor (e : env) (nss : list namespace) k i :
  In (k, i) (getInitialNamespaceInfos e nss) ->
  truthyStr (url i) = true
  /\ k = toStr (name i)
  /\ exists n, (n < List.length nss)%nat /\ priority i = Some (Z.of_nat n + 1).
Proof.
  intros H. apply In_fromEntries in H. apply In_nth_error in H.
  destruct H as [n Hn]. apply initialEntries_nth in Hn.
  destruct Hn as [Hp [Hk [Hu Hlt]]]. repeat split; try assumption.
  exists n. split; [assumption|]. now rewrite Hp.
Qed.

Lemma initial_priority_unique (e : env) (nss : list namespace)
    (kv kv' : jsstring * namespaceInfo) :
  In kv (getInitialNamespaceInfos e nss) ->
  In kv' (getInitialNamespaceInfos e nss) ->
  priority (snd kv) = priority (snd kv') -> kv = kv'.
Proof.
  intros H H'. apply In_fromEntries in H, H'.
  now apply (initialEntries_priority_unique e nss).
Qed.

(** ** Collection Fetcher: which response goes to which descriptor *)

Lemma startFetch_other (reload : bool) (l : infos) (z : Z) :
  0 <= z ->
  (forall kv, In kv l -> priority (snd kv) <> Some z) ->
  forall init,
    arrayGet (Z.to_nat z) (fold_left (startFetch reload) l init)
    = arrayGet (Z.to_nat z) init.
Proof.
  intros Hz. induction l as [|[k i] l IH]; intros Hl init; [reflexivity|].
  cbn [fold_left]. rewrite IH by (intros kv Hin; apply Hl; now right).
  unfold startFetch. cbn [snd]. destruct (negb (truthyStr (url i))); [reflexivity|].
  destruct (priority i) as [p|] eqn:Hp; [|reflexivity].
  destruct (Z.leb 0 p && Z.ltb p 4294967295)%bool eqn:Hb; [|reflexivity].
  rewrite arrayGet_arraySet.
  destruct (Nat.eqb (Z.to_nat z) (Z.to_nat p)) eqn:E; [|reflexivity].
  apply Nat.eqb_eq in E. apply andb_true_iff in Hb. destruct Hb as [Hb _].
  apply Z.leb_le in Hb. assert (z = p) by lia. subst.
  exfalso. apply (Hl (k, i)); [now left|assumption].
Qed.

Lemma startFetch_own (reload : bool) (l : infos) :
  (forall kv, In kv l -> issues kv) ->
  (forall kv kv', In kv l -> In kv' l ->
                  priority (snd kv) = priority (snd kv') -> kv = kv') ->
  forall init k i z,
    In (k, i) l -> priority i = Some z ->
    arrayGet (Z.to_nat z) (fold_left (startFetch reload) l init)
    = Some (fetch (toStr (url i)) reload).
Proof.
  induction l as [|x l IH]; intros Hall Huniq init k i z Hin Hp; [destruct Hin|].
  cbn [fold_left].
  destruct (existsb (fun kv => match priority (snd kv) with
                               | Some p => Z.eqb p z
                               | None => false
                               end) l) eqn:Hex.
  - apply existsb_exists in Hex. destruct Hex as [y [Hy Hyp]].
    destruct (priority (snd y)) as [p|] eqn:Ep; [|discriminate].
    apply Z.eqb_eq in Hyp. subst p.
    assert (Hky : (k, i) = y).
    { apply Huniq; [assumption|now right|]. simpl. congruence. }
    subst y. apply IH with (k := k); try assumption.
    + intros kv H. apply Hall. now right.
    + intros kv kv' H H'. apply Huniq; now right.
  - assert (Hno : forall kv, In kv l -> priority (snd kv) <> Some z).
    { intros kv H Hkv.
      assert (Ht : existsb (fun kv => match priority (snd kv) with
                               | Some p => Z.eqb p z
                               | None => false
                               end) l = true).
      { apply existsb_exists. exists kv. split; [assumption|].
        rewrite Hkv. apply Z.eqb_refl. }
      congruence. }
    destruct Hin as [->|Hin]; [|exfalso; now apply (Hno (k, i))].
    destruct (Hall (k, i) (or_introl eq_refl)) as [Hu [z' [Hz' Hrange]]].
    cbn [snd] in *. assert (z' = z) by congruence. subst z'.
    rewrite startFetch_other by (try assumption; lia).
    unfold startFetch. cbn [snd]. rewrite Hu, Hp. cbn [negb].
    assert (Hb : (Z.leb 0 z && Z.ltb z 4294967295)%bool = true).
    { apply andb_true_iff. split; [apply Z.leb_le|apply Z.ltb_lt]; lia. }
    rewrite Hb, arrayGet_arraySet. now rewrite Nat.eqb_refl.
Qed.

Lemma startFetch_source (reload : bool) (l : infos) :
  forall init j x,
    arrayGet j (fold_left (startFetch reload) l init) = Some x ->
    arrayGet j init = Some x
    \/ exists kv, In kv l /\ x = fetch (toStr (url (snd kv))) reload.
Proof.
  induction l as [|[k i] l IH]; intros init j x H; [now left|].
  cbn [fold_left] in H. apply IH in H. destruct H as [H|[kv [Hin Hx]]].
  - unfold startFetch in H. cbn [snd] in H.
    destruct (negb (truthyStr (url i))); [now left|].
    destruct (priority i) as [p|]; [|now left].
    destruct (Z.leb 0 p && Z.ltb p 4294967295)%bool; [|now left].
    rewrite arrayGet_arraySet in H. destruct (Nat.eqb j (Z.to_nat p)).
    + right. exists (k, i). split; [now left|]. simpl. congruence.
    + now left.
  - right. exists kv. split; [now right|assumption].
Qed.

Lemma initial_issues (e : env) (nss : list namespace) kv :
  Z.of_nat (List.length nss) < 4294967295 ->
  In kv (getInitialNamespaceInfos e nss) -> issues kv.
Proof.
  intros Hlen Hin. destruct kv as [k i].
  apply initial_descriptor in Hin. destruct Hin as [Hu [_ [n [Hn Hp]]]].
  split; [assumption|]. exists (Z.of_nat n + 1). split; [assumption|]. lia.
Qed.

Lemma responseOf_settled (promises : list (option promise)) (i : namespaceInfo) z x :
  priority i = Some z -> 0 <= z ->
  arrayGet (Z.to_nat z) promises = Some x ->
  responseOf (settled promises) i = x.
Proof.
  intros Hp Hz Hget. unfold responseOf. rewrite Hp.
  assert (Hb : Z.leb 0 z = true) by now apply Z.leb_le.
  rewrite Hb, arrayGet_settled. unfold arrayGet in Hget.
  destruct (nth_error promises (Z.to_nat z)) as [[[r|]|]|]; congruence.
Qed.

(** Each initial descriptor is given the response to the request for its
    own url. *)
Lemma initial_attribution (e : env) (nss : list namespace) (reload : bool) k i :
  Z.of_nat (List.length nss) < 4294967295 ->
  In (k, i) (getInitialNamespaceInfos e nss) ->
  responseOf (settled (startFetches (getInitialNamespaceInfos e nss) reload)) i
  = fetch (toStr (url i)) reload.
Proof.
  intros Hlen Hin.
  destruct (initial_issues e nss (k, i) Hlen Hin) as [_ [z [Hz Hrange]]].
  cbn [snd] in Hz. apply responseOf_settled with (z := z); [assumption|lia|].
  unfold startFetches. apply startFetch_own with (k := k); try assumption.
  - intros kv H. now apply (initial_issues e nss).
  - intros kv kv'. apply initial_priority_unique.
Qed.

Lemma initial_rejected (e : env) (nss : list namespace) (reload : bool) :
  Z.of_nat (List.length nss) < 4294967295 ->
  anyRejected (startFetches (getInitialNamespaceInfos e nss) reload) = true <->
  exists k i, In (k, i) (getInitialNamespaceInfos e nss)
              /\ fetch (toStr (url i)) reload = None.
Proof.
  intros Hlen. unfold anyRejected. rewrite existsb_exists. split.
  - intros [j [_ Hj]]. unfold rejectedAt in Hj.
    destruct (nth_error _ j) as [[[r|]|]|] eqn:E; try discriminate.
    assert (Hget : arrayGet j (startFetches (getInitialNamespaceInfos e nss) reload)
                   = Some None) by (unfold arrayGet; now rewrite E).
    apply startFetch_source in Hget. destruct Hget as [Hget|[[k i] [Hin Hx]]].
    + unfold arrayGet in Hget. destruct j; discriminate.
    + exists k, i. split; [assumption|]. now symmetry.
  - intros [k [i [Hin Hf]]].
    destruct (initial_issues e nss (k, i) Hlen Hin) as [_ [z [Hz Hrange]]].
    cbn [snd] in Hz.
    assert (Hget : arrayGet (Z.to_nat z)
                     (startFetches (getInitialNamespaceInfos e nss) reload)
                   = Some (fetch (toStr (url i)) reload)).
    { unfold startFetches. apply startFetch_own with (k := k); try assumption.
      - intros kv H. now apply (initial_issues e nss).
      - intros kv kv'. apply initial_priority_unique. }
    rewrite Hf in Hget. exists (Z.to_nat z). unfold arrayGet in Hget.
    destruct (nth_error _ (Z.to_nat z)) as [o|] eqn:E; [|discriminate]. subst o.
    split.
    + apply in_seq. assert (Z.to_nat z < List.length
        (startFetches (getInitialNamespaceInfos e nss) reload))%nat
        by (apply nth_error_Some; congruence). lia.
    + unfold rejectedAt. now rewrite E.
Qed.

(** ** Collection Fetcher: the loop of [fetchShortcuts] *)

Lemma fetchOne_resolved (responses : list (option response))
    (reload debug : bool) (e : env) (m : infos) (k : jsstring)
    (i : namespaceInfo) :
  lookup k m = Some i ->
  match fetchedShortcuts (responseOf responses i) with
  | Ok sc => exists e', fetchOne responses reload debug e m k
                        = Ok (e', setOwn k (setShortcuts i sc) m)
  | Throw => fetchOne responses reload debug e m k = Throw
  end.
Proof.
  intros Hk. unfold fetchOne, fetchedShortcuts. rewrite Hk.
  destruct (responseOf responses i) as [r|]; [|eauto].
  destruct (negb (Z.eqb (status r) 200)); [eauto|].
  unfold parseShortcutsFromYml. destruct (jsyaml_load (text r)) as [v|msg].
  - unfold verifyShortcuts.
    destruct (verifyLoop (forInKeys v) [] v) as [[inc sc]|]; cbn [bind]; [|reflexivity].
    destruct inc; cbn [bind]; eauto.
  - cbn. eauto.
Qed.

Lemma responseOf_setShortcuts responses i sc :
  responseOf responses (setShortcuts i sc) = responseOf responses i.
Proof. reflexivity. Qed.

Lemma resolved_idem responses i :
  resolved responses (resolved responses i) = resolved responses i.
Proof.
  unfold resolved at 2.
  destruct (fetchedShortcuts (responseOf responses i)) as [sc|] eqn:E.
  - unfold resolved. rewrite responseOf_setShortcuts, E. reflexivity.
  - unfold resolved. now rewrite E.
Qed.

Lemma fetchLoop_resolved (responses : list (option response))
    (reload debug : bool) (ks : list jsstring) :
  forall e m,
    (forall k, In k ks -> exists i, lookup k m = Some i) ->
    (forall k i, lookup k m = Some i ->
                 fetchedShortcuts (responseOf responses i) <> Throw) ->
    exists e' m',
      fetchLoop ks responses reload debug e m = Ok (e', m')
      /\ map fst m' = map fst m
      /\ forall k, lookup k m'
                   = if mem k ks then option_map (resolved responses) (lookup k m)
                     else lookup k m.
Proof.
  induction ks as [|key ks IH]; intros e m Hks Hok.
  - exists e, m. auto.
  - destruct (Hks key (or_introl eq_refl)) as [i Hi].
    pose proof (fetchOne_resolved responses reload debug e m key i Hi) as H1.
    destruct (fetchedShortcuts (responseOf responses i)) as [sc|] eqn:Esc;
      [|exfalso; now apply (Hok key i)].
    destruct H1 as [e1 H1].
    set (m1 := setOwn key (setShortcuts i sc) m) in *.
    assert (Hl1 : forall k, lookup k m1
                = if eqb_js k key then Some (resolved responses i) else lookup k m).
    { intros k. unfold m1. rewrite lookup_setOwn. unfold resolved. now rewrite Esc. }
    destruct (IH e1 m1) as [e' [m' [Hrun [Hkeys Hl]]]].
    + intros k Hk. rewrite Hl1. destruct (eqb_js k key); [eauto|].
      apply Hks. now right.
    + intros k i' Hk'. rewrite Hl1 in Hk'. destruct (eqb_js k key).
      * injection Hk' as <-. unfold resolved. rewrite Esc.
        rewrite responseOf_setShortcuts, Esc. discriminate.
      * now apply (Hok k).
    + exists e', m'. split; [|split].
      * cbn [fetchLoop]. rewrite H1. cbn [bind]. exact Hrun.
      * rewrite Hkeys. unfold m1. apply keys_setOwn_present.
        unfold hasKey. now rewrite Hi.
      * intros k. rewrite Hl, Hl1. unfold mem. cbn [existsb].
        destruct (eqb_js k key) eqn:E; cbn [orb]; [|reflexivity].
        js_eq. rewrite Hi. cbn [option_map]. rewrite resolved_idem.
        destruct (existsb (eqb_js key) ks); reflexivity.
Qed.

Lemma verifyLoop_total (v : value) :
  isString v = false ->
  exists inc sc, verifyLoop (forInKeys v) [] v = Ok (inc, sc).
Proof.
  intros H. destruct v as [| |b|z|s|kd ps]; try discriminate.
  1-4: eexists [], _; reflexivity.
  destruct (verifyLoop_mapping kd ps) as [ps' [Hrun _]]. eauto.
Qed.

Lemma fetchShortcutsIn_settled (order : list nat) (e : env)
    (nss : list namespace) (reload debug : bool) :
  let m0 := getInitialNamespaceInfos e nss in
  Permutation order (seq 0 (List.length (startFetches m0 reload))) ->
  fetchShortcutsIn order e nss reload debug
  = if anyRejected (startFetches m0 reload) then Throw
    else fetchLoop (map fst m0) (settled (startFetches m0 reload)) reload debug
           e m0.
Proof.
  intros m0 Hperm. unfold fetchShortcutsIn. fold m0.
  rewrite (promiseAll_permutation _ _ Hperm).
  destruct (anyRejected (startFetches m0 reload)); reflexivity.
Qed.

(** C7: two runs of [fetchShortcuts] on the same caller's list, with the
    same answer to each url, that differ only in the order in which the
    requests complete, return the same descriptors, and each descriptor is
    given the response to the request for its own url: the responses are
    stored at the priority of the descriptor, not in completion order.  The
    caller's list is an array, so it has fewer than 2^32 - 1 elements. *)
Theorem fetchShortcuts_completion_order
    (e : env) (nss : list namespace) (reload debug : bool)
    (order1 order2 : list nat) :
  let m0 := getInitialNamespaceInfos e nss in
  let promises := startFetches m0 reload in
  Z.of_nat (List.length nss) < 4294967295 ->
  Permutation order1 (seq 0 (List.length promises)) ->
  Permutation order2 (seq 0 (List.length promises)) ->
  fetchShortcutsIn order1 e nss reload debug
  = fetchShortcutsIn order2 e nss reload debug
  /\ promiseAll order1 promises = promiseAll order2 promises
  /\ forall responses k i,
       promiseAll order1 promises = Ok responses ->
       In (k, i) m0 ->
       responseOf responses i = fetch (toStr (url i)) reload.
Proof.
  intros m0 promises Hlen H1 H2. split; [|split].
  - now rewrite !fetchShortcutsIn_settled.
  - now rewrite !promiseAll_permutation.
  - intros responses k i Hall Hin.
    rewrite (promiseAll_permutation _ _ H1) in Hall.
    destruct (anyRejected promises); [discriminate|].
    injection Hall as <-. now apply initial_attribution with (k := k).
Qed.

Lemma fetchShortcuts_resolved (e : env) (nss : list namespace)
    (reload debug : bool) :
  let m0 := getInitialNamespaceInfos e nss in
  Z.of_nat (List.length nss) < 4294967295 ->
  (forall k i, In (k, i) m0 -> fetch (toStr (url i)) reload <> None) ->
  (forall k i, In (k, i) m0 ->
               fetchedShortcuts (fetch (toStr (url i)) reload) <> Throw) ->
  exists e' m',
    fetchShortcuts e nss reload debug = Ok (e', m')
    /\ map fst m' = map fst m0
    /\ forall k i, lookup k m0 = Some i ->
         exists sc, fetchedShortcuts (fetch (toStr (url i)) reload) = Ok sc
                    /\ lookup k m' = Some (setShortcuts i sc).
Proof.
  intros m0 Hlen Hfetch Hok. unfold fetchShortcuts. fold m0.
  rewrite fetchShortcutsIn_settled by apply Permutation_refl. fold m0.
  destruct (anyRejected (startFetches m0 reload)) eqn:Hrej.
  { apply initial_rejected in Hrej; [|assumption].
    destruct Hrej as [k [i [Hin Hf]]]. exfalso. now apply (Hfetch k i). }
  set (responses := settled (startFetches m0 reload)).
  assert (Hresp : forall k i, lookup k m0 = Some i ->
                    responseOf responses i = fetch (toStr (url i)) reload).
  { intros k i Hk. apply lookup_In in Hk.
    now apply initial_attribution with (k := k). }
  destruct (fetchLoop_resolved responses reload debug (map fst m0) e m0)
    as [e' [m' [Hrun [Hkeys Hl]]]].
  - intros k Hk. now apply lookup_Some_iff.
  - intros k i Hk. rewrite (Hresp k i Hk). apply (Hok k). now apply lookup_In.
  - exists e', m'. repeat split; try assumption.
    intros k i Hk. rewrite Hl, Hk.
    assert (Hm : mem k (map fst m0) = true).
    { apply mem_In. apply lookup_Some_iff. eauto. }
    rewrite Hm. cbn [option_map]. unfold resolved. rewrite (Hresp k i Hk).
    destruct (fetchedShortcuts (fetch (toStr (url i)) reload)) as [sc|] eqn:E.
    + eauto.
    + exfalso. apply (Hok k i); [now apply lookup_In|assumption].
Qed.

(** X30: the two failures that [fetchShortcuts] does confine to their
    namespace: when every request is answered and the parser returns no bare
    string, it returns all the descriptors of the caller's list, each with a
    shortcut set decided by its own response alone: the empty set when the
    status is not 200 or the body fails to parse, the verified document
    otherwise. *)
Theorem fetchShortcuts_degrades_locally (e : env) (nss : list namespace)
    (reload debug : bool) :
  let m0 := getInitialNamespaceInfos e nss in
  Z.of_nat (List.length nss) < 4294967295 ->
  (forall k i, In (k, i) m0 -> fetch (toStr (url i)) reload <> None) ->
  (forall t v, jsyaml_load t = Parsed v -> isString v = false) ->
  exists e' m',
    fetchShortcuts e nss reload debug = Ok (e', m')
    /\ map fst m' = map fst m0
    /\ forall k i, lookup k m0 = Some i ->
         exists r sc,
           fetch (toStr (url i)) reload = Some r
           /\ lookup k m' = Some (setShortcuts i sc)
           /\ (status r <> 200 -> sc = emptyArray)
           /\ (forall message,
                 status r = 200 -> jsyaml_load (text r) = ParseError message ->
                 sc = emptyArray)
           /\ (forall v,
                 status r = 200 -> jsyaml_load (text r) = Parsed v ->
                 exists keys, verifyLoop (forInKeys v) [] v = Ok (keys, sc)).
Proof.
  intros m0 Hlen Hfetch Hparse.
  destruct (fetchShortcuts_resolved e nss reload debug Hlen Hfetch)
    as [e' [m' [Hrun [Hkeys Hl]]]].
  { intros k i Hin. unfold fetchedShortcuts.
    destruct (fetch (toStr (url i)) reload) as [r|]; [|discriminate].
    destruct (negb (Z.eqb (status r) 200)); [discriminate|].
    destruct (jsyaml_load (text r)) as [v|msg] eqn:Ev; [|discriminate].
    destruct (verifyLoop_total v (Hparse _ _ Ev)) as [inc [sc Hv]].
    rewrite Hv. discriminate. }
  exists e', m'. repeat split; try assumption.
  intros k i Hk. destruct (Hl k i Hk) as [sc [Hsc Hm']].
  assert (Hin : In (k, i) m0) by now apply lookup_In.
  destruct (fetch (toStr (url i)) reload) as [r|] eqn:Hr;
    [|exfalso; now apply (Hfetch k i)].
  exists r, sc. repeat split; try assumption.
  - intros Hs. apply Z.eqb_neq in Hs. cbn [fetchedShortcuts] in Hsc.
    rewrite Hs in Hsc. cbn in Hsc. congruence.
  - intros msg Hs Hp. cbn [fetchedShortcuts] in Hsc.
    rewrite Hs, Hp in Hsc. cbn in Hsc. congruence.
  - intros v Hs Hp. cbn [fetchedShortcuts] in Hsc.
    rewrite Hs, Hp in Hsc. cbn [Z.eqb negb Pos.eqb] in Hsc.
    destruct (verifyLoop (forInKeys v) [] v) as [[inc sc']|]; [|discriminate].
    cbn in Hsc. injection Hsc as ->. now exists inc.
Qed.

(** ** Reachability Annotator: the sort *)

Lemma insertSorted_perm (x : jsstring * namespaceInfo) (l : infos) :
  Permutation (insertSorted x l) (x :: l).
Proof.
  induction l as [|y l IH]; simpl; [reflexivity|].
  destruct (Z.leb (comparePriority (snd x) (snd y)) 0); [reflexivity|].
  rewrite IH. apply perm_swap.
Qed.

Lemma sortByPriority_perm (m : infos) : Permutation (sortByPriority m) m.
Proof.
  induction m as [|x m IH]; simpl; [reflexivity|].
  rewrite insertSorted_perm. now constructor.
Qed.

Lemma In_sortByPriority (m : infos) (x : jsstring * namespaceInfo) :
  In x (sortByPriority m) <-> In x m.
Proof.
  split; apply Permutation_in;
    [apply sortByPriority_perm | apply Permutation_sym, sortByPriority_perm].
Qed.

Lemma setShortcuts_same (i : namespaceInfo) : setShortcuts i (shortcuts i) = i.
Proof. now destruct i. Qed.

(** ** Environment: a session in which no collection is delivered *)

Lemma reachNamespaces_empty (sorted : infos) :
  forall m found,
    (forall nm i, In (nm, i) sorted ->
                  lookup nm m = Some i /\ shortcuts i = emptyArray) ->
    reachNamespaces sorted m found = Ok m.
Proof.
  induction sorted as [|[nm i] sorted IH]; intros m found H; [reflexivity|].
  cbn [reachNamespaces].
  destruct (H nm i (or_introl eq_refl)) as [Hl He].
  assert (Hrest : forall nm' i', In (nm', i') sorted ->
                    lookup nm' m = Some i' /\ shortcuts i' = emptyArray)
    by (intros; apply H; now right).
  destruct (negb (isSubscribed i)); [now apply IH|].
  rewrite He. cbn [forInKeys ownEnumerable emptyArray map reachLoop bind].
  change (VObj Array []) with emptyArray. rewrite <- He, setShortcuts_same.
  rewrite (setOwn_same _ _ _ Hl). now apply IH.
Qed.

Lemma startCallbacks_empty (owners : list jsstring) (e : env) (m : infos) :
  (forall k i, In (k, i) m -> shortcuts i = emptyArray) ->
  exists tasks,
    startCallbacks owners e m = (e, m, tasks)
    /\ forall o p, In (o, p) tasks -> p = Finished e m \/ p = Rejected e m.
Proof.
  intros Hall. induction owners as [|owner owners IH].
  - exists []. split; [reflexivity|]. intros o p [].
  - destruct IH as [tasks [Hrun Ht]]. cbn [startCallbacks].
    destruct (lookup owner m) as [oi|] eqn:Ho.
    + apply lookup_In in Ho. rewrite (Hall _ _ Ho).
      cbn [forInKeys ownEnumerable emptyArray map runUntilAwait stateOf].
      rewrite Hrun. eexists. split; [reflexivity|].
      intros o p [[= <- <-]|Hin]; [now left|now apply (Ht o)].
    + cbn [stateOf]. rewrite Hrun. eexists. split; [reflexivity|].
      intros o p [[= <- <-]|Hin]; [now right|now apply (Ht o)].
Qed.

Lemma resumeCallbacks_none (tasks : list (jsstring * progress)) (e : env)
    (m : infos) :
  (forall o p, In (o, p) tasks -> p = Finished e m \/ p = Rejected e m) ->
  resumeCallbacks tasks e m = (e, m).
Proof.
  induction tasks as [|[o p] tasks IH]; intros H; [reflexivity|].
  cbn [resumeCallbacks].
  destruct (H o p (or_introl eq_refl)) as [-> | ->];
    apply IH; intros o' p' Hin; apply (H o'); now right.
Qed.

Lemma keys_fold_setOwn {A} (es : list (jsstring * A)) :
  forall acc k,
    In k (map fst es) \/ In k (map fst acc) ->
    In k (map fst (fold_left (fun o x => setOwn (fst x) (snd x) o) es acc)).
Proof.
  clear jsyaml_load fetch.
  induction es as [|[k' v] es IH]; intros acc k H; simpl in *; [tauto|].
  apply IH. rewrite In_keys_setOwn. destruct H as [[H|H]|H]; auto.
Qed.

Lemma keys_initialEntries (e : env) (nss : list namespace) (ns : namespace) :
  forall idx,
    In ns nss ->
    In (toStr (name (getInitalNamespaceInfo e ns)))
       (map fst (initialEntries e idx nss)).
Proof.
  induction nss as [|ns' nss IH]; intros idx H; [destruct H|].
  destruct H as [->|H]; simpl; auto.
Qed.

Lemma keys_initial (e : env) (nss : list namespace) (ns : namespace) :
  In ns nss ->
  In (toStr (name (getInitalNamespaceInfo e ns)))
     (map fst (getInitialNamespaceInfos e nss)).
Proof.
  intros H. apply keys_fold_setOwn. left. now apply keys_initialEntries.
Qed.

Lemma getNamespaceInfos_empty (e : env) (nss : list namespace)
    (reload debug : bool) (e1 : env) (m1 : infos) :
  fetchShortcuts e nss reload debug = Ok (e1, m1) ->
  NoDup (map fst m1) ->
  (forall k i, In (k, i) m1 -> shortcuts i = emptyArray) ->
  getNamespaceInfos e nss reload debug = Ok (e1, m1).
Proof.
  intros Hrun Hnd Hall. unfold getNamespaceInfos. rewrite Hrun. cbn [bind].
  destruct (startCallbacks_empty (map fst m1) e1 m1 Hall) as [tasks [Hs Ht]].
  rewrite Hs, (resumeCallbacks_none tasks e1 m1 Ht).
  unfold addReachable. rewrite reachNamespaces_empty; [reflexivity|].
  intros nm i Hin. apply (proj1 (In_sortByPriority _ _)) in Hin. split.
  - apply In_lookup; assumption.
  - now apply (Hall nm).
Qed.

Lemma resumeRound_none (tasks : list (jsstring * progress)) (e : env)
    (m : infos) :
  (forall o p, In (o, p) tasks -> p = Finished e m \/ p = Rejected e m) ->
  resumeRound tasks e m = (e, m, []).
Proof.
  induction tasks as [|[o p] tasks IH]; intros H; [reflexivity|].
  cbn [resumeRound].
  destruct (H o p (or_introl eq_refl)) as [-> | ->];
    apply IH; intros o' p' Hin; apply (H o'); now right.
Qed.

Lemma getNamespaceInfosAfter_empty (n : nat) (e : env) (nss : list namespace)
    (reload debug : bool) (e1 : env) (m1 : infos) :
  fetchShortcuts e nss reload debug = Ok (e1, m1) ->
  NoDup (map fst m1) ->
  (forall k i, In (k, i) m1 -> shortcuts i = emptyArray) ->
  getNamespaceInfosAfter n e nss reload debug = Ok (e1, m1).
Proof.
  intros Hrun Hnd Hall. unfold getNamespaceInfosAfter. rewrite Hrun. cbn [bind].
  destruct (startCallbacks_empty (map fst m1) e1 m1 Hall) as [tasks [Hs Ht]].
  rewrite Hs, (resumeRound_none tasks e1 m1 Ht).
  unfold addReachable. rewrite reachNamespaces_empty.
  - cbn [bind]. f_equal. clear. induction n as [|n IH]; [reflexivity|exact IH].
  - intros nm i Hin. apply (proj1 (In_sortByPriority _ _)) in Hin. split.
    + apply In_lookup; assumption.
    + now apply (Hall nm).
Qed.

(** C5 (amended): when no collection of the caller's list is delivered,
    every request being answered with a status other than 200, [populate]
    completes normally: it returns a snapshot that holds a descriptor for
    every namespace of the list, each with an empty shortcut set. *)
Theorem populate_without_collections (e : env) (nss : list namespace)
    (extraNamespaceName : option jsstring) :
  Z.of_nat (List.length nss) + 1 < 4294967295 ->
  (forall u, exists r, fetch u (this_reload e) = Some r /\ status r <> 200) ->
  exists e' m',
    populate e nss extraNamespaceName = Ok (e', m')
    /\ (forall k i, In (k, i) m' -> shortcuts i = emptyArray)
    /\ (forall ns, In ns nss ->
          In (toStr (name (getInitalNamespaceInfo e ns))) (map fst m')).
Proof.
  intros Hlen Hfetch. unfold populate.
  set (nss' := if truthyStr extraNamespaceName
               then nss ++ [NsString (toStr extraNamespaceName)] else nss).
  assert (Hlen' : Z.of_nat (List.length nss') < 4294967295).
  { unfold nss'. destruct (truthyStr extraNamespaceName); [|lia].
    rewrite length_app. simpl. lia. }
  assert (Hsub : forall ns, In ns nss -> In ns nss').
  { intros ns H. unfold nss'. destruct (truthyStr extraNamespaceName);
      [apply in_or_app; now left|assumption]. }
  assert (Hempty : forall u, fetchedShortcuts (fetch u (this_reload e))
                             = Ok emptyArray).
  { intros u. destruct (Hfetch u) as [r [Hr Hs]]. rewrite Hr.
    cbn [fetchedShortcuts]. apply Z.eqb_neq in Hs. now rewrite Hs. }
  destruct (fetchShortcuts_resolved e nss' (this_reload e) (this_debug e) Hlen')
    as [e1 [m1 [Hrun [Hkeys Hl]]]].
  - intros k i _. destruct (Hfetch (toStr (url i))) as [r [Hr _]]. congruence.
  - intros k i _. rewrite Hempty. discriminate.
  - assert (Hnd : NoDup (map fst m1)) by (rewrite Hkeys; apply NoDup_initial).
    assert (Hall : forall k i, In (k, i) m1 -> shortcuts i = emptyArray).
    { intros k i Hin. apply (In_lookup _ _ _ Hnd) in Hin.
      assert (Hk : In k (map fst (getInitialNamespaceInfos e nss'))).
      { rewrite <- Hkeys. apply lookup_Some_iff. eauto. }
      apply lookup_Some_iff in Hk. destruct Hk as [i0 Hi0].
      destruct (Hl k i0 Hi0) as [sc [Hsc Hm1]]. rewrite Hempty in Hsc.
      injection Hsc as <-. rewrite Hin in Hm1. now injection Hm1 as ->. }
    exists e1, m1. split; [|split].
    + now apply getNamespaceInfosAfter_empty.
    + exact Hall.
    + intros ns Hns. rewrite Hkeys. apply keys_initial. now apply Hsub.
Qed.

(** ** Include Resolver: [Object.assign] *)

Lemma assignProps_nil (t : props) : assignProps t [] = t.
Proof. reflexivity. Qed.

Lemma lookup_assignProps (s : props) :
  NoDup (map fst s) ->
  forall t f,
    lookup f (assignProps t s)
    = match lookup f s with
      | Some v => Some v
      | None => lookup f t
      end.
Proof.
  unfold assignProps.
  induction s as [|[k v] s IH]; intros Hnd t f; [reflexivity|].
  inversion Hnd as [|? ? Hk Hnd']; subst. cbn [fold_left fst snd lookup].
  rewrite (IH Hnd'), lookup_setOwn.
  destruct (eqb_js f k) eqn:E; [|reflexivity]. js_eq.
  apply lookup_None in Hk. now rewrite Hk.
Qed.

Lemma assignProps_fixed (s t : props) :
  (forall k v, In (k, v) s -> lookup k t = Some v) -> assignProps t s = t.
Proof.
  unfold assignProps. induction s as [|[k v] s IH]; intros H; [reflexivity|].
  cbn [fold_left fst snd]. rewrite setOwn_same by (apply H; now left).
  apply IH. intros k' v' Hin. apply H. now right.
Qed.

Lemma assignProps_idem (s t : props) :
  NoDup (map fst s) ->
  assignProps (assignProps t s) s = assignProps t s.
Proof.
  intros Hnd. apply assignProps_fixed. intros k v Hin.
  rewrite (lookup_assignProps s Hnd). now rewrite (In_lookup _ _ _ Hnd Hin).
Qed.

(** A source without own enumerable properties leaves the target as it
    is. *)
Lemma objectAssign_nothing (kd : kind) (own : props) (source : value) :
  ownEnumerable source = [] ->
  objectAssign (VObj kd own) source = Ok (VObj kd own).
Proof. intros H. cbn [objectAssign]. now rewrite H. Qed.

Lemma updateEntry_same (kd : kind) (ps : props) (key : jsstring) (x : value) :
  lookup key ps = Some x -> updateEntry (VObj kd ps) key x = VObj kd ps.
Proof. intros H. cbn [updateEntry]. now rewrite replaceProp_same. Qed.

Lemma mergeInto_object (owner key : jsstring) (source : value) (m : infos)
    (oi : namespaceInfo) (kd kd1 : kind) (ps own : props) :
  lookup owner m = Some oi ->
  shortcuts oi = VObj kd ps ->
  lookup key ps = Some (VObj kd1 own) ->
  mergeInto owner key source m
  = Ok (setOwn owner
          (setShortcuts oi
             (VObj kd (replaceProp key
                         (VObj kd1 (assignProps own (ownEnumerable source))) ps)))
          m).
Proof.
  intros Ho Hsc Hk. unfold mergeInto. rewrite Ho, Hsc.
  cbn [getProp]. rewrite Hk. reflexivity.
Qed.

Lemma mergeInto_nothing (owner key : jsstring) (source : value) (m : infos)
    (oi : namespaceInfo) (kd kd1 : kind) (ps own : props) :
  lookup owner m = Some oi ->
  shortcuts oi = VObj kd ps ->
  lookup key ps = Some (VObj kd1 own) ->
  ownEnumerable source = [] ->
  mergeInto owner key source m = Ok m.
Proof.
  intros Ho Hsc Hk Hs.
  rewrite (mergeInto_object owner key source m oi kd kd1 ps own Ho Hsc Hk).
  rewrite Hs, assignProps_nil, (replaceProp_same _ _ _ Hk), <- Hsc.
  now rewrite setShortcuts_same, (setOwn_same _ _ _ Ho).
Qed.

(** Looking up a key the mapping does not hold gives a value without own
    enumerable properties. *)
Lemma getProp_absent (kd : kind) (ps : props) (k : jsstring) :
  lookup k ps = None ->
  exists v, getProp (VObj kd ps) k = Ok v /\ ownEnumerable v = [].
Proof.
  intros H. cbn [getProp]. rewrite H. destruct kd; [eauto|].
  destruct (eqb_js k lengthKey); eauto.
Qed.

(** ** Include Resolver: a namespace fetched on demand *)

Lemma name_of_string (e : env) (s : jsstring) :
  toStr (name (getInitalNamespaceInfo e (NsString s))) = s.
Proof.
  cbn [getInitalNamespaceInfo]. destruct (Nat.ltb (List.length s) 4) eqn:E.
  - reflexivity.
  - apply Nat.ltb_ge in E. unfold addFetchUrlToGithubNamespace.
    cbn [github name truthyStr].
    assert (Hdot : eqb_js s (js ".") = false).
    { destruct s as [|a [|b s]]; simpl in *; lia. }
    now rewrite Hdot.
Qed.

Lemma initial_single (e : env) (s : jsstring) :
  getInitialNamespaceInfos e [NsString s] = [(s, onDemand e s)].
Proof.
  unfold getInitialNamespaceInfos, fromEntries. cbn [initialEntries fold_left].
  cbn [fst snd name]. rewrite name_of_string. unfold setOwn. cbn [hasKey lookup].
  destruct (arrayIndex s); reflexivity.
Qed.

Lemma fetchShortcuts_single (e : env) (s : jsstring) (reload debug : bool)
    (sc : value) :
  fetch (toStr (url (onDemand e s))) reload <> None ->
  fetchedShortcuts (fetch (toStr (url (onDemand e s))) reload) = Ok sc ->
  exists e',
    fetchShortcuts e [NsString s] reload debug
    = Ok (e', [(s, setShortcuts (onDemand e s) sc)]).
Proof.
  intros Hf Hsc.
  destruct (fetchShortcuts_resolved e [NsString s] reload debug)
    as [e' [m' [Hrun [Hkeys Hl]]]].
  - simpl. lia.
  - rewrite initial_single. intros k i [[= <- <-]|[]]. exact Hf.
  - rewrite initial_single. intros k i [[= <- <-]|[]]. rewrite Hsc. discriminate.
  - rewrite initial_single in Hkeys, Hl. exists e'. rewrite Hrun. do 2 f_equal.
    destruct (Hl s (onDemand e s)) as [sc' [Hsc' Hm']].
    { cbn [lookup]. now rewrite eqb_js_refl. }
    assert (sc' = sc) by congruence. subst sc'.
    destruct m' as [|[k v] [|x m']]; try discriminate.
    cbn [map fst] in Hkeys. injection Hkeys as ->.
    cbn [lookup] in Hm'. rewrite eqb_js_refl in Hm'. congruence.
Qed.

Lemma getShortcut_onDemand (e : env) (key : value) (s : jsstring) (m : infos)
    (sc : value) :
  lookup s m = None ->
  inherited s = false ->
  fetch (toStr (url (onDemand e s))) (this_reload e) <> None ->
  fetchedShortcuts (fetch (toStr (url (onDemand e s))) (this_reload e)) = Ok sc ->
  exists e',
    getShortcutFromNamespace e key (VStr s) m
    = let* shortcut := getProp sc (toString key) in
      Ok (e', setOwn s (setShortcuts (onDemand e s) sc) m, shortcut).
Proof.
  intros Hs Hinh Hf Hsc.
  destruct (fetchShortcuts_single e s (this_reload e) (this_debug e) sc Hf Hsc)
    as [e' Hrun].
  exists e'. unfold getShortcutFromNamespace. cbn [toString].
  rewrite Hs, Hinh, Hrun. cbn [bind].
  unfold assignInfos. cbn [fold_left fst snd].
  rewrite lookup_setOwn_same. reflexivity.
Qed.

Lemma getShortcut_present (e : env) (key ins : value) (m : infos)
    (ti : namespaceInfo) :
  lookup (toString ins) m = Some ti ->
  getShortcutFromNamespace e key ins m
  = let* shortcut := getProp (shortcuts ti) (toString key) in
    Ok (e, m, shortcut).
Proof.
  intros Hs. unfold getShortcutFromNamespace. rewrite Hs. cbn [bind].
  now rewrite Hs.
Qed.

(** A name the map inherits and does not hold itself: no request, and the
    read of line 477 throws. *)
Lemma getShortcut_inherited (e : env) (key ins : value) (m : infos) :
  lookup (toString ins) m = None ->
  inherited (toString ins) = true ->
  getShortcutFromNamespace e key ins m = Throw.
Proof.
  intros Hs Hinh. unfold getShortcutFromNamespace. rewrite Hs, Hinh.
  cbn [bind]. now rewrite Hs.
Qed.

(** What a call that returns has done: the descriptor was in the map, or
    the namespace is a name that was requested. *)
Lemma getShortcut_cases (e e' : env) (key ins : value) (m m1 : infos)
    (v : value) :
  getShortcutFromNamespace e key ins m = Ok (e', m1, v) ->
  (exists ti, lookup (toString ins) m = Some ti
              /\ e' = e /\ m1 = m
              /\ getProp (shortcuts ti) (toString key) = Ok v)
  \/ (exists s new ti,
        ins = VStr s /\ lookup s m = None /\ inherited s = false
        /\ fetchShortcuts e [NsString s] (this_reload e) (this_debug e)
           = Ok (e', new)
        /\ m1 = assignInfos m new
        /\ lookup s m1 = Some ti
        /\ getProp (shortcuts ti) (toString key) = Ok v).
Proof.
  unfold getShortcutFromNamespace. intros H.
  destruct (lookup (toString ins) m) as [ti|] eqn:Hs.
  - cbn [bind] in H. rewrite Hs in H.
    destruct (getProp (shortcuts ti) (toString key)) as [x|] eqn:Hx;
      [|discriminate].
    cbn [bind] in H. injection H as <- <- <-. left. now exists ti.
  - destruct (inherited (toString ins)) eqn:Hinh.
    + cbn [bind] in H. now rewrite Hs in H.
    + destruct ins as [| | | |s|]; try discriminate.
      cbn [toString] in *.
      destruct (fetchShortcuts e [NsString s] (this_reload e) (this_debug e))
        as [[e1 new]|] eqn:Hf; [|discriminate].
      cbn [bind] in H.
      destruct (lookup s (assignInfos m new)) as [ti|] eqn:Ht; [|discriminate].
      destruct (getProp (shortcuts ti) (toString key)) as [x|] eqn:Hx;
        [|discriminate].
      cbn [bind] in H. injection H as <- <- <-. right.
      exists s, new, ti. repeat split; assumption.
Qed.

Lemma includeStep_unfold (e : env) (owner : jsstring) (m : infos)
    (key : jsstring) (oi : namespaceInfo) (kd kd1 : kind) (ps own : props)
    (d : directive) :
  lookup owner m = Some oi ->
  shortcuts oi = VObj kd ps ->
  lookup key ps = Some (VObj kd1 own) ->
  classify (VObj kd1 own) = Ok d ->
  includeStep e owner m key
  = match d with
    | NoInclude => Ok (e, m)
    | Malformed =>
        Ok (setError (log (js "Incorrect include found at " ++ key) e), m)
    | Local ikey =>
        let* shortcutToInclude := getProp (VObj kd ps) (toString ikey) in
        let* m' := mergeInto owner key shortcutToInclude m in
        Ok (e, m')
    | Remote ikey ins =>
        let* (em, shortcutToInclude) :=
          getShortcutFromNamespace e ikey ins m in
        let* m' := mergeInto owner key shortcutToInclude (snd em) in
        Ok (fst em, m')
    end.
Proof.
  intros Ho Hsc Hk Hd. unfold includeStep. rewrite Ho, Hsc.
  cbn [getProp]. rewrite Hk. cbn [bind]. rewrite Hd. reflexivity.
Qed.

(** A rejected request for the namespace rejects [fetchShortcuts]. *)
Lemma fetchShortcuts_single_rejected (e : env) (s : jsstring)
    (reload debug : bool) :
  fetch (toStr (url (onDemand e s))) reload = None ->
  fetchShortcuts e [NsString s] reload debug = Throw.
Proof.
  intros Hf. unfold fetchShortcuts.
  rewrite fetchShortcutsIn_settled by apply Permutation_refl.
  assert (Hrej : anyRejected
                   (startFetches (getInitialNamespaceInfos e [NsString s]) reload)
                 = true).
  { apply initial_rejected; [simpl; lia|].
    exists s, (onDemand e s). rewrite initial_single. split; [now left|exact Hf]. }
  now rewrite Hrej.
Qed.

Lemma getShortcut_rejected (e : env) (key : value) (s : jsstring) (m : infos) :
  lookup s m = None ->
  inherited s = false ->
  fetch (toStr (url (onDemand e s))) (this_reload e) = None ->
  getShortcutFromNamespace e key (VStr s) m = Throw.
Proof.
  intros Hs Hinh Hf. unfold getShortcutFromNamespace. cbn [toString].
  rewrite Hs, Hinh, (fetchShortcuts_single_rejected e s _ _ Hf). reflexivity.
Qed.

(** Where an include whose target key is absent from the mapping of the
    target namespace does not throw and changes nothing in the including
    entry: when the target namespace is the entry's own, when it is another
    namespace of the map that holds a mapping, and when it is a namespace
    requested on demand (a name that is neither in the map nor inherited by
    it) whose request is answered with a status other than 200 or with a
    body that fails to parse.  That namespace enters the map with an empty
    shortcut set, and the descriptor of the including entry is as before.
    The target key is a string or another primitive. *)
Lemma include_of_absent_target (e : env) (owner : jsstring) (m : infos)
    (key : jsstring) (oi : namespaceInfo) (kd kd1 : kind) (ps own : props)
    (ikey : value) :
  lookup owner m = Some oi ->
  shortcuts oi = VObj kd ps ->
  lookup key ps = Some (VObj kd1 own) ->
  exactText ikey = true ->
  (classify (VObj kd1 own) = Ok (Local ikey) ->
   lookup (toString ikey) ps = None ->
   includeStep e owner m key = Ok (e, m))
  /\ (forall s ti kd2 tps,
        classify (VObj kd1 own) = Ok (Remote ikey (VStr s)) ->
        lookup s m = Some ti ->
        shortcuts ti = VObj kd2 tps ->
        lookup (toString ikey) tps = None ->
        includeStep e owner m key = Ok (e, m))
  /\ (forall s r,
        classify (VObj kd1 own) = Ok (Remote ikey (VStr s)) ->
        lookup s m = None ->
        inherited s = false ->
        fetch (toStr (url (onDemand e s))) (this_reload e) = Some r ->
        status r <> 200 \/ (exists msg, jsyaml_load (text r) = ParseError msg) ->
        exists e',
          includeStep e owner m key
          = Ok (e', setOwn s (setShortcuts (onDemand e s) emptyArray) m)
          /\ lookup owner (setOwn s (setShortcuts (onDemand e s) emptyArray) m)
             = Some oi).
Proof.
  intros Ho Hsc Hk _. split; [|split].
  - intros Hd Habs.
    rewrite (includeStep_unfold e owner m key oi kd kd1 ps own _ Ho Hsc Hk Hd).
    destruct (getProp_absent kd ps _ Habs) as [v [Hv Hnone]].
    rewrite Hv. cbn [bind].
    now rewrite (mergeInto_nothing owner key v m oi kd kd1 ps own).
  - intros s ti kd2 tps Hd Hs Ht Habs.
    rewrite (includeStep_unfold e owner m key oi kd kd1 ps own _ Ho Hsc Hk Hd).
    rewrite (getShortcut_present e ikey (VStr s) m ti Hs), Ht.
    destruct (getProp_absent kd2 tps _ Habs) as [v [Hv Hnone]].
    rewrite Hv. cbn [bind fst snd].
    now rewrite (mergeInto_nothing owner key v m oi kd kd1 ps own).
  - intros s r Hd Hs Hinh Hr Hfail.
    rewrite (includeStep_unfold e owner m key oi kd kd1 ps own _ Ho Hsc Hk Hd).
    assert (Hempty : fetchedShortcuts (Some r) = Ok emptyArray).
    { cbn [fetchedShortcuts]. destruct (Z.eqb (status r) 200) eqn:E; [|reflexivity].
      destruct Hfail as [Hne|[msg Hmsg]].
      - apply Z.eqb_eq in E. contradiction.
      - cbn [negb]. now rewrite Hmsg. }
    destruct (getShortcut_onDemand e ikey s m emptyArray Hs Hinh) as [e' Hget].
    { rewrite Hr. discriminate. }
    { now rewrite Hr. }
    rewrite Hget.
    destruct (getProp_absent Array [] (toString ikey) eq_refl) as [v [Hv Hnone]].
    change (VObj Array []) with emptyArray in Hv. rewrite Hv. cbn [bind fst snd].
    assert (Hneq : owner <> s) by (intros ->; congruence).
    assert (Ho' : lookup owner (setOwn s (setShortcuts (onDemand e s) emptyArray) m)
                  = Some oi) by (rewrite lookup_setOwn_other; assumption).
    exists e'. split; [|assumption].
    now rewrite (mergeInto_nothing owner key v _ oi kd kd1 ps own).
Qed.

(** Where such an include throws instead: the request for the namespace is
    rejected; the namespace delivers an empty document, so that it holds no
    mapping; the namespace is called by a name the map inherits. *)
Lemma include_throws (e : env) (owner : jsstring) (m : infos)
    (key : jsstring) (oi : namespaceInfo) (kd kd1 : kind) (ps own : props)
    (ikey ins : value) :
  lookup owner m = Some oi ->
  shortcuts oi = VObj kd ps ->
  lookup key ps = Some (VObj kd1 own) ->
  classify (VObj kd1 own) = Ok (Remote ikey ins) ->
  (forall s, ins = VStr s -> lookup s m = None -> inherited s = false ->
             fetch (toStr (url (onDemand e s))) (this_reload e) = None ->
             includeStep e owner m key = Throw)
  /\ (forall s r v,
        ins = VStr s -> lookup s m = None -> inherited s = false ->
        fetch (toStr (url (onDemand e s))) (this_reload e) = Some r ->
        status r = 200 ->
        jsyaml_load (text r) = Parsed v ->
        v = VUndef \/ v = VNull ->
        includeStep e owner m key = Throw)
  /\ (forall ti,
        lookup (toString ins) m = Some ti ->
        shortcuts ti = VUndef \/ shortcuts ti = VNull ->
        includeStep e owner m key = Throw)
  /\ (lookup (toString ins) m = None -> inherited (toString ins) = true ->
      includeStep e owner m key = Throw).
Proof.
  intros Ho Hsc Hk Hd.
  rewrite (includeStep_unfold e owner m key oi kd kd1 ps own _ Ho Hsc Hk Hd).
  repeat split.
  - intros s -> Hs Hinh Hf. now rewrite (getShortcut_rejected e ikey s m Hs Hinh Hf).
  - intros s r v -> Hs Hinh Hr Hst Hp Hv.
    destruct (getShortcut_onDemand e ikey s m v Hs Hinh) as [e' Hget].
    { rewrite Hr. discriminate. }
    { rewrite Hr. cbn [fetchedShortcuts]. rewrite Hst, Hp. cbn [negb Z.eqb].
      destruct Hv as [-> | ->]; reflexivity. }
    rewrite Hget. destruct Hv as [-> | ->]; reflexivity.
  - intros ti Hs Hv. rewrite (getShortcut_present e ikey ins m ti Hs).
    destruct Hv as [-> | ->]; reflexivity.
  - intros Hs Hinh. now rewrite (getShortcut_inherited e ikey ins m Hs Hinh).
Qed.

(** ** Include Resolver: what a step leaves untouched *)

Lemma fetchOne_keys (responses : list (option response)) (reload debug : bool)
    (e e' : env) (m m' : infos) (k : jsstring) :
  fetchOne responses reload debug e m k = Ok (e', m') ->
  map fst m' = map fst m.
Proof.
  unfold fetchOne. destruct (lookup k m) as [i|] eqn:Hk; [|discriminate].
  assert (Hset : forall x, map fst (setOwn k x m) = map fst m).
  { intros x. apply keys_setOwn_present. unfold hasKey. now rewrite Hk. }
  destruct (responseOf responses i) as [r|].
  - destruct (negb (Z.eqb (status r) 200)).
    + intros [= _ <-]. apply Hset.
    + destruct (parseShortcutsFromYml _ _ _) as [e2 sc].
      destruct (verifyShortcuts e2 sc (name i)) as [[e3 sc']|]; cbn [bind];
        [|discriminate].
      intros [= _ <-]. apply Hset.
  - intros [= _ <-]. apply Hset.
Qed.

Lemma fetchLoop_keys (responses : list (option response)) (reload debug : bool)
    (ks : list jsstring) :
  forall e m e' m',
    fetchLoop ks responses reload debug e m = Ok (e', m') ->
    map fst m' = map fst m.
Proof.
  induction ks as [|k ks IH]; intros e m e' m' H.
  - now injection H as _ <-.
  - cbn [fetchLoop] in H.
    destruct (fetchOne responses reload debug e m k) as [[e1 m1]|] eqn:E1;
      [|discriminate].
    cbn [bind] in H. apply IH in H. apply fetchOne_keys in E1. congruence.
Qed.

Lemma fetchShortcuts_keys (e e' : env) (nss : list namespace)
    (reload debug : bool) (m' : infos) :
  fetchShortcuts e nss reload debug = Ok (e', m') ->
  map fst m' = map fst (getInitialNamespaceInfos e nss).
Proof.
  unfold fetchShortcuts, fetchShortcutsIn.
  destruct (promiseAll _ _) as [responses|]; [|discriminate].
  cbn [bind]. apply fetchLoop_keys.
Qed.

Lemma lookup_assignInfos_other (new m : infos) (k : jsstring) :
  ~ In k (map fst new) -> lookup k (assignInfos m new) = lookup k m.
Proof.
  unfold assignInfos. revert m.
  induction new as [|[k' v] new IH]; intros m H; [reflexivity|].
  cbn [fold_left fst snd]. rewrite IH by (intros Hin; apply H; now right).
  apply lookup_setOwn_other. intros ->. apply H. now left.
Qed.

(** Resolving an include never touches a descriptor that is already in the
    map. *)
Lemma getShortcut_frame (e e' : env) (key ins : value) (m m1 : infos)
    (v : value) :
  getShortcutFromNamespace e key ins m = Ok (e', m1, v) ->
  forall k i, lookup k m = Some i -> lookup k m1 = Some i.
Proof.
  intros H k i Hk.
  destruct (getShortcut_cases _ _ _ _ _ _ _ H)
    as [[ti [_ [_ [-> _]]]]|[s [new [ti [-> [Hs [_ [Hf [-> _]]]]]]]]].
  - assumption.
  - rewrite lookup_assignInfos_other; [assumption|].
    apply fetchShortcuts_keys in Hf. rewrite Hf, initial_single. cbn [map fst].
    intros [->|[]]. congruence.
Qed.

(** C2 (amended): for an entry whose include directive names a target key,
    the merged entry is the including entry's own fields overwritten by the
    fields of the include source: a field that both define has the value of
    the include source, a field only the including entry defines keeps its
    value, and the fields only the source defines are added. *)
Theorem include_merge_precedence (e : env) (owner : jsstring) (m : infos)
    (key : jsstring) (oi : namespaceInfo) (kd kd1 : kind) (ps own : props)
    (d : directive) (e' : env) (m' : infos) :
  lookup owner m = Some oi ->
  shortcuts oi = VObj kd ps ->
  lookup key ps = Some (VObj kd1 own) ->
  classify (VObj kd1 own) = Ok d ->
  hasTarget d = true ->
  includeStep e owner m key = Ok (e', m') ->
  exists source,
    match d with
    | Local ikey => getProp (VObj kd ps) (toString ikey) = Ok source
    | Remote ikey ins =>
        exists m1, getShortcutFromNamespace e ikey ins m = Ok (e', m1, source)
    | _ => False
    end
    /\ entryOf m' owner key
       = Some (VObj kd1 (assignProps own (ownEnumerable source)))
    /\ (NoDup (map fst (ownEnumerable source)) ->
        forall f, fieldOf m' owner key f
                  = match lookup f (ownEnumerable source) with
                    | Some v => Some v
                    | None => lookup f own
                    end).
Proof.
  intros Ho Hsc Hk Hd Ht Hstep.
  rewrite (includeStep_unfold e owner m key oi kd kd1 ps own d Ho Hsc Hk Hd)
    in Hstep.
  assert (Hentry : forall m1 source,
            lookup owner m1 = Some oi ->
            mergeInto owner key source m1 = Ok m' ->
            entryOf m' owner key
            = Some (VObj kd1 (assignProps own (ownEnumerable source)))).
  { intros m1 source Ho1 Hm.
    rewrite (mergeInto_object owner key source m1 oi kd kd1 ps own Ho1 Hsc Hk)
      in Hm. injection Hm as <-.
    unfold entryOf. rewrite lookup_setOwn_same.
    cbn [shortcuts setShortcuts entryIn].
    now rewrite lookup_replaceProp_same, Hk. }
  assert (Hfields : forall source,
            entryOf m' owner key
            = Some (VObj kd1 (assignProps own (ownEnumerable source))) ->
            NoDup (map fst (ownEnumerable source)) ->
            forall f, fieldOf m' owner key f
                      = match lookup f (ownEnumerable source) with
                        | Some v => Some v
                        | None => lookup f own
                        end).
  { intros source He Hnd f. unfold fieldOf. rewrite He.
    now apply lookup_assignProps. }
  destruct d as [| |ikey|ikey ins]; try discriminate.
  - destruct (getProp (VObj kd ps) (toString ikey)) as [source|] eqn:Hsrc;
      [|discriminate].
    cbn [bind] in Hstep.
    destruct (mergeInto owner key source m) as [m2|] eqn:Hm; [|discriminate].
    cbn [bind] in Hstep. injection Hstep as <- <-.
    exists source. split; [reflexivity|].
    pose proof (Hentry m source Ho Hm) as He. auto.
  - destruct (getShortcutFromNamespace e ikey ins m) as [[[e1 m1] source]|]
      eqn:Hget; [|discriminate].
    cbn [bind fst snd] in Hstep.
    destruct (mergeInto owner key source m1) as [m2|] eqn:Hm; [|discriminate].
    cbn [bind] in Hstep. injection Hstep as <- <-.
    exists source. split; [now exists m1|].
    pose proof (getShortcut_frame _ _ _ _ _ _ _ Hget owner oi Ho) as Ho1.
    pose proof (Hentry m1 source Ho1 Hm) as He. auto.
Qed.

(** ** Reachability Annotator: one namespace *)

Lemma addInfoToShortcut_object (shortcut : value) (key : jsstring)
    (i : namespaceInfo) (s : value) :
  addInfoToShortcut shortcut key i = Ok s ->
  exists kd fields, s = VObj kd fields.
Proof.
  unfold addInfoToShortcut. destruct shortcut as [| | | | |kd fs]; try discriminate.
  cbn [setProp bind]. 
  match goal with |- context [getProp ?o ?k] => destruct (getProp o k) as [u|] end;
    [|discriminate].
  cbn [bind]. destruct (getArgumentsFromString u) as [args|]; [|discriminate].
  cbn [bind setProp].
  match goal with |- context [getProp ?o ?k] => destruct (getProp o k) as [t|] end;
    [|discriminate].
  cbn [bind setProp]. intros [= <-]. eauto.
Qed.

Lemma mem_app (k : jsstring) (a b : list jsstring) :
  mem k (a ++ b) = (mem k a || mem k b)%bool.
Proof. unfold mem. apply existsb_app. Qed.

Lemma mem_rev (k : jsstring) (a : list jsstring) : mem k (rev a) = mem k a.
Proof.
  apply eq_true_iff_eq. rewrite !mem_In. symmetry. apply in_rev.
Qed.

Lemma reachLoop_object (i : namespaceInfo) (kd : kind) (keys : list jsstring) :
  forall ps found sc' found',
    NoDup keys ->
    (forall k, In k keys -> hasKey k ps = true) ->
    reachLoop keys i (VObj kd ps) found = Ok (sc', found') ->
    found' = rev keys ++ found
    /\ exists ps',
        sc' = VObj kd ps'
        /\ map fst ps' = map fst ps
        /\ (forall k, ~ In k keys -> lookup k ps' = lookup k ps)
        /\ (forall k, In k keys ->
              exists kd1 fields,
                lookup k ps' = Some (VObj kd1 fields)
                /\ lookup reachableKey fields
                   = Some (VBool (negb (mem k found)))).
Proof.
  induction keys as [|key keys IH]; intros ps found sc' found' Hnd Hks H.
  - injection H as <- <-. split; [reflexivity|]. exists ps.
    repeat split; auto. intros k [].
  - inversion Hnd as [|? ? Hkey Hnd']; subst.
    cbn [reachLoop] in H.
    assert (Hhas : hasKey key ps = true) by (apply Hks; now left).
    unfold hasKey in Hhas.
    destruct (lookup key ps) as [shortcut|] eqn:Hl; [|discriminate].
    cbn [getProp] in H. rewrite Hl in H. cbn [bind] in H.
    destruct (addInfoToShortcut shortcut key i) as [s1|] eqn:Hs1; [|discriminate].
    destruct (addInfoToShortcut_object _ _ _ _ Hs1) as [kd1 [fs1 ->]].
    cbn [bind setProp] in H.
    set (s2 := VObj kd1 (setOwn reachableKey (VBool (negb (mem key found))) fs1))
      in H.
    destruct (IH (setOwn key s2 ps) (key :: found) sc' found' Hnd') as
      [Hfound [ps' [Hsc [Hkeys [Hrest Hin]]]]].
    + intros k Hk. unfold hasKey. rewrite lookup_setOwn.
      destruct (eqb_js k key); [reflexivity|].
      apply Hks. now right.
    + exact H.
    + split.
      * rewrite Hfound. cbn [rev]. now rewrite <- app_assoc.
      * exists ps'. split; [assumption|]. split; [|split].
        -- rewrite Hkeys. apply keys_setOwn_present. unfold hasKey. now rewrite Hl.
        -- intros k Hk. rewrite Hrest by (intros Hin'; apply Hk; now right).
           apply lookup_setOwn_other. intros ->. apply Hk. now left.
        -- intros k [<-|Hk].
           ++ rewrite (Hrest key Hkey), lookup_setOwn_same.
              exists kd1, (setOwn reachableKey (VBool (negb (mem key found))) fs1).
              split; [reflexivity|apply lookup_setOwn_same].
           ++ destruct (Hin k Hk) as [kd2 [fs2 [Hk2 Hr2]]].
              exists kd2, fs2. split; [assumption|]. rewrite Hr2.
              unfold mem. cbn [existsb].
              assert (Hne : eqb_js k key = false)
                by (apply eqb_js_neq; intros ->; contradiction).
              now rewrite Hne.
Qed.

Lemma reachLoop_entries (i : namespaceInfo) (sc sc' : value)
    (found found' : list jsstring) :
  NoDup (forInKeys sc) ->
  reachLoop (forInKeys sc) i sc found = Ok (sc', found') ->
  found' = rev (forInKeys sc) ++ found
  /\ forInKeys sc' = forInKeys sc
  /\ forall key, In key (forInKeys sc) ->
       exists kd fields,
         entryIn sc' key = Some (VObj kd fields)
         /\ lookup reachableKey fields = Some (VBool (negb (mem key found))).
Proof.
  intros Hnd H. destruct sc as [| | | |s|kd ps];
    try (injection H as <- <-; repeat split; auto; intros key []).
  - destruct s as [|c s].
    + injection H as <- <-. repeat split; auto. intros key [].
    + discriminate.
  - unfold forInKeys in *. cbn [ownEnumerable] in *.
    destruct (reachLoop_object i kd (map fst ps) ps found sc' found' Hnd)
      as [Hf [ps' [-> [Hkeys [_ Hin]]]]]; [|assumption|].
    + intros k Hk. apply lookup_Some_iff in Hk. destruct Hk as [v Hv].
      unfold hasKey. now rewrite Hv.
    + repeat split; [assumption|exact Hkeys|exact Hin].
Qed.

(** ** Reachability Annotator: the walk over the namespaces *)

Lemma reachNamespaces_frame (l : infos) :
  forall mcur found m',
    reachNamespaces l mcur found = Ok m' ->
    forall nm, ~ In nm (map fst l) -> lookup nm m' = lookup nm mcur.
Proof.
  induction l as [|[nm0 i] l IH]; intros mcur found m' H nm Hnm.
  - now injection H as <-.
  - cbn [reachNamespaces] in H. cbn [map fst] in Hnm.
    assert (Hne : nm <> nm0) by (intros ->; apply Hnm; now left).
    assert (Hnl : ~ In nm (map fst l)) by (intros Hin; apply Hnm; now right).
    destruct (negb (isSubscribed i)).
    + now apply (IH mcur found).
    + destruct (reachLoop _ i (shortcuts i) found) as [[sc' found']|];
        [|discriminate].
      cbn [bind] in H. rewrite (IH _ _ _ H nm Hnl).
      now apply lookup_setOwn_other.
Qed.

Lemma reachNamespaces_annotated (l : infos) :
  forall mcur found m',
    NoDup (map fst l) ->
    (forall nm i, In (nm, i) l -> lookup nm mcur = Some i) ->
    (forall nm i, In (nm, i) l -> NoDup (forInKeys (shortcuts i))) ->
    reachNamespaces l mcur found = Ok m' ->
    annotated l found m'.
Proof.
  induction l as [|[nm i] l IH]; intros mcur found m' Hnd Hcur Hkeys H.
  - exact I.
  - cbn [map fst] in Hnd. inversion Hnd as [|? ? Hnm Hnd']; subst.
    cbn [reachNamespaces] in H. cbn [annotated].
    destruct (isSubscribed i) eqn:Hsub; cbn [negb] in H.
    + destruct (reachLoop _ i (shortcuts i) found) as [[sc' found']|] eqn:Hloop;
        [|discriminate].
      cbn [bind] in H.
      destruct (reachLoop_entries i (shortcuts i) sc' found found')
        as [Hfound [Hks Hent]]; [apply (Hkeys nm); now left|assumption|].
      split.
      * exists (setShortcuts i sc').
        rewrite (reachNamespaces_frame l _ _ _ H nm Hnm), lookup_setOwn_same.
        repeat split; assumption.
      * rewrite <- Hfound.
        apply (IH (setOwn nm (setShortcuts i sc') mcur) _ _ Hnd'); [| |exact H].
        -- intros nm' i' Hin. rewrite lookup_setOwn_other; [apply Hcur; now right|].
           intros ->. apply Hnm. now apply (in_map fst) in Hin.
        -- intros nm' i' Hin. apply (Hkeys nm'). now right.
    + split.
      * rewrite (reachNamespaces_frame l _ _ _ H nm Hnm). apply Hcur. now left.
      * apply (IH mcur); try assumption.
        -- intros nm' i' Hin. apply Hcur. now right.
        -- intros nm' i' Hin. apply (Hkeys nm'). now right.
Qed.

Lemma entryIn_key (sc : value) (key : jsstring) (v : value) :
  entryIn sc key = Some v -> In key (forInKeys sc).
Proof.
  destruct sc as [| | | | |kd ps]; try discriminate. cbn [entryIn].
  intros H. unfold forInKeys. cbn [ownEnumerable].
  apply lookup_Some_iff. eauto.
Qed.

Lemma annotated_unsubscribed (l : infos) :
  forall found m' nm i,
    annotated l found m' -> In (nm, i) l -> isSubscribed i = false ->
    lookup nm m' = Some i.
Proof.
  clear jsyaml_load fetch.
  induction l as [|[nm0 i0] l IH]; intros found m' nm i Ha Hin Hsub;
    [destruct Hin|].
  cbn [annotated] in Ha. destruct Hin as [[= -> ->]|Hin].
  - rewrite Hsub in Ha. tauto.
  - destruct (isSubscribed i0); destruct Ha as [_ Ha]; now apply (IH _ _ _ _ Ha).
Qed.

Lemma annotated_flag (l : infos) :
  forall found m' nm i key,
    annotated l found m' -> In (nm, i) l -> isSubscribed i = true ->
    In key (forInKeys (shortcuts i)) ->
    exists kd fields b,
      entryOf m' nm key = Some (VObj kd fields)
      /\ lookup reachableKey fields = Some (VBool b).
Proof.
  induction l as [|[nm0 i0] l IH]; intros found m' nm i key Ha Hin Hsub Hkey;
    [destruct Hin|].
  cbn [annotated] in Ha. destruct Hin as [[= -> ->]|Hin].
  - rewrite Hsub in Ha. destruct Ha as [[i' [Hl [_ [_ Hent]]]] _].
    destruct (Hent key Hkey) as [kd [fields [He Hr]]].
    exists kd, fields, (negb (mem key found)). unfold entryOf. rewrite Hl. auto.
  - destruct (isSubscribed i0); destruct Ha as [_ Ha];
      now apply (IH _ _ _ _ _ Ha Hin).
Qed.

Lemma annotated_found (l : infos) :
  forall found m' nm i key,
    annotated l found m' -> In (nm, i) l -> isSubscribed i = true ->
    markedReachable (entryOf m' nm key) ->
    In key (forInKeys (shortcuts i)) /\ mem key found = false.
Proof.
  induction l as [|[nm0 i0] l IH]; intros found m' nm i key Ha Hin Hsub Hmark;
    [destruct Hin|].
  cbn [annotated] in Ha. destruct Hin as [[= -> ->]|Hin].
  - rewrite Hsub in Ha. destruct Ha as [[i' [Hl [_ [Hks Hent]]]] _].
    destruct Hmark as [kd [fields [He Hr]]]. unfold entryOf in He.
    rewrite Hl in He.
    assert (Hkey : In key (forInKeys (shortcuts i)))
      by (rewrite <- Hks; eapply entryIn_key; eassumption).
    split; [assumption|].
    destruct (Hent key Hkey) as [kd' [fields' [He' Hr']]].
    rewrite He in He'. injection He' as <- <-. rewrite Hr in Hr'.
    injection Hr' as Hb. now destruct (mem key found).
  - destruct (isSubscribed i0); destruct Ha as [_ Ha].
    + destruct (IH _ _ _ _ _ Ha Hin Hsub Hmark) as [Hk Hm]. split; [assumption|].
      rewrite mem_app in Hm. now apply orb_false_iff in Hm.
    + now apply (IH _ _ _ _ _ Ha Hin).
Qed.

Lemma found_excludes (l : infos) (keys found : list jsstring) (m' : infos)
    nm i key :
  annotated l (rev keys ++ found) m' -> In (nm, i) l -> isSubscribed i = true ->
  markedReachable (entryOf m' nm key) -> ~ In key keys.
Proof.
  intros Ha Hin Hsub Hmark Hkey.
  destruct (annotated_found _ _ _ _ _ _ Ha Hin Hsub Hmark) as [_ Hm].
  rewrite mem_app, mem_rev in Hm. apply orb_false_iff in Hm.
  destruct Hm as [Hm _]. apply mem_In in Hkey. congruence.
Qed.

Lemma annotated_unique (l : infos) :
  forall found m' nm1 i1 nm2 i2 key,
    annotated l found m' ->
    In (nm1, i1) l -> isSubscribed i1 = true ->
    In (nm2, i2) l -> isSubscribed i2 = true ->
    markedReachable (entryOf m' nm1 key) ->
    markedReachable (entryOf m' nm2 key) ->
    nm1 = nm2.
Proof.
  induction l as [|[nm0 i0] l IH];
    intros found m' nm1 i1 nm2 i2 key Ha H1 S1 H2 S2 M1 M2; [destruct H1|].
  pose proof (annotated_found _ _ _ _ _ _ Ha H1 S1 M1) as [K1 _].
  pose proof (annotated_found _ _ _ _ _ _ Ha H2 S2 M2) as [K2 _].
  cbn [annotated] in Ha.
  destruct H1 as [[= -> ->]|H1], H2 as [[= -> ->]|H2]; [reflexivity| | |].
  - rewrite S1 in Ha. destruct Ha as [_ Ha]. exfalso.
    exact (found_excludes _ _ _ _ _ _ _ Ha H2 S2 M2 K1).
  - rewrite S2 in Ha. destruct Ha as [_ Ha]. exfalso.
    exact (found_excludes _ _ _ _ _ _ _ Ha H1 S1 M1 K2).
  - destruct (isSubscribed i0); destruct Ha as [_ Ha];
      exact (IH _ _ _ _ _ _ _ Ha H1 S1 H2 S2 M1 M2).
Qed.

Lemma annotated_highest (l : infos) :
  forall found m' nm1 i1 nm2 i2 key p1 p2,
    annotated l found m' -> descending l ->
    In (nm1, i1) l -> isSubscribed i1 = true ->
    markedReachable (entryOf m' nm1 key) ->
    In (nm2, i2) l -> isSubscribed i2 = true ->
    In key (forInKeys (shortcuts i2)) ->
    priority i1 = Some p1 -> priority i2 = Some p2 ->
    p2 <= p1.
Proof.
  induction l as [|[nm0 i0] l IH];
    intros found m' nm1 i1 nm2 i2 key p1 p2 Ha Hs H1 S1 M1 H2 S2 K2 P1 P2;
    [destruct H1|].
  inversion Hs as [|? ? Hs' Hhd]; subst. cbn [annotated] in Ha.
  destruct H1 as [[= -> ->]|H1], H2 as [[= -> ->]|H2].
  - assert (p1 = p2) by congruence. lia.
  - rewrite Forall_forall in Hhd. exact (Hhd _ H2 p1 p2 P1 P2).
  - rewrite S2 in Ha. destruct Ha as [_ Ha]. exfalso.
    exact (found_excludes _ _ _ _ _ _ _ Ha H1 S1 M1 K2).
  - destruct (isSubscribed i0); destruct Ha as [_ Ha];
      exact (IH _ _ _ _ _ _ _ _ _ Ha Hs' H1 S1 M1 H2 S2 K2 P1 P2).
Qed.

Lemma insertSorted_descending (x : jsstring * namespaceInfo) (l : infos) :
  (forall y, In y (x :: l) -> priority (snd y) <> None) ->
  descending l -> descending (insertSorted x l).
Proof.
  intros Hdef Hs. induction Hs as [|y l Hs IH Hhd]; cbn [insertSorted].
  - constructor; constructor.
  - destruct (priority (snd x)) as [px|] eqn:Px;
      [|exfalso; apply (Hdef x); [now left|assumption]].
    destruct (priority (snd y)) as [py|] eqn:Py;
      [|exfalso; apply (Hdef y); [right; now left|assumption]].
    unfold comparePriority. rewrite Px, Py.
    destruct (Z.leb (py - px) 0) eqn:E.
    + apply Z.leb_le in E. constructor; [now constructor|].
      constructor.
      * intros pa pb Ha Hb. assert (pa = px) by congruence.
        assert (pb = py) by congruence. lia.
      * rewrite Forall_forall in *. intros z Hz pa pb Ha Hb.
        assert (pa = px) by congruence. subst pa.
        specialize (Hhd z Hz py pb Py Hb). lia.
    + apply Z.leb_gt in E. constructor.
      * apply IH. intros z [<-|Hz]; apply Hdef; [now left|right; now right].
      * rewrite Forall_forall in *. intros z Hz.
        apply (Permutation_in _ (insertSorted_perm x l)) in Hz.
        destruct Hz as [<-|Hz]; [|now apply Hhd].
        intros pa pb Ha Hb. assert (pa = py) by congruence.
        assert (pb = px) by congruence. lia.
Qed.

Lemma sortByPriority_descending (m : infos) :
  (forall y, In y m -> priority (snd y) <> None) ->
  descending (sortByPriority m).
Proof.
  induction m as [|x m IH]; intros Hdef; [constructor|].
  cbn [sortByPriority fold_right]. apply insertSorted_descending.
  - intros y [<-|Hy]; apply Hdef; [now left|right].
    now apply (proj1 (In_sortByPriority m y)).
  - apply IH. intros y Hy. apply Hdef. now right.
Qed.

Lemma addReachable_annotated (m m' : infos) :
  NoDup (map fst m) ->
  (forall nm i, In (nm, i) m -> NoDup (forInKeys (shortcuts i))) ->
  addReachable m = Ok m' ->
  annotated (sortByPriority m) inheritedNames m'.
Proof.
  intros Hnd Hkeys H. apply (reachNamespaces_annotated _ m); [| | |exact H].
  - apply (Permutation_NoDup (l := map fst m)); [|assumption].
    apply Permutation_map, Permutation_sym, sortByPriority_perm.
  - intros nm i Hin. apply In_lookup; [assumption|].
    now apply (proj1 (In_sortByPriority m (nm, i))).
  - intros nm i Hin. apply (Hkeys nm).
    now apply (proj1 (In_sortByPriority m (nm, i))).
Qed.

Lemma lookup_sorted (m : infos) (nm : jsstring) (i : namespaceInfo) :
  lookup nm m = Some i -> In (nm, i) (sortByPriority m).
Proof.
  intros H. apply In_sortByPriority. now apply lookup_In.
Qed.

(** C1: after [addReachable], among the entries of subscribed namespaces at
    most one per key is marked [reachable = true], and it belongs to a
    namespace whose priority no other subscribed namespace defining the key
    exceeds; a namespace without a positive priority is not visited: its
    descriptor, entries included, is left exactly as it was.  Every entry of
    a subscribed namespace gets the flag, true or false.  The map holds one
    descriptor per name and every mapping one entry per key; the comparison
    of priorities in the sort takes every descriptor to have one. *)
Theorem addReachable_one_per_key (m m' : infos) :
  NoDup (map fst m) ->
  (forall nm i, In (nm, i) m -> NoDup (forInKeys (shortcuts i))) ->
  addReachable m = Ok m' ->
  (forall key nm1 i1 nm2 i2,
      lookup nm1 m = Some i1 -> isSubscribed i1 = true ->
      lookup nm2 m = Some i2 -> isSubscribed i2 = true ->
      markedReachable (entryOf m' nm1 key) ->
      markedReachable (entryOf m' nm2 key) ->
      nm1 = nm2)
  /\ ((forall nm i, In (nm, i) m -> priority i <> None) ->
      forall key nm1 i1 nm2 i2 p1 p2,
        lookup nm1 m = Some i1 -> isSubscribed i1 = true ->
        markedReachable (entryOf m' nm1 key) ->
        lookup nm2 m = Some i2 -> isSubscribed i2 = true ->
        In key (forInKeys (shortcuts i2)) ->
        priority i1 = Some p1 -> priority i2 = Some p2 ->
        p2 <= p1)
  /\ (forall nm i,
        lookup nm m = Some i -> isSubscribed i = false ->
        lookup nm m' = Some i)
  /\ (forall nm i key,
        lookup nm m = Some i -> isSubscribed i = true ->
        In key (forInKeys (shortcuts i)) ->
        exists kd fields b,
          entryOf m' nm key = Some (VObj kd fields)
          /\ lookup reachableKey fields = Some (VBool b)).
Proof.
  intros Hnd Hkeys H.
  pose proof (addReachable_annotated m m' Hnd Hkeys H) as Ha.
  split; [|split; [|split]].
  - intros key nm1 i1 nm2 i2 L1 S1 L2 S2 M1 M2.
    exact (annotated_unique _ _ _ _ _ _ _ _ Ha (lookup_sorted _ _ _ L1) S1
             (lookup_sorted _ _ _ L2) S2 M1 M2).
  - intros Hdef key nm1 i1 nm2 i2 p1 p2 L1 S1 M1 L2 S2 K2 P1 P2.
    assert (Hs : descending (sortByPriority m)).
    { apply sortByPriority_descending. intros [nm i] Hin. now apply (Hdef nm). }
    exact (annotated_highest _ _ _ _ _ _ _ _ _ _ Ha Hs (lookup_sorted _ _ _ L1)
             S1 M1 (lookup_sorted _ _ _ L2) S2 K2 P1 P2).
  - intros nm i L S.
    exact (annotated_unsubscribed _ _ _ _ _ Ha (lookup_sorted _ _ _ L) S).
  - intros nm i key L S K.
    exact (annotated_flag _ _ _ _ _ _ Ha (lookup_sorted _ _ _ L) S K).
Qed.

(** ** A namespace fetched on demand *)

Lemma fetchOne_descriptor (responses : list (option response))
    (reload debug : bool) (e e' : env) (m m' : infos) (k : jsstring) :
  fetchOne responses reload debug e m k = Ok (e', m') ->
  exists i sc, lookup k m = Some i /\ m' = setOwn k (setShortcuts i sc) m.
Proof.
  unfold fetchOne. destruct (lookup k m) as [i|] eqn:Hk; [|discriminate].
  intros H. exists i.
  destruct (responseOf responses i) as [r|].
  - destruct (negb (Z.eqb (status r) 200)).
    + injection H as _ <-. eauto.
    + destruct (parseShortcutsFromYml _ _ _) as [e2 sc].
      destruct (verifyShortcuts e2 sc (name i)) as [[e3 sc']|]; cbn [bind] in H;
        [|discriminate].
      injection H as _ <-. eauto.
  - injection H as _ <-. eauto.
Qed.

Lemma fetchLoop_descriptor (responses : list (option response))
    (reload debug : bool) (ks : list jsstring) :
  forall e m e' m',
    fetchLoop ks responses reload debug e m = Ok (e', m') ->
    forall k i', lookup k m' = Some i' ->
      exists i sc, lookup k m = Some i /\ i' = setShortcuts i sc.
Proof.
  induction ks as [|key ks IH]; intros e m e' m' H k i' Hk.
  - injection H as _ <-. exists i', (shortcuts i').
    now rewrite setShortcuts_same.
  - cbn [fetchLoop] in H.
    destruct (fetchOne responses reload debug e m key) as [[e1 m1]|] eqn:E1;
      [|discriminate].
    cbn [bind] in H. destruct (IH _ _ _ _ H k i' Hk) as [i1 [sc1 [Hk1 ->]]].
    destruct (fetchOne_descriptor _ _ _ _ _ _ _ _ E1) as [i [sc [Hi ->]]].
    rewrite lookup_setOwn in Hk1. destruct (eqb_js k key) eqn:E; js_eq.
    + injection Hk1 as <-. exists i, sc1. split; [assumption|reflexivity].
    + exists i1, sc1. split; [assumption|reflexivity].
Qed.

Lemma fetchShortcuts_sole (e e1 : env) (s : jsstring) (reload debug : bool)
    (new : infos) :
  fetchShortcuts e [NsString s] reload debug = Ok (e1, new) ->
  exists sc, new = [(s, setShortcuts (onDemand e s) sc)].
Proof.
  intros H. pose proof (fetchShortcuts_keys _ _ _ _ _ _ H) as Hkeys.
  rewrite initial_single in Hkeys. cbn [map fst] in Hkeys.
  destruct new as [|[k i'] [|x new]]; try discriminate.
  cbn [map fst] in Hkeys. injection Hkeys as ->.
  unfold fetchShortcuts, fetchShortcutsIn in H.
  destruct (promiseAll _ _) as [responses|]; [|discriminate].
  cbn [bind] in H. rewrite initial_single in H.
  destruct (fetchLoop_descriptor _ _ _ _ _ _ _ _ H s i') as [i [sc [Hi ->]]].
  { cbn [lookup]. now rewrite eqb_js_refl. }
  cbn [lookup] in Hi. rewrite eqb_js_refl in Hi. injection Hi as <-. eauto.
Qed.

(** What [getShortcutFromNamespace] puts into the map for a namespace it
    does not hold: the descriptor [fetchShortcuts] returns for the
    one-element list, of priority 1 and so subscribed. *)
Lemma getShortcut_inserts (e e' : env) (key : value) (s : jsstring)
    (m m' : infos) (v : value) :
  lookup s m = None ->
  getShortcutFromNamespace e key (VStr s) m = Ok (e', m', v) ->
  exists ti,
    fetchShortcuts e [NsString s] (this_reload e) (this_debug e)
    = Ok (e', [(s, ti)])
    /\ m' = setOwn s ti m
    /\ priority ti = Some 1
    /\ isSubscribed ti = true.
Proof.
  intros Hs H.
  destruct (getShortcut_cases _ _ _ _ _ _ _ H)
    as [[ti [Hti _]]|[s' [new [ti [[= <-] [_ [_ [Hf [-> _]]]]]]]]].
  { cbn [toString] in Hti. congruence. }
  destruct (fetchShortcuts_sole _ _ _ _ _ _ Hf) as [sc ->].
  unfold assignInfos. cbn [fold_left fst snd].
  exists (setShortcuts (onDemand e s) sc). repeat split; assumption || reflexivity.
Qed.

(** ** Include Resolver: a second pass *)

Lemma classify_eq (v : value) :
  classify v = let* include := getProp v includeKey in classifyInclude include.
Proof. reflexivity. Qed.

Lemma getProp_truthy (v : value) (k : jsstring) :
  truthy v = true -> exists x, getProp v k = Ok x.
Proof.
  destruct v as [| |b|z|s|kd ps]; try discriminate; intros _; cbn [getProp].
  - eauto.
  - eauto.
  - destruct (eqb_js k lengthKey); [eauto|].
    destruct (arrayIndex k) as [i|]; [|eauto].
    destruct (nth_error s (N.to_nat i)); eauto.
  - destruct (lookup k ps); [eauto|].
    destruct kd; [eauto|]. destruct (eqb_js k lengthKey); eauto.
Qed.

Lemma classifyInclude_total (include : value) :
  exists d, classifyInclude include = Ok d.
Proof.
  unfold classifyInclude. destruct (truthy include) eqn:Ht; [|eauto].
  destruct (getProp_truthy include keyKey Ht) as [ikey ->]. cbn [bind].
  destruct (truthy ikey); [|eauto].
  destruct (getProp_truthy include namespaceKey Ht) as [ins ->]. cbn [bind].
  destruct (truthy ins); eauto.
Qed.

Lemma classify_object_total (kd : kind) (own : props) :
  exists d, classify (VObj kd own) = Ok d.
Proof.
  rewrite classify_eq. cbn [getProp].
  destruct (lookup includeKey own) as [v|]; cbn [bind].
  - apply classifyInclude_total.
  - assert (He : eqb_js includeKey lengthKey = false) by reflexivity.
    destruct kd; rewrite ?He; cbn [bind]; apply classifyInclude_total.
Qed.

Lemma classify_target_object (v : value) (d : directive) :
  classify v = Ok d -> hasTarget d = true -> exists kd own, v = VObj kd own.
Proof.
  intros Hc Ht. destruct v as [| |b|z|s|kd own]; try discriminate.
  - cbn in Hc. injection Hc as <-. discriminate.
  - cbn in Hc. injection Hc as <-. discriminate.
  - rewrite classify_eq in Hc. cbn in Hc. injection Hc as <-. discriminate.
  - eauto.
Qed.

Lemma arrayLength_keys (ps ps' : props) :
  map fst ps' = map fst ps -> arrayLength ps' = arrayLength ps.
Proof.
  revert ps'. induction ps as [|[k v] ps IH]; intros [|[k' v'] ps'] H;
    try discriminate; [reflexivity|].
  cbn [map fst] in H. injection H as -> H. cbn [arrayLength].
  now rewrite (IH ps' H).
Qed.

Lemma getProp_agree (kd : kind) (ps ps' : props) (t : jsstring) :
  map fst ps' = map fst ps -> lookup t ps' = lookup t ps ->
  getProp (VObj kd ps') t = getProp (VObj kd ps) t.
Proof.
  intros Hk Hl. cbn [getProp]. rewrite Hl, (arrayLength_keys _ _ Hk). reflexivity.
Qed.

Lemma lookup_charProps (s : jsstring) :
  forall i, lookup includeKey (charProps i s) = None.
Proof.
  induction s as [|c s IH]; intros i; [reflexivity|].
  cbn [charProps lookup].
  assert (H : eqb_js includeKey (indexKey i) = false).
  { apply eqb_js_neq. intros Heq. unfold indexKey, js in Heq.
    destruct (NilEmpty.string_of_uint (Nat.to_uint i)) as [|a r] eqn:E.
    - discriminate.
    - cbn in Heq. injection Heq as Ha _.
      assert (Hd : exists d, Nat.to_uint i = d /\ NilEmpty.string_of_uint d
                                                  = String a r) by eauto.
      destruct Hd as [d [_ Hd]].
      destruct d; cbn in Hd; try discriminate;
        injection Hd as <- _; discriminate. }
  rewrite H. apply IH.
Qed.

Lemma getProp_include (kd : kind) (fields : props) :
  getProp (VObj kd fields) includeKey
  = Ok (match lookup includeKey fields with
        | Some v => v
        | None => VUndef
        end).
Proof.
  cbn [getProp]. destruct (lookup includeKey fields); [reflexivity|].
  assert (He : eqb_js includeKey lengthKey = false) by reflexivity.
  destruct kd; rewrite ?He; reflexivity.
Qed.

Lemma plainSource_NoDup (source : value) :
  plainSource source = true -> NoDup (map fst (ownEnumerable source)).
Proof.
  unfold plainSource. rewrite andb_true_iff. intros [_ H].
  now apply distinctKeys_NoDup.
Qed.

(** Merging a plain source leaves the directive of the entry as it is, or
    leaves the entry without a target key. *)
Lemma classify_merged (kd1 : kind) (own : props) (d : directive)
    (source : value) :
  classify (VObj kd1 own) = Ok d ->
  plainSource source = true ->
  classify (VObj kd1 (assignProps own (ownEnumerable source))) = Ok d
  \/ exists d', classify (VObj kd1 (assignProps own (ownEnumerable source)))
                = Ok d'
                /\ hasTarget d' = false.
Proof.
  intros Hd Hplain. pose proof (plainSource_NoDup _ Hplain) as Hnd.
  rewrite classify_eq, getProp_include in *. cbn [bind] in *.
  rewrite (lookup_assignProps _ Hnd).
  destruct (lookup includeKey (ownEnumerable source)) as [v|] eqn:Hv.
  - right. destruct (classifyInclude_total v) as [d' Hd']. exists d'.
    split; [assumption|].
    unfold plainSource, carriesInclude in Hplain.
    apply andb_true_iff in Hplain. destruct Hplain as [Hplain _].
    destruct source as [| |b|z|s|k fields]; try discriminate.
    + cbn [ownEnumerable] in Hv. now rewrite lookup_charProps in Hv.
    + cbn [ownEnumerable] in Hv.
      rewrite classify_eq, getProp_include, Hv in Hplain. cbn [bind] in Hplain.
      rewrite Hd' in Hplain. now apply negb_true_iff in Hplain.
  - now left.
Qed.

Lemma getShortcut_source (e e' : env) (ikey ins : value)
    (m m1 : infos) (source : value) :
  getShortcutFromNamespace e ikey ins m = Ok (e', m1, source) ->
  exists ti, lookup (toString ins) m1 = Some ti
             /\ getProp (shortcuts ti) (toString ikey) = Ok source.
Proof.
  intros H.
  destruct (getShortcut_cases _ _ _ _ _ _ _ H)
    as [[ti [Hti [_ [-> Hsrc]]]]|[s [new [ti [-> [_ [_ [_ [_ [Hti Hsrc]]]]]]]]]];
    now exists ti.
Qed.

Lemma getProp_object (kd kd1 : kind) (ps own : props) (key : jsstring) :
  getProp (VObj kd ps) key = Ok (VObj kd1 own) ->
  lookup key ps = Some (VObj kd1 own).
Proof.
  cbn [getProp]. destruct (lookup key ps) as [x|]; [congruence|].
  destruct kd; [discriminate|]. destruct (eqb_js key lengthKey); discriminate.
Qed.

(** What a turn of the loop that returns has done. *)
Lemma includeStep_inv (e : env) (owner : jsstring) (m : infos)
    (key : jsstring) (oi : namespaceInfo) (kd : kind) (ps : props)
    (e' : env) (m' : infos) :
  lookup owner m = Some oi ->
  shortcuts oi = VObj kd ps ->
  includeStep e owner m key = Ok (e', m') ->
  exists entry d,
    getProp (VObj kd ps) key = Ok entry
    /\ classify entry = Ok d
    /\ ((hasTarget d = false /\ m' = m)
        \/ exists kd1 own source m1,
            hasTarget d = true
            /\ lookup key ps = Some (VObj kd1 own)
            /\ entry = VObj kd1 own
            /\ stepSource e owner m key = Some source
            /\ lookup owner m1 = Some oi
            /\ (forall s i, lookup s m = Some i -> lookup s m1 = Some i)
            /\ match d with
               | Local ikey =>
                   m1 = m /\ getProp (VObj kd ps) (toString ikey) = Ok source
               | Remote ikey ins =>
                   exists ti,
                     lookup (toString ins) m1 = Some ti
                     /\ getProp (shortcuts ti) (toString ikey) = Ok source
               | _ => False
               end
            /\ m' = setOwn owner
                      (setShortcuts oi
                         (VObj kd
                            (replaceProp key
                               (VObj kd1
                                  (assignProps own (ownEnumerable source)))
                               ps)))
                      m1).
Proof.
  intros Ho Hsc H. unfold includeStep in H. unfold stepSource.
  rewrite Ho, Hsc in *.
  destruct (getProp (VObj kd ps) key) as [entry|] eqn:He; [|discriminate].
  cbn [bind] in *.
  destruct (classify entry) as [d|] eqn:Hd; [|discriminate].
  cbn [bind] in H. exists entry, d. split; [reflexivity|]. split; [assumption|].
  destruct d as [| |ikey|ikey ins].
  - left. injection H as _ <-. auto.
  - left. injection H as _ <-. auto.
  - right. destruct (classify_target_object _ _ Hd eq_refl) as [kd1 [own ->]].
    pose proof (getProp_object _ _ _ _ _ He) as Hk.
    destruct (getProp (VObj kd ps) (toString ikey)) as [source|] eqn:Hs;
      [|discriminate].
    cbn [bind] in H.
    rewrite (mergeInto_object owner key source m oi kd kd1 ps own Ho Hsc Hk) in H.
    cbn [bind] in H. injection H as _ <-.
    exists kd1, own, source, m. repeat split; auto.
  - right. destruct (classify_target_object _ _ Hd eq_refl) as [kd1 [own ->]].
    pose proof (getProp_object _ _ _ _ _ He) as Hk.
    destruct (getShortcutFromNamespace e ikey ins m) as [[[e1 m1] source]|]
      eqn:Hg; [|discriminate].
    cbn [bind fst snd] in H.
    pose proof (getShortcut_frame _ _ _ _ _ _ _ Hg) as Hframe.
    rewrite (mergeInto_object owner key source m1 oi kd kd1 ps own
               (Hframe _ _ Ho) Hsc Hk) in H.
    cbn [bind] in H. injection H as _ <-.
    exists kd1, own, source, m1. repeat split; auto.
    destruct (getShortcut_source _ _ _ _ _ _ _ Hg) as [ti [Hti Hsrc]].
    exists ti. auto.
Qed.

Lemma includeStep_frame (e : env) (owner : jsstring) (m : infos)
    (key : jsstring) (oi : namespaceInfo) (kd : kind) (ps : props)
    (e' : env) (m' : infos) :
  lookup owner m = Some oi ->
  shortcuts oi = VObj kd ps ->
  includeStep e owner m key = Ok (e', m') ->
  (forall s i, s <> owner -> lookup s m = Some i -> lookup s m' = Some i)
  /\ exists oi' ps',
      lookup owner m' = Some oi'
      /\ shortcuts oi' = VObj kd ps'
      /\ map fst ps' = map fst ps
      /\ (forall t, t <> key -> lookup t ps' = lookup t ps)
      /\ (forall x, lookup key ps = Some x -> carriesInclude x = false ->
                    lookup key ps' = Some x).
Proof.
  intros Ho Hsc H.
  destruct (includeStep_inv e owner m key oi kd ps e' m' Ho Hsc H)
    as [entry [d [He [Hd [[Ht ->]|Hmerge]]]]].
  - split; [auto|]. exists oi, ps. repeat split; auto.
  - destruct Hmerge as [kd1 [own [source [m1 [Ht [Hk [-> [_ [Ho1 [Hfr [_ ->]]]]]]]]]]].
    split.
    + intros s i Hs Hl. rewrite lookup_setOwn_other by assumption. now apply Hfr.
    + eexists _, _. rewrite lookup_setOwn_same. split; [reflexivity|].
      cbn [shortcuts setShortcuts]. split; [reflexivity|].
      split; [apply keys_replaceProp|]. split.
      * intros t Hne. apply lookup_replaceProp_other. congruence.
      * intros x Hx Hplain. rewrite Hk in Hx. injection Hx as <-.
        unfold carriesInclude in Hplain. rewrite Hd in Hplain. congruence.
Qed.

Lemma includeLoop_frame (owner : jsstring) (kd : kind) (keys : list jsstring) :
  forall e m oi ps e' m',
    lookup owner m = Some oi ->
    shortcuts oi = VObj kd ps ->
    includeLoop keys e owner m = Ok (e', m') ->
    (forall s i, s <> owner -> lookup s m = Some i -> lookup s m' = Some i)
    /\ exists oi' ps',
        lookup owner m' = Some oi'
        /\ shortcuts oi' = VObj kd ps'
        /\ map fst ps' = map fst ps
        /\ (forall t, ~ In t keys -> lookup t ps' = lookup t ps)
        /\ (forall t x, lookup t ps = Some x -> carriesInclude x = false ->
                        lookup t ps' = Some x).
Proof.
  induction keys as [|key keys IH]; intros e m oi ps e' m' Ho Hsc H.
  - injection H as _ <-. split; [auto|]. exists oi, ps. repeat split; auto.
  - cbn [includeLoop] in H.
    destruct (includeStep e owner m key) as [[e2 m2]|] eqn:Hstep; [|discriminate].
    cbn [bind] in H.
    destruct (includeStep_frame _ _ _ _ _ _ _ _ _ Ho Hsc Hstep)
      as [Hother [oi2 [ps2 [Ho2 [Hsc2 [Hk2 [Hrest2 Hkey2]]]]]]].
    destruct (IH _ _ _ _ _ _ Ho2 Hsc2 H)
      as [Hother' [oi' [ps' [Ho' [Hsc' [Hk' [Hrest' Hplain']]]]]]].
    split.
    + intros s i Hs Hl. apply Hother'; [assumption|]. now apply Hother.
    + exists oi', ps'. repeat split; try assumption.
      * congruence.
      * intros t Ht. rewrite Hrest' by (intros Hin; apply Ht; now right).
        apply Hrest2. intros ->. apply Ht. now left.
      * intros t x Hx Hp. apply Hplain'; [|assumption].
        destruct (eqb_js t key) eqn:E; js_eq.
        -- now apply Hkey2.
        -- now rewrite Hrest2.
Qed.

(** A turn of the loop on an entry whose include source is already merged
    into it changes nothing. *)
Lemma includeStep_noop (e : env) (owner : jsstring) (M : infos)
    (key : jsstring) (Oi : namespaceInfo) (kd : kind) (PS : props)
    (E : value) (d : directive) :
  lookup owner M = Some Oi ->
  shortcuts Oi = VObj kd PS ->
  getProp (VObj kd PS) key = Ok E ->
  classify E = Ok d ->
  (hasTarget d = true ->
   exists kd1 fields source,
     E = VObj kd1 fields
     /\ assignProps fields (ownEnumerable source) = fields
     /\ match d with
        | Local ikey => getProp (VObj kd PS) (toString ikey) = Ok source
        | Remote ikey ins =>
            exists ti,
              lookup (toString ins) M = Some ti
              /\ getProp (shortcuts ti) (toString ikey) = Ok source
        | _ => False
        end) ->
  exists e', includeStep e owner M key = Ok (e', M).
Proof.
  intros Ho Hsc HE Hd Hmerged. unfold includeStep. rewrite Ho, Hsc, HE.
  cbn [bind]. rewrite Hd. cbn [bind].
  assert (Hmerge : forall kd1 fields source,
            E = VObj kd1 fields ->
            assignProps fields (ownEnumerable source) = fields ->
            mergeInto owner key source M = Ok M).
  { intros kd1 fields source -> Habs.
    pose proof (getProp_object _ _ _ _ _ HE) as Hk.
    rewrite (mergeInto_object owner key source M Oi kd kd1 PS fields Ho Hsc Hk).
    rewrite Habs, (replaceProp_same _ _ _ Hk), <- Hsc, setShortcuts_same.
    now rewrite (setOwn_same _ _ _ Ho). }
  destruct d as [| |ikey|ikey ins]; [eauto|eauto| |].
  - destruct (Hmerged eq_refl) as [kd1 [fields [source [HEq [Habs Hsrc]]]]].
    rewrite Hsrc. cbn [bind]. rewrite (Hmerge _ _ _ HEq Habs). cbn [bind]. eauto.
  - destruct (Hmerged eq_refl)
      as [kd1 [fields [source [HEq [Habs [ti [Hs Hsrc]]]]]]].
    rewrite (getShortcut_present e ikey ins M ti Hs), Hsrc. cbn [bind fst snd].
    rewrite (Hmerge _ _ _ HEq Habs). cbn [bind]. eauto.
Qed.

Lemma lookup_keys_agree {A} (ps ps' : list (jsstring * A)) (t : jsstring) :
  map fst ps' = map fst ps -> lookup t ps = None -> lookup t ps' = None.
Proof.
  intros Hk Hn. apply lookup_None. rewrite Hk. now apply lookup_None.
Qed.

(** The include source read in a mapping is read again, unchanged, in any
    later state of the mapping that keeps its plain entries. *)
Lemma source_preserved (kd : kind) (ps ps2 PS : props) (t : jsstring)
    (source : value) :
  getProp (VObj kd ps) t = Ok source ->
  plainSource source = true ->
  map fst ps2 = map fst ps ->
  lookup t ps2 = lookup t ps ->
  map fst PS = map fst ps2 ->
  (forall x, lookup t ps2 = Some x -> carriesInclude x = false ->
             lookup t PS = Some x) ->
  getProp (VObj kd PS) t = Ok source.
Proof.
  intros Hsrc Hplain Hk2 Hl2 HK Hkeep. rewrite <- Hsrc.
  apply getProp_agree; [congruence|].
  destruct (lookup t ps) as [x|] eqn:Hx.
  - apply Hkeep; [congruence|].
    cbn [getProp] in Hsrc. rewrite Hx in Hsrc. injection Hsrc as ->.
    unfold plainSource in Hplain. apply andb_true_iff in Hplain.
    destruct Hplain as [Hplain _]. now apply negb_true_iff in Hplain.
  - apply (lookup_keys_agree ps2); [assumption|congruence].
Qed.

(** After a run of the loop whose include sources are all plain, a further
    turn on any of its keys changes nothing. *)
Lemma includeLoop_settled (owner : jsstring) (kd : kind) (keys : list jsstring) :
  forall e m oi ps e1 M,
    lookup owner m = Some oi ->
    shortcuts oi = VObj kd ps ->
    NoDup keys ->
    sourcesPlain keys e owner m = true ->
    includeLoop keys e owner m = Ok (e1, M) ->
    forall k, In k keys ->
    forall e0, exists e', includeStep e0 owner M k = Ok (e', M).
Proof.
  induction keys as [|key keys IH]; intros e m oi ps e1 M Ho Hsc Hnd Hplain H;
    [intros k []|].
  inversion Hnd as [|? ? Hkey Hnd']; subst.
  cbn [includeLoop] in H. cbn [sourcesPlain] in Hplain.
  destruct (includeStep e owner m key) as [[e2 m2]|] eqn:Hstep; [|discriminate].
  cbn [bind] in H. apply andb_true_iff in Hplain. destruct Hplain as [Hsrc Hrest].
  destruct (includeStep_frame _ _ _ _ _ _ _ _ _ Ho Hsc Hstep)
    as [Hother [oi2 [ps2 [Ho2 [Hsc2 [Hk2 [Hrest2 Hkey2]]]]]]].
  destruct (includeLoop_frame owner kd keys _ _ _ _ _ _ Ho2 Hsc2 H)
    as [Hother' [Oi [PS [HO [HSC [HK [Hrest' Hplain']]]]]]].
  intros k [<-|Hin] e0; [|now apply (IH _ _ _ _ _ _ Ho2 Hsc2 Hnd' Hrest H)].
  assert (HkeyPS : lookup key PS = lookup key ps2) by now apply Hrest'.
  destruct (includeStep_inv e owner m key oi kd ps e2 m2 Ho Hsc Hstep)
    as [entry [d [He [Hd [[Ht ->]|Hmerge]]]]].
  - rewrite Ho in Ho2. injection Ho2 as <-. rewrite Hsc in Hsc2.
    injection Hsc2 as <-.
    apply (includeStep_noop e0 owner M key Oi kd PS entry d HO HSC);
      [|assumption|congruence].
    rewrite <- He. apply getProp_agree; congruence.
  - destruct Hmerge
      as [kd1 [own [source [m1 [Ht [Hk [-> [Hss [Ho1 [Hfr [Hdm ->]]]]]]]]]]].
    rewrite Hss in Hsrc.
    rewrite lookup_setOwn_same in Ho2. injection Ho2 as <-.
    cbn [shortcuts setShortcuts] in Hsc2. injection Hsc2 as <-.
    set (merged := VObj kd1 (assignProps own (ownEnumerable source))) in *.
    assert (HE : getProp (VObj kd PS) key = Ok merged).
    { cbn [getProp]. now rewrite HkeyPS, lookup_replaceProp_same, Hk. }
    assert (Hpres : forall t, getProp (VObj kd ps) t = Ok source ->
                              getProp (VObj kd PS) t = Ok source).
    { intros t Hs.
      assert (Hne : t <> key).
      { intros ->. rewrite He in Hs. injection Hs as <-.
        unfold plainSource, carriesInclude in Hsrc. rewrite Hd, Ht in Hsrc.
        discriminate. }
      apply (source_preserved kd ps (replaceProp key merged ps) PS t source);
        try assumption.
      - now apply Hrest2.
      - intros x. apply Hplain'. }
    destruct (classify_merged kd1 own d source Hd Hsrc) as [Hsame|[d' [Hd' Hno]]];
      fold merged in Hsame || fold merged in Hd'.
    + apply (includeStep_noop e0 owner M key Oi kd PS merged d HO HSC HE Hsame).
      intros _. exists kd1, (assignProps own (ownEnumerable source)), source.
      split; [reflexivity|]. split.
      { apply assignProps_idem. now apply plainSource_NoDup. }
      destruct d as [| |ikey|ikey ins]; try discriminate.
      * destruct Hdm as [_ Hs]. now apply Hpres.
      * destruct Hdm as [ti [Hs Hget]].
        destruct (eqb_js (toString ins) owner) eqn:E; js_eq.
        -- exists Oi. split; [assumption|].
           rewrite Ho1 in Hs. injection Hs as <-. rewrite Hsc in Hget.
           rewrite HSC. now apply Hpres.
        -- exists ti. split; [|assumption].
           apply Hother'; [assumption|].
           now rewrite lookup_setOwn_other.
    + apply (includeStep_noop e0 owner M key Oi kd PS merged d' HO HSC HE Hd').
      congruence.
Qed.

Lemma includeLoop_noop (owner : jsstring) (M : infos) (keys : list jsstring) :
  (forall k, In k keys ->
   forall e0, exists e', includeStep e0 owner M k = Ok (e', M)) ->
  forall e, exists e', includeLoop keys e owner M = Ok (e', M).
Proof.
  induction keys as [|key keys IH]; intros H e; [now exists e|].
  cbn [includeLoop]. destruct (H key (or_introl eq_refl) e) as [e1 ->].
  cbn [bind]. apply IH. intros k Hk. apply H. now right.
Qed.

(** C8 (amended): include resolution is idempotent when no include source
    met by the first pass carries an include directive with a target key of
    its own: a second pass over the same shortcut mapping, with the
    namespace map the first pass left, returns and leaves every entry, and
    the whole map, exactly as the first pass left them. *)
Theorem addIncludes_idempotent (e : env) (owner : jsstring) (m : infos)
    (oi : namespaceInfo) (kd : kind) (ps : props) (e1 : env) (m1 : infos) :
  lookup owner m = Some oi ->
  shortcuts oi = VObj kd ps ->
  NoDup (map fst ps) ->
  sourcesPlain (map fst ps) e owner m = true ->
  addIncludes e owner m = Ok (e1, m1) ->
  exists e2, addIncludes e1 owner m1 = Ok (e2, m1).
Proof.
  intros Ho Hsc Hnd Hplain H. unfold addIncludes in H. rewrite Ho, Hsc in H.
  unfold forInKeys in H. cbn [ownEnumerable] in H.
  destruct (includeLoop_frame owner kd (map fst ps) _ _ _ _ _ _ Ho Hsc H)
    as [_ [Oi [PS [HO [HSC [HK _]]]]]].
  unfold addIncludes. rewrite HO, HSC. unfold forInKeys. cbn [ownEnumerable].
  rewrite HK. apply includeLoop_noop.
  exact (includeLoop_settled owner kd (map fst ps) _ _ _ _ _ _ Ho Hsc Hnd Hplain H).
Qed.

(** ** Namespace Resolver: position, priority and name *)

Lemma initialEntries_at (e : env) (nss : list namespace) :
  forall idx n,
    nth_error (initialEntries e idx nss) n
    = option_map (fun ns => (nameOf e ns, descriptorAt e (idx + n) ns))
        (nth_error nss n).
Proof.
  induction nss as [|ns nss IH]; intros idx n.
  - now destruct n.
  - destruct n as [|n]; cbn [initialEntries nth_error option_map].
    + rewrite Nat.add_0_r. reflexivity.
    + rewrite IH. now replace (S idx + n)%nat with (idx + S n)%nat by lia.
Qed.

Lemma initialEntries_split (e : env) (nss1 nss2 : list namespace) :
  forall idx,
    initialEntries e idx (nss1 ++ nss2)
    = initialEntries e idx nss1
      ++ initialEntries e (idx + List.length nss1) nss2.
Proof.
  induction nss1 as [|ns nss1 IH]; intros idx; cbn [app initialEntries List.length].
  - now rewrite Nat.add_0_r.
  - rewrite IH. now replace (S idx + List.length nss1)%nat
      with (idx + S (List.length nss1))%nat by lia.
Qed.

Lemma keys_initialEntries_iff (e : env) (nss : list namespace) (k : jsstring) :
  forall idx,
    In k (map fst (initialEntries e idx nss))
    <-> exists ns, In ns nss /\ k = nameOf e ns.
Proof.
  clear jsyaml_load fetch.
  induction nss as [|ns nss IH]; intros idx; cbn [initialEntries map fst In].
  - split; [tauto|intros [ns [[] _]]].
  - rewrite IH. split.
    + intros [<-|[ns' [Hin ->]]]; [exists ns|exists ns']; auto.
    + intros [ns' [[->|Hin] ->]]; [now left|right; eauto].
Qed.

Lemma lookup_fold_setOwn_last {A} (es2 : list (jsstring * A)) (k : jsstring) :
  ~ In k (map fst es2) ->
  forall acc,
    lookup k (fold_left (fun o x => setOwn (fst x) (snd x) o) es2 acc)
    = lookup k acc.
Proof.
  induction es2 as [|[k' v'] es2 IH]; intros Hk acc; [reflexivity|].
  cbn [fold_left fst snd]. rewrite IH by (intros H; apply Hk; now right).
  apply lookup_setOwn_other. intros ->. apply Hk. now left.
Qed.

Lemma lookup_fromEntries_last {A} (es1 es2 : list (jsstring * A))
    (k : jsstring) (v : A) :
  ~ In k (map fst es2) ->
  lookup k (fromEntries (es1 ++ (k, v) :: es2)) = Some v.
Proof.
  intros Hk. unfold fromEntries. rewrite fold_left_app. cbn [fold_left fst snd].
  rewrite lookup_fold_setOwn_last by assumption. apply lookup_setOwn_same.
Qed.

Lemma keys_fromEntries_iff {A} (es : list (jsstring * A)) (k : jsstring) :
  In k (map fst (fromEntries es)) <-> In k (map fst es).
Proof.
  split.
  - intros H. apply in_map_iff in H. destruct H as [[k' v] [<- Hin]].
    apply In_fromEntries in Hin. now apply (in_map fst) in Hin.
  - intros H. apply keys_fold_setOwn. now left.
Qed.

(** X1: every descriptor of [getInitialNamespaceInfos] is the descriptor of
    a spec of the caller's list, stored under its name, with the 1-based
    position of that spec as priority; it has a url and is subscribed, so
    the guard on a missing url in [startFetches] and the one on the priority
    in [addReachable] never turn such a descriptor away. *)
Theorem getInitialNamespaceInfos_descriptors (e : env) (nss : list namespace)
    (k : jsstring) (i : namespaceInfo) :
  In (k, i) (getInitialNamespaceInfos e nss) ->
  exists n ns,
    nth_error nss n = Some ns
    /\ k = nameOf e ns
    /\ i = descriptorAt e n ns
    /\ priority i = Some (Z.of_nat n + 1)
    /\ truthyStr (url i) = true
    /\ isSubscribed i = true.
Proof.
  intros H. apply In_fromEntries in H. apply In_nth_error in H.
  destruct H as [n Hn]. rewrite initialEntries_at in Hn.
  destruct (nth_error nss n) as [ns|] eqn:Hns; [|discriminate].
  cbn [option_map] in Hn. injection Hn as <- <-.
  exists n, ns. split; [exact Hns|]. do 3 (split; [reflexivity|]).
  split; [apply url_truthy|].
  unfold isSubscribed, descriptorAt, withPriority. cbn [priority].
  apply andb_true_iff. split; [apply negb_true_iff, Z.eqb_neq|apply Z.ltb_lt]; lia.
Qed.

(** X2: the map of [getInitialNamespaceInfos] holds one descriptor per name,
    and no two descriptors of it have the same priority. *)
Theorem getInitialNamespaceInfos_ranking (e : env) (nss : list namespace) :
  NoDup (map fst (getInitialNamespaceInfos e nss))
  /\ forall k i k' i',
      In (k, i) (getInitialNamespaceInfos e nss) ->
      In (k', i') (getInitialNamespaceInfos e nss) ->
      priority i = priority i' -> k = k' /\ i = i'.
Proof.
  split; [apply NoDup_initial|].
  intros k i k' i' H H' Hp.
  pose proof (initial_priority_unique e nss (k, i) (k', i') H H' Hp) as Heq.
  injection Heq as -> ->. auto.
Qed.

(** X3: when several specs of the caller's list resolve to the same name,
    the last of them gives the descriptor: a spec that no later spec shares
    its name with is stored under that name with its own position as
    priority. *)
Theorem getInitialNamespaceInfos_last_wins (e : env)
    (nss1 nss2 : list namespace) (ns : namespace) :
  (forall ns', In ns' nss2 -> nameOf e ns' <> nameOf e ns) ->
  lookup (nameOf e ns) (getInitialNamespaceInfos e (nss1 ++ ns :: nss2))
  = Some (descriptorAt e (List.length nss1) ns).
Proof.
  intros Hlater. unfold getInitialNamespaceInfos.
  rewrite initialEntries_split. cbn [initialEntries Nat.add].
  apply lookup_fromEntries_last.
  intros Hin. apply keys_initialEntries_iff in Hin.
  destruct Hin as [ns' [Hin Heq]]. now apply (Hlater ns').
Qed.

(** X4: the names under which [getInitialNamespaceInfos] stores descriptors
    are exactly the names the specs of the caller's list resolve to. *)
Theorem getInitialNamespaceInfos_names (e : env) (nss : list namespace)
    (k : jsstring) :
  In k (map fst (getInitialNamespaceInfos e nss))
  <-> exists ns, In ns nss /\ k = nameOf e ns.
Proof.
  unfold getInitialNamespaceInfos.
  rewrite keys_fromEntries_iff. apply keys_initialEntries_iff.
Qed.

(** ** Diagnostics are only appended *)

Lemma extends_refl (e : env) : extends e e.
Proof.
  repeat split; auto. exists []. now rewrite app_nil_r.
Qed.

Lemma extends_trans (e1 e2 e3 : env) :
  extends e1 e2 -> extends e2 e3 -> extends e1 e3.
Proof.
  intros [G1 [R1 [D1 [E1 [a1 L1]]]]] [G2 [R2 [D2 [E2 [a2 L2]]]]].
  repeat split; try congruence; auto.
  exists (a1 ++ a2). now rewrite L2, L1, app_assoc.
Qed.

Lemma extends_log (e : env) (msg : jsstring) : extends e (log msg e).
Proof.
  repeat split; auto. now exists [msg].
Qed.

Lemma extends_setError (e : env) : extends e (setError e).
Proof.
  repeat split; auto. exists []. cbn. now rewrite app_nil_r.
Qed.

Lemma extends_report (e : env) (msg : jsstring) :
  extends e (setError (log msg e)).
Proof.
  eapply extends_trans; [apply extends_log|apply extends_setError].
Qed.

Lemma verifyShortcuts_extends (e e' : env) (sc sc' : value)
    (nm : option jsstring) :
  verifyShortcuts e sc nm = Ok (e', sc') -> extends e e'.
Proof.
  unfold verifyShortcuts.
  destruct (verifyLoop (forInKeys sc) [] sc) as [[inc x]|]; [|discriminate].
  cbn [bind]. destruct inc; intros [= <- _];
    [apply extends_refl|apply extends_report].
Qed.

Lemma fetchOne_extends (responses : list (option response))
    (reload debug : bool) (e e' : env) (m m' : infos) (k : jsstring) :
  fetchOne responses reload debug e m k = Ok (e', m') -> extends e e'.
Proof.
  unfold fetchOne. destruct (lookup k m) as [i|]; [|discriminate].
  assert (Hfail : extends e (if debug
                             then log (cacheWord reload ++ js "Fail:    "
                                       ++ toStr (url i)) e
                             else e)).
  { destruct debug; [apply extends_log|apply extends_refl]. }
  destruct (responseOf responses i) as [r|]; [|now intros [= <- _]].
  destruct (negb (Z.eqb (status r) 200)); [now intros [= <- _]|].
  assert (H1 : extends e (logSuccess e debug reload r)).
  { unfold logSuccess. destruct debug; apply extends_log. }
  destruct (parseShortcutsFromYml (logSuccess e debug reload r) (text r) (url i))
    as [e2 sc] eqn:Hp.
  assert (H2 : extends (logSuccess e debug reload r) e2).
  { unfold parseShortcutsFromYml in Hp. destruct (jsyaml_load (text r));
      injection Hp as <- _; [apply extends_refl|apply extends_report]. }
  destruct (verifyShortcuts e2 sc (name i)) as [[e3 sc']|] eqn:Hv;
    cbn [bind]; [|discriminate].
  intros [= <- _]. apply verifyShortcuts_extends in Hv.
  eapply extends_trans; [exact H1|]. eapply extends_trans; eassumption.
Qed.

Lemma fetchLoop_extends (responses : list (option response))
    (reload debug : bool) (ks : list jsstring) :
  forall e m e' m',
    fetchLoop ks responses reload debug e m = Ok (e', m') -> extends e e'.
Proof.
  induction ks as [|k ks IH]; intros e m e' m' H.
  - injection H as <- _. apply extends_refl.
  - cbn [fetchLoop] in H.
    destruct (fetchOne responses reload debug e m k) as [[e1 m1]|] eqn:E1;
      [|discriminate].
    cbn [bind] in H. apply fetchOne_extends in E1. apply IH in H.
    eapply extends_trans; eassumption.
Qed.

Lemma fetchShortcuts_extends (e e' : env) (nss : list namespace)
    (reload debug : bool) (m' : infos) :
  fetchShortcuts e nss reload debug = Ok (e', m') -> extends e e'.
Proof.
  unfold fetchShortcuts, fetchShortcutsIn.
  destruct (promiseAll _ _) as [responses|]; [|discriminate].
  cbn [bind]. apply fetchLoop_extends.
Qed.

Lemma getShortcut_extends (e e' : env) (key ins : value) (m m1 : infos)
    (v : value) :
  getShortcutFromNamespace e key ins m = Ok (e', m1, v) -> extends e e'.
Proof.
  intros H.
  destruct (getShortcut_cases _ _ _ _ _ _ _ H)
    as [[ti [_ [-> _]]]|[s [new [ti [_ [_ [_ [Hf _]]]]]]]].
  - apply extends_refl.
  - now apply fetchShortcuts_extends in Hf.
Qed.

Lemma includeStep_extends (e e' : env) (owner key : jsstring) (m m' : infos) :
  includeStep e owner m key = Ok (e', m') -> extends e e'.
Proof.
  unfold includeStep. destruct (lookup owner m) as [oi|]; [|discriminate].
  destruct (getProp (shortcuts oi) key) as [shortcut|]; [|discriminate].
  cbn [bind]. destruct (classify shortcut) as [d|]; [|discriminate].
  cbn [bind]. destruct d as [| |ikey|ikey ins].
  - intros [= <- _]. apply extends_refl.
  - intros [= <- _]. apply extends_report.
  - destruct (getProp (shortcuts oi) (toString ikey)) as [x|]; [|discriminate].
    cbn [bind]. destruct (mergeInto owner key x m); [|discriminate].
    intros [= <- _]. apply extends_refl.
  - destruct (getShortcutFromNamespace e ikey ins m) as [[[e1 m1] x]|] eqn:Hg;
      [|discriminate].
    cbn [bind fst snd]. destruct (mergeInto owner key x m1); [|discriminate].
    intros [= <- _]. now apply getShortcut_extends in Hg.
Qed.

Lemma includeLoop_extends (owner : jsstring) (keys : list jsstring) :
  forall e m e' m',
    includeLoop keys e owner m = Ok (e', m') -> extends e e'.
Proof.
  induction keys as [|k keys IH]; intros e m e' m' H.
  - injection H as <- _. apply extends_refl.
  - cbn [includeLoop] in H.
    destruct (includeStep e owner m k) as [[e1 m1]|] eqn:E1; [|discriminate].
    cbn [bind] in H. apply includeStep_extends in E1. apply IH in H.
    eapply extends_trans; eassumption.
Qed.


Lemma runUntilAwait_extends (owner : jsstring) (keys : list jsstring) :
  forall e m, extends e (fst (stateOf (runUntilAwait keys e owner m))).
Proof.
  induction keys as [|k keys IH]; intros e m; [apply extends_refl|].
  cbn [runUntilAwait].
  destruct (lookup owner m) as [oi|]; [|apply extends_refl].
  destruct (let* shortcut := getProp (shortcuts oi) k in classify shortcut)
    as [d|]; [|apply extends_refl].
  destruct (includeStep e owner m k) as [[e1 m1]|] eqn:E1.
  - apply includeStep_extends in E1.
    destruct d; try apply extends_refl;
      (eapply extends_trans; [exact E1|apply IH]).
  - destruct d; apply extends_refl.
Qed.

Lemma startCallbacks_extends (owners : list jsstring) :
  forall e m, extends e (fst (fst (startCallbacks owners e m))).
Proof.
  induction owners as [|o owners IH]; intros e m; [apply extends_refl|].
  cbn [startCallbacks].
  set (p := match lookup o m with
            | Some oi => runUntilAwait (forInKeys (shortcuts oi)) e o m
            | None => Rejected e m
            end).
  assert (Hp : extends e (fst (stateOf p))).
  { subst p. destruct (lookup o m); [apply runUntilAwait_extends|].
    apply extends_refl. }
  destruct (stateOf p) as [e1 m1]. cbn [fst] in Hp.
  specialize (IH e1 m1).
  destruct (startCallbacks owners e1 m1) as [[e2 m2] ps]. cbn [fst] in *.
  eapply extends_trans; eassumption.
Qed.

Lemma resumeCallbacks_extends (tasks : list (jsstring * progress)) :
  forall e m, extends e (fst (resumeCallbacks tasks e m)).
Proof.
  induction tasks as [|[o p] tasks IH]; intros e m; [apply extends_refl|].
  cbn [resumeCallbacks]. destruct p as [| |e0 m0 key rest ins]; try apply IH.
  destruct (isPresent ins m); [|apply IH].
  destruct (includeStep e o m key) as [[e1 m1]|] eqn:E1; [|apply IH].
  apply includeStep_extends in E1.
  pose proof (runUntilAwait_extends o rest e1 m1) as H2.
  destruct (stateOf (runUntilAwait rest e1 o m1)) as [e2 m2]. cbn [fst] in H2.
  eapply extends_trans; [exact E1|].
  eapply extends_trans; [exact H2|apply IH].
Qed.

Lemma getNamespaceInfos_extends (e e' : env) (nss : list namespace)
    (reload debug : bool) (m : infos) :
  getNamespaceInfos e nss reload debug = Ok (e', m) -> extends e e'.
Proof.
  unfold getNamespaceInfos.
  destruct (fetchShortcuts e nss reload debug) as [[e1 m1]|] eqn:Hf;
    [|discriminate].
  cbn [bind]. apply fetchShortcuts_extends in Hf.
  pose proof (startCallbacks_extends (map fst m1) e1 m1) as H2.
  destruct (startCallbacks (map fst m1) e1 m1) as [[e2 m2] tasks].
  cbn [fst] in H2.
  pose proof (resumeCallbacks_extends tasks e2 m2) as H3.
  destruct (resumeCallbacks tasks e2 m2) as [e3 m3]. cbn [fst] in H3.
  destruct (addReachable m3); [|discriminate].
  cbn [bind]. intros [= <- _].
  eapply extends_trans; [exact Hf|]. eapply extends_trans; eassumption.
Qed.

(** X6: [addIncludes], awaited to completion, leaves the settings of the
    environment as they were, only appends to the log, and never lowers the
    error flag, also when it fetches namespaces on demand. *)
Theorem addIncludes_only_appends (e e' : env) (owner : jsstring)
    (m m' : infos) :
  addIncludes e owner m = Ok (e', m') ->
  this_github e' = this_github e
  /\ this_reload e' = this_reload e
  /\ this_debug e' = this_debug e
  /\ (this_error e = true -> this_error e' = true)
  /\ exists added, this_log e' = this_log e ++ added.
Proof.
  unfold addIncludes. destruct (lookup owner m); [|discriminate].
  intros H. now apply includeLoop_extends in H.
Qed.


(** ** When the fetch of the collections fails as a whole *)

Lemma fetchLoop_throws (responses : list (option response))
    (reload debug : bool) (ks : list jsstring) :
  forall e m,
    NoDup ks ->
    (forall k, In k ks -> exists i, lookup k m = Some i) ->
    fetchLoop ks responses reload debug e m = Throw
    <-> exists k i, In k ks /\ lookup k m = Some i
                    /\ fetchedShortcuts (responseOf responses i) = Throw.
Proof.
  clear fetch.
  induction ks as [|k ks IH]; intros e m Hnd Hall.
  - split; [discriminate|]. now intros [k [i [[] _]]].
  - inversion Hnd as [|? ? Hk Hnd']; subst.
    destruct (Hall k (or_introl eq_refl)) as [i Hi].
    pose proof (fetchOne_resolved responses reload debug e m k i Hi) as H1.
    cbn [fetchLoop].
    destruct (fetchedShortcuts (responseOf responses i)) as [sc|] eqn:Hf.
    + destruct H1 as [e1 ->]. cbn [bind].
      assert (Hother : forall k', In k' ks ->
                lookup k' (setOwn k (setShortcuts i sc) m) = lookup k' m).
      { intros k' Hk'. apply lookup_setOwn_other. intros ->. contradiction. }
      rewrite IH; [|assumption|].
      * split; intros [k' [i' [Hin [Hl Ht]]]].
        -- exists k', i'. rewrite Hother in Hl by assumption.
           repeat split; [now right|assumption|assumption].
        -- destruct Hin as [<-|Hin].
           ++ rewrite Hi in Hl. injection Hl as <-. rewrite Hf in Ht.
              discriminate.
           ++ exists k', i'. rewrite Hother by assumption. now repeat split.
      * intros k' Hk'. rewrite Hother by assumption. apply Hall. now right.
    + rewrite H1. cbn [bind]. split; [intros _|reflexivity].
      exists k, i. repeat split; [now left|assumption|assumption].
Qed.

Lemma verifyLoop_throws (v : value) :
  verifyLoop (forInKeys v) [] v = Throw <-> exists c s, v = VStr (c :: s).
Proof.
  clear fetch jsyaml_load.
  destruct (isString v) eqn:Hs.
  - destruct v as [| | | |s|kd ps]; try discriminate. destruct s as [|c s].
    + split; [discriminate|]. now intros [c [s [=]]].
    + split; [intros _; now exists c, s|intros _]. vm_compute. reflexivity.
  - destruct (verifyLoop_total v Hs) as [inc [sc ->]].
    split; [discriminate|]. intros [c [s ->]]. discriminate.
Qed.

(** X7: [fetchShortcuts] fails as a whole in exactly two cases: the request
    for one of the collections is rejected, or a collection answered with
    status 200 parses to a document on which the verifier throws (a
    non-empty bare string).  A status other than 200 and a text that does
    not parse never make it fail.  The caller's list is an array, so it has
    fewer than 2^32 - 1 elements. *)
Theorem fetchShortcuts_fails_exactly_when (e : env) (nss : list namespace)
    (reload debug : bool) :
  Z.of_nat (List.length nss) < 4294967295 ->
  fetchShortcuts e nss reload debug = Throw
  <-> exists k i,
        In (k, i) (getInitialNamespaceInfos e nss)
        /\ (fetch (toStr (url i)) reload = None
            \/ exists r c s,
                 fetch (toStr (url i)) reload = Some r
                 /\ status r = 200
                 /\ jsyaml_load (text r) = Parsed (VStr (c :: s))).
Proof.
  intros Hlen. unfold fetchShortcuts.
  rewrite fetchShortcutsIn_settled by apply Permutation_refl.
  set (m0 := getInitialNamespaceInfos e nss).
  pose proof (initial_rejected e nss reload Hlen) as Hrej. fold m0 in Hrej.
  assert (Hthrow : forall r, fetchedShortcuts r = Throw <->
            exists r0 c s, r = Some r0 /\ status r0 = 200
                           /\ jsyaml_load (text r0) = Parsed (VStr (c :: s))).
  { intros r. unfold fetchedShortcuts. destruct r as [r0|].
    - destruct (Z.eqb_spec (status r0) 200) as [Hs|Hs]; cbn [negb].
      + destruct (jsyaml_load (text r0)) as [v|msg] eqn:Hp.
        * pose proof (verifyLoop_throws v) as Hv.
          destruct (verifyLoop (forInKeys v) [] v) as [[inc sc]|];
            cbn [bind].
          -- split; [discriminate|].
             intros [r1 [c [s [[= <-] [_ Hp1]]]]].
             assert (Habs : @Ok (list jsstring * value) (inc, sc) = Throw).
             { apply Hv. exists c, s. congruence. }
             discriminate.
          -- split; [intros _|reflexivity].
             destruct (proj1 Hv eq_refl) as [c [s ->]]. now exists r0, c, s.
        * split; [discriminate|].
          intros [r1 [c [s [[= <-] [_ Hp1]]]]]. congruence.
      + split; [discriminate|]. intros [r1 [c [s [[= <-] [Hs1 _]]]]].
        contradiction.
    - split; [discriminate|]. now intros [r1 [c [s [[=] _]]]]. }
  destruct (anyRejected (startFetches m0 reload)) eqn:Hany.
  - split; [intros _|reflexivity].
    destruct (proj1 Hrej eq_refl) as [k [i [Hin Hnone]]].
    exists k, i. split; [assumption|now left].
  - assert (Hnone : forall k i, In (k, i) m0 ->
              fetch (toStr (url i)) reload <> None).
    { intros k i Hin Hn.
      assert (Habs : false = true) by (apply Hrej; now exists k, i).
      discriminate. }
    rewrite fetchLoop_throws;
      [|apply NoDup_initial|intros k Hk; now apply lookup_Some_iff].
    split.
    + intros [k [i [_ [Hl Ht]]]]. apply lookup_In in Hl.
      unfold m0 in Ht.
      rewrite (initial_attribution e nss reload k i Hlen Hl) in Ht.
      exists k, i. split; [assumption|]. right. now apply Hthrow.
    + intros [k [i [Hin [Hn|Hv]]]]; [now apply (Hnone k i Hin) in Hn|].
      exists k, i. split; [apply in_map_iff; now exists (k, i)|].
      split; [apply In_lookup; [apply NoDup_initial|assumption]|].
      unfold m0.
      rewrite (initial_attribution e nss reload k i Hlen Hin).
      now apply Hthrow.
Qed.


(** ** When the error flag is raised *)

Lemma verifyLoop_incorrect (ks : list jsstring) :
  forall inc sc inc' sc',
    verifyLoop ks inc sc = Ok (inc', sc') -> inc' = inc ++ incorrect ks.
Proof.
  clear fetch jsyaml_load.
  induction ks as [|k ks IH]; intros inc sc inc' sc' H.
  - injection H as <- _. now rewrite app_nil_r.
  - cbn [verifyLoop] in H. destruct (getProp sc k) as [v|]; [|discriminate].
    cbn [bind] in H. unfold incorrect. cbn [filter]. fold (incorrect ks).
    destruct (isString v).
    + destruct (setProp sc k _) as [sc1|]; [|discriminate]. cbn [bind] in H.
      apply IH in H. subst inc'. destruct (matchKey k); cbn [negb];
        [reflexivity|now rewrite <- app_assoc].
    + apply IH in H. subst inc'. destruct (matchKey k); cbn [negb];
        [reflexivity|now rewrite <- app_assoc].
Qed.

Lemma verifyShortcuts_error (e e' : env) (sc sc' : value)
    (nm : option jsstring) :
  verifyShortcuts e sc nm = Ok (e', sc') ->
  this_error e'
  = (this_error e || existsb (fun k => negb (matchKey k)) (forInKeys sc))%bool.
Proof.
  clear fetch jsyaml_load.
  unfold verifyShortcuts.
  destruct (verifyLoop (forInKeys sc) [] sc) as [[inc x]|] eqn:Hv;
    [|discriminate].
  apply verifyLoop_incorrect in Hv. cbn [app] in Hv. cbn [bind].
  assert (Hex : existsb (fun k => negb (matchKey k)) (forInKeys sc)
                = negb (match inc with [] => true | _ => false end)).
  { subst inc. unfold incorrect. induction (forInKeys sc) as [|k l IH];
      [reflexivity|]. cbn [existsb filter].
    destruct (negb (matchKey k)); [reflexivity|exact IH]. }
  rewrite Hex. destruct inc; intros [= <- _]; cbn.
  - now rewrite orb_false_r.
  - now rewrite orb_true_r.
Qed.

Lemma fetchOne_error (responses : list (option response))
    (reload debug : bool) (e e' : env) (m m' : infos) (k : jsstring)
    (i : namespaceInfo) :
  lookup k m = Some i ->
  fetchOne responses reload debug e m k = Ok (e', m') ->
  this_error e'
  = (this_error e || match responseOf responses i with
                     | Some r => reported r
                     | None => false
                     end)%bool.
Proof.
  clear fetch.
  intros Hi. unfold fetchOne. rewrite Hi.
  assert (Hfail : this_error (if debug
                              then log (cacheWord reload ++ js "Fail:    "
                                        ++ toStr (url i)) e
                              else e) = this_error e)
    by (destruct debug; reflexivity).
  destruct (responseOf responses i) as [r|].
  - unfold reported. destruct (Z.eqb (status r) 200); cbn [negb andb].
    + assert (H1 : this_error (logSuccess e debug reload r) = this_error e)
        by (unfold logSuccess; destruct debug; reflexivity).
      unfold parseShortcutsFromYml.
      destruct (jsyaml_load (text r)) as [v|msg].
      * destruct (verifyShortcuts _ v (name i)) as [[e3 sc']|] eqn:Hv;
          cbn [bind]; [|discriminate].
        intros [= <- _]. apply verifyShortcuts_error in Hv. now rewrite Hv, H1.
      * destruct (verifyShortcuts _ emptyArray (name i)) as [[e3 sc']|] eqn:Hv;
          cbn [bind]; [|discriminate].
        intros [= <- _]. apply verifyShortcuts_error in Hv. rewrite Hv. cbn.
        now rewrite orb_true_r.
    + intros [= <- _]. rewrite orb_false_r. exact Hfail.
  - intros [= <- _]. rewrite orb_false_r. exact Hfail.
Qed.

Lemma fetchLoop_error (responses : list (option response))
    (reload debug : bool) (ks : list jsstring) :
  forall e m e' m',
    NoDup ks ->
    (forall k, In k ks -> exists i, lookup k m = Some i) ->
    fetchLoop ks responses reload debug e m = Ok (e', m') ->
    this_error e' = true
    <-> this_error e = true
        \/ exists k i r, In k ks /\ lookup k m = Some i
                         /\ responseOf responses i = Some r
                         /\ reported r = true.
Proof.
  clear fetch.
  induction ks as [|k ks IH]; intros e m e' m' Hnd Hall H.
  - injection H as <- _. split; [now left|].
    intros [H|[k [i [r [[] _]]]]]. exact H.
  - inversion Hnd as [|? ? Hk Hnd']; subst.
    destruct (Hall k (or_introl eq_refl)) as [i Hi].
    cbn [fetchLoop] in H.
    destruct (fetchOne responses reload debug e m k) as [[e1 m1]|] eqn:E1;
      [|discriminate].
    cbn [bind] in H.
    pose proof (fetchOne_error _ _ _ _ _ _ _ _ _ Hi E1) as Herr.
    destruct (fetchOne_descriptor _ _ _ _ _ _ _ _ E1) as [i0 [sc [Hi0 ->]]].
    rewrite Hi in Hi0. injection Hi0 as <-.
    assert (Hother : forall k', In k' ks ->
              lookup k' (setOwn k (setShortcuts i sc) m) = lookup k' m).
    { intros k' Hk'. apply lookup_setOwn_other. intros ->. contradiction. }
    assert (Hall' : forall k', In k' ks ->
              exists i', lookup k' (setOwn k (setShortcuts i sc) m) = Some i').
    { intros k' Hk'. rewrite Hother by assumption. apply Hall. now right. }
    rewrite (IH _ _ _ _ Hnd' Hall' H).
    rewrite Herr, orb_true_iff. split.
    + intros [[He|Hr]|[k' [i' [r [Hin [Hl [Hr Hrep]]]]]]].
      * now left.
      * right. destruct (responseOf responses i) as [r|] eqn:Hresp;
          [|discriminate]. exists k, i, r. repeat split; auto. now left.
      * right. rewrite Hother in Hl by assumption. exists k', i', r.
        repeat split; auto. now right.
    + intros [He|[k' [i' [r [[<-|Hin] [Hl [Hr Hrep]]]]]]].
      * now left; left.
      * rewrite Hi in Hl. injection Hl as <-. left; right. now rewrite Hr.
      * right. exists k', i', r. rewrite Hother by assumption.
        now repeat split.
Qed.

(** X8: the error flag after [fetchShortcuts].  It is raised exactly when
    it was raised before, or the response for one of the collections comes
    with status 200 and a text that does not parse or that parses to a
    document with a key the verifier reports.  A collection that is not
    delivered, one answered with any other status, never raises it.  The
    caller's list is an array, so it has fewer than 2^32 - 1 elements. *)
Theorem fetchShortcuts_error_flag (e e' : env) (nss : list namespace)
    (reload debug : bool) (m' : infos) :
  Z.of_nat (List.length nss) < 4294967295 ->
  fetchShortcuts e nss reload debug = Ok (e', m') ->
  this_error e' = true
  <-> this_error e = true
      \/ exists k i r,
           In (k, i) (getInitialNamespaceInfos e nss)
           /\ fetch (toStr (url i)) reload = Some r
           /\ reported r = true.
Proof.
  intros Hlen H. unfold fetchShortcuts in H.
  rewrite fetchShortcutsIn_settled in H by apply Permutation_refl.
  set (m0 := getInitialNamespaceInfos e nss) in *.
  destruct (anyRejected (startFetches m0 reload)); [discriminate|].
  assert (Hall : forall k, In k (map fst m0) -> exists i, lookup k m0 = Some i)
    by (intros k Hk; now apply lookup_Some_iff).
  rewrite (fetchLoop_error _ _ _ _ _ _ _ _ (NoDup_initial e nss) Hall H).
  split; (intros [He|[k [i [r [Hin [Hl Hr]]]]]]; [now left|right]).
  - destruct Hr as [Hr Hrep]. apply lookup_In in Hl.
    unfold m0 in Hr. rewrite (initial_attribution e nss reload k i Hlen Hl) in Hr.
    now exists k, i, r.
  - exists k, i, r. split; [apply in_map_iff; now exists (k, i)|].
    split; [apply In_lookup; [apply NoDup_initial|assumption]|].
    split; [|assumption].
    unfold m0. now rewrite (initial_attribution e nss reload k i Hlen Hin).
Qed.


(** ** What include resolution touches *)

Lemma onDemand_env (e e' : env) (s : jsstring) : onDemand e s = onDemand e' s.
Proof.
  clear fetch jsyaml_load.
  unfold onDemand, getInitalNamespaceInfo.
  destruct (Nat.ltb_spec (List.length s) 4) as [Hlt|Hge]; [reflexivity|].
  unfold addFetchUrlToGithubNamespace. cbn [github name truthyStr].
  destruct (eqb_js s (js ".")) eqn:E; [|reflexivity].
  apply eqb_js_eq in E. subst s. cbn in Hge. lia.
Qed.

Lemma mergeInto_owner (owner key : jsstring) (x : value) (m m' : infos)
    (oi : namespaceInfo) :
  lookup owner m = Some oi ->
  mergeInto owner key x m = Ok m' ->
  exists sc, m' = setOwn owner (setShortcuts oi sc) m.
Proof.
  clear fetch jsyaml_load.
  intros Ho. unfold mergeInto. rewrite Ho.
  destruct (getProp (shortcuts oi) key) as [shortcut|]; [|discriminate].
  cbn [bind]. destruct (objectAssign shortcut x) as [merged|]; [|discriminate].
  cbn [bind]. intros [= <-]. eauto.
Qed.

Lemma includeStep_added (e e' : env) (owner key : jsstring) (m m' : infos)
    (oi : namespaceInfo) :
  lookup owner m = Some oi ->
  includeStep e owner m key = Ok (e', m') ->
  (exists sc, lookup owner m' = Some (setShortcuts oi sc))
  /\ forall s i, lookup s m = None -> lookup s m' = Some i ->
       exists sc, i = setShortcuts (onDemand e s) sc.
Proof.
  intros Ho. unfold includeStep. rewrite Ho.
  assert (Hsame : (exists sc, lookup owner m = Some (setShortcuts oi sc))
                  /\ forall s i, lookup s m = None -> lookup s m = Some i ->
                       exists sc, i = setShortcuts (onDemand e s) sc).
  { split; [exists (shortcuts oi); now destruct oi|]. intros s i H1 H2.
    congruence. }
  destruct (getProp (shortcuts oi) key) as [shortcut|]; [|discriminate].
  cbn [bind]. destruct (classify shortcut) as [d|]; [|discriminate].
  cbn [bind]. destruct d as [| |ikey|ikey ins].
  - now intros [= _ <-].
  - now intros [= _ <-].
  - destruct (getProp (shortcuts oi) (toString ikey)) as [x|]; [|discriminate].
    cbn [bind]. destruct (mergeInto owner key x m) as [m2|] eqn:Hm;
      [|discriminate].
    cbn [bind]. intros [= _ <-].
    destruct (mergeInto_owner _ _ _ _ _ _ Ho Hm) as [sc ->]. split.
    + exists sc. apply lookup_setOwn_same.
    + intros s i Hn Hs. rewrite lookup_setOwn in Hs.
      destruct (eqb_js s owner) eqn:E; [|congruence].
      apply eqb_js_eq in E. congruence.
  - destruct (getShortcutFromNamespace e ikey ins m) as [[[e1 m1] x]|] eqn:Hg;
      [|discriminate].
    cbn [bind fst snd].
    destruct (mergeInto owner key x m1) as [m2|] eqn:Hm; [|discriminate].
    cbn [bind]. intros [= _ <-].
    pose proof (getShortcut_frame _ _ _ _ _ _ _ Hg _ _ Ho) as Ho1.
    destruct (mergeInto_owner _ _ _ _ _ _ Ho1 Hm) as [sc ->]. split.
    + exists sc. apply lookup_setOwn_same.
    + intros s i Hn Hs. rewrite lookup_setOwn in Hs.
      destruct (eqb_js s owner) eqn:E;
        [apply eqb_js_eq in E; congruence|].
      destruct (getShortcut_cases _ _ _ _ _ _ _ Hg)
        as [[ti [_ [_ [-> _]]]]|[s0 [new [ti [-> [Hs0 _]]]]]]; [congruence|].
      destruct (getShortcut_inserts _ _ _ _ _ _ _ Hs0 Hg)
        as [ti' [Hf [-> _]]].
      apply fetchShortcuts_sole in Hf. destruct Hf as [sc0 [= ->]].
      rewrite lookup_setOwn in Hs.
      destruct (eqb_js s s0) eqn:E0; [|congruence].
      apply eqb_js_eq in E0. subst s0. injection Hs as <-. eauto.
Qed.

Lemma includeLoop_added (owner : jsstring) (kd : kind) (keys : list jsstring) :
  forall e m oi ps e' m',
    lookup owner m = Some oi ->
    shortcuts oi = VObj kd ps ->
    includeLoop keys e owner m = Ok (e', m') ->
    (exists sc, lookup owner m' = Some (setShortcuts oi sc))
    /\ forall s i, lookup s m = None -> lookup s m' = Some i ->
         exists sc, i = setShortcuts (onDemand e s) sc.
Proof.
  induction keys as [|k keys IH]; intros e m oi ps e' m' Ho Hsc H.
  - injection H as _ <-. split; [exists (shortcuts oi); now destruct oi|].
    intros s i H1 H2. congruence.
  - cbn [includeLoop] in H.
    destruct (includeStep e owner m k) as [[e1 m1]|] eqn:E1; [|discriminate].
    cbn [bind] in H.
    destruct (includeStep_added _ _ _ _ _ _ _ Ho E1) as [[sc1 Ho1] Hnew1].
    destruct (includeStep_frame _ _ _ _ _ _ _ _ _ Ho Hsc E1)
      as [_ [oi1 [ps1 [Ho1' [Hsc1 _]]]]].
    rewrite Ho1 in Ho1'. injection Ho1' as <-.
    destruct (IH _ _ _ _ _ _ Ho1 Hsc1 H) as [[sc2 Ho2] Hnew2].
    destruct (includeLoop_frame _ _ _ _ _ _ _ _ _ Ho1 Hsc1 H) as [Hframe _].
    split; [exists sc2; exact Ho2|].
    intros s i Hn Hs. destruct (lookup s m1) as [i1|] eqn:Hs1.
    + destruct (Hnew1 s i1 Hn Hs1) as [sc ->].
      assert (Hne : s <> owner) by (intros ->; congruence).
      rewrite (Hframe s _ Hne Hs1) in Hs. injection Hs as <-. eauto.
    + destruct (Hnew2 s i Hs1 Hs) as [sc ->]. exists sc.
      now rewrite (onDemand_env e e1).
Qed.

(** X9: include resolution for one namespace touches nothing but the
    entries of that namespace that carry an include directive.  Every other
    namespace already in the map keeps its descriptor; the namespace itself
    keeps its descriptor but for the shortcuts, which hold the same keys in
    the same order; and an entry without an include directive that names a
    target key is left as it was. *)
Theorem addIncludes_touches_only_includes (e e' : env) (owner : jsstring)
    (m m' : infos) (oi : namespaceInfo) (kd : kind) (ps : props) :
  lookup owner m = Some oi ->
  shortcuts oi = VObj kd ps ->
  addIncludes e owner m = Ok (e', m') ->
  (forall s i, s <> owner -> lookup s m = Some i -> lookup s m' = Some i)
  /\ exists ps',
       lookup owner m' = Some (setShortcuts oi (VObj kd ps'))
       /\ map fst ps' = map fst ps
       /\ forall t x, lookup t ps = Some x -> carriesInclude x = false ->
                      lookup t ps' = Some x.
Proof.
  intros Ho Hsc H. unfold addIncludes in H. rewrite Ho in H.
  destruct (includeLoop_frame _ _ _ _ _ _ _ _ _ Ho Hsc H)
    as [Hframe [oi' [ps' [Ho' [Hsc' [Hk Hkeep]]]]]].
  destruct (includeLoop_added _ _ _ _ _ _ _ _ _ Ho Hsc H) as [[sc Hown] _].
  split; [exact Hframe|]. exists ps'.
  rewrite Ho' in Hown. injection Hown as ->. cbn [shortcuts setShortcuts] in Hsc'.
  subst sc. now repeat split.
Qed.

(** X10: a namespace that include resolution adds to the map is one it
    fetched on demand, and it enters as the sole element of a list of its
    own: with priority 1, whatever the priorities of the namespaces of the
    caller's list, and hence subscribed. *)
Theorem addIncludes_added_namespaces (e e' : env) (owner : jsstring)
    (m m' : infos) (oi : namespaceInfo) (kd : kind) (ps : props)
    (s : jsstring) (i : namespaceInfo) :
  lookup owner m = Some oi ->
  shortcuts oi = VObj kd ps ->
  addIncludes e owner m = Ok (e', m') ->
  lookup s m = None ->
  lookup s m' = Some i ->
  sameButShortcuts (descriptorAt e 0 (NsString s)) i
  /\ priority i = Some 1
  /\ isSubscribed i = true.
Proof.
  intros Ho Hsc H Hn Hs. unfold addIncludes in H. rewrite Ho in H.
  destruct (includeLoop_added _ _ _ _ _ _ _ _ _ Ho Hsc H) as [_ Hnew].
  destruct (Hnew s i Hn Hs) as [sc ->]. repeat split.
Qed.


(** ** An entry without a value *)

Lemma includeLoop_stops (owner : jsstring) (kd : kind) (key : jsstring)
    (x : value) (keys : list jsstring) :
  classify x = Throw ->
  In key keys ->
  forall e m oi ps,
    lookup owner m = Some oi ->
    shortcuts oi = VObj kd ps ->
    lookup key ps = Some x ->
    includeLoop keys e owner m = Throw.
Proof.
  intros Hx. induction keys as [|k keys IH]; intros Hin e m oi ps Ho Hsc Hk;
    [contradiction|].
  cbn [includeLoop].
  destruct (includeStep e owner m k) as [[e1 m1]|] eqn:E1; [|reflexivity].
  cbn [bind].
  assert (Hcarry : carriesInclude x = false)
    by (unfold carriesInclude; now rewrite Hx).
  destruct (includeStep_frame _ _ _ _ _ _ _ _ _ Ho Hsc E1)
    as [_ [oi1 [ps1 [Ho1 [Hsc1 [_ [Hother Hkeep]]]]]]].
  destruct (eqb_js key k) eqn:E.
  - apply eqb_js_eq in E. subst k. exfalso.
    unfold includeStep in E1. rewrite Ho, Hsc in E1. cbn [getProp] in E1.
    rewrite Hk in E1. cbn [bind] in E1. rewrite Hx in E1. discriminate.
  - apply eqb_js_neq in E. destruct Hin as [->|Hin]; [congruence|].
    apply (IH Hin e1 m1 oi1 ps1 Ho1 Hsc1). now rewrite Hother.
Qed.

(** X11: a key of a collection whose value is [null] (a key without a
    value in the text) makes include resolution for that namespace throw,
    wherever the key stands and whatever the other entries are: the loop
    reads [shortcut.include] of every entry. *)
Theorem addIncludes_null_entry (e : env) (owner : jsstring) (m : infos)
    (oi : namespaceInfo) (kd : kind) (ps : props) (key : jsstring) :
  lookup owner m = Some oi ->
  shortcuts oi = VObj kd ps ->
  lookup key ps = Some VNull ->
  addIncludes e owner m = Throw.
Proof.
  intros Ho Hsc Hk. unfold addIncludes. rewrite Ho.
  apply (includeLoop_stops owner kd key VNull) with (oi := oi) (ps := ps);
    try assumption; [reflexivity|].
  rewrite Hsc. unfold forInKeys. cbn [ownEnumerable].
  apply lookup_Some_iff. now exists VNull.
Qed.


Lemma addInfoToShortcut_primitive (x : value) (key : jsstring)
    (i : namespaceInfo) :
  (forall kd fields, x <> VObj kd fields) ->
  addInfoToShortcut x key i = Throw.
Proof.
  clear fetch jsyaml_load.
  intros Hx. destruct x as [| | | | |kd fields]; try reflexivity.
  now destruct (Hx kd fields).
Qed.

Lemma reachLoop_stops (i : namespaceInfo) (kd : kind) (key : jsstring)
    (x : value) (keys : list jsstring) :
  (forall kd1 fields, x <> VObj kd1 fields) ->
  In key keys ->
  forall ps found,
    lookup key ps = Some x ->
    reachLoop keys i (VObj kd ps) found = Throw.
Proof.
  clear fetch jsyaml_load.
  intros Hx. induction keys as [|k keys IH]; intros Hin ps found Hk;
    [contradiction|].
  cbn [reachLoop getProp].
  destruct (eqb_js key k) eqn:E.
  - apply eqb_js_eq in E. subst k. rewrite Hk. cbn [bind].
    now rewrite addInfoToShortcut_primitive.
  - apply eqb_js_neq in E. destruct Hin as [->|Hin]; [congruence|].
    destruct (match lookup k ps with
              | Some x0 => Ok x0
              | None => match kd with
                        | Plain => Ok VUndef
                        | Array => if eqb_js k lengthKey
                                   then Ok (VNum (arrayLength ps))
                                   else Ok VUndef
                        end
              end) as [shortcut|]; [|reflexivity].
    cbn [bind].
    destruct (addInfoToShortcut shortcut k i) as [s1|]; [|reflexivity].
    cbn [bind]. destruct (setProp s1 reachableKey _) as [s2|]; [|reflexivity].
    cbn [bind setProp]. apply IH; [assumption|].
    now rewrite lookup_setOwn_other.
Qed.

Lemma reachNamespaces_stops (nm : jsstring) (i : namespaceInfo) (kd : kind)
    (ps : props) (key : jsstring) (x : value) (l : infos) :
  isSubscribed i = true ->
  shortcuts i = VObj kd ps ->
  lookup key ps = Some x ->
  (forall kd1 fields, x <> VObj kd1 fields) ->
  In (nm, i) l ->
  forall mcur found, reachNamespaces l mcur found = Throw.
Proof.
  clear fetch jsyaml_load.
  intros Hsub Hsc Hk Hx. induction l as [|[nm0 i0] l IH]; intros Hin mcur found;
    [contradiction|].
  cbn [reachNamespaces]. destruct Hin as [[= -> ->]|Hin].
  - rewrite Hsub. cbn [negb]. rewrite Hsc.
    rewrite (reachLoop_stops i kd key x); try assumption; [reflexivity|].
    unfold forInKeys. cbn [ownEnumerable]. apply lookup_Some_iff.
    now exists x.
  - destruct (negb (isSubscribed i0)); [now apply IH|].
    destruct (reachLoop _ i0 (shortcuts i0) found) as [[sc' found']|];
      [|reflexivity].
    cbn [bind]. now apply IH.
Qed.

(** X12: an entry of a subscribed namespace that is no object, such as the
    [null] of a key without a value, makes [addReachable] throw, in
    whatever namespace and at whatever key it stands: [addInfoToShortcut]
    assigns to a property of every entry. *)
Theorem addReachable_primitive_entry (m : infos) (nm : jsstring)
    (i : namespaceInfo) (kd : kind) (ps : props) (key : jsstring)
    (x : value) :
  In (nm, i) m ->
  isSubscribed i = true ->
  shortcuts i = VObj kd ps ->
  lookup key ps = Some x ->
  (forall kd1 fields, x <> VObj kd1 fields) ->
  addReachable m = Throw.
Proof.
  intros Hin Hsub Hsc Hk Hx. unfold addReachable.
  apply (reachNamespaces_stops nm i kd ps key x); try assumption.
  now apply In_sortByPriority.
Qed.


(** ** What the annotator writes into an entry *)

Lemma getProp_field (kd : kind) (fields : props) (f : string) :
  eqb_js (js f) lengthKey = false ->
  getProp (VObj kd fields) (js f) = Ok (fieldValue fields f).
Proof.
  clear fetch jsyaml_load getArgumentsFromString.
  intros Hf. unfold fieldValue. cbn [getProp].
  destruct (lookup (js f) fields); [reflexivity|]. rewrite Hf.
  now destruct kd.
Qed.

Lemma addInfoToShortcut_fields (kd : kind) (own : props) (key : jsstring)
    (i : namespaceInfo) (s : value) :
  addInfoToShortcut (VObj kd own) key i = Ok s ->
  exists args fields,
    getArgumentsFromString (fieldValue own "url") = Ok args
    /\ s = VObj kd fields
    /\ lookup (js "key") fields = Some (VStr key)
    /\ lookup (js "keyword") fields
       = Some (optStr (nth_error (split 32 key) 0))
    /\ lookup (js "argumentCount") fields
       = Some (optStr (nth_error (split 32 key) 1))
    /\ lookup (js "namespace") fields = Some (optStr (name i))
    /\ lookup (js "arguments") fields = Some args
    /\ lookup (js "title") fields
       = Some (if truthy (fieldValue own "title") then fieldValue own "title"
               else VStr [])
    /\ forall f, mem f infoFields = false -> lookup f fields = lookup f own.
Proof.
  clear fetch jsyaml_load.
  unfold addInfoToShortcut. cbn [setProp bind].
  rewrite (getProp_field kd _ "url") by reflexivity. cbn [bind].
  assert (Hurl : fieldValue
                   (setOwn (js "namespace") (optStr (name i))
                      (setOwn (js "argumentCount")
                         (optStr (nth_error (split 32 key) 1))
                         (setOwn (js "keyword")
                            (optStr (nth_error (split 32 key) 0))
                            (setOwn (js "key") (VStr key) own)))) "url"
                 = fieldValue own "url").
  { unfold fieldValue. now rewrite !lookup_setOwn. }
  rewrite Hurl.
  destruct (getArgumentsFromString (fieldValue own "url")) as [args|];
    [|discriminate].
  cbn [bind]. rewrite (getProp_field kd _ "title") by reflexivity.
  cbn [bind].
  set (t0 := fieldValue _ "title").
  assert (Ht : t0 = fieldValue own "title").
  { unfold t0, fieldValue. now rewrite !lookup_setOwn. }
  intros [= <-]. exists args. eexists. split; [reflexivity|].
  split; [reflexivity|]. rewrite Ht.
  repeat split; try (now rewrite !lookup_setOwn).
  intros f Hf. unfold infoFields, mem in Hf. cbn [existsb] in Hf.
  repeat (apply orb_false_elim in Hf; destruct Hf as [? Hf]).
  rewrite !lookup_setOwn.
  repeat match goal with H : eqb_js f _ = false |- _ => rewrite H; clear H end.
  reflexivity.
Qed.


Lemma reachLoop_untouched (i : namespaceInfo) (kd : kind)
    (keys : list jsstring) :
  forall ps found sc' found',
    reachLoop keys i (VObj kd ps) found = Ok (sc', found') ->
    forall k, ~ In k keys -> entryIn sc' k = lookup k ps.
Proof.
  clear fetch jsyaml_load.
  induction keys as [|k0 keys IH]; intros ps found sc' found' H k Hk.
  - now injection H as <- _.
  - cbn [reachLoop] in H.
    destruct (getProp (VObj kd ps) k0) as [shortcut|]; [|discriminate].
    cbn [bind] in H.
    destruct (addInfoToShortcut shortcut k0 i) as [s1|]; [|discriminate].
    cbn [bind] in H.
    destruct (setProp s1 reachableKey _) as [s2|]; [|discriminate].
    cbn [bind setProp] in H.
    rewrite (IH _ _ _ _ H k) by (intros Hin; apply Hk; now right).
    apply lookup_setOwn_other. intros ->. apply Hk. now left.
Qed.

Lemma reachLoop_info (i : namespaceInfo) (kd : kind) (keys : list jsstring) :
  forall ps found sc' found',
    NoDup keys ->
    reachLoop keys i (VObj kd ps) found = Ok (sc', found') ->
    forall key old,
      In key keys -> lookup key ps = Some old ->
      exists s1 s2,
        addInfoToShortcut old key i = Ok s1
        /\ setProp s1 reachableKey (VBool (negb (mem key found))) = Ok s2
        /\ entryIn sc' key = Some s2.
Proof.
  clear fetch jsyaml_load.
  induction keys as [|k keys IH]; intros ps found sc' found' Hnd H key old
    Hin Hold; [contradiction|].
  inversion Hnd as [|? ? Hk Hnd']; subst.
  cbn [reachLoop] in H.
  destruct (getProp (VObj kd ps) k) as [shortcut|] eqn:Hg; [|discriminate].
  cbn [bind] in H.
  destruct (addInfoToShortcut shortcut k i) as [s1|] eqn:H1; [|discriminate].
  cbn [bind] in H.
  destruct (setProp s1 reachableKey _) as [s2|] eqn:H2; [|discriminate].
  cbn [bind setProp] in H.
  destruct (eqb_js key k) eqn:E.
  - apply eqb_js_eq in E. subst k. cbn [getProp] in Hg. rewrite Hold in Hg.
    injection Hg as <-. exists s1, s2. repeat split; try assumption.
    rewrite (reachLoop_untouched _ _ _ _ _ _ _ H key Hk).
    apply lookup_setOwn_same.
  - pose proof E as Hne. apply eqb_js_neq in Hne.
    destruct Hin as [->|Hin]; [congruence|].
    destruct (IH _ _ _ _ Hnd' H key old Hin) as [t1 [t2 [Ht1 [Ht2 Ht]]]].
    + now rewrite lookup_setOwn_other.
    + exists t1, t2. repeat split; try assumption.
      unfold mem in *. cbn [existsb] in Ht2. now rewrite E in Ht2.
Qed.

Lemma reachNamespaces_info (l : infos) :
  forall mcur found m',
    NoDup (map fst l) ->
    (forall nm i, In (nm, i) l -> NoDup (forInKeys (shortcuts i))) ->
    reachNamespaces l mcur found = Ok m' ->
    forall nm i key old,
      In (nm, i) l -> isSubscribed i = true ->
      entryIn (shortcuts i) key = Some old ->
      exists s1 s2 b,
        addInfoToShortcut old key i = Ok s1
        /\ setProp s1 reachableKey (VBool b) = Ok s2
        /\ entryOf m' nm key = Some s2.
Proof.
  clear fetch jsyaml_load.
  induction l as [|[nm0 i0] l IH]; intros mcur found m' Hnd Hkeys H nm i key
    old Hin Hsub Hold; [contradiction|].
  cbn [map fst] in Hnd. inversion Hnd as [|? ? Hfresh Hnd']; subst.
  cbn [reachNamespaces] in H.
  assert (Hkeys' : forall nm1 i1, In (nm1, i1) l ->
                     NoDup (forInKeys (shortcuts i1)))
    by (intros nm1 i1 H1; apply (Hkeys nm1); now right).
  destruct Hin as [[= -> ->]|Hin].
  - rewrite Hsub in H. cbn [negb] in H.
    destruct (reachLoop _ i (shortcuts i) found) as [[sc' found']|] eqn:Hr;
      [|discriminate].
    cbn [bind] in H.
    pose proof (reachNamespaces_frame _ _ _ _ H nm Hfresh) as Hl.
    rewrite lookup_setOwn_same in Hl.
    destruct (shortcuts i) as [| | | | |kd ps] eqn:Hsc; try discriminate.
    cbn [entryIn] in Hold.
    assert (Hin : In key (forInKeys (VObj kd ps))).
    { unfold forInKeys. cbn [ownEnumerable]. apply lookup_Some_iff.
      now exists old. }
    pose proof (Hkeys nm i (or_introl eq_refl)) as Hndk. rewrite Hsc in Hndk.
    destruct (reachLoop_info _ _ _ _ _ _ _ Hndk Hr key old Hin Hold)
      as [s1 [s2 [H1 [H2 H3]]]].
    exists s1, s2, (negb (mem key found)). repeat split; try assumption.
    unfold entryOf. now rewrite Hl.
  - destruct (negb (isSubscribed i0)).
    + now apply (IH _ _ _ Hnd' Hkeys' H).
    + destruct (reachLoop _ i0 (shortcuts i0) found) as [[sc' found']|];
        [|discriminate].
      cbn [bind] in H. now apply (IH _ _ _ Hnd' Hkeys' H).
Qed.



Lemma splitAux_prefix (sep : N) (kw : jsstring) :
  ~ In sep kw ->
  forall cur rest,
    splitAux sep cur (kw ++ rest) = splitAux sep (rev kw ++ cur) rest.
Proof.
  clear fetch jsyaml_load getArgumentsFromString.
  induction kw as [|c kw IH]; intros Hn cur rest; [reflexivity|].
  cbn [app splitAux rev]. destruct (N.eqb_spec c sep) as [->|Hc].
  - exfalso. apply Hn. now left.
  - rewrite IH by (intros H; apply Hn; now right).
    now rewrite <- app_assoc.
Qed.

Lemma split_word (sep : N) (kw : jsstring) :
  ~ In sep kw -> split sep kw = [kw].
Proof.
  clear fetch jsyaml_load getArgumentsFromString.
  intros Hn. unfold split.
  rewrite <- (app_nil_r kw) at 1. rewrite splitAux_prefix by assumption.
  cbn [splitAux]. now rewrite app_nil_r, rev_involutive.
Qed.

Lemma split_first (sep : N) (kw rest : jsstring) :
  ~ In sep kw -> split sep (kw ++ sep :: rest) = kw :: split sep rest.
Proof.
  clear fetch jsyaml_load getArgumentsFromString.
  intros Hn. unfold split. rewrite splitAux_prefix by assumption.
  cbn [splitAux]. rewrite N.eqb_refl.
  now rewrite app_nil_r, rev_involutive.
Qed.

(** X14: how [addInfoToShortcut] reads a key.  For a key made of a word, a
    space and a second word, the [keyword] is the first word and the
    [argumentCount] the second, and anything after a further space is
    dropped; for a key without a space the [keyword] is the whole key and
    the [argumentCount] is [undefined]. *)
Theorem addInfoToShortcut_reads_key (kd : kind) (own : props)
    (key kw n : jsstring) (i : namespaceInfo) (s : value) :
  ~ In 32%N kw ->
  ~ In 32%N n ->
  addInfoToShortcut (VObj kd own) key i = Ok s ->
  exists fields,
    s = VObj kd fields
    /\ (key = kw ++ js " " ++ n ->
        lookup (js "keyword") fields = Some (VStr kw)
        /\ lookup (js "argumentCount") fields = Some (VStr n))
    /\ (forall rest, key = kw ++ js " " ++ n ++ js " " ++ rest ->
        lookup (js "keyword") fields = Some (VStr kw)
        /\ lookup (js "argumentCount") fields = Some (VStr n))
    /\ (key = kw ->
        lookup (js "keyword") fields = Some (VStr kw)
        /\ lookup (js "argumentCount") fields = Some VUndef).
Proof.
  clear fetch jsyaml_load.
  intros Hkw Hn H.
  destruct (addInfoToShortcut_fields _ _ _ _ _ H)
    as [args [fields [_ [-> [_ [F2 [F3 _]]]]]]].
  exists fields. split; [reflexivity|]. rewrite F2, F3.
  split; [|split].
  - intros ->. change (js " " ++ n) with (32%N :: n).
    now rewrite split_first, split_word.
  - intros rest ->. change (js " " ++ n ++ js " " ++ rest)
      with (32%N :: (n ++ 32%N :: rest)).
    now rewrite !split_first.
  - intros ->. now rewrite split_word.
Qed.


(** ** Every key is reachable somewhere, and the map keeps its shape *)

Lemma annotated_exists (l : infos) :
  forall found m' nm i key,
    annotated l found m' -> In (nm, i) l -> isSubscribed i = true ->
    In key (forInKeys (shortcuts i)) -> mem key found = false ->
    exists nm1 i1,
      In (nm1, i1) l /\ isSubscribed i1 = true
      /\ markedReachable (entryOf m' nm1 key).
Proof.
  clear fetch jsyaml_load getArgumentsFromString.
  induction l as [|[nm0 i0] l IH]; intros found m' nm i key Ha Hin Hsub Hkey
    Hfound; [contradiction|].
  cbn [annotated] in Ha. destruct (isSubscribed i0) eqn:Hsub0.
  - destruct Ha as [[i' [Hl [_ [_ Hent]]]] Hrest].
    destruct (mem key (forInKeys (shortcuts i0))) eqn:Hmem.
    + apply mem_In in Hmem. destruct (Hent key Hmem) as [kd [fields [He Hf]]].
      exists nm0, i0. split; [now left|]. split; [assumption|].
      exists kd, fields. unfold entryOf. rewrite Hl. split; [assumption|].
      now rewrite Hf, Hfound.
    + destruct Hin as [[= -> ->]|Hin].
      * apply mem_In in Hkey. congruence.
      * destruct (IH _ _ nm i key Hrest Hin Hsub Hkey)
          as [nm1 [i1 [H1 [H2 H3]]]].
        -- now rewrite mem_app, mem_rev, Hmem, Hfound.
        -- exists nm1, i1. split; [now right|]. now split.
  - destruct Ha as [_ Hrest]. destruct Hin as [[= -> ->]|Hin]; [congruence|].
    destruct (IH _ _ nm i key Hrest Hin Hsub Hkey Hfound)
      as [nm1 [i1 [H1 [H2 H3]]]].
    exists nm1, i1. split; [now right|]. now split.
Qed.

(** X15: after [addReachable] every key that a subscribed namespace
    defines and that is not the name of a property of [Object.prototype] is
    reachable in some subscribed namespace: no such key is left with all its
    entries marked unreachable.  A key that is such a name ([constructor],
    [toString], ...) is [in] the empty [foundShortcuts] from the start and
    is marked reachable nowhere.  As everywhere, the collections are trees:
    no entry object is shared by two keys. *)
Theorem addReachable_every_key_reachable (m m' : infos) (nm : jsstring)
    (i : namespaceInfo) (key : jsstring) :
  NoDup (map fst m) ->
  (forall nm0 i0, In (nm0, i0) m -> NoDup (forInKeys (shortcuts i0))) ->
  addReachable m = Ok m' ->
  lookup nm m = Some i ->
  isSubscribed i = true ->
  In key (forInKeys (shortcuts i)) ->
  if inherited key
  then ~ markedReachable (entryOf m' nm key)
  else exists nm1 i1,
         lookup nm1 m = Some i1 /\ isSubscribed i1 = true
         /\ In key (forInKeys (shortcuts i1))
         /\ markedReachable (entryOf m' nm1 key).
Proof.
  clear fetch jsyaml_load.
  intros Hnd Hkeys H Hl Hsub Hkey.
  pose proof (addReachable_annotated m m' Hnd Hkeys H) as Ha.
  destruct (inherited key) eqn:Hinh.
  - intros Hmark.
    destruct (annotated_found _ _ _ _ _ _ Ha (lookup_sorted _ _ _ Hl) Hsub Hmark)
      as [_ Hfound].
    unfold mem in Hfound. unfold inherited in Hinh. congruence.
  - destruct (annotated_exists _ _ _ nm i key Ha (lookup_sorted _ _ _ Hl) Hsub
                Hkey Hinh) as [nm1 [i1 [H1 [H2 H3]]]].
    exists nm1, i1. split.
    + apply In_lookup; [assumption|]. now apply In_sortByPriority.
    + split; [assumption|]. split; [|assumption].
      now destruct (annotated_found _ _ _ _ _ _ Ha H1 H2 H3).
Qed.

Lemma reachNamespaces_shape (l : infos) :
  forall mcur found m',
    NoDup (map fst l) ->
    (forall nm i, In (nm, i) l -> lookup nm mcur = Some i) ->
    (forall nm i, In (nm, i) l -> NoDup (forInKeys (shortcuts i))) ->
    reachNamespaces l mcur found = Ok m' ->
    map fst m' = map fst mcur
    /\ forall nm i, In (nm, i) l ->
         exists sc', lookup nm m' = Some (setShortcuts i sc')
                     /\ forInKeys sc' = forInKeys (shortcuts i).
Proof.
  clear fetch jsyaml_load.
  induction l as [|[nm i] l IH]; intros mcur found m' Hnd Hcur Hkeys H.
  - injection H as <-. split; [reflexivity|]. intros nm i [].
  - cbn [map fst] in Hnd. inversion Hnd as [|? ? Hnm Hnd']; subst.
    cbn [reachNamespaces] in H.
    assert (Hkeys' : forall nm' i', In (nm', i') l ->
                       NoDup (forInKeys (shortcuts i')))
      by (intros nm' i' Hin; apply (Hkeys nm'); now right).
    destruct (isSubscribed i) eqn:Hsub; cbn [negb] in H.
    + destruct (reachLoop _ i (shortcuts i) found) as [[sc' found']|] eqn:Hloop;
        [|discriminate].
      cbn [bind] in H.
      destruct (reachLoop_entries i (shortcuts i) sc' found found')
        as [_ [Hks _]]; [apply (Hkeys nm); now left|assumption|].
      assert (Hcur' : forall nm' i', In (nm', i') l ->
                lookup nm' (setOwn nm (setShortcuts i sc') mcur) = Some i').
      { intros nm' i' Hin. rewrite lookup_setOwn_other; [apply Hcur; now right|].
        intros ->. apply Hnm. now apply (in_map fst) in Hin. }
      destruct (IH _ _ _ Hnd' Hcur' Hkeys' H) as [Hmap Hall].
      split.
      * rewrite Hmap. apply keys_setOwn_present. unfold hasKey.
        now rewrite (Hcur nm i (or_introl eq_refl)).
      * intros nm' i' [[= -> ->]|Hin]; [|now apply Hall].
        exists sc'. split; [|assumption].
        rewrite (reachNamespaces_frame l _ _ _ H nm' Hnm).
        apply lookup_setOwn_same.
    + assert (Hcur' : forall nm' i', In (nm', i') l ->
                lookup nm' mcur = Some i')
        by (intros nm' i' Hin; apply Hcur; now right).
      destruct (IH _ _ _ Hnd' Hcur' Hkeys' H) as [Hmap Hall].
      split; [assumption|].
      intros nm' i' [[= -> ->]|Hin]; [|now apply Hall].
      exists (shortcuts i'). split; [|reflexivity].
      rewrite (reachNamespaces_frame l _ _ _ H nm' Hnm), setShortcuts_same.
      apply Hcur. now left.
Qed.

(** X16: [addReachable] keeps the shape of the map.  It returns the same
    namespaces in the same order; each descriptor keeps its name, type,
    url, account and priority, and its shortcuts hold the same keys in the
    same order: the annotation only rewrites entries. *)
Theorem addReachable_keeps_shape (m m' : infos) :
  NoDup (map fst m) ->
  (forall nm i, In (nm, i) m -> NoDup (forInKeys (shortcuts i))) ->
  addReachable m = Ok m' ->
  map fst m' = map fst m
  /\ forall nm i, lookup nm m = Some i ->
       exists i', lookup nm m' = Some i'
                  /\ sameButShortcuts i i'
                  /\ forInKeys (shortcuts i') = forInKeys (shortcuts i).
Proof.
  clear fetch jsyaml_load.
  intros Hnd Hkeys H. unfold addReachable in H.
  destruct (reachNamespaces_shape (sortByPriority m) m inheritedNames m')
    as [Hmap Hall];
    try assumption.
  - eapply Permutation_NoDup; [|exact Hnd]. apply Permutation_map.
    apply Permutation_sym, sortByPriority_perm.
  - intros nm i Hin. apply In_lookup; [assumption|].
    now apply In_sortByPriority.
  - intros nm i Hin. apply (Hkeys nm). now apply In_sortByPriority.
  - split; [assumption|]. intros nm i Hl.
    destruct (Hall nm i (lookup_sorted _ _ _ Hl)) as [sc' [Hl' Hks]].
    exists (setShortcuts i sc'). repeat split; assumption.
Qed.


(** ** The verifier: which keys pass, and a second pass *)

Lemma matchKey_shape (s : jsstring) : matchKey s = true <-> keyShape s.
Proof.
  clear fetch jsyaml_load getArgumentsFromString.
  unfold keyShape. split.
  - induction s as [|c s IH]; [discriminate|].
    cbn [matchKey]. destruct s as [|sp [|d t]]; try discriminate.
    intros H. apply orb_true_iff in H. destruct H as [H|H].
    + apply andb_true_iff in H. destruct H as [H Hd].
      apply andb_true_iff in H. destruct H as [Hc Hsp].
      apply N.eqb_eq in Hsp. subst sp. apply negb_true_iff in Hc.
      now exists [], c, d, t.
    + destruct (IH H) as [a [c' [d' [b [Heq [Hc Hd]]]]]].
      exists (c :: a), c', d', b. cbn [app]. now rewrite Heq.
  - intros [a [c [d [b [-> [Hc Hd]]]]]]. induction a as [|x a IH].
    + cbn [app matchKey]. now rewrite Hc, Hd.
    + cbn [app matchKey].
      destruct (a ++ c :: 32%N :: d :: b) as [|sp [|d' t]];
        try discriminate.
      rewrite IH. apply orb_true_r.
Qed.

Lemma incorrect_nil (ks : list jsstring) :
  incorrect ks = [] <-> forall k, In k ks -> keyShape k.
Proof.
  clear fetch jsyaml_load getArgumentsFromString.
  unfold incorrect. induction ks as [|k ks IH].
  - split; [intros _ k []|reflexivity].
  - cbn [filter]. destruct (matchKey k) eqn:E; cbn [negb].
    + rewrite IH. split.
      * intros H k' [<-|Hin]; [now apply matchKey_shape|now apply H].
      * intros H k' Hin. apply H. now right.
    + split; [discriminate|]. intros H.
      assert (matchKey k = true) by (apply matchKey_shape, H; now left).
      congruence.
Qed.

(** X17: which collections pass [verifyShortcuts] in silence.  On a mapping
    the environment comes back untouched, nothing logged and no error
    flag raised, exactly when in every key some unit that is no white space
    is directly followed by a space and a digit.  The expression is not
    anchored: a key need not consist of a keyword and a count only. *)
Theorem verifyShortcuts_silent_iff (e e' : env) (kd : kind) (ps : props)
    (namespaceName : option jsstring) (sc' : value) :
  verifyShortcuts e (VObj kd ps) namespaceName = Ok (e', sc') ->
  e' = e <-> forall k, In k (map fst ps) -> keyShape k.
Proof.
  clear fetch jsyaml_load getArgumentsFromString.
  unfold verifyShortcuts, forInKeys. cbn [ownEnumerable].
  destruct (verifyLoop_mapping kd ps) as [ps' [-> _]]. cbn [bind].
  rewrite <- incorrect_nil.
  destruct (incorrect (map fst ps)) as [|k bad] eqn:E; intros [= <- _].
  - split; reflexivity.
  - split; [|discriminate]. intros H. apply (f_equal this_log) in H.
    cbn in H. apply (f_equal (@List.length jsstring)) in H.
    rewrite length_app in H. cbn in H. lia.
Qed.

Lemma verifyLoop_stable (kd : kind) (ks : list jsstring) :
  forall inc ps,
    (forall k v, In k ks -> lookup k ps = Some v -> isString v = false) ->
    verifyLoop ks inc (VObj kd ps) = Ok (inc ++ incorrect ks, VObj kd ps).
Proof.
  clear fetch jsyaml_load getArgumentsFromString.
  induction ks as [|k ks IH]; intros inc ps H.
  - cbn. now rewrite app_nil_r.
  - cbn [verifyLoop].
    assert (Hv : exists v, getProp (VObj kd ps) k = Ok v /\ isString v = false).
    { cbn [getProp]. destruct (lookup k ps) as [v|] eqn:Hl.
      - exists v. split; [reflexivity|]. apply (H k v); [now left|assumption].
      - destruct kd; [now exists VUndef|].
        destruct (eqb_js k lengthKey); eauto. }
    destruct Hv as [v [-> Hs]]. cbn [bind]. rewrite Hs.
    rewrite IH by (intros k' v' Hin; apply H; now right).
    unfold incorrect. cbn [filter].
    destruct (matchKey k); cbn [negb]; [reflexivity|].
    now rewrite <- app_assoc.
Qed.

(** X18: [verifyShortcuts] is stable on its own result.  A second pass
    over the shortcuts a first pass returned returns them unchanged; and a
    second pass after a silent first one is silent too. *)
Theorem verifyShortcuts_second_pass (e e1 : env) (sc sc1 : value)
    (namespaceName : option jsstring) :
  verifyShortcuts e sc namespaceName = Ok (e1, sc1) ->
  exists e2,
    verifyShortcuts e1 sc1 namespaceName = Ok (e2, sc1)
    /\ (e1 = e -> e2 = e1).
Proof.
  clear fetch jsyaml_load getArgumentsFromString.
  intros H. destruct sc as [| | | |s|kd ps];
    try (cbn in H; injection H as <- <-; eexists; split;
         [reflexivity|reflexivity]).
  - destruct s as [|c s]; [|discriminate].
    cbn in H. injection H as <- <-. eexists. split; reflexivity.
  - unfold verifyShortcuts, forInKeys in *. cbn [ownEnumerable] in *.
    destruct (verifyLoop_mapping kd ps) as [ps' [Hrun [Hkeys Hl]]].
    rewrite Hrun in H. cbn [bind] in H.
    assert (Hsc : sc1 = VObj kd ps')
      by (destruct (incorrect (map fst ps)); now injection H as _ <-).
    subst sc1. cbn [ownEnumerable].
    rewrite verifyLoop_stable.
    + cbn [app bind]. rewrite Hkeys.
      destruct (incorrect (map fst ps)) as [|k bad] eqn:E.
      * injection H as <-. eexists. split; reflexivity.
      * eexists. split; [reflexivity|]. injection H as <-. intros H.
        apply (f_equal this_log) in H. cbn in H.
        apply (f_equal (@List.length jsstring)) in H.
        rewrite length_app in H. cbn in H. lia.
    + intros k v _ Hv. rewrite Hl in Hv.
      destruct (lookup k ps) as [x|]; [|discriminate].
      injection Hv as <-. unfold normalize. now destruct x.
Qed.


(** ** Settings: the parameters of the environment *)

Lemma In_setIf (c : bool) (f : string) (v : value) (params : props)
    (kv : jsstring * value) :
  In kv (setIf c f v params) -> (c = true /\ kv = (js f, v)) \/ In kv params.
Proof.
  unfold setIf. destruct c; [|now right].
  intros H. apply In_setOwn in H. destruct H; [left|right]; auto.
Qed.

(** X19: the parameters [getParams] builds.  They carry either the account
    or the language and the country, never both; a default keyword is
    dropped when an account is set; [debug] is the number 1; and apart from
    the language and the country a parameter is present only when it is
    set, with the value it has in the environment. *)
Theorem getParams_account_or_locale (this : props) :
  let params := getParams this in
  hasKey (js "github") params = truthy (fieldValue this "github")
  /\ hasKey (js "language") params = negb (truthy (fieldValue this "github"))
  /\ hasKey (js "country") params = negb (truthy (fieldValue this "github"))
  /\ hasKey (js "defaultKeyword") params
     = (truthy (fieldValue this "defaultKeyword")
        && negb (truthy (fieldValue this "github")))%bool
  /\ (forall v, lookup (js "debug") params = Some v -> v = VNum 1)
  /\ forall f v,
       lookup f params = Some v ->
       (f <> js "language" -> f <> js "country" -> truthy v = true)
       /\ (f <> js "debug" ->
           v = match lookup f this with Some x => x | None => VUndef end).
Proof.
  clear fetch jsyaml_load getArgumentsFromString.
  cbv zeta.
  assert (Hlast : forall f v,
            lookup f (getParams this) = Some v ->
            (f <> js "language" -> f <> js "country" -> truthy v = true)
            /\ (f <> js "debug" ->
                v = match lookup f this with Some x => x | None => VUndef end)).
  { intros f v H. apply lookup_In in H. unfold getParams in H.
    do 6 (apply In_setIf in H; destruct H as [[Hc [= -> ->]]|H];
          [split;
           [intros _ _;
            first [assumption | reflexivity
                  | apply andb_true_iff in Hc; now destruct Hc]
           |intros Hn; first [reflexivity | congruence]]|]).
    destruct (truthy (fieldValue this "github")) eqn:Tg.
    - apply In_setOwn in H. destruct H as [[= -> ->]|[]].
      split; [intros _ _; assumption|intros _; reflexivity].
    - repeat (apply In_setOwn in H; destruct H as [[= -> ->]|H]);
        try contradiction;
        (split; [intros Hn1 Hn2; congruence|intros _; reflexivity]). }
  assert (Hset : forall c k v ps f,
            lookup f (setIf c k v ps)
            = if (eqb_js f (js k) && c)%bool then Some v else lookup f ps).
  { intros c k v ps f. unfold setIf. destruct c.
    - rewrite lookup_setOwn. now destruct (eqb_js f (js k)).
    - now rewrite andb_false_r. }
  split; [|split; [|split; [|split; [|split; [|exact Hlast]]]]];
    unfold hasKey, getParams; rewrite !Hset;
    destruct (truthy (fieldValue this "github"));
    destruct (truthy (fieldValue this "debug"));
    destruct (truthy (fieldValue this "defaultKeyword"));
    try reflexivity;
    intros v H; vm_compute in H; congruence.
Qed.


(** ** Settings: the defaults *)

Lemma fieldValue_setOwn (this : props) (k : jsstring) (v : value) (f : string) :
  fieldValue (setOwn k v this) f
  = if eqb_js (js f) k then v else fieldValue this f.
Proof.
  unfold fieldValue. rewrite lookup_setOwn. now destruct (eqb_js (js f) k).
Qed.

Lemma fieldValue_setOwn_same (this : props) (f : string) (v : value) :
  fieldValue (setOwn (js f) v this) f = v.
Proof. unfold fieldValue. now rewrite lookup_setOwn_same. Qed.

Lemma fieldValue_setOwn_other (this : props) (k : jsstring) (f : string)
    (v : value) :
  eqb_js (js f) k = false ->
  fieldValue (setOwn k v this) f = fieldValue this f.
Proof. intros H. now rewrite fieldValue_setOwn, H. Qed.

Ltac fields :=
  repeat first [ rewrite fieldValue_setOwn_same
               | rewrite fieldValue_setOwn_other by reflexivity ].

Lemma setDefaults_fields (c : collaborators) (this this' : props) :
  setDefaults c this = Ok this' ->
  exists language country,
    (if negb (isString (fieldValue this "language"))
        || negb (isString (fieldValue this "country"))
     then getDefaultLanguageAndCountry c = Ok (language, country)
     else True)
    /\ fieldValue this' "language"
       = (if isString (fieldValue this "language")
          then fieldValue this "language" else language)
    /\ fieldValue this' "country"
       = (if isString (fieldValue this "country")
          then fieldValue this "country" else country)
    /\ fieldValue this' "namespaces"
       = (if typeofObject (fieldValue this "namespaces")
          then fieldValue this "namespaces"
          else VObj Array
                 [(js "0", VStr (js "o"));
                  (js "1", fieldValue this' "language");
                  (js "2", VStr (js "." ++ toString (fieldValue this' "country")))])
    /\ fieldValue this' "debug"
       = (if typeofBoolean (fieldValue this "debug")
          then fieldValue this "debug"
          else VBool (truthy (fieldValue this "debug")))
    /\ forall f, mem f settingsFields = false -> lookup f this' = lookup f this.
Proof.
  unfold setDefaults. intros H.
  set (cond := (negb (isString (fieldValue this "language"))
               || negb (isString (fieldValue this "country")))%bool) in *.
  assert (Hdef : exists language country,
             (if cond then getDefaultLanguageAndCountry c else Ok (VUndef, VUndef))
             = Ok (language, country)).
  { destruct (if cond then _ else _) as [[l k]|]; [eauto|discriminate]. }
  destruct Hdef as [language [country Hdef]]. rewrite Hdef in H. cbn [bind] in H.
  exists language, country. split.
  { destruct cond; [assumption|exact I]. }
  injection H as <-. clear Hdef cond.
  assert (Hother : forall (b : bool) k v (t : props) f,
            eqb_js f k = false ->
            lookup f (if b then setOwn k v t else t) = lookup f t).
  { intros b k v t f Hf. destruct b; [|reflexivity].
    now rewrite lookup_setOwn, Hf. }
  destruct (isString (fieldValue this "language")) eqn:Hl; cbn [negb]; fields;
  destruct (isString (fieldValue this "country")) eqn:Hc; cbn [negb]; fields;
  destruct (typeofObject (fieldValue this "namespaces")) eqn:Hn; cbn [negb];
    unfold defaultNamespaces; fields;
  destruct (typeofBoolean (fieldValue this "debug")) eqn:Hd; cbn [negb]; fields;
  (repeat split; try reflexivity);
  intros f Hf; unfold settingsFields, mem in Hf; cbn [existsb] in Hf;
  repeat (apply orb_false_elim in Hf; destruct Hf as [? Hf]);
  rewrite ?lookup_setOwn;
  repeat match goal with H : eqb_js f _ = false |- _ => rewrite H; clear H end;
  reflexivity.
Qed.

Lemma truthyStr_cons (s : jsstring) : s <> [] -> truthyStr (Some s) = true.
Proof. destruct s; [congruence|reflexivity]. Qed.

Lemma truthy_str (s : jsstring) : s <> [] -> truthy (VStr s) = true.
Proof. destruct s; [congruence|reflexivity]. Qed.

Lemma browser_unqualified (c : collaborators) :
  unqualified (navigator_language c) ->
  exists language,
    getLanguageAndCountryFromBrowser c = (language, VUndef)
    /\ lowerCase c (if truthy language then language else VStr (js "en"))
       = Ok (VStr (browserLanguage c)).
Proof.
  unfold getLanguageAndCountryFromBrowser, getNavigatorLanguage, browserLanguage.
  destruct (navigator_language c) as [[|x l]|]; cbn [truthyStr unqualified].
  - intros _. exists VUndef. split; reflexivity.
  - intros Hn. cbn [toStr]. rewrite split_word by assumption.
    cbn [nth_error optStr]. exists (VStr (x :: l)). split; reflexivity.
  - intros _. exists VUndef. split; reflexivity.
Qed.

(** X20: the language and country [getDefaultLanguageAndCountry] returns.
    When the language of the browser names a country, both come from it,
    in lower case, and the address lookup plays no part.  When it names
    none, the country hangs on the address lookup: if that fails the whole
    call fails, with no fallback; if it answers nothing the country is
    ['us']; a country it answers is taken in lower case, and an answer that
    is no string makes the call fail.  The language is then the one of the
    browser or, for want of one, ['en']. *)
Theorem getDefaultLanguageAndCountry_cases (c : collaborators) :
  (forall l r,
      navigator_language c = Some (l ++ js "-" ++ r) ->
      l <> [] -> r <> [] -> ~ In 45%N l -> ~ In 45%N r ->
      getDefaultLanguageAndCountry c
      = Ok (VStr (toLowerCase c l), VStr (toLowerCase c r)))
  /\ (unqualified (navigator_language c) ->
      (getCountryFromIP c = Throw -> getDefaultLanguageAndCountry c = Throw)
      /\ (forall v,
            getCountryFromIP c = Ok v -> truthy v = false ->
            getDefaultLanguageAndCountry c
            = Ok (VStr (browserLanguage c), VStr (toLowerCase c (js "us"))))
      /\ (forall s,
            getCountryFromIP c = Ok (VStr s) -> s <> [] ->
            getDefaultLanguageAndCountry c
            = Ok (VStr (browserLanguage c), VStr (toLowerCase c s)))
      /\ (forall v,
            getCountryFromIP c = Ok v -> truthy v = true ->
            isString v = false ->
            getDefaultLanguageAndCountry c = Throw)).
Proof.
  split.
  - intros l r Hnav Hl Hr Hnl Hnr. unfold getDefaultLanguageAndCountry,
      getLanguageAndCountryFromBrowser, getNavigatorLanguage.
    rewrite Hnav. rewrite truthyStr_cons by (destruct l; [congruence|discriminate]).
    cbn [toStr]. change (js "-" ++ r) with (45%N :: r).
    rewrite split_first, split_word by assumption.
    cbn [nth_error optStr]. rewrite !truthy_str by assumption.
    cbn [negb bind]. rewrite truthy_str by assumption. reflexivity.
  - intros Hu. destruct (browser_unqualified c Hu) as [language [Hb Hlang]].
    unfold getDefaultLanguageAndCountry. rewrite Hb. cbn [truthy negb].
    repeat split.
    + intros ->. reflexivity.
    + intros v -> Hv. cbn [bind]. rewrite Hv, Hlang. reflexivity.
    + intros s -> Hs. cbn [bind]. rewrite truthy_str by assumption.
      rewrite Hlang. reflexivity.
    + intros v -> Hv Hs. cbn [bind]. rewrite Hv, Hlang. cbn [bind].
      destruct v; try reflexivity. discriminate.
Qed.

Lemma getDefault_strings (c : collaborators) (l k : value) :
  getDefaultLanguageAndCountry c = Ok (l, k) ->
  isString l = true /\ isString k = true.
Proof.
  unfold getDefaultLanguageAndCountry.
  destruct (getLanguageAndCountryFromBrowser c) as [language country].
  destruct (if negb (truthy country) then getCountryFromIP c else Ok country)
    as [country'|]; [|discriminate].
  cbn [bind].
  destruct (lowerCase c (if truthy language then language else VStr (js "en")))
    as [l'|] eqn:El; [|discriminate].
  cbn [bind].
  destruct (lowerCase c (if truthy country' then country' else VStr (js "us")))
    as [k'|] eqn:Ek; [|discriminate].
  cbn [bind]. intros [= <- <-].
  unfold lowerCase in El, Ek.
  destruct (if truthy language then _ else _); try discriminate.
  destruct (if truthy country' then _ else _); try discriminate.
  injection El as <-. injection Ek as <-. split; reflexivity.
Qed.

(** X21: what [setDefaults] leaves.  Afterwards the language and the
    country are strings, the namespaces are an object and [debug] is the
    boolean the old value converts to; a language or country that was a
    string and namespaces that were an object are kept, and no other
    property of the environment is touched. *)
Theorem setDefaults_settles (c : collaborators) (this this' : props) :
  setDefaults c this = Ok this' ->
  isString (fieldValue this' "language") = true
  /\ isString (fieldValue this' "country") = true
  /\ typeofObject (fieldValue this' "namespaces") = true
  /\ fieldValue this' "debug" = VBool (truthy (fieldValue this "debug"))
  /\ (isString (fieldValue this "language") = true ->
      fieldValue this' "language" = fieldValue this "language")
  /\ (isString (fieldValue this "country") = true ->
      fieldValue this' "country" = fieldValue this "country")
  /\ (typeofObject (fieldValue this "namespaces") = true ->
      fieldValue this' "namespaces" = fieldValue this "namespaces")
  /\ forall f, mem f settingsFields = false -> lookup f this' = lookup f this.
Proof.
  intros H. destruct (setDefaults_fields c this this' H)
    as [language [country [Hdef [Hl [Hc [Hn [Hd Hrest]]]]]]].
  rewrite Hl, Hc, Hn, Hd.
  assert (Hs : isString (fieldValue this "language") = false
               \/ isString (fieldValue this "country") = false ->
               isString language = true /\ isString country = true).
  { intros Hor. apply (getDefault_strings c).
    destruct (isString (fieldValue this "language")),
             (isString (fieldValue this "country")); cbn in Hdef;
      try assumption. destruct Hor; discriminate. }
  repeat split.
  - destruct (isString (fieldValue this "language")) eqn:E; [assumption|].
    apply Hs. now left.
  - destruct (isString (fieldValue this "country")) eqn:E; [assumption|].
    apply Hs. now right.
  - destruct (typeofObject (fieldValue this "namespaces")) eqn:E;
      [assumption|reflexivity].
  - destruct (fieldValue this "debug"); reflexivity.
  - now intros ->.
  - now intros ->.
  - now intros ->.
  - exact Hrest.
Qed.

(** When the language and the country are both given, [setDefaults]
    consults neither the browser nor the address lookup: it completes, with
    the same result whatever these collaborators are. *)
Theorem setDefaults_given_locale (c c' : collaborators) (this : props) :
  isString (fieldValue this "language") = true ->
  isString (fieldValue this "country") = true ->
  setDefaults c this = setDefaults c' this
  /\ exists this', setDefaults c this = Ok this'.
Proof.
  intros Hl Hc. unfold setDefaults. rewrite Hl, Hc. cbn [negb orb bind].
  split; [reflexivity|]. eexists. reflexivity.
Qed.

(** X23: the default namespaces.  Without namespaces of its own the
    environment gets the list ['o'], the language, ['.'] followed by the
    country.  For a language of at most three units these resolve, in
    this order of priority, to the site namespace [o], the site namespace
    of the language and, for a country of at most two units, the site
    namespace of the country; a longer country makes the third a Github
    account of that name. *)
Theorem setDefaults_default_namespaces (c : collaborators) (e : env)
    (this this' : props) (l k : jsstring) :
  setDefaults c this = Ok this' ->
  typeofObject (fieldValue this "namespaces") = false ->
  fieldValue this' "language" = VStr l ->
  fieldValue this' "country" = VStr k ->
  let nss := [NsString (js "o"); NsString l; NsString (js "." ++ k)] in
  let m := getInitialNamespaceInfos e nss in
  namespaceNames (fieldValue this' "namespaces") = Some nss
  /\ (l <> js "o" -> l <> js "." ++ k -> (List.length l < 4)%nat ->
      lookup (js "o") m
      = Some (withPriority 1 (addFetchUrlToSiteNamespace (js "o")))
      /\ lookup l m = Some (withPriority 2 (addFetchUrlToSiteNamespace l))
      /\ ((List.length k < 3)%nat ->
          lookup (js "." ++ k) m
          = Some (withPriority 3 (addFetchUrlToSiteNamespace (js "." ++ k))))
      /\ ((3 <= List.length k)%nat ->
          exists i, lookup (js "." ++ k) m = Some i
                    /\ type i = Some (js "user")
                    /\ github i = Some (js "." ++ k)
                    /\ priority i = Some 3)).
Proof.
  intros H Hn Hl Hk nss m.
  destruct (setDefaults_fields c this this' H)
    as [language [country [_ [_ [_ [Hns _]]]]]].
  rewrite Hn, Hl, Hk in Hns. split.
  - rewrite Hns. reflexivity.
  - intros Ho Hlk Hlen.
    assert (E1 : eqb_js l (js "o") = false) by now apply eqb_js_neq.
    assert (E2 : eqb_js l (js "." ++ k) = false) by now apply eqb_js_neq.
    assert (E3 : eqb_js (js "o") l = false)
      by (apply eqb_js_neq; congruence).
    assert (E4 : eqb_js (js "." ++ k) l = false)
      by (apply eqb_js_neq; congruence).
    assert (Hsite : getInitalNamespaceInfo e (NsString l)
                    = addFetchUrlToSiteNamespace l).
    { cbn [getInitalNamespaceInfo].
      destruct (Nat.ltb_spec (List.length l) 4); [reflexivity|lia]. }
    assert (Hm : m = setOwn (nameOf e (NsString (js "." ++ k)))
                       (descriptorAt e 2 (NsString (js "." ++ k)))
                       (setOwn l (withPriority 2 (addFetchUrlToSiteNamespace l))
                          (setOwn (js "o")
                             (withPriority 1 (addFetchUrlToSiteNamespace (js "o")))
                             []))).
    { unfold m, nss, getInitialNamespaceInfos, fromEntries.
      cbn [initialEntries fold_left fst snd]. rewrite Hsite. reflexivity. }
    assert (Hlow : lookup (js "o") m
                   = Some (withPriority 1 (addFetchUrlToSiteNamespace (js "o")))
                   /\ lookup l m
                      = Some (withPriority 2 (addFetchUrlToSiteNamespace l))).
    { rewrite Hm. unfold nameOf. cbn [getInitalNamespaceInfo].
      assert (Hnm : toStr (name (if Nat.ltb (List.length (js "." ++ k)) 4
                                 then addFetchUrlToSiteNamespace (js "." ++ k)
                                 else addFetchUrlToGithubNamespace e
                                        (mkInfo None None None
                                           (Some (js "." ++ k)) None VUndef)))
                    <> js "o" /\
                    (toStr (name (if Nat.ltb (List.length (js "." ++ k)) 4
                                 then addFetchUrlToSiteNamespace (js "." ++ k)
                                 else addFetchUrlToGithubNamespace e
                                        (mkInfo None None None
                                           (Some (js "." ++ k)) None VUndef)))
                     = js "." ++ k
                     \/ (4 <= List.length (js "." ++ k))%nat)).
      { destruct (Nat.ltb_spec (List.length (js "." ++ k)) 4) as [Hlt|Hge].
        - split; [discriminate|now left].
        - split; [|now right]. destruct k as [|x k']; [cbn in Hge; lia|].
          discriminate. }
      destruct Hnm as [Hno Hdot].
      set (nm := toStr _) in *.
      assert (En1 : eqb_js (js "o") nm = false)
        by (apply eqb_js_neq; congruence).
      assert (En2 : eqb_js l nm = false).
      { apply eqb_js_neq. intros ->. destruct Hdot as [Hd|Hge]; [congruence|].
        subst nm. revert Hlen.
        destruct (Nat.ltb_spec (List.length (js "." ++ k)) 4); [lia|].
        destruct k as [|x k']; [cbn in Hge; lia|].
        cbn. cbn in Hge. lia. }
      rewrite !lookup_setOwn, En1, En2, E1, E3, !eqb_js_refl.
      split; reflexivity. }
    destruct Hlow as [H1 H2]. split; [exact H1|]. split; [exact H2|]. split.
    + intros Hk3. rewrite Hm. unfold nameOf, descriptorAt.
      cbn [getInitalNamespaceInfo].
      destruct (Nat.ltb_spec (List.length (js "." ++ k)) 4) as [_|Hge];
        [|cbn in Hge; lia].
      cbn [addFetchUrlToSiteNamespace name toStr]. now rewrite lookup_setOwn_same.
    + intros Hk3. destruct k as [|x k']; [cbn in Hk3; lia|].
      assert (Hnm : nameOf e (NsString (js "." ++ x :: k')) = js "." ++ x :: k').
      { unfold nameOf. cbn [getInitalNamespaceInfo].
        destruct (Nat.ltb (List.length (js "." ++ x :: k')) 4); reflexivity. }
      rewrite Hm, Hnm, lookup_setOwn_same. eexists. split; [reflexivity|].
      unfold descriptorAt. cbn [getInitalNamespaceInfo].
      destruct (Nat.ltb_spec (List.length (js "." ++ x :: k')) 4) as [Hlt|_];
        [cbn in Hlt, Hk3; lia|].
      repeat split.
Qed.


(** ** Settings: the user's configuration and the order of precedence *)

Lemma getSubstitution_plain (matched before after r : jsstring) :
  ~ In 36%N r -> getSubstitution matched before after r = r.
Proof.
  induction r as [|c r IH]; intros Hn; [reflexivity|].
  cbn [getSubstitution]. destruct (N.eqb_spec c 36) as [->|Hc].
  - exfalso. apply Hn. now left.
  - now rewrite IH by (intros H; apply Hn; now right).
Qed.

Lemma configUrl_plain (g : jsstring) :
  ~ In 36%N g ->
  stringReplace configUrlTemplate (js "{%github}") g
  = js "https://raw.githubusercontent.com/" ++ g
    ++ js "/trovu-data-user/master/config.yml".
Proof.
  intros Hn. unfold stringReplace.
  change (indexOf (js "{%github}") [] configUrlTemplate)
    with (Some (js "https://raw.githubusercontent.com/",
                js "/trovu-data-user/master/config.yml")).
  cbv iota beta. rewrite getSubstitution_plain by assumption. reflexivity.
Qed.

(** X24: what [setWithUserConfigFromGithub] does for an account whose
    name holds no dollar sign.  The configuration is asked for at the
    account's url.  When nothing is delivered, or the text does not parse,
    the environment is flagged with an error and one message naming the
    url is logged, and nothing else changes; a configuration that parses
    is merged into the environment when it is truthy and dropped in silence
    when it is not; only a failure of the request itself makes the call
    fail. *)
Theorem setWithUserConfigFromGithub_outcomes (c : collaborators)
    (st : session) (kd : kind) (ps : props) (g : jsstring) :
  fieldValue (this st) "configUrlTemplate" = VStr configUrlTemplate ->
  lookup (js "github") ps = Some (VStr g) ->
  ~ In 36%N g ->
  let configUrl := js "https://raw.githubusercontent.com/" ++ g
                   ++ js "/trovu-data-user/master/config.yml" in
  let answer := Helper_fetchAsync c configUrl (fieldValue ps "reload")
                  (fieldValue ps "debug") in
  (answer = Throw -> setWithUserConfigFromGithub c st (VObj kd ps) = Throw)
  /\ (forall text,
        answer = Ok text -> truthyStr text = false ->
        setWithUserConfigFromGithub c st (VObj kd ps)
        = Ok (report (js "Failed to read Github config from " ++ configUrl) st))
  /\ (forall text message,
        answer = Ok (Some text) -> text <> [] ->
        jsyaml_load text = ParseError message ->
        setWithUserConfigFromGithub c st (VObj kd ps)
        = Ok (report (js "Error parsing " ++ configUrl ++ js ":" ++ newline
                      ++ newline ++ message) st))
  /\ (forall text config,
        answer = Ok (Some text) -> text <> [] ->
        jsyaml_load text = Parsed config ->
        setWithUserConfigFromGithub c st (VObj kd ps)
        = Ok (if truthy config
              then mkSession (assignProps (this st) (ownEnumerable config))
                             (messages st)
              else st)).
Proof.
  intros Ht Hg Hn configUrl answer.
  assert (Hrun : getUserConfigFromGithub c st (VObj kd ps)
                 = let* configYml := answer in
                   if truthyStr configYml then
                     match jsyaml_load (toStr configYml) with
                     | Parsed config => Ok (st, config)
                     | ParseError message =>
                         Ok (report (js "Error parsing " ++ configUrl ++ js ":"
                                     ++ newline ++ newline ++ message) st,
                             VBool false)
                     end
                   else Ok (report (js "Failed to read Github config from "
                                    ++ configUrl) st, VBool false)).
  { unfold getUserConfigFromGithub. rewrite Ht. cbn [getProp]. rewrite Hg.
    cbn [bind toString]. rewrite configUrl_plain by assumption.
    fold configUrl.
    change (match lookup (js "reload") ps with
            | Some x => Ok x
            | None => match kd with
                      | Plain => Ok VUndef
                      | Array => if eqb_js (js "reload") lengthKey
                                 then Ok (VNum (arrayLength ps)) else Ok VUndef
                      end
            end) with (getProp (VObj kd ps) (js "reload")).
    rewrite (getProp_field kd ps "reload") by reflexivity. cbn [bind].
    change (match lookup (js "debug") ps with
            | Some x => Ok x
            | None => match kd with
                      | Plain => Ok VUndef
                      | Array => if eqb_js (js "debug") lengthKey
                                 then Ok (VNum (arrayLength ps)) else Ok VUndef
                      end
            end) with (getProp (VObj kd ps) (js "debug")).
    rewrite (getProp_field kd ps "debug") by reflexivity. cbn [bind].
    reflexivity. }
  unfold setWithUserConfigFromGithub. rewrite Hrun. repeat split.
  - intros ->. reflexivity.
  - intros text -> Hf. cbn [bind]. rewrite Hf. reflexivity.
  - intros text message -> Htext Hp. cbn [bind].
    rewrite truthyStr_cons by assumption. cbn [toStr]. rewrite Hp. reflexivity.
  - intros text config -> Htext Hp. cbn [bind].
    rewrite truthyStr_cons by assumption. cbn [toStr]. rewrite Hp. cbn [bind].
    destruct (truthy config); reflexivity.
Qed.

Lemma setDefaults_other (c : collaborators) (this this' : props) (f : jsstring) :
  setDefaults c this = Ok this' ->
  mem f settingsFields = false -> lookup f this' = lookup f this.
Proof.
  intros H Hf. destruct (setDefaults_fields c this this' H)
    as [language [country [_ [_ [_ [_ [_ Hrest]]]]]]].
  now apply Hrest.
Qed.

(** X25: the order of precedence in [populate].  After the settings are
    merged, a property other than the language, the country, the
    namespaces and [debug] has the value the query parser found for it;
    failing that, the value of the caller's parameters; failing that, the
    value the environment had once the user's configuration was read.  The
    query handed to the parser is the one of the parameters when they
    carry one. *)
Theorem populateSettings_precedence (c : collaborators) (st st' : session)
    (params : value) :
  truthy params = true ->
  NoDup (forInKeys params) ->
  (forall v q, QueryParser_parse c v = Ok q -> NoDup (forInKeys q)) ->
  populateSettings c st params = Ok st' ->
  exists st1 q,
    (forall g, getProp params (js "github") = Ok (VStr g) -> g <> [] ->
               setWithUserConfigFromGithub c st params = Ok st1)
    /\ ((forall g, getProp params (js "github") = Ok (VStr g) -> g = []) ->
        st1 = st)
    /\ QueryParser_parse c
         (match lookup (js "query") (ownEnumerable params) with
          | Some v => v
          | None => fieldValue (this st1) "query"
          end) = Ok q
    /\ messages st' = messages st1
    /\ forall f,
         mem f settingsFields = false ->
         lookup f (this st')
         = match lookup f (ownEnumerable q) with
           | Some v => Some v
           | None =>
               match lookup f (ownEnumerable params) with
               | Some v => Some v
               | None => lookup f (this st1)
               end
           end.
Proof.
  intros Hp Hnd Hq H. unfold populateSettings in H. rewrite Hp in H.
  cbn [negb bind] in H.
  destruct (getProp params (js "github")) as [github|] eqn:Hg; [|discriminate].
  cbn [bind] in H.
  destruct (match github with
            | VStr (_ :: _) => setWithUserConfigFromGithub c st params
            | _ => Ok st
            end) as [st1|] eqn:H1; [|discriminate].
  cbn [bind] in H.
  destruct (QueryParser_parse c _) as [q|] eqn:H2; [|discriminate].
  cbn [bind] in H.
  destruct (setDefaults c _) as [this3|] eqn:H3; [|discriminate].
  cbn [bind] in H.
  exists st1, q.
  assert (Hquery : fieldValue (assignProps (this st1) (ownEnumerable params))
                     "query"
                   = match lookup (js "query") (ownEnumerable params) with
                     | Some v => v
                     | None => fieldValue (this st1) "query"
                     end).
  { unfold fieldValue. rewrite lookup_assignProps by assumption.
    now destruct (lookup (js "query") (ownEnumerable params)). }
  rewrite Hquery in H2.
  split; [|split; [|split; [exact H2|]]].
  - intros g [= ->] Hne. destruct g; [congruence|assumption].
  - intros Hall. destruct github as [| | | |[|x g]|]; try now injection H1.
    specialize (Hall _ eq_refl). discriminate.
  - assert (Hthis : forall f, mem f settingsFields = false ->
              lookup f this3
              = match lookup f (ownEnumerable q) with
                | Some v => Some v
                | None =>
                    match lookup f (ownEnumerable params) with
                    | Some v => Some v
                    | None => lookup f (this st1)
                    end
                end).
    { intros f Hf. rewrite (setDefaults_other _ _ _ f H3 Hf).
      rewrite lookup_assignProps by (apply (Hq _ _ H2)).
      now rewrite lookup_assignProps by assumption. }
    destruct (truthy (fieldValue this3 "extraNamespaceName")).
    + destruct (push _ _) as [namespaces|]; [|discriminate].
      cbn [bind] in H. injection H as <-. cbn [this messages].
      split; [reflexivity|]. intros f Hf. rewrite lookup_setOwn_other.
      * now apply Hthis.
      * intros ->. discriminate.
    + injection H as <-. cbn [this messages]. split; [reflexivity|].
      exact Hthis.
Qed.


(** ** The call page *)

Lemma isPrefix_skipn (p s : jsstring) :
  isPrefix p s = true -> s = p ++ skipn (List.length p) s.
Proof.
  revert s. induction p as [|x p IH]; intros s H; [reflexivity|].
  destruct s as [|y s]; [discriminate|]. cbn [isPrefix] in H.
  apply andb_true_iff in H. destruct H as [Hxy H]. apply N.eqb_eq in Hxy.
  subst y. cbn [app List.length skipn]. f_equal. now apply IH.
Qed.

Lemma isPrefix_length (p s : jsstring) :
  isPrefix p s = true -> (List.length p <= List.length s)%nat.
Proof.
  intros H. apply isPrefix_skipn in H. rewrite H, length_app. lia.
Qed.

Lemma splitByAux_nonempty (sep : jsstring) (s : jsstring) :
  forall skip cur, splitByAux sep skip cur s <> [].
Proof.
  induction s as [|c s IH]; intros skip cur; [discriminate|].
  cbn [splitByAux]. destruct skip; [|apply IH].
  destruct (isPrefix sep (c :: s)); [discriminate|apply IH].
Qed.

Lemma join_cons (sep x : jsstring) (l : list jsstring) :
  l <> [] -> join sep (x :: l) = x ++ sep ++ join sep l.
Proof. destruct l; [congruence|reflexivity]. Qed.

Lemma splitByAux_join (x : N) (sep' : jsstring) (s : jsstring) :
  forall skip cur,
    (skip <= List.length s)%nat ->
    join (x :: sep') (splitByAux (x :: sep') skip cur s)
    = rev cur ++ skipn skip s.
Proof.
  induction s as [|c s IH]; intros skip cur Hskip.
  - cbn in Hskip. assert (skip = 0%nat) by lia. subst. cbn.
    now rewrite app_nil_r.
  - cbn [splitByAux]. destruct skip as [|n].
    + cbn [skipn]. destruct (isPrefix (x :: sep') (c :: s)) eqn:Hp.
      * rewrite join_cons by apply splitByAux_nonempty.
        pose proof (isPrefix_length _ _ Hp) as Hlen. cbn [List.length] in Hlen.
        replace (List.length (x :: sep') - 1)%nat with (List.length sep')
          by (cbn [List.length]; lia).
        rewrite IH by lia. cbn [rev app].
        apply isPrefix_skipn in Hp. cbn [List.length skipn] in Hp.
        now rewrite Hp.
      * rewrite IH by lia. cbn [rev skipn]. now rewrite <- app_assoc.
    + cbn [skipn]. apply IH. cbn [List.length] in Hskip. lia.
Qed.

Lemma join_units (s : jsstring) : join [] (map (fun c => [c]) s) = s.
Proof.
  induction s as [|c s IH]; [reflexivity|].
  cbn [map]. destruct s as [|d s]; [reflexivity|].
  rewrite join_cons by discriminate. cbn [app]. now rewrite IH.
Qed.

Lemma splitBy_join (sep s : jsstring) : join sep (splitBy sep s) = s.
Proof.
  destruct sep as [|x sep']; [apply join_units|].
  unfold splitBy. now rewrite splitByAux_join by lia.
Qed.

Lemma splitByAux_first (x : N) (sep' : jsstring) (s : jsstring) :
  forall cur,
    match indexOf (x :: sep') cur s with
    | Some (a, b) =>
        exists components,
          splitByAux (x :: sep') 0 cur s = a :: components
          /\ components <> []
          /\ join (x :: sep') components = b
          /\ rev cur ++ s = a ++ (x :: sep') ++ b
    | None => splitByAux (x :: sep') 0 cur s = [rev cur ++ s]
    end.
Proof.
  induction s as [|c s IH]; intros cur.
  - cbn. now rewrite app_nil_r.
  - cbn [indexOf splitByAux].
    destruct (isPrefix (x :: sep') (c :: s)) eqn:Hp.
    + eexists. split; [reflexivity|]. split; [apply splitByAux_nonempty|].
      pose proof (isPrefix_length _ _ Hp) as Hlen. cbn [List.length] in Hlen.
      replace (List.length (x :: sep') - 1)%nat with (List.length sep')
        by (cbn [List.length]; lia).
      rewrite splitByAux_join by lia.
      cbn [rev app List.length skipn].
      split; [reflexivity|].
      apply isPrefix_skipn in Hp. cbn [List.length skipn] in Hp.
      now rewrite Hp.
    + specialize (IH (c :: cur)). cbn [rev] in IH.
      rewrite <- app_assoc in IH. exact IH.
Qed.

(** X26: [splitOnce] cuts a string at the first occurrence of the
    delimiter and nowhere else: it returns the text before that occurrence
    and the whole text after it, later delimiters included, or the string
    alone when the delimiter does not occur; joining what it returns with
    the delimiter gives the string back. *)
Theorem splitOnce_first_occurrence (str delim : jsstring) :
  joinArray delim (splitOnce str delim) = str
  /\ (delim <> [] ->
      match indexOf delim [] str with
      | Some (a, b) =>
          splitOnce str delim = [VStr a; VStr b] /\ str = a ++ delim ++ b
      | None => splitOnce str delim = [VStr str]
      end).
Proof.
  split.
  - unfold splitOnce. pose proof (splitBy_join delim str) as Hj.
    destruct (splitBy delim str) as [|first components].
    + cbn in *. assumption.
    + destruct components as [|y l]; [exact Hj|].
      rewrite join_cons in Hj by discriminate.
      unfold joinArray. cbn [map toString]. now rewrite join_cons by discriminate.
  - intros Hd. destruct delim as [|x sep']; [congruence|].
    unfold splitOnce, splitBy.
    pose proof (splitByAux_first x sep' str []) as H.
    destruct (indexOf (x :: sep') [] str) as [[a b]|].
    + destruct H as [components [-> [Hne [Hj Hs]]]].
      destruct components as [|y l]; [congruence|]. rewrite Hj.
      split; [reflexivity|exact Hs].
    + now rewrite H.
Qed.

Lemma split_join (sep : N) (parts : list jsstring) :
  parts <> [] ->
  (forall p, In p parts -> ~ In sep p) ->
  split sep (join [sep] parts) = parts.
Proof.
  induction parts as [|p parts IH]; intros Hne Hall; [congruence|].
  destruct parts as [|q parts].
  - cbn [join]. apply split_word. apply Hall. now left.
  - rewrite join_cons by discriminate. cbn [app].
    rewrite split_first by (apply Hall; now left).
    f_equal. apply IH; [discriminate|]. intros p' Hp. apply Hall. now right.
Qed.

Lemma parameterText_plain (kv : jsstring * option jsstring) :
  plainParameter kv -> ~ In 38%N (parameterText kv).
Proof.
  intros [Hk [_ Hv]]. unfold parameterText.
  destruct kv as [k [v|]]; cbn [fst snd] in *.
  - change (js "=" ++ v) with (61%N :: v).
    intros H. apply in_app_or in H. destruct H as [H|[H|H]].
    + contradiction.
    + discriminate.
    + now apply (proj1 (Hv v eq_refl)).
  - assumption.
Qed.

Lemma parameterText_split (kv : jsstring * option jsstring) :
  plainParameter kv ->
  let tmparr := split 61 (parameterText kv) in
  toString (optStr (nth_error tmparr 0)) = fst kv
  /\ optStr (nth_error tmparr 1) = optStr (snd kv).
Proof.
  intros [_ [Hk Hv]]. unfold parameterText.
  destruct kv as [k [v|]]; cbn [fst snd] in *.
  - change (js "=" ++ v) with (61%N :: v).
    rewrite split_first by assumption.
    rewrite split_word by (apply (Hv v eq_refl)). split; reflexivity.
  - rewrite split_word by assumption. split; reflexivity.
Qed.

Lemma transform_fold (pairs : list (jsstring * option jsstring)) (k : jsstring) :
  (forall kv, In kv pairs -> plainParameter kv) ->
  k <> js "__proto__" ->
  forall acc,
    lookup k
      (fold_left
         (fun params pair =>
            let tmparr := split 61 pair in
            let key := toString (optStr (nth_error tmparr 0)) in
            if eqb_js key (js "__proto__") then params
            else setOwn key (optStr (nth_error tmparr 1)) params)
         (map parameterText pairs) acc)
    = match lookup k (rev pairs) with
      | Some v => Some (optStr v)
      | None => lookup k acc
      end.
Proof.
  intros Hall Hk. induction pairs as [|kv pairs IH] using rev_ind; intros acc;
    [reflexivity|].
  rewrite map_app, fold_left_app, rev_app_distr. cbn [map fold_left rev app].
  destruct (parameterText_split kv) as [H0 H1];
    [apply Hall, in_or_app; right; now left|].
  cbv zeta in H0, H1. rewrite H0, H1.
  destruct kv as [k0 v0]. cbn [fst snd lookup].
  destruct (eqb_js k k0) eqn:E.
  - apply eqb_js_eq in E. subst k0.
    rewrite (proj2 (eqb_js_neq _ _) Hk). now rewrite lookup_setOwn_same.
  - assert (Hrest : forall acc', lookup k acc'
                      = match lookup k (rev pairs) with
                        | Some v => Some (optStr v)
                        | None => lookup k acc
                        end ->
                    lookup k (if eqb_js k0 (js "__proto__") then acc'
                              else setOwn k0 (optStr v0) acc')
                    = match lookup k (rev pairs) with
                      | Some v => Some (optStr v)
                      | None => lookup k acc
                      end).
    { intros acc' H. destruct (eqb_js k0 (js "__proto__")); [assumption|].
      now rewrite lookup_setOwn, E. }
    apply Hrest. apply IH. intros kv' Hin. apply Hall, in_or_app. now left.
Qed.
(** X27: the parameters read from the address.  For a search string made
    of parameters joined by ampersands, keys and values holding neither an
    ampersand nor an equals sign, a key is bound to the value of the last
    parameter that carries it, and to [undefined] when that parameter has no
    equals sign; the first unit of the search string, the question mark, is
    dropped. *)
Theorem getSearchParameters_last_wins (mark : N)
    (pairs : list (jsstring * option jsstring)) (k : jsstring) :
  pairs <> [] ->
  (forall kv, In kv pairs -> plainParameter kv) ->
  k <> js "__proto__" ->
  let prmstr := join (js "&") (map parameterText pairs) in
  lookup k (transformToAssocArray prmstr)
  = option_map optStr (lookup k (rev pairs))
  /\ (prmstr <> [] ->
      getSearchParameters (mark :: prmstr) = transformToAssocArray prmstr).
Proof.
  intros Hne Hall Hk prmstr. split.
  - unfold transformToAssocArray, prmstr. change (js "&") with [38%N].
    rewrite split_join.
    + etransitivity; [exact (transform_fold pairs k Hall Hk [])|].
      cbn [lookup]. now destruct (lookup k (rev pairs)).
    + destruct pairs; [congruence|discriminate].
    + intros p Hp. apply in_map_iff in Hp. destruct Hp as [kv [<- Hin]].
      apply parameterText_plain. now apply Hall.
  - intros Hp. unfold getSearchParameters. cbn [skipn].
    destruct prmstr; [congruence|reflexivity].
Qed.

Lemma indexOf_skip (p : N) (pat s1 : jsstring) :
  forallb (fun c => negb (N.eqb p c)) s1 = true ->
  forall before rest,
    indexOf (p :: pat) before (s1 ++ rest)
    = indexOf (p :: pat) (rev s1 ++ before) rest.
Proof.
  induction s1 as [|c s1 IH]; intros H before rest; [reflexivity|].
  cbn [forallb] in H. apply andb_true_iff in H. destruct H as [Hc H].
  cbn [app indexOf isPrefix]. apply negb_true_iff in Hc. rewrite Hc.
  cbn [andb]. rewrite IH by assumption. cbn [rev]. now rewrite <- app_assoc.
Qed.

Lemma indexOf_here (pat before s : jsstring) :
  isPrefix pat s = true ->
  indexOf pat before s = Some (rev before, skipn (List.length pat) s).
Proof. intros H. destruct s; cbn [indexOf]; now rewrite H. Qed.

Lemma forallb_not_In (p : N) (s : jsstring) :
  ~ In p s -> forallb (fun c => negb (N.eqb p c)) s = true.
Proof.
  induction s as [|c s IH]; intros H; [reflexivity|].
  cbn [forallb]. rewrite IH by (intros Hin; apply H; now right).
  destruct (N.eqb_spec p c) as [->|_]; [|reflexivity].
  exfalso. apply H. now left.
Qed.

(** X28: the url [buildFetchUrl] builds.  The keyword is a string that
    holds neither a dollar sign nor an opening brace; the argument count is
    a string, another primitive, or a number of a magnitude below 2^53 (the
    call page passes the length of an array), and its text holds no dollar
    sign.  Then the keyword and the count stand in the template in place of
    their markers. *)
Theorem buildFetchUrl_plain (kw : jsstring) (argumentCount : value) :
  ~ In 36%N kw ->
  ~ In 123%N kw ->
  exactText argumentCount = true ->
  ~ In 36%N (toString argumentCount) ->
  buildFetchUrl (VStr kw) argumentCount
  = js "https://raw.githubusercontent.com/trovu/trovu/master/shortcuts/o/"
    ++ kw ++ js "/" ++ toString argumentCount ++ js ".call.json".
Proof.
  intros Hd Hb _ Ha. unfold buildFetchUrl. cbn [fold_left fst snd toString].
  assert (H1 : stringReplace fetchUrlTemplate (js "{%keyword}") kw
               = (js "https://raw.githubusercontent.com/trovu/trovu/master/shortcuts/o/"
                  ++ kw ++ js "/") ++ js "{%argumentCount}.call.json").
  { unfold stringReplace.
    change (indexOf (js "{%keyword}") [] fetchUrlTemplate)
      with (Some (js "https://raw.githubusercontent.com/trovu/trovu/master/shortcuts/o/",
                  js "/{%argumentCount}.call.json")).
    cbv iota beta. rewrite getSubstitution_plain by assumption.
    now rewrite <- !app_assoc. }
  rewrite H1. unfold stringReplace.
  change (js "{%argumentCount}") with (123%N :: js "%argumentCount}").
  rewrite indexOf_skip.
  - rewrite indexOf_here by reflexivity.
    cbv iota beta. rewrite getSubstitution_plain by assumption.
    rewrite app_nil_r, rev_involutive. now rewrite <- !app_assoc.
  - rewrite !forallb_app. rewrite (forallb_not_In _ kw Hb). reflexivity.
Qed.


(** ** Collections whose includes stay within the namespace *)

Lemma includeStep_local (e : env) (owner key : jsstring) (m : infos)
    (oi : namespaceInfo) (kd : kind) (ps : props) (x : value) (rest : list jsstring) :
  lookup owner m = Some oi ->
  shortcuts oi = VObj kd ps ->
  lookup key ps = Some x ->
  localEntry x = true ->
  exists e' m',
    includeStep e owner m key = Ok (e', m')
    /\ runUntilAwait (key :: rest) e owner m = runUntilAwait rest e' owner m'.
Proof.
  intros Ho Hsc Hk Hx. cbn [runUntilAwait]. unfold includeStep.
  rewrite Ho, Hsc. cbn [getProp]. rewrite Hk. cbn [bind].
  unfold localEntry in Hx. destruct x as [| | | | |kd1 own]; try discriminate.
  destruct (classify (VObj kd1 own)) as [d|] eqn:Hd; [|discriminate].
  cbn [bind]. destruct d as [| |ikey|ikey ins]; try discriminate.
  - now exists e, m.
  - eexists. exists m. split; reflexivity.
  - assert (Hsrc : exists src, (match lookup (toString ikey) ps with
                                | Some x0 => Ok x0
                                | None =>
                                    match kd with
                                    | Plain => Ok VUndef
                                    | Array =>
                                        if eqb_js (toString ikey) lengthKey
                                        then Ok (VNum (arrayLength ps))
                                        else Ok VUndef
                                    end
                                end) = Ok src).
    { destruct (lookup (toString ikey) ps); [eauto|].
      destruct kd; [eauto|]. destruct (eqb_js (toString ikey) lengthKey); eauto. }
    destruct Hsrc as [src ->]. cbn [bind].
    rewrite (mergeInto_object owner key src m oi kd kd1 ps own Ho Hsc Hk).
    cbn [bind]. eexists. eexists. split; reflexivity.
Qed.

Lemma includeLoop_local (owner : jsstring) (kd : kind) (keys : list jsstring) :
  forall e m oi ps,
    lookup owner m = Some oi ->
    shortcuts oi = VObj kd ps ->
    NoDup keys ->
    (forall k, In k keys -> exists x, lookup k ps = Some x /\ localEntry x = true) ->
    exists e' m',
      includeLoop keys e owner m = Ok (e', m')
      /\ runUntilAwait keys e owner m = Finished e' m'.
Proof.
  induction keys as [|k keys IH]; intros e m oi ps Ho Hsc Hnd Hall.
  - now exists e, m.
  - inversion Hnd as [|? ? Hk Hnd']; subst.
    destruct (Hall k (or_introl eq_refl)) as [x [Hx Hloc]].
    destruct (includeStep_local e owner k m oi kd ps x keys Ho Hsc Hx Hloc)
      as [e1 [m1 [Hstep Hrun]]].
    destruct (includeStep_frame _ _ _ _ _ _ _ _ _ Ho Hsc Hstep)
      as [_ [oi1 [ps1 [Ho1 [Hsc1 [_ [Hother _]]]]]]].
    destruct (IH e1 m1 oi1 ps1 Ho1 Hsc1 Hnd') as [e' [m' [Hloop Hfin]]].
    { intros k' Hk'. rewrite Hother by (intros ->; contradiction).
      apply Hall. now right. }
    exists e', m'. cbn [includeLoop]. rewrite Hstep. cbn [bind].
    split; [assumption|]. now rewrite Hrun.
Qed.

Lemma addIncludes_local (e : env) (owner : jsstring) (m : infos)
    (oi : namespaceInfo) :
  lookup owner m = Some oi ->
  localOnly (shortcuts oi) = true ->
  NoDup (forInKeys (shortcuts oi)) ->
  exists e' m',
    addIncludes e owner m = Ok (e', m')
    /\ runUntilAwait (forInKeys (shortcuts oi)) e owner m = Finished e' m'.
Proof.
  intros Ho Hloc Hnd. unfold addIncludes. rewrite Ho.
  unfold localOnly in Hloc. apply andb_true_iff in Hloc.
  destruct Hloc as [Hs Hall].
  destruct (shortcuts oi) as [| | | |s|kd ps] eqn:Hsc; try discriminate;
    try (exists e, m; split; reflexivity).
  apply (includeLoop_local owner kd _ e m oi ps Ho Hsc Hnd).
  intros k Hk. unfold forInKeys in Hk. cbn [ownEnumerable] in *.
  apply lookup_Some_iff in Hk. destruct Hk as [x Hx]. exists x.
  split; [assumption|]. apply lookup_In in Hx.
  rewrite forallb_forall in Hall. exact (Hall (k, x) Hx).
Qed.

Lemma startCallbacks_local (owners : list jsstring) :
  forall e m,
    NoDup owners ->
    (forall o, In o owners ->
       exists i, lookup o m = Some i
                 /\ localOnly (shortcuts i) = true
                 /\ NoDup (forInKeys (shortcuts i))) ->
    exists e' m' tasks,
      includeAll owners e m = Ok (e', m')
      /\ startCallbacks owners e m = (e', m', tasks)
      /\ forall o p, In (o, p) tasks -> exists e0 m0, p = Finished e0 m0.
Proof.
  induction owners as [|o owners IH]; intros e m Hnd Hall.
  - exists e, m, []. repeat split. intros o p [].
  - inversion Hnd as [|? ? Ho Hnd']; subst.
    destruct (Hall o (or_introl eq_refl)) as [i [Hi [Hloc Hk]]].
    destruct (addIncludes_local e o m i Hi Hloc Hk) as [e1 [m1 [Hadd Hrun]]].
    assert (Hframe : forall s j, s <> o -> lookup s m = Some j ->
                                 lookup s m1 = Some j).
    { unfold addIncludes in Hadd. rewrite Hi in Hadd.
      destruct (shortcuts i) as [| | | |s0|kd ps] eqn:Hsc;
        try (injection Hadd as _ <-; auto).
      - unfold localOnly in Hloc. discriminate.
      - now destruct (includeLoop_frame _ _ _ _ _ _ _ _ _ Hi Hsc Hadd). }
    destruct (IH e1 m1 Hnd') as [e' [m' [tasks [Hall' [Hstart Ht]]]]].
    { intros o' Ho'. destruct (Hall o' (or_intror Ho')) as [j [Hj Hrest]].
      exists j. split; [|assumption]. apply Hframe; [|assumption].
      intros ->. contradiction. }
    exists e', m'. eexists. cbn [includeAll startCallbacks].
    rewrite Hadd, Hi, Hrun. cbn [bind stateOf]. rewrite Hstart.
    split; [assumption|]. split; [reflexivity|].
    intros o' p [[= <- <-]|Hin]; [eauto|now apply (Ht o')].
Qed.

Lemma resumeCallbacks_finished (tasks : list (jsstring * progress)) (e : env)
    (m : infos) :
  (forall o p, In (o, p) tasks -> exists e0 m0, p = Finished e0 m0) ->
  resumeCallbacks tasks e m = (e, m).
Proof.
  induction tasks as [|[o p] tasks IH]; intros H; [reflexivity|].
  cbn [resumeCallbacks].
  destruct (H o p (or_introl eq_refl)) as [e0 [m0 ->]].
  apply IH. intros o' p' Hin. apply (H o'). now right.
Qed.

(** X29: when no include of the fetched collections names another
    namespace, every entry being an object, [getNamespaceInfos] resolves all
    the includes before it annotates: it returns what include resolution
    for one namespace after the other, each awaited, followed by
    [addReachable] returns.  The callbacks it does not await have then all
    run to their end before its continuation. *)
Theorem getNamespaceInfos_local_includes (e e1 : env) (nss : list namespace)
    (reload debug : bool) (m1 : infos) :
  fetchShortcuts e nss reload debug = Ok (e1, m1) ->
  (forall k i, In (k, i) m1 ->
     localOnly (shortcuts i) = true /\ NoDup (forInKeys (shortcuts i))) ->
  getNamespaceInfos e nss reload debug
  = let* (e2, m2) := includeAll (map fst m1) e1 m1 in
    let* m3 := addReachable m2 in
    Ok (e2, m3).
Proof.
  intros Hf Hall. unfold getNamespaceInfos. rewrite Hf. cbn [bind].
  assert (Hnd : NoDup (map fst m1)).
  { rewrite (fetchShortcuts_keys _ _ _ _ _ _ Hf). apply NoDup_initial. }
  destruct (startCallbacks_local (map fst m1) e1 m1 Hnd)
    as [e2 [m2 [tasks [Hinc [Hstart Ht]]]]].
  { intros o Ho. apply lookup_Some_iff in Ho. destruct Ho as [i Hi].
    exists i. split; [assumption|]. apply (Hall o). now apply lookup_In. }
  rewrite Hstart, Hinc, (resumeCallbacks_finished tasks e2 m2 Ht).
  reflexivity.
Qed.


(** ** The namespace named in the query *)

Lemma sameShape_refl (m : infos) : sameShape m m.
Proof.
  clear fetch jsyaml_load getArgumentsFromString.
  split; [reflexivity|]. intros k i H. exists i.
  split; [assumption|]. split; [|reflexivity].
  unfold sameButShortcuts. now destruct i.
Qed.

Lemma sameShape_trans (m1 m2 m3 : infos) :
  sameShape m1 m2 -> sameShape m2 m3 -> sameShape m1 m3.
Proof.
  clear fetch jsyaml_load getArgumentsFromString.
  intros [K1 H1] [K2 H2]. split; [congruence|]. intros k i Hi.
  destruct (H1 k i Hi) as [i2 [Hi2 [S1 F1]]].
  destruct (H2 k i2 Hi2) as [i3 [Hi3 [S2 F2]]].
  exists i3. split; [assumption|]. split; [|congruence].
  unfold sameButShortcuts in *. rewrite S2, S1. reflexivity.
Qed.

Lemma mergeInto_shape (owner key : jsstring) (x : value) (m m' : infos) :
  mergeInto owner key x m = Ok m' -> sameShape m m'.
Proof.
  clear fetch jsyaml_load getArgumentsFromString.
  unfold mergeInto. destruct (lookup owner m) as [oi|] eqn:Ho; [|discriminate].
  destruct (getProp (shortcuts oi) key) as [shortcut|]; [|discriminate].
  cbn [bind]. destruct (objectAssign shortcut x) as [merged|]; [|discriminate].
  cbn [bind]. intros [= <-]. split.
  - apply keys_setOwn_present. unfold hasKey. now rewrite Ho.
  - intros k i Hi. rewrite lookup_setOwn. destruct (eqb_js k owner) eqn:E.
    + apply eqb_js_eq in E. subst k. rewrite Ho in Hi. injection Hi as <-.
      eexists. split; [reflexivity|]. split; [reflexivity|].
      cbn [shortcuts setShortcuts]. unfold updateEntry, forInKeys.
      destruct (shortcuts oi); try reflexivity.
      cbn [ownEnumerable]. apply keys_replaceProp.
    + exists i. split; [assumption|]. split; [|reflexivity].
      unfold sameButShortcuts. now destruct i.
Qed.

Lemma includeStep_shape (e e' : env) (owner key : jsstring) (m m' : infos) :
  includeStep e owner m key = Ok (e', m') ->
  (forall oi x ikey ins,
      lookup owner m = Some oi ->
      getProp (shortcuts oi) key = Ok x ->
      classify x = Ok (Remote ikey ins) ->
      isPresent ins m = true) ->
  sameShape m m'.
Proof.
  unfold includeStep. destruct (lookup owner m) as [oi|] eqn:Ho; [|discriminate].
  destruct (getProp (shortcuts oi) key) as [shortcut|] eqn:Hg; [|discriminate].
  cbn [bind]. destruct (classify shortcut) as [d|] eqn:Hd; [|discriminate].
  cbn [bind]. intros H Hpresent. destruct d as [| |ikey|ikey ins].
  - injection H as _ <-. apply sameShape_refl.
  - injection H as _ <-. apply sameShape_refl.
  - destruct (getProp (shortcuts oi) (toString ikey)) as [x|]; [|discriminate].
    cbn [bind] in H. destruct (mergeInto owner key x m) as [m2|] eqn:Hm;
      [|discriminate].
    injection H as _ <-. now apply mergeInto_shape in Hm.
  - specialize (Hpresent oi shortcut ikey ins eq_refl Hg Hd).
    unfold isPresent, hasKey in Hpresent.
    destruct (lookup (toString ins) m) as [ti|] eqn:Hs; [|discriminate].
    rewrite (getShortcut_present _ _ _ _ _ Hs) in H.
    destruct (getProp (shortcuts ti) (toString ikey)) as [x|]; [|discriminate].
    cbn [bind fst snd] in H.
    destruct (mergeInto owner key x m) as [m2|] eqn:Hm; [|discriminate].
    injection H as _ <-. now apply mergeInto_shape in Hm.
Qed.

Lemma includeStep_others (e e' : env) (owner key : jsstring) (m m' : infos) :
  includeStep e owner m key = Ok (e', m') ->
  forall s i, s <> owner -> lookup s m = Some i -> lookup s m' = Some i.
Proof.
  intros H s i Hne Hs. unfold includeStep in H.
  destruct (lookup owner m) as [oi|] eqn:Ho; [|discriminate].
  destruct (getProp (shortcuts oi) key) as [shortcut|]; [|discriminate].
  cbn [bind] in H. destruct (classify shortcut) as [d|]; [|discriminate].
  cbn [bind] in H. destruct d as [| |ikey|ikey ins].
  - now injection H as _ <-.
  - now injection H as _ <-.
  - destruct (getProp (shortcuts oi) (toString ikey)) as [x|]; [|discriminate].
    cbn [bind] in H. destruct (mergeInto owner key x m) as [m2|] eqn:Hm;
      [|discriminate].
    injection H as _ <-.
    destruct (mergeInto_owner _ _ _ _ _ _ Ho Hm) as [sc ->].
    now rewrite lookup_setOwn_other.
  - destruct (getShortcutFromNamespace e ikey ins m) as [[[e1 m1] x]|] eqn:Hg;
      [|discriminate].
    cbn [bind fst snd] in H.
    destruct (mergeInto owner key x m1) as [m2|] eqn:Hm; [|discriminate].
    injection H as _ <-.
    pose proof (getShortcut_frame _ _ _ _ _ _ _ Hg _ _ Ho) as Ho1.
    destruct (mergeInto_owner _ _ _ _ _ _ Ho1 Hm) as [sc ->].
    rewrite lookup_setOwn_other by assumption.
    exact (getShortcut_frame _ _ _ _ _ _ _ Hg _ _ Hs).
Qed.

Lemma runUntilAwait_shape (owner : jsstring) (keys : list jsstring) :
  forall e m,
    sameShape m (snd (stateOf (runUntilAwait keys e owner m)))
    /\ (forall s i, s <> owner -> lookup s m = Some i ->
          lookup s (snd (stateOf (runUntilAwait keys e owner m))) = Some i)
    /\ pending (snd (stateOf (runUntilAwait keys e owner m)))
         (owner, runUntilAwait keys e owner m).
Proof.
  induction keys as [|k keys IH]; intros e m.
  - cbn. split; [apply sameShape_refl|]. split; [auto|exact I].
  - cbn [runUntilAwait].
    destruct (lookup owner m) as [oi|] eqn:Ho;
      [|cbn; split; [apply sameShape_refl|split; [auto|exact I]]].
    destruct (getProp (shortcuts oi) k) as [x|] eqn:Hg;
      [|cbn; split; [apply sameShape_refl|split; [auto|exact I]]].
    cbn [bind].
    destruct (classify x) as [d|] eqn:Hd;
      [|cbn; split; [apply sameShape_refl|split; [auto|exact I]]].
    assert (Hstep : (forall ikey ins, d <> Remote ikey ins) ->
              (sameShape m
                 (snd (stateOf
                         match includeStep e owner m k with
                         | Ok (e', m') => runUntilAwait keys e' owner m'
                         | Throw => Rejected e m
                         end))
               /\ (forall s i, s <> owner -> lookup s m = Some i ->
                     lookup s
                       (snd (stateOf
                               match includeStep e owner m k with
                               | Ok (e', m') => runUntilAwait keys e' owner m'
                               | Throw => Rejected e m
                               end)) = Some i)
               /\ pending
                    (snd (stateOf
                            match includeStep e owner m k with
                            | Ok (e', m') => runUntilAwait keys e' owner m'
                            | Throw => Rejected e m
                            end))
                    (owner,
                     match includeStep e owner m k with
                     | Ok (e', m') => runUntilAwait keys e' owner m'
                     | Throw => Rejected e m
                     end))).
    { intros Hlocal.
      destruct (includeStep e owner m k) as [[e1 m1]|] eqn:E1;
        [|cbn; split; [apply sameShape_refl|split; [auto|exact I]]].
      destruct (IH e1 m1) as [S1 [O1 P1]]. split; [|split].
      - eapply sameShape_trans; [|exact S1].
        apply (includeStep_shape _ _ _ _ _ _ E1).
        intros oi' x' ikey ins Ho' Hg' Hd'. exfalso.
        rewrite Ho in Ho'. injection Ho' as <-. rewrite Hg in Hg'.
        injection Hg' as <-. rewrite Hd in Hd'. injection Hd' as ->.
        now apply (Hlocal ikey ins).
      - intros s i Hne Hs. apply O1; [assumption|].
        exact (includeStep_others _ _ _ _ _ _ E1 s i Hne Hs).
      - exact P1. }
    destruct d as [| |ikey|ikey ins]; try (apply Hstep; discriminate).
    cbn [stateOf snd]. split; [apply sameShape_refl|]. split; [auto|].
    unfold pending. cbn [fst snd]. exists oi, x, ikey. now repeat split.
Qed.


Lemma pending_frame (m m' : infos) (task : jsstring * progress) :
  (forall i, lookup (fst task) m = Some i -> lookup (fst task) m' = Some i) ->
  pending m task -> pending m' task.
Proof.
  clear fetch jsyaml_load getArgumentsFromString.
  unfold pending. intros Hf. destruct (snd task); auto.
  intros [oi [x [ikey [Ho H]]]]. exists oi, x, ikey. split; auto.
Qed.

Lemma startCallbacks_shape (owners : list jsstring) :
  forall e m,
    NoDup owners ->
    sameShape m (snd (fst (startCallbacks owners e m)))
    /\ (forall s i, ~ In s owners -> lookup s m = Some i ->
          lookup s (snd (fst (startCallbacks owners e m))) = Some i)
    /\ (forall task, In task (snd (startCallbacks owners e m)) ->
          pending (snd (fst (startCallbacks owners e m))) task)
    /\ map fst (snd (startCallbacks owners e m)) = owners.
Proof.
  induction owners as [|o owners IH]; intros e m Hnd.
  - cbn. split; [apply sameShape_refl|]. split; [auto|]. split; [|reflexivity].
    intros task [].
  - inversion Hnd as [|? ? Ho Hnd']; subst. cbn [startCallbacks].
    set (p := match lookup o m with
              | Some oi => runUntilAwait (forInKeys (shortcuts oi)) e o m
              | None => Rejected e m
              end).
    assert (Hp : sameShape m (snd (stateOf p))
                 /\ (forall s i, s <> o -> lookup s m = Some i ->
                       lookup s (snd (stateOf p)) = Some i)
                 /\ pending (snd (stateOf p)) (o, p)).
    { subst p. destruct (lookup o m) as [oi|].
      - apply runUntilAwait_shape.
      - cbn. split; [apply sameShape_refl|]. split; [auto|exact I]. }
    destruct Hp as [S1 [O1 P1]].
    destruct (stateOf p) as [e1 m1]. cbn [snd] in S1, O1, P1.
    destruct (IH e1 m1 Hnd') as [S2 [O2 [P2 K2]]].
    destruct (startCallbacks owners e1 m1) as [[e2 m2] ps].
    cbn [fst snd] in *. split; [|split; [|split]].
    + eapply sameShape_trans; eassumption.
    + intros s i Hs Hl. apply O2; [intros Hin; apply Hs; now right|].
      apply O1; [intros ->; apply Hs; now left|assumption].
    + intros task [<-|Hin]; [|now apply P2].
      apply (pending_frame m1); [|assumption].
      cbn [fst]. intros i Hi. now apply O2.
    + cbn [map fst]. now rewrite K2.
Qed.

Lemma resumeCallbacks_shape (tasks : list (jsstring * progress)) :
  forall e m,
    NoDup (map fst tasks) ->
    (forall task, In task tasks -> pending m task) ->
    sameShape m (snd (resumeCallbacks tasks e m)).
Proof.
  induction tasks as [|[o p] tasks IH]; intros e m Hnd Hpend.
  - apply sameShape_refl.
  - cbn [map fst] in Hnd. inversion Hnd as [|? ? Ho Hnd']; subst.
    assert (Hrest : forall task, In task tasks -> pending m task)
      by (intros task Hin; apply Hpend; now right).
    cbn [resumeCallbacks]. destruct p as [| |e0 m0 key rest ins];
      try (now apply IH).
    destruct (isPresent ins m) eqn:Hins; [|now apply IH].
    destruct (includeStep e o m key) as [[e1 m1]|] eqn:E1; [|now apply IH].
    pose proof (Hpend _ (or_introl eq_refl)) as Hp. unfold pending in Hp.
    cbn [fst snd] in Hp. destruct Hp as [oi [x [ikey [Hoi [Hx Hcl]]]]].
    assert (S1 : sameShape m m1).
    { apply (includeStep_shape _ _ _ _ _ _ E1).
      intros oi' x' ikey' ins' Ho' Hg' Hd'.
      rewrite Hoi in Ho'. injection Ho' as <-. rewrite Hx in Hg'.
      injection Hg' as <-. rewrite Hcl in Hd'. now injection Hd' as _ <-. }
    destruct (runUntilAwait_shape o rest e1 m1) as [S2 [O2 _]].
    destruct (stateOf (runUntilAwait rest e1 o m1)) as [e2 m2].
    cbn [snd] in S2, O2.
    eapply sameShape_trans; [exact S1|].
    eapply sameShape_trans; [exact S2|].
    apply IH; [assumption|].
    intros task Hin. apply (pending_frame m); [|now apply Hrest].
    intros i Hi.
    assert (Hne : fst task <> o).
    { intros Heq. apply Ho. rewrite <- Heq. now apply in_map. }
    apply O2; [assumption|].
    exact (includeStep_others _ _ _ _ _ _ E1 _ _ Hne Hi).
Qed.


Lemma verifyShortcuts_keys (e e' : env) (sc sc' : value)
    (nm : option jsstring) :
  verifyShortcuts e sc nm = Ok (e', sc') -> forInKeys sc' = forInKeys sc.
Proof.
  clear fetch jsyaml_load getArgumentsFromString.
  intros H.
  destruct sc as [| | | |s|kd ps].
  all: try (cbn in H; injection H as _ <-; reflexivity).
  - destruct s as [|c s]; [|discriminate]. cbn in H. now injection H as _ <-.
  - unfold verifyShortcuts, forInKeys in *. cbn [ownEnumerable] in *.
    destruct (verifyLoop_mapping kd ps) as [ps' [Hrun [Hkeys _]]].
    rewrite Hrun in H. cbn [bind] in H.
    destruct (incorrect (map fst ps)); injection H as _ <-; exact Hkeys.
Qed.

Lemma fetchOne_distinct (responses : list (option response))
    (reload debug : bool) (e e' : env) (m m' : infos) (k : jsstring) :
  (forall t v, jsyaml_load t = Parsed v -> NoDup (forInKeys v)) ->
  fetchOne responses reload debug e m k = Ok (e', m') ->
  exists i sc,
    lookup k m = Some i
    /\ m' = setOwn k (setShortcuts i sc) m
    /\ NoDup (forInKeys sc).
Proof.
  clear fetch getArgumentsFromString.
  intros parsed_distinct.
  unfold fetchOne. destruct (lookup k m) as [i|]; [|discriminate].
  assert (Hempty : NoDup (forInKeys emptyArray)) by constructor.
  destruct (responseOf responses i) as [r|];
    [|intros [= _ <-]; exists i, emptyArray; now repeat split].
  destruct (negb (Z.eqb (status r) 200));
    [intros [= _ <-]; exists i, emptyArray; now repeat split|].
  destruct (parseShortcutsFromYml (logSuccess e debug reload r) (text r) (url i))
    as [e2 sc] eqn:Hp.
  assert (Hsc : NoDup (forInKeys sc)).
  { unfold parseShortcutsFromYml in Hp.
    destruct (jsyaml_load (text r)) as [v|msg] eqn:Hv;
      injection Hp as _ <-; [now apply (parsed_distinct (text r))|assumption]. }
  destruct (verifyShortcuts e2 sc (name i)) as [[e3 sc']|] eqn:Hv;
    cbn [bind]; [|discriminate].
  intros [= _ <-]. exists i, sc'. split; [reflexivity|]. split; [reflexivity|].
  now rewrite (verifyShortcuts_keys _ _ _ _ _ Hv).
Qed.

Lemma fetchLoop_distinct (responses : list (option response))
    (reload debug : bool) (ks : list jsstring) :
  (forall t v, jsyaml_load t = Parsed v -> NoDup (forInKeys v)) ->
  forall e m e' m',
    (forall k i, lookup k m = Some i -> ~ In k ks ->
                 NoDup (forInKeys (shortcuts i))) ->
    fetchLoop ks responses reload debug e m = Ok (e', m') ->
    forall k i', lookup k m' = Some i' -> NoDup (forInKeys (shortcuts i')).
Proof.
  clear fetch getArgumentsFromString.
  intros parsed_distinct.
  induction ks as [|k0 ks IH]; intros e m e' m' Hdone H k i' Hk.
  - injection H as _ <-. apply (Hdone k i' Hk). intros [].
  - cbn [fetchLoop] in H.
    destruct (fetchOne responses reload debug e m k0) as [[e1 m1]|] eqn:E1;
      [|discriminate].
    cbn [bind] in H.
    destruct (fetchOne_distinct _ _ _ _ _ _ _ _ parsed_distinct E1)
      as [i [sc [Hi [-> Hsc]]]].
    refine (IH _ _ _ _ _ H k i' Hk).
    intros k1 i1 H1 Hn1. rewrite lookup_setOwn in H1.
    destruct (eqb_js k1 k0) eqn:E.
    + now injection H1 as <-.
    + apply (Hdone k1 i1 H1). intros [->|Hin]; [|contradiction].
      now rewrite eqb_js_refl in E.
Qed.

Lemma fetchShortcuts_distinct (e e1 : env) (nss : list namespace)
    (reload debug : bool) (m1 : infos) :
  (forall t v, jsyaml_load t = Parsed v -> NoDup (forInKeys v)) ->
  fetchShortcuts e nss reload debug = Ok (e1, m1) ->
  forall k i, lookup k m1 = Some i ->
    NoDup (forInKeys (shortcuts i))
    /\ exists i0, lookup k (getInitialNamespaceInfos e nss) = Some i0
                  /\ sameButShortcuts i0 i.
Proof.
  intros parsed_distinct H k i Hk. unfold fetchShortcuts, fetchShortcutsIn in H.
  destruct (promiseAll _ _) as [responses|]; [|discriminate].
  cbn [bind] in H. split.
  - refine (fetchLoop_distinct _ _ _ _ parsed_distinct _ _ _ _ _ H k i Hk).
    intros k0 i0 H0 Hn. exfalso. apply Hn. apply lookup_Some_iff. now exists i0.
  - destruct (fetchLoop_descriptor _ _ _ _ _ _ _ _ H k i Hk)
      as [i0 [sc [H0 ->]]].
    exists i0. split; [assumption|reflexivity].
Qed.


Lemma isSubscribed_positive (i : namespaceInfo) (p : Z) :
  priority i = Some p -> 0 < p -> isSubscribed i = true.
Proof.
  clear fetch jsyaml_load getArgumentsFromString.
  intros Hp Hpos. unfold isSubscribed. rewrite Hp.
  apply andb_true_iff. split.
  - apply negb_true_iff. apply Z.eqb_neq. lia.
  - apply Z.ltb_lt. lia.
Qed.

Lemma sameButShortcuts_priority (i i' : namespaceInfo) :
  sameButShortcuts i i' -> priority i' = priority i.
Proof.
  clear fetch jsyaml_load getArgumentsFromString.
  unfold sameButShortcuts. intros ->. reflexivity.
Qed.

(** ** The rounds of the job queue after [getNamespaceInfos] *)

Lemma resumeRound_state (tasks : list (jsstring * progress)) :
  forall e m, fst (resumeRound tasks e m) = resumeCallbacks tasks e m.
Proof.
  induction tasks as [|[o p] tasks IH]; intros e m; [reflexivity|].
  cbn [resumeRound resumeCallbacks].
  destruct p as [| |e0 m0 key rest ins]; try apply IH.
  destruct (isPresent ins m); [|apply IH].
  destruct (includeStep e o m key) as [[e1 m1]|]; [|apply IH].
  destruct (stateOf (runUntilAwait rest e1 o m1)) as [e2 m2].
  rewrite <- IH. now destruct (resumeRound tasks e2 m2) as [[e3 m3] later].
Qed.

Lemma getNamespaceInfosAfter_0 (e : env) (nss : list namespace)
    (reload debug : bool) :
  getNamespaceInfosAfter 0 e nss reload debug
  = getNamespaceInfos e nss reload debug.
Proof.
  unfold getNamespaceInfosAfter, getNamespaceInfos.
  destruct (fetchShortcuts e nss reload debug) as [[e1 m1]|]; [|reflexivity].
  cbn [bind]. destruct (startCallbacks (map fst m1) e1 m1) as [[e2 m2] tasks].
  rewrite <- resumeRound_state.
  now destruct (resumeRound tasks e2 m2) as [[e3 m3] suspended].
Qed.

Lemma resumeRounds_extends (n : nat) :
  forall tasks e m, extends e (fst (resumeRounds n tasks e m)).
Proof.
  induction n as [|n IH]; intros tasks e m; [apply extends_refl|].
  cbn [resumeRounds].
  pose proof (resumeCallbacks_extends tasks e m) as H1.
  rewrite <- resumeRound_state in H1.
  destruct (resumeRound tasks e m) as [[e1 m1] tasks1]. cbn [fst] in H1.
  eapply extends_trans; [exact H1|apply IH].
Qed.

(** X5: [getNamespaceInfos] leaves the settings of the environment
    ([github], [reload], [debug]) as they were, only appends to the log, and
    never lowers an error flag that was raised; and so do the callbacks it
    has started and not awaited, in every round of the job queue that
    follows its return.  The state after no further round is the one
    [getNamespaceInfos] returns. *)
Theorem getNamespaceInfos_only_appends (n : nat) (e e' : env)
    (namespaces : list namespace) (reload debug : bool) (m : infos) :
  getNamespaceInfosAfter n e namespaces reload debug = Ok (e', m) ->
  getNamespaceInfosAfter 0 e namespaces reload debug
  = getNamespaceInfos e namespaces reload debug
  /\ this_github e' = this_github e
  /\ this_reload e' = this_reload e
  /\ this_debug e' = this_debug e
  /\ (this_error e = true -> this_error e' = true)
  /\ exists added, this_log e' = this_log e ++ added.
Proof.
  intros H. split; [apply getNamespaceInfosAfter_0|].
  change (extends e e'). revert H. unfold getNamespaceInfosAfter.
  destruct (fetchShortcuts e namespaces reload debug) as [[e1 m1]|] eqn:Hf;
    [|discriminate].
  cbn [bind]. apply fetchShortcuts_extends in Hf.
  pose proof (startCallbacks_extends (map fst m1) e1 m1) as H2.
  destruct (startCallbacks (map fst m1) e1 m1) as [[e2 m2] tasks].
  cbn [fst] in H2.
  pose proof (resumeCallbacks_extends tasks e2 m2) as H3.
  rewrite <- resumeRound_state in H3.
  destruct (resumeRound tasks e2 m2) as [[e3 m3] suspended]. cbn [fst] in H3.
  destruct (addReachable m3) as [m4|]; [|discriminate].
  cbn [bind]. intros H.
  pose proof (resumeRounds_extends n suspended e3 m4) as H4.
  injection H as H. rewrite H in H4. cbn [fst] in H4.
  eapply extends_trans; [exact Hf|]. eapply extends_trans; [exact H2|].
  eapply extends_trans; eassumption.
Qed.

Lemma resumeRound_others (s : jsstring) (i : namespaceInfo)
    (tasks : list (jsstring * progress)) :
  forall e m,
    (forall task, In task tasks -> fst task = s -> settledTask task) ->
    lookup s m = Some i ->
    lookup s (snd (fst (resumeRound tasks e m))) = Some i
    /\ forall task, In task (snd (resumeRound tasks e m)) -> fst task <> s.
Proof.
  induction tasks as [|[o p] tasks IH]; intros e m Hset Hs.
  - split; [exact Hs|]. intros task [].
  - assert (Hrest : forall task, In task tasks -> fst task = s ->
                                 settledTask task)
      by (intros task Hin; apply Hset; now right).
    cbn [resumeRound]. destruct p as [| |e0 m0 key rest ins];
      try (now apply IH).
    assert (Hne : s <> o).
    { intros ->. exact (Hset _ (or_introl eq_refl) eq_refl). }
    destruct (isPresent ins m); [|now apply IH].
    destruct (includeStep e o m key) as [[e1 m1]|] eqn:E1; [|now apply IH].
    pose proof (includeStep_others _ _ _ _ _ _ E1 s i Hne Hs) as Hs1.
    destruct (runUntilAwait_shape o rest e1 m1) as [_ [O2 _]].
    specialize (O2 s i Hne Hs1).
    destruct (stateOf (runUntilAwait rest e1 o m1)) as [e2 m2].
    cbn [snd] in O2.
    destruct (IH e2 m2 Hrest O2) as [H1 H2].
    destruct (resumeRound tasks e2 m2) as [[e3 m3] later]. cbn [fst snd] in *.
    split; [exact H1|]. intros task [<-|Hin]; [cbn [fst]; congruence|].
    now apply H2.
Qed.

Lemma resumeRounds_others (s : jsstring) (i : namespaceInfo) (n : nat) :
  forall tasks e m,
    (forall task, In task tasks -> fst task <> s) ->
    lookup s m = Some i ->
    lookup s (snd (resumeRounds n tasks e m)) = Some i.
Proof.
  induction n as [|n IH]; intros tasks e m Hne Hs; [exact Hs|].
  cbn [resumeRounds].
  destruct (resumeRound_others s i tasks e m) as [H1 H2]; [|assumption|].
  { intros task Hin Heq. now destruct (Hne task Hin). }
  destruct (resumeRound tasks e m) as [[e1 m1] tasks1]. cbn [fst snd] in *.
  now apply IH.
Qed.

(** The callback of a namespace whose includes stay within it is not
    suspended by the [forEach]. *)
Lemma startCallbacks_settled (s : jsstring) (i : namespaceInfo)
    (owners : list jsstring) :
  forall e m,
    NoDup owners ->
    lookup s m = Some i ->
    localOnly (shortcuts i) = true ->
    NoDup (forInKeys (shortcuts i)) ->
    forall task, In task (snd (startCallbacks owners e m)) ->
                 fst task = s -> settledTask task.
Proof.
  induction owners as [|o owners IH]; intros e m Hnd Hs Hloc Hk task Hin Heq.
  - destruct Hin.
  - apply NoDup_cons_iff in Hnd. destruct Hnd as [Ho Hnd'].
    destruct (startCallbacks_shape owners
                (fst (stateOf match lookup o m with
                              | Some oi =>
                                  runUntilAwait (forInKeys (shortcuts oi)) e o m
                              | None => Rejected e m
                              end))
                (snd (stateOf match lookup o m with
                              | Some oi =>
                                  runUntilAwait (forInKeys (shortcuts oi)) e o m
                              | None => Rejected e m
                              end)) Hnd') as [_ [_ [_ K]]].
    cbn [startCallbacks] in Hin.
    set (p := match lookup o m with
              | Some oi => runUntilAwait (forInKeys (shortcuts oi)) e o m
              | None => Rejected e m
              end) in *.
    pose proof (IH (fst (stateOf p)) (snd (stateOf p)) Hnd') as IH'.
    destruct (stateOf p) as [e1 m1] eqn:Hst. cbn [fst snd] in *.
    destruct (startCallbacks owners e1 m1) as [[e2 m2] ps]. cbn [snd] in *.
    destruct Hin as [Hin|Hin].
    + assert (Hos : o = s) by (rewrite <- Hin in Heq; exact Heq).
      rewrite <- Hin. unfold settledTask. cbn [snd]. subst p. rewrite Hos, Hs.
      destruct (addIncludes_local e s m i Hs Hloc Hk) as [e' [m' [_ Hrun]]].
      now rewrite Hrun.
    + destruct (eqb_js o (fst task)) eqn:E.
      * apply eqb_js_eq in E. exfalso. apply Ho. rewrite E, <- K.
        now apply in_map.
      * apply eqb_js_neq in E. apply IH'; try assumption.
        assert (Hp : forall s0 i0, s0 <> o -> lookup s0 m = Some i0 ->
                       lookup s0 (snd (stateOf p)) = Some i0).
        { subst p. destruct (lookup o m) as [oi|]; [|now cbn].
          now destruct (runUntilAwait_shape o (forInKeys (shortcuts oi)) e m)
            as [_ [O _]]. }
        rewrite Hst in Hp. cbn [snd] in Hp. apply Hp; [congruence|assumption].
Qed.

(** X22: the namespace named in the query outranks the caller's list.
    [populate] appends it to the list, so its descriptor has the highest
    priority, and in the map [populate] returns every one of its shortcuts
    is marked reachable, whatever the namespaces of the list define (but
    for a key that is the name of a property of [Object.prototype], which
    is reachable nowhere).  This is for a namespace whose collection, as
    delivered, has no include that names another namespace: its callback
    is then not suspended, and the callbacks of the other namespaces that
    run after [getNamespaceInfos] has returned, in whatever round of the job
    queue, leave its descriptor as [populate] returned it.  The parser, as
    it does, returns mappings with distinct keys. *)
Theorem populate_extra_namespace_reachable (e e' : env)
    (nss : list namespace) (x : jsstring) (m' : infos) :
  (forall t v, jsyaml_load t = Parsed v -> NoDup (forInKeys v)) ->
  x <> [] ->
  (forall e1 m1 i,
     fetchShortcuts e (nss ++ [NsString x]) (this_reload e) (this_debug e)
     = Ok (e1, m1) ->
     lookup (nameOf e (NsString x)) m1 = Some i ->
     localOnly (shortcuts i) = true) ->
  populate e nss (Some x) = Ok (e', m') ->
  exists i',
    lookup (nameOf e (NsString x)) m' = Some i'
    /\ priority i' = Some (Z.of_nat (List.length nss) + 1)
    /\ (forall key,
          In key (forInKeys (shortcuts i')) ->
          inherited key = false ->
          markedReachable (entryOf m' (nameOf e (NsString x)) key))
    /\ forall n e'' m'',
         getNamespaceInfosAfter n e (nss ++ [NsString x]) (this_reload e)
           (this_debug e) = Ok (e'', m'') ->
         lookup (nameOf e (NsString x)) m'' = Some i'.
Proof.
  intros Hparse Hx Hlocal H. unfold populate in H.
  rewrite (truthyStr_cons x Hx) in H. cbn [toStr] in H.
  set (ns := NsString x) in *. set (xn := nameOf e ns) in *.
  set (nss' := nss ++ [ns]) in *.
  unfold getNamespaceInfosAfter in H |- *.
  destruct (fetchShortcuts e nss' (this_reload e) (this_debug e))
    as [[e1 m1]|] eqn:Hf; [|discriminate].
  cbn [bind] in H |- *.
  set (m0 := getInitialNamespaceInfos e nss').
  assert (K1 : map fst m1 = map fst m0) by exact (fetchShortcuts_keys _ _ _ _ _ _ Hf).
  assert (Hnd0 : NoDup (map fst m0)) by apply NoDup_initial.
  assert (Hnd1 : NoDup (map fst m1)) by now rewrite K1.
  assert (H0x : lookup xn m0 = Some (descriptorAt e (List.length nss) ns)).
  { unfold m0, nss', getInitialNamespaceInfos. rewrite initialEntries_split.
    cbn [initialEntries Nat.add]. apply lookup_fromEntries_last. intros []. }
  assert (Hx1 : exists i1x, lookup xn m1 = Some i1x).
  { apply lookup_Some_iff. rewrite K1. apply lookup_Some_iff. eauto. }
  destruct Hx1 as [i1x Hi1x].
  destruct (fetchShortcuts_distinct _ _ _ _ _ _ Hparse Hf xn i1x Hi1x)
    as [Hdist [i0 [Hi0 Hsame0]]].
  fold m0 in Hi0. rewrite H0x in Hi0. injection Hi0 as <-.
  assert (Hloc : localOnly (shortcuts i1x) = true).
  { apply (Hlocal e1 m1 i1x); [first [exact Hf|reflexivity]|exact Hi1x]. }
  pose proof (startCallbacks_settled xn i1x (map fst m1) e1 m1 Hnd1 Hi1x Hloc
                Hdist) as Hset.
  destruct (startCallbacks_shape (map fst m1) e1 m1 Hnd1)
    as [S12 [_ [P2 K2]]].
  destruct (startCallbacks (map fst m1) e1 m1) as [[e2 m2] tasks].
  cbn [fst snd] in S12, P2, K2, Hset.
  assert (S23 : sameShape m2 (snd (fst (resumeRound tasks e2 m2)))).
  { rewrite resumeRound_state.
    apply resumeCallbacks_shape; [now rewrite K2|exact P2]. }
  destruct (proj2 S12 xn i1x Hi1x) as [i2x [Hi2x _]].
  destruct (resumeRound_others xn i2x tasks e2 m2 Hset Hi2x) as [_ Hsusp].
  destruct (resumeRound tasks e2 m2) as [[e3 m3] suspended].
  cbn [fst snd] in S23, Hsusp.
  destruct (addReachable m3) as [m4|] eqn:Ha; [|discriminate].
  cbn [bind] in H. injection H as H.
  change (resumeRounds 1 suspended e3 m4 = (e', m')) in H. cbn [bind].
  pose proof (sameShape_trans _ _ _ S12 S23) as [K3 S13].
  assert (Hnd3 : NoDup (map fst m3)) by now rewrite K3.
  assert (Hall : forall nm i, In (nm, i) m3 ->
            NoDup (forInKeys (shortcuts i))
            /\ exists p, priority i = Some p
                         /\ 0 < p <= Z.of_nat (List.length nss) + 1
                         /\ (p = Z.of_nat (List.length nss) + 1 -> nm = xn)).
  { intros nm i Hin. apply (In_lookup _ _ _ Hnd3) in Hin.
    assert (Hnm : In nm (map fst m1)).
    { rewrite <- K3. apply lookup_Some_iff. now exists i. }
    apply lookup_Some_iff in Hnm. destruct Hnm as [i1 Hi1].
    destruct (S13 nm i1 Hi1) as [i3 [Hi3 [Hsame Hkeys]]].
    rewrite Hin in Hi3. injection Hi3 as <-.
    destruct (fetchShortcuts_distinct _ _ _ _ _ _ Hparse Hf nm i1 Hi1)
      as [Hd [i0 [Hi0 Hsame1]]].
    split; [now rewrite Hkeys|].
    apply lookup_In in Hi0. fold m0 in Hi0.
    destruct (initial_descriptor e nss' nm i0 Hi0) as [_ [_ [n0 [Hn0 Hp0]]]].
    exists (Z.of_nat n0 + 1).
    rewrite (sameButShortcuts_priority _ _ Hsame),
            (sameButShortcuts_priority _ _ Hsame1).
    split; [assumption|].
    unfold nss' in Hn0. rewrite length_app in Hn0. cbn [List.length] in Hn0.
    split; [lia|]. intros Heq.
    assert (Hkv : (nm, i0) = (xn, descriptorAt e (List.length nss) ns)).
    { apply (initial_priority_unique e nss'); [assumption| |].
      - apply lookup_In. exact H0x.
      - cbn [snd]. rewrite Hp0. cbn [priority descriptorAt withPriority].
        now rewrite Heq. }
    now injection Hkv as -> _. }
  destruct (S13 xn i1x Hi1x) as [i3x [Hi3x [Hsame3 _]]].
  assert (Hp3 : priority i3x = Some (Z.of_nat (List.length nss) + 1)).
  { now rewrite (sameButShortcuts_priority _ _ Hsame3),
                (sameButShortcuts_priority _ _ Hsame0). }
  assert (Hsub3 : isSubscribed i3x = true)
    by (apply (isSubscribed_positive _ _ Hp3); lia).
  assert (Hkeys3 : forall nm i, In (nm, i) m3 ->
                                NoDup (forInKeys (shortcuts i)))
    by (intros nm i Hin; now destruct (Hall nm i Hin)).
  pose proof (addReachable_annotated m3 m4 Hnd3 Hkeys3 Ha) as Hann.
  assert (Hdesc : descending (sortByPriority m3)).
  { apply sortByPriority_descending. intros [nm i] Hin.
    destruct (Hall nm i Hin) as [_ [p [Hp _]]]. cbn [snd]. congruence. }
  unfold addReachable in Ha.
  destruct (reachNamespaces_shape (sortByPriority m3) m3 inheritedNames m4)
    as [_ Hshape]; try assumption.
  { eapply Permutation_NoDup; [|exact Hnd3]. apply Permutation_map.
    apply Permutation_sym, sortByPriority_perm. }
  { intros nm i Hin. apply In_lookup; [assumption|].
    now apply In_sortByPriority. }
  { intros nm i Hin. apply (Hkeys3 nm). now apply In_sortByPriority. }
  destruct (Hshape xn i3x (lookup_sorted _ _ _ Hi3x)) as [sc' [Hl4 Hk4]].
  assert (Hl' : lookup xn m' = Some (setShortcuts i3x sc')).
  { pose proof (resumeRounds_others xn _ 1 suspended e3 m4 Hsusp Hl4) as Hl.
    now rewrite H in Hl. }
  exists (setShortcuts i3x sc'). split; [exact Hl'|]. split; [exact Hp3|].
  split.
  - cbn [shortcuts setShortcuts]. rewrite Hk4. intros key Hkey Hinh.
    assert (He : entryOf m' xn key = entryOf m4 xn key)
      by (unfold entryOf; now rewrite Hl', Hl4).
    rewrite He.
    destruct (annotated_exists _ _ _ xn i3x key Hann (lookup_sorted _ _ _ Hi3x)
                Hsub3 Hkey Hinh) as [nm1 [i1 [Hin1 [Hsub1 Hreach]]]].
    destruct (Hall nm1 i1 (proj1 (In_sortByPriority _ _) Hin1))
      as [_ [p1 [Hp1 [Hbound Htop]]]].
    pose proof (annotated_highest _ _ _ nm1 i1 xn i3x key p1 _ Hann Hdesc Hin1
                  Hsub1 Hreach (lookup_sorted _ _ _ Hi3x) Hsub3 Hkey Hp1 Hp3)
      as Hle.
    assert (nm1 = xn) by (apply Htop; lia). now subst nm1.
  - intros n e'' m'' Hn. injection Hn as Hn.
    pose proof (resumeRounds_others xn _ n suspended e3 m4 Hsusp Hl4) as Hl.
    now rewrite Hn in Hl.
Qed.

End Fetching.

(** * The statements on the sample sessions *)

Lemma getInitalNamespaceInfo_classification_witness :
  getInitalNamespaceInfo sampleEnv (NsString (js "o"))
  = mkInfo (Some (js "o")) (Some (js "site")) (Some (siteUrl "o")) None None
      VUndef
  /\ getInitalNamespaceInfo sampleEnv (NsString (js "abcd"))
     = mkInfo (Some (js "abcd")) (Some (js "user")) (Some (githubUrl "abcd"))
         (Some (js "abcd")) None VUndef
  /\ getInitalNamespaceInfo sampleEnv
       (NsObject (mkInfo None None None (Some (js ".")) None VUndef))
     = mkInfo (Some (js "me")) (Some (js "user")) (Some (githubUrl "me"))
         (Some (js "me")) None VUndef.
Proof.
  destruct (getInitalNamespaceInfo_classification sampleEnv)
    as [Hsite [_ [Hstring Hobject]]].
  split; [|split].
  - apply (Hsite (js "o")). vm_compute. lia.
  - apply (Hstring (js "abcd")). vm_compute. lia.
  - apply (Hobject (mkInfo None None None (Some (js ".")) None VUndef)).
    reflexivity.
Defined.

(** The tags [user-url] and [user-github] are not written by the code: a
    custom-url spec and a Github spec are both tagged [user]. *)
Lemma getInitalNamespaceInfo_type_counterexample :
  type (getInitalNamespaceInfo sampleEnv
          (NsObject (mkInfo (Some (js "mine")) None (Some (js "http://u"))
                       None None VUndef)))
  <> Some (js "user-url")
  /\ type (getInitalNamespaceInfo sampleEnv (NsString (js "abcd")))
     <> Some (js "user-github").
Proof. split; vm_compute; discriminate. Qed.

(** A key without argument count stays in the mapping that
    [verifyShortcuts] returns, and a key with the wildcard marker is
    reported. *)
Lemma verifyShortcuts_counterexample :
  exists e' sc',
    verifyShortcuts sampleEnv docKeys (Some (js "o")) = Ok (e', sc')
    /\ In (js "bad") (forInKeys sc')
    /\ matchKey (js "w *") = false
    /\ this_log e'
       = [incorrectKeysMessage (Some (js "o")) [js "bad"; js "w *"]].
Proof.
  eexists _, _. split; [vm_compute; reflexivity|].
  split; [vm_compute; tauto|]. split; reflexivity.
Qed.

(** C3, at the list [o], [xyz] when the request for [xyz] is rejected and
    the one for [o] is answered with status 200: the rejection is not
    caught, [fetchShortcuts] as a whole is rejected and no namespace
    resolves. *)
Theorem fetchShortcuts_rejected_request :
  fetchRejecting (siteUrl "o") false = Some (mkResponse 200 (siteUrl "o") (js "O"))
  /\ fetchShortcuts fetchRejecting (sampleParser docKeys docAccount) sampleEnv
       [NsString (js "o"); NsString (js "xyz")] false false
     = Throw.
Proof. split; vm_compute; reflexivity. Qed.

(** With every request answered 404 no namespace is resolvable, and
    [populate] returns a snapshot all the same. *)
Lemma populate_counterexample :
  populate fetchNotFound (sampleParser docKeys docAccount) noArguments
    sampleEnv [NsString (js "o")] None
  = Ok (sampleEnv,
        [(js "o", mkInfo (Some (js "o")) (Some (js "site")) (Some (siteUrl "o"))
                    None (Some 1) emptyArray)]).
Proof. vm_compute. reflexivity. Qed.

(** The field [title], set by both entries, has the value of the include
    target after the merge, not the including entry's own. *)
Lemma include_precedence_counterexample :
  exists e' m',
    addIncludes sampleFetch (sampleParser docKeys docAccount) sampleEnv
      (js "o") [site "o" 1 docTitles] = Ok (e', m')
    /\ fieldOf [site "o" 1 docTitles] (js "o") (js "y 0") (js "title")
       = Some (str "Y")
    /\ fieldOf m' (js "o") (js "y 0") (js "title") = Some (str "X").
Proof. eexists _, _. repeat split; vm_compute; reflexivity. Qed.

(** A second pass changes an entry whose include target carries an include
    of its own: [y 0] has no title after the first pass and the title of
    [z 0] after the second. *)
Lemma addIncludes_idempotence_counterexample :
  exists e1 m1 e2 m2,
    addIncludes sampleFetch (sampleParser docKeys docAccount) sampleEnv
      (js "o") [site "o" 1 docChain] = Ok (e1, m1)
    /\ addIncludes sampleFetch (sampleParser docKeys docAccount) e1
         (js "o") m1 = Ok (e2, m2)
    /\ fieldOf m1 (js "o") (js "y 0") (js "title") = None
    /\ fieldOf m2 (js "o") (js "y 0") (js "title") = Some (str "Z").
Proof. eexists _, _, _, _. repeat split; vm_compute; reflexivity. Qed.

Lemma sampleFetch_answers (u : jsstring) (reload : bool) :
  sampleFetch u reload <> None.
Proof.
  unfold sampleFetch. destruct (eqb_js u (siteUrl "o")); [discriminate|].
  destruct (eqb_js u (githubUrl "abcd")); discriminate.
Qed.

Lemma sampleParser_mapping (t : jsstring) (v : value) :
  sampleParser docKeys docAccount t = Parsed v -> isString v = false.
Proof.
  unfold sampleParser. destruct (eqb_js t (js "O")); [now intros [= <-]|].
  destruct (eqb_js t (js "A")); [now intros [= <-]|discriminate].
Qed.

Lemma fetchShortcuts_completion_order_witness :
  fetchShortcutsIn sampleFetch (sampleParser docKeys docAccount)
    [0; 1; 2]%nat sampleEnv sampleAccounts false false
  = fetchShortcutsIn sampleFetch (sampleParser docKeys docAccount)
      [2; 0; 1]%nat sampleEnv sampleAccounts false false.
Proof.
  pose proof (fetchShortcuts_completion_order sampleFetch
                (sampleParser docKeys docAccount) sampleEnv sampleAccounts
                false false [0; 1; 2]%nat [2; 0; 1]%nat) as H.
  cbv zeta in H. apply H.
  - vm_compute. reflexivity.
  - apply Permutation_refl.
  - apply (Permutation_cons_app [0; 1]%nat [] 2%nat). apply Permutation_refl.
Defined.

Lemma fetchShortcuts_degrades_locally_witness :
  exists e' m',
    fetchShortcuts sampleFetch (sampleParser docKeys docAccount) sampleEnv
      [NsString (js "o"); NsString (js "zzz")] false false = Ok (e', m')
    /\ map fst m' = [js "o"; js "zzz"].
Proof.
  pose proof (fetchShortcuts_degrades_locally sampleFetch
                (sampleParser docKeys docAccount) sampleEnv
                [NsString (js "o"); NsString (js "zzz")] false false) as H.
  cbv zeta in H. destruct H as [e' [m' [Hrun [Hkeys _]]]].
  - vm_compute. reflexivity.
  - intros k i _. apply sampleFetch_answers.
  - apply sampleParser_mapping.
  - exists e', m'. split; [exact Hrun|]. rewrite Hkeys. reflexivity.
Defined.

Lemma populate_without_collections_witness :
  exists e' m',
    populate fetchNotFound (sampleParser docKeys docAccount) noArguments
      sampleEnv sampleAccounts None = Ok (e', m')
    /\ forall k i, In (k, i) m' -> shortcuts i = emptyArray.
Proof.
  destruct (populate_without_collections fetchNotFound
              (sampleParser docKeys docAccount) noArguments sampleEnv
              sampleAccounts None) as [e' [m' [Hrun [Hall _]]]].
  - vm_compute. reflexivity.
  - intros u. exists (mkResponse 404 u []). split; [reflexivity|].
    simpl. discriminate.
  - exists e', m'. split; assumption.
Defined.

Lemma include_of_absent_target_witness :
  includeStep sampleFetch (sampleParser docKeys docAccount) sampleEnv (js "o")
    [site "o" 1 docDangling] (js "y 0")
  = Ok (sampleEnv, [site "o" 1 docDangling])
  /\ exists e',
      includeStep fetchNotFound (sampleParser docKeys docAccount) sampleEnv
        (js "o") [site "o" 1 docRemote] (js "y 0")
      = Ok (e', setOwn (js "abcd")
                  (setShortcuts (onDemand sampleEnv (js "abcd")) emptyArray)
                  [site "o" 1 docRemote]).
Proof.
  split.
  - destruct (include_of_absent_target sampleFetch
                (sampleParser docKeys docAccount) sampleEnv (js "o")
                [site "o" 1 docDangling] (js "y 0") (siteInfo "o" 1 docDangling)
                Plain Plain (ownEnumerable docDangling)
                [field "include" (entry [field "key" (str "x 0")]);
                 field "title" (str "Y")]
                (str "x 0") eq_refl eq_refl eq_refl eq_refl) as [Hlocal _].
    apply Hlocal; reflexivity.
  - destruct (include_of_absent_target fetchNotFound
                (sampleParser docKeys docAccount) sampleEnv (js "o")
                [site "o" 1 docRemote] (js "y 0") (siteInfo "o" 1 docRemote)
                Plain Plain (ownEnumerable docRemote)
                [field "include" (entry [field "key" (str "x 0");
                                         field "namespace" (str "abcd")]);
                 field "title" (str "Y")]
                (str "x 0") eq_refl eq_refl eq_refl eq_refl)
      as [_ [_ Hdemand]].
    destruct (Hdemand (js "abcd")
                (mkResponse 404 (githubUrl "abcd") [])) as [e' [Hrun _]].
    + reflexivity.
    + reflexivity.
    + reflexivity.
    + reflexivity.
    + left. simpl. discriminate.
    + exists e'. exact Hrun.
Defined.

(** C9: the source does not do what the claim says.  The entry [y 0] of the
    collection [o] includes the key [x 0] of a namespace that is not in the
    map.  When the request for that namespace is answered with status 404,
    include resolution returns, the namespace enters the map with an empty
    shortcut set and the collection [o] is as it was: so far the claim.
    When the request is rejected instead, include resolution throws; and so
    it does when the namespace delivers an empty document, which parses to
    [undefined], and when the namespace is called [constructor], a name the
    map inherits. *)
Theorem addIncludes_failed_on_demand :
  (exists e',
      addIncludes fetchNotFound (sampleParser docKeys docAccount) sampleEnv
        (js "o") [site "o" 1 docUnreachable]
      = Ok (e', setOwn (js "xyz")
                  (setShortcuts (onDemand sampleEnv (js "xyz")) emptyArray)
                  [site "o" 1 docUnreachable]))
  /\ addIncludes fetchRejecting (sampleParser docKeys docAccount) sampleEnv
       (js "o") [site "o" 1 docUnreachable] = Throw
  /\ addIncludes sampleFetch (sampleParser docKeys VUndef) sampleEnv
       (js "o") [site "o" 1 docRemote] = Throw
  /\ addIncludes sampleFetch (sampleParser docKeys docAccount) sampleEnv
       (js "o") [site "o" 1 docInherited] = Throw.
Proof.
  split; [|repeat split; vm_compute; reflexivity].
  eexists. vm_compute. reflexivity.
Qed.

Lemma include_merge_precedence_witness :
  fieldOf
    (snd (okOr (sampleEnv, [])
            (includeStep sampleFetch (sampleParser docKeys docAccount)
               sampleEnv (js "o") [site "o" 1 docTitles] (js "y 0"))))
    (js "o") (js "y 0") (js "title")
  = Some (str "X").
Proof.
  destruct (include_merge_precedence sampleFetch
              (sampleParser docKeys docAccount) sampleEnv (js "o")
              [site "o" 1 docTitles] (js "y 0") (siteInfo "o" 1 docTitles)
              Plain Plain (ownEnumerable docTitles)
              [field "include" (entry [field "key" (str "x 0")]);
               field "title" (str "Y")]
              (Local (str "x 0")) sampleEnv
              (snd (okOr (sampleEnv, [])
                      (includeStep sampleFetch
                         (sampleParser docKeys docAccount) sampleEnv (js "o")
                         [site "o" 1 docTitles] (js "y 0"))))
              eq_refl eq_refl eq_refl eq_refl eq_refl)
    as [source [Hsource [_ Hfields]]].
  - vm_compute. reflexivity.
  - vm_compute in Hsource. injection Hsource as <-.
    rewrite Hfields.
    + reflexivity.
    + apply distinctKeys_NoDup. reflexivity.
Defined.

Lemma sampleStack_keys (nm : jsstring) (i : namespaceInfo) :
  In (nm, i) sampleStack -> NoDup (forInKeys (shortcuts i)).
Proof.
  intros [[= <- <-]|[[= <- <-]|[[= <- <-]|[]]]];
    apply distinctKeys_NoDup; reflexivity.
Qed.

Lemma addReachable_one_per_key_witness :
  (exists kd fields b,
      entryOf (okOr [] (addReachable noArguments sampleStack)) (js "p")
        (js "x 0") = Some (VObj kd fields)
      /\ lookup reachableKey fields = Some (VBool b))
  /\ lookup (js "q") (okOr [] (addReachable noArguments sampleStack))
     = lookup (js "q") sampleStack.
Proof.
  destruct (addReachable_one_per_key noArguments sampleStack
              (okOr [] (addReachable noArguments sampleStack)))
    as [_ [_ [Hskip Hflag]]].
  - apply distinctKeys_NoDup. reflexivity.
  - apply sampleStack_keys.
  - vm_compute. reflexivity.
  - split.
    + apply (Hflag (js "p") (snd (site "p" 2
               (entry [field "x 0" (entry [field "url" (str "http://p")])])))).
      * reflexivity.
      * reflexivity.
      * left. reflexivity.
    + erewrite Hskip; [reflexivity|reflexivity|reflexivity].
Defined.

(** On the sample stack the entry of [p], the namespace of highest
    priority, is the reachable one for [x 0]; the entry of [o] is not, and
    the unsubscribed [q] keeps the flag its document carries. *)
Example addReachable_sample :
  let m' := okOr [] (addReachable noArguments sampleStack) in
  fieldOf m' (js "p") (js "x 0") reachableKey = Some (VBool true)
  /\ fieldOf m' (js "o") (js "x 0") reachableKey = Some (VBool false)
  /\ fieldOf m' (js "o") (js "y 0") reachableKey = Some (VBool true)
  /\ lookup (js "q") m' = lookup (js "q") sampleStack.
Proof. vm_compute. repeat split; reflexivity. Qed.

(** C10, at the session whose only namespace [o] holds an entry including
    [x 0] of the account [abcd]: [getShortcutFromNamespace], awaited, does
    put [abcd] into the shared map with priority 1, a subscribed descriptor;
    but [getNamespaceInfos] does not await its callbacks, so [addReachable]
    runs while the request for [abcd] is pending.  The map it annotates and
    returns holds no [abcd], and the including entry is annotated before
    anything is merged into it. *)
Theorem getNamespaceInfos_onDemand_unannotated :
  (exists e1 m1,
      addIncludes sampleFetch (sampleParser docRemote docAccount) sampleEnv
        (js "o") [site "o" 1 docRemote] = Ok (e1, m1)
      /\ option_map priority (lookup (js "abcd") m1) = Some (Some 1)
      /\ option_map isSubscribed (lookup (js "abcd") m1) = Some true
      /\ fieldOf m1 (js "o") (js "y 0") (js "url") = Some (str "http://ax"))
  /\ exists e' m',
      getNamespaceInfos sampleFetch (sampleParser docRemote docAccount)
        noArguments sampleEnv [NsString (js "o")] false false = Ok (e', m')
      /\ lookup (js "abcd") m' = None
      /\ fieldOf m' (js "o") (js "y 0") reachableKey = Some (VBool true)
      /\ fieldOf m' (js "o") (js "y 0") (js "url") = None.
Proof.
  split.
  - eexists _, _. repeat split; vm_compute; reflexivity.
  - eexists _, _. repeat split; vm_compute; reflexivity.
Qed.

Lemma addIncludes_idempotent_witness :
  exists e2,
    addIncludes sampleFetch (sampleParser docKeys docAccount) sampleEnv (js "o")
      (snd (okOr (sampleEnv, [])
              (addIncludes sampleFetch (sampleParser docKeys docAccount)
                 sampleEnv (js "o") [site "o" 1 docTitles])))
    = Ok (e2, snd (okOr (sampleEnv, [])
                     (addIncludes sampleFetch (sampleParser docKeys docAccount)
                        sampleEnv (js "o") [site "o" 1 docTitles]))).
Proof.
  apply (addIncludes_idempotent sampleFetch (sampleParser docKeys docAccount)
           sampleEnv (js "o") [site "o" 1 docTitles] (siteInfo "o" 1 docTitles)
           Plain (ownEnumerable docTitles) sampleEnv).
  - reflexivity.
  - reflexivity.
  - apply distinctKeys_NoDup. reflexivity.
  - vm_compute. reflexivity.
  - vm_compute. reflexivity.
Defined.

(** The same holds when the include source is in a namespace fetched on
    demand: the first pass fetches [abcd] and merges its [x 0], the second
    finds [abcd] in the map and changes nothing. *)
Example addIncludes_idempotent_on_demand :
  exists e1 m1 e2,
    addIncludes sampleFetch (sampleParser docRemote docAccount) sampleEnv
      (js "o") [site "o" 1 docRemote] = Ok (e1, m1)
    /\ sourcesPlain sampleFetch (sampleParser docRemote docAccount)
         (forInKeys docRemote) sampleEnv (js "o") [site "o" 1 docRemote] = true
    /\ addIncludes sampleFetch (sampleParser docRemote docAccount) e1 (js "o")
         m1 = Ok (e2, m1).
Proof. eexists _, _, _. repeat split; vm_compute; reflexivity. Qed.

(** * Further statements on the sample sessions *)

Lemma getInitialNamespaceInfos_descriptors_witness :
  exists n ns,
    nth_error sampleAccounts n = Some ns
    /\ priority (descriptorAt sampleEnv 1 (NsString (js "abcd")))
       = Some (Z.of_nat n + 1).
Proof.
  destruct (getInitialNamespaceInfos_descriptors sampleEnv sampleAccounts
              (js "abcd") (descriptorAt sampleEnv 1 (NsString (js "abcd"))))
    as [n [ns [Hn [_ [_ [Hp _]]]]]].
  - right. left. reflexivity.
  - exists n, ns. split; assumption.
Defined.

Lemma getInitialNamespaceInfos_ranking_witness :
  NoDup (map fst (getInitialNamespaceInfos sampleEnv sampleAccounts)).
Proof.
  exact (proj1 (getInitialNamespaceInfos_ranking sampleEnv sampleAccounts)).
Defined.

Lemma getInitialNamespaceInfos_last_wins_witness :
  lookup (js "o")
    (getInitialNamespaceInfos sampleEnv
       [NsString (js "o"); NsString (js "o"); NsString (js "abcd")])
  = Some (descriptorAt sampleEnv 1 (NsString (js "o"))).
Proof.
  apply (getInitialNamespaceInfos_last_wins sampleEnv [NsString (js "o")]
           [NsString (js "abcd")] (NsString (js "o"))).
  intros ns' [<-|[]]. vm_compute. discriminate.
Defined.

Lemma getInitialNamespaceInfos_names_witness :
  In (js "abcd") (map fst (getInitialNamespaceInfos sampleEnv sampleAccounts)).
Proof.
  apply (proj2 (getInitialNamespaceInfos_names sampleEnv sampleAccounts
                  (js "abcd"))).
  exists (NsString (js "abcd")). split; [right; left; reflexivity|reflexivity].
Defined.

Lemma getNamespaceInfos_only_appends_witness :
  this_github
    (fst (okOr (sampleEnv, [])
            (getNamespaceInfosAfter sampleFetch
               (sampleParser docTwice docAccount) noArguments 1 sampleEnv
               sampleAccounts false false)))
  = this_github sampleEnv.
Proof.
  destruct (getNamespaceInfos_only_appends sampleFetch
              (sampleParser docTwice docAccount) noArguments 1 sampleEnv
              (fst (okOr (sampleEnv, [])
                      (getNamespaceInfosAfter sampleFetch
                         (sampleParser docTwice docAccount) noArguments 1
                         sampleEnv sampleAccounts false false)))
              sampleAccounts false false
              (snd (okOr (sampleEnv, [])
                      (getNamespaceInfosAfter sampleFetch
                         (sampleParser docTwice docAccount) noArguments 1
                         sampleEnv sampleAccounts false false))))
    as [_ [Hg _]].
  - vm_compute. reflexivity.
  - exact Hg.
Defined.

Lemma addIncludes_only_appends_witness :
  exists added,
    this_log
      (fst (okOr (sampleEnv, [])
              (addIncludes sampleFetch (sampleParser docKeys docAccount)
                 sampleEnv (js "o") [site "o" 1 docTitles])))
    = this_log sampleEnv ++ added.
Proof.
  destruct (addIncludes_only_appends sampleFetch
              (sampleParser docKeys docAccount) sampleEnv
              (fst (okOr (sampleEnv, [])
                      (addIncludes sampleFetch
                         (sampleParser docKeys docAccount) sampleEnv (js "o")
                         [site "o" 1 docTitles])))
              (js "o") [site "o" 1 docTitles]
              (snd (okOr (sampleEnv, [])
                      (addIncludes sampleFetch
                         (sampleParser docKeys docAccount) sampleEnv (js "o")
                         [site "o" 1 docTitles]))))
    as [_ [_ [_ [_ Hlog]]]].
  - vm_compute. reflexivity.
  - exact Hlog.
Defined.

Lemma fetchShortcuts_fails_exactly_when_witness :
  fetchShortcuts fetchRejecting (sampleParser docKeys docAccount) sampleEnv
    [NsString (js "o"); NsString (js "xyz")] false false
  = Throw.
Proof.
  apply (proj2 (fetchShortcuts_fails_exactly_when fetchRejecting
                  (sampleParser docKeys docAccount) sampleEnv
                  [NsString (js "o"); NsString (js "xyz")] false false
                  ltac:(vm_compute; reflexivity))).
  exists (js "xyz"), (descriptorAt sampleEnv 1 (NsString (js "xyz"))).
  split; [right; left; reflexivity|left; vm_compute; reflexivity].
Defined.

Lemma fetchShortcuts_error_flag_witness :
  this_error
    (fst (okOr (sampleEnv, [])
            (fetchShortcuts sampleFetch (sampleParser docKeys docAccount)
               sampleEnv [NsString (js "o")] false false)))
  = true.
Proof.
  apply (proj2 (fetchShortcuts_error_flag sampleFetch
                  (sampleParser docKeys docAccount) sampleEnv
                  (fst (okOr (sampleEnv, [])
                          (fetchShortcuts sampleFetch
                             (sampleParser docKeys docAccount) sampleEnv
                             [NsString (js "o")] false false)))
                  [NsString (js "o")] false false
                  (snd (okOr (sampleEnv, [])
                          (fetchShortcuts sampleFetch
                             (sampleParser docKeys docAccount) sampleEnv
                             [NsString (js "o")] false false)))
                  ltac:(vm_compute; reflexivity)
                  ltac:(vm_compute; reflexivity))).
  right. exists (js "o"), (descriptorAt sampleEnv 0 (NsString (js "o"))),
    (mkResponse 200 (siteUrl "o") (js "O")).
  split; [left; reflexivity|]. split; vm_compute; reflexivity.
Defined.

Lemma addIncludes_touches_only_includes_witness :
  lookup (js "p")
    (snd (okOr (sampleEnv, [])
            (addIncludes sampleFetch (sampleParser docKeys docAccount)
               sampleEnv (js "o") samplePair)))
  = Some (siteInfo "p" 2 docAccount).
Proof.
  destruct (addIncludes_touches_only_includes sampleFetch
              (sampleParser docKeys docAccount) sampleEnv
              (fst (okOr (sampleEnv, [])
                      (addIncludes sampleFetch
                         (sampleParser docKeys docAccount) sampleEnv (js "o")
                         samplePair)))
              (js "o") samplePair
              (snd (okOr (sampleEnv, [])
                      (addIncludes sampleFetch
                         (sampleParser docKeys docAccount) sampleEnv (js "o")
                         samplePair)))
              (siteInfo "o" 1 docTitles) Plain (ownEnumerable docTitles))
    as [Hframe _].
  - reflexivity.
  - reflexivity.
  - vm_compute. reflexivity.
  - apply Hframe; [vm_compute; discriminate|reflexivity].
Defined.

Lemma addIncludes_added_namespaces_witness :
  option_map priority
    (lookup (js "abcd")
       (snd (okOr (sampleEnv, [])
               (addIncludes sampleFetch (sampleParser docRemote docAccount)
                  sampleEnv (js "o") [site "o" 1 docRemote]))))
  = Some (Some 1).
Proof.
  destruct (lookup (js "abcd")
              (snd (okOr (sampleEnv, [])
                      (addIncludes sampleFetch
                         (sampleParser docRemote docAccount) sampleEnv
                         (js "o") [site "o" 1 docRemote])))) as [i|] eqn:Hi;
    [|vm_compute in Hi; discriminate].
  destruct (addIncludes_added_namespaces sampleFetch
              (sampleParser docRemote docAccount) sampleEnv
              (fst (okOr (sampleEnv, [])
                      (addIncludes sampleFetch
                         (sampleParser docRemote docAccount) sampleEnv
                         (js "o") [site "o" 1 docRemote])))
              (js "o") [site "o" 1 docRemote]
              (snd (okOr (sampleEnv, [])
                      (addIncludes sampleFetch
                         (sampleParser docRemote docAccount) sampleEnv
                         (js "o") [site "o" 1 docRemote])))
              (siteInfo "o" 1 docRemote) Plain (ownEnumerable docRemote)
              (js "abcd") i) as [_ [Hp _]].
  - reflexivity.
  - reflexivity.
  - vm_compute. reflexivity.
  - reflexivity.
  - exact Hi.
  - cbn [option_map]. now rewrite Hp.
Defined.

Lemma addIncludes_null_entry_witness :
  addIncludes sampleFetch (sampleParser docKeys docAccount) sampleEnv (js "o")
    sampleNull
  = Throw.
Proof.
  apply (addIncludes_null_entry sampleFetch (sampleParser docKeys docAccount)
           sampleEnv (js "o") sampleNull
           (siteInfo "o" 1 (entry [field "x 0" VNull])) Plain
           [field "x 0" VNull] (js "x 0")); reflexivity.
Defined.

Lemma addReachable_primitive_entry_witness :
  addReachable noArguments sampleNull = Throw.
Proof.
  apply (addReachable_primitive_entry noArguments sampleNull (js "o")
           (siteInfo "o" 1 (entry [field "x 0" VNull])) Plain
           [field "x 0" VNull] (js "x 0") VNull).
  - left. reflexivity.
  - reflexivity.
  - reflexivity.
  - reflexivity.
  - discriminate.
Defined.


Lemma addInfoToShortcut_reads_key_witness :
  exists fields,
    addInfoToShortcut noArguments (entry [field "url" (str "http://p")])
      (js "x 0") (siteInfo "p" 2 VUndef)
    = Ok (VObj Plain fields)
    /\ lookup (js "keyword") fields = Some (str "x")
    /\ lookup (js "argumentCount") fields = Some (str "0").
Proof.
  destruct (addInfoToShortcut_reads_key noArguments Plain
              [field "url" (str "http://p")] (js "x 0") (js "x") (js "0")
              (siteInfo "p" 2 VUndef)
              (okOr VUndef
                 (addInfoToShortcut noArguments
                    (entry [field "url" (str "http://p")]) (js "x 0")
                    (siteInfo "p" 2 VUndef))))
    as [fields [Hs [Hkey _]]].
  - vm_compute. intros [H|[]]. discriminate.
  - vm_compute. intros [H|[]]. discriminate.
  - vm_compute. reflexivity.
  - exists fields. destruct (Hkey eq_refl) as [H1 H2].
    split; [|split; assumption].
    rewrite <- Hs. vm_compute. reflexivity.
Defined.

Lemma addReachable_every_key_reachable_witness :
  exists nm1 i1,
    lookup nm1 sampleStack = Some i1
    /\ markedReachable
         (entryOf (okOr [] (addReachable noArguments sampleStack)) nm1
            (js "x 0")).
Proof.
  assert (Hnd : NoDup (map fst sampleStack))
    by (apply distinctKeys_NoDup; reflexivity).
  assert (Hkeys : forall nm i, In (nm, i) sampleStack ->
                               NoDup (forInKeys (shortcuts i))).
  { intros nm i [[= <- <-]|[[= <- <-]|[[= <- <-]|[]]]];
      apply distinctKeys_NoDup; reflexivity. }
  pose proof (addReachable_every_key_reachable noArguments sampleStack
                (okOr [] (addReachable noArguments sampleStack)) (js "o")
                (snd (site "o" 1
                        (entry [field "x 0" (entry [field "url" (str "http://o")]);
                                field "y 0" (entry [field "url" (str "http://y")])])))
                (js "x 0") Hnd Hkeys eq_refl eq_refl eq_refl
                (or_introl eq_refl)) as H.
  change (inherited (js "x 0")) with false in H. cbv iota in H.
  destruct H as [nm1 [i1 [Hl [_ [_ Hr]]]]].
  exists nm1, i1. split; assumption.
Defined.

Lemma addReachable_keeps_shape_witness :
  map fst (okOr [] (addReachable noArguments sampleStack))
  = map fst sampleStack.
Proof.
  destruct (addReachable_keeps_shape noArguments sampleStack
              (okOr [] (addReachable noArguments sampleStack)))
    as [Hkeys _].
  - apply distinctKeys_NoDup. reflexivity.
  - intros nm i [[= <- <-]|[[= <- <-]|[[= <- <-]|[]]]];
      apply distinctKeys_NoDup; reflexivity.
  - vm_compute. reflexivity.
  - exact Hkeys.
Defined.

Lemma verifyShortcuts_silent_iff_witness :
  fst (okOr (sampleEnv, VUndef)
         (verifyShortcuts sampleEnv docAccount (Some (js "abcd"))))
  = sampleEnv.
Proof.
  apply (proj2 (verifyShortcuts_silent_iff sampleEnv
                  (fst (okOr (sampleEnv, VUndef)
                          (verifyShortcuts sampleEnv docAccount
                             (Some (js "abcd")))))
                  Plain (ownEnumerable docAccount) (Some (js "abcd"))
                  (snd (okOr (sampleEnv, VUndef)
                          (verifyShortcuts sampleEnv docAccount
                             (Some (js "abcd")))))
                  ltac:(vm_compute; reflexivity))).
  intros k [<-|[]]. exists [], 120%N, 48%N, []. repeat split.
Defined.

Lemma verifyShortcuts_second_pass_witness :
  exists e2,
    verifyShortcuts
      (fst (okOr (sampleEnv, VUndef)
              (verifyShortcuts sampleEnv docKeys (Some (js "o")))))
      (snd (okOr (sampleEnv, VUndef)
              (verifyShortcuts sampleEnv docKeys (Some (js "o")))))
      (Some (js "o"))
    = Ok (e2, snd (okOr (sampleEnv, VUndef)
                     (verifyShortcuts sampleEnv docKeys (Some (js "o"))))).
Proof.
  destruct (verifyShortcuts_second_pass sampleEnv
              (fst (okOr (sampleEnv, VUndef)
                      (verifyShortcuts sampleEnv docKeys (Some (js "o")))))
              docKeys
              (snd (okOr (sampleEnv, VUndef)
                      (verifyShortcuts sampleEnv docKeys (Some (js "o")))))
              (Some (js "o"))) as [e2 [H _]].
  - vm_compute. reflexivity.
  - exists e2. exact H.
Defined.

Lemma getParams_account_or_locale_witness :
  hasKey (js "github") (getParams [field "github" (str "me")]) = true
  /\ hasKey (js "language") (getParams [field "github" (str "me")]) = false.
Proof.
  pose proof (getParams_account_or_locale [field "github" (str "me")]) as H.
  cbv zeta in H. destruct H as [Hg [Hl _]]. split.
  - rewrite Hg. reflexivity.
  - rewrite Hl. reflexivity.
Defined.

Lemma getDefaultLanguageAndCountry_cases_witness :
  getDefaultLanguageAndCountry sampleCollaborators = Ok (str "de", str "at")
  /\ getDefaultLanguageAndCountry sampleLookup = Ok (str "de", str "ch").
Proof.
  split.
  - destruct (getDefaultLanguageAndCountry_cases sampleCollaborators)
      as [Hq _].
    apply (Hq (js "de") (js "AT")); try reflexivity; try discriminate;
      vm_compute; intros [H|[H|[]]]; discriminate.
  - destruct (getDefaultLanguageAndCountry_cases sampleLookup)
      as [_ Hu].
    destruct Hu as [_ [_ [Hs _]]].
    + vm_compute. intros [H|[H|[]]]; discriminate.
    + apply (Hs (js "CH")); [reflexivity|discriminate].
Defined.

Lemma setDefaults_settles_witness :
  isString (fieldValue (okOr [] (setDefaults sampleCollaborators construct))
              "language") = true
  /\ fieldValue (okOr [] (setDefaults sampleCollaborators construct)) "debug"
     = VBool false.
Proof.
  destruct (setDefaults_settles sampleCollaborators construct
              (okOr [] (setDefaults sampleCollaborators construct)))
    as [Hl [_ [_ [Hd _]]]].
  - vm_compute. reflexivity.
  - split; [exact Hl|exact Hd].
Defined.

Lemma setDefaults_given_locale_witness :
  setDefaults sampleCollaborators sampleLocale
  = setDefaults sampleLookup sampleLocale.
Proof.
  destruct (setDefaults_given_locale sampleCollaborators sampleLookup
              sampleLocale) as [H _].
  - reflexivity.
  - reflexivity.
  - exact H.
Defined.

Lemma setDefaults_default_namespaces_witness :
  lookup (js ".at")
    (getInitialNamespaceInfos sampleEnv
       [NsString (js "o"); NsString (js "de"); NsString (js ".at")])
  = Some (withPriority 3 (addFetchUrlToSiteNamespace (js ".at"))).
Proof.
  pose proof (setDefaults_default_namespaces sampleCollaborators sampleEnv
                construct (okOr [] (setDefaults sampleCollaborators construct))
                (js "de") (js "at")) as H.
  cbv zeta in H. destruct H as [_ H].
  - vm_compute. reflexivity.
  - reflexivity.
  - reflexivity.
  - reflexivity.
  - destruct H as [_ [_ [Hsite _]]].
    + discriminate.
    + discriminate.
    + vm_compute. lia.
    + apply Hsite. vm_compute. lia.
Defined.

Lemma setWithUserConfigFromGithub_outcomes_witness :
  setWithUserConfigFromGithub (sampleParser docKeys docAccount)
    sampleCollaborators sampleSession (VObj Plain [field "github" (str "me")])
  = Ok (report
          (js "Failed to read Github config from https://raw.githubusercontent.com/me/trovu-data-user/master/config.yml")
          sampleSession).
Proof.
  pose proof (setWithUserConfigFromGithub_outcomes
                (sampleParser docKeys docAccount) sampleCollaborators
                sampleSession Plain [field "github" (str "me")] (js "me")) as H.
  cbv zeta in H. destruct H as [_ [Hnone _]].
  - reflexivity.
  - reflexivity.
  - vm_compute. intros [H|[H|[]]]; discriminate.
  - apply (Hnone None); reflexivity.
Defined.

Lemma populateSettings_precedence_witness :
  lookup (js "query")
    (this (okOr sampleSession
             (populateSettings (sampleParser docKeys docAccount)
                sampleCollaborators sampleSession sampleParams)))
  = Some (str "g foo").
Proof.
  destruct (populateSettings_precedence (sampleParser docKeys docAccount)
              sampleCollaborators sampleSession
              (okOr sampleSession
                 (populateSettings (sampleParser docKeys docAccount)
                    sampleCollaborators sampleSession sampleParams))
              sampleParams)
    as [st1 [q [_ [_ [Hq [_ Hf]]]]]].
  - reflexivity.
  - apply distinctKeys_NoDup. reflexivity.
  - intros v q [= <-]. constructor.
  - vm_compute. reflexivity.
  - rewrite Hf by reflexivity. injection Hq as <-. reflexivity.
Defined.

Lemma splitOnce_first_occurrence_witness :
  splitOnce (js "g foo bar") (js " ") = [str "g"; str "foo bar"].
Proof.
  pose proof (proj2 (splitOnce_first_occurrence (js "g foo bar") (js " ")))
    as H.
  assert (Hd : js " " <> []) by discriminate.
  specialize (H Hd).
  destruct (indexOf (js " ") [] (js "g foo bar")) as [[a b]|] eqn:E;
    vm_compute in E; [|discriminate].
  injection E as <- <-. exact (proj1 H).
Defined.

Lemma getSearchParameters_last_wins_witness :
  lookup (js "a") (transformToAssocArray (js "a=1&b&a=2")) = Some (str "2").
Proof.
  pose proof (getSearchParameters_last_wins 63%N
                [(js "a", Some (js "1")); (js "b", None);
                 (js "a", Some (js "2"))] (js "a")) as H.
  cbv zeta in H. destruct H as [H _].
  - discriminate.
  - intros kv [<-|[<-|[<-|[]]]]; unfold plainParameter; cbn [fst snd];
      (split; [|split]); try (intros v [= <-]; split); try (intros v [=]);
      vm_compute; intros [H|[]]; discriminate.
  - vm_compute. discriminate.
  - exact H.
Defined.

Lemma buildFetchUrl_plain_witness :
  buildFetchUrl (str "g") (VNum 1)
  = js "https://raw.githubusercontent.com/trovu/trovu/master/shortcuts/o/g/1.call.json".
Proof.
  apply (buildFetchUrl_plain (js "g") (VNum 1));
    [| |reflexivity|]; vm_compute; intros [H|[]]; discriminate.
Defined.

Lemma getNamespaceInfos_local_includes_witness :
  fieldOf
    (snd (okOr (sampleEnv, [])
            (getNamespaceInfos sampleFetch (sampleParser docTitles docAccount)
               noArguments sampleEnv [NsString (js "o")] false false)))
    (js "o") (js "y 0") (js "url")
  = Some (str "http://x").
Proof.
  rewrite (getNamespaceInfos_local_includes sampleFetch
             (sampleParser docTitles docAccount) noArguments sampleEnv
             (fst (okOr (sampleEnv, [])
                     (fetchShortcuts sampleFetch
                        (sampleParser docTitles docAccount) sampleEnv
                        [NsString (js "o")] false false)))
             [NsString (js "o")] false false
             (snd (okOr (sampleEnv, [])
                     (fetchShortcuts sampleFetch
                        (sampleParser docTitles docAccount) sampleEnv
                        [NsString (js "o")] false false)))).
  - vm_compute. reflexivity.
  - vm_compute. reflexivity.
  - intros k i H. vm_compute in H. destruct H as [[= <- <-]|[]].
    split; [vm_compute; reflexivity|apply distinctKeys_NoDup; reflexivity].
Defined.

Lemma sampleParser_distinct (t : jsstring) (v : value) :
  sampleParser docKeys docAccount t = Parsed v -> NoDup (forInKeys v).
Proof.
  unfold sampleParser. destruct (eqb_js t (js "O")).
  - intros [= <-]. apply distinctKeys_NoDup. reflexivity.
  - destruct (eqb_js t (js "A")); [|discriminate].
    intros [= <-]. apply distinctKeys_NoDup. reflexivity.
Qed.

Lemma populate_extra_namespace_reachable_witness :
  markedReachable
    (entryOf
       (snd (okOr (sampleEnv, [])
               (populate sampleFetch (sampleParser docKeys docAccount)
                  noArguments sampleEnv [NsString (js "o")]
                  (Some (js "abcd")))))
       (js "abcd") (js "x 0")).
Proof.
  destruct (populate_extra_namespace_reachable sampleFetch
              (sampleParser docKeys docAccount) noArguments sampleEnv
              (fst (okOr (sampleEnv, [])
                      (populate sampleFetch (sampleParser docKeys docAccount)
                         noArguments sampleEnv [NsString (js "o")]
                         (Some (js "abcd")))))
              [NsString (js "o")] (js "abcd")
              (snd (okOr (sampleEnv, [])
                      (populate sampleFetch (sampleParser docKeys docAccount)
                         noArguments sampleEnv [NsString (js "o")]
                         (Some (js "abcd"))))))
    as [i' [Hl [_ [Hr _]]]].
  - apply sampleParser_distinct.
  - discriminate.
  - intros e1 m1 i H1 H2. vm_compute in H1. injection H1 as _ <-.
    vm_compute in H2. injection H2 as <-. reflexivity.
  - vm_compute. reflexivity.
  - vm_compute in Hl. injection Hl as <-.
    apply Hr; [left|]; reflexivity.
Defined.

(** On the sample session the entry of the namespace named in the query is
    the reachable one, and the entry of the caller's namespace for the same
    key is not. *)
Example populate_extra_sample :
  let m' := snd (okOr (sampleEnv, [])
               (populate sampleFetch (sampleParser docKeys docAccount)
                  noArguments sampleEnv [NsString (js "o")]
                  (Some (js "abcd")))) in
  fieldOf m' (js "abcd") (js "x 0") reachableKey = Some (VBool true)
  /\ fieldOf m' (js "o") (js "x 0") reachableKey = Some (VBool false).
Proof. vm_compute. split; reflexivity. Qed.

(** A callback that waits a second time for a namespace of the map takes
    that turn after [addReachable]: when [getNamespaceInfos] returns, [z 0]
    has not received the fields of its include; one round later it has,
    and with them the [key] that the annotator wrote into the entry it
    includes.  That is the map [populate] stores. *)
Example later_round_sample :
  let after n :=
    snd (okOr (sampleEnv, [])
           (getNamespaceInfosAfter sampleFetch
              (sampleParser docTwice docAccount) noArguments n sampleEnv
              sampleAccounts false false)) in
  fieldOf (after 0%nat) (js "o") (js "z 0") (js "url") = None
  /\ fieldOf (after 0%nat) (js "o") (js "z 0") (js "key") = Some (str "z 0")
  /\ fieldOf (after 1%nat) (js "o") (js "z 0") (js "url")
     = Some (str "http://ax")
  /\ fieldOf (after 1%nat) (js "o") (js "z 0") (js "key") = Some (str "x 0").
Proof. vm_compute. repeat split; reflexivity. Qed.
